(* ===== verification/_CoqProject ===== *)
-Q . S2P
Prelude.v
GoNum.v
GoFloat.v
GoRound.v
SyncState.v
Heartbeat.v
Controller.v
RoomSync.v
RoomSyncEvolution.v
RoomSyncRuns.v
RoomSyncElection.v
RoomSyncTheorems.v
Errors.v
GoString.v
GoRegexp.v
Ids.v
GoUnicode.v
GoTime.v
GoBase64.v
Store.v
Transactions.v
Isolation.v
RoomDomain.v
Outbox.v
Web.v
WebServer.v
Rbac.v
FeatureFlag.v
RoomRepo.v
RoomService.v
RoomServiceInv.v
RoomServiceTheorems.v
RoomIsolation.v
RoomIsolationTheorems.v
RoomClient.v
SyncService.v
SyncServiceTheorems.v
Kafka.v
Playback.v
Media.v
MediaTheorems.v
MediaIsolation.v
Duration.v
Provider.v
ProviderTheorems.v
AuthDomain.v
Auth.v
Register.v
OAuth.v
Crypto.v
CryptoTheorems.v
JwksCache.v
RedisLock.v
Delivery.v
Relays.v
SigningKeys.v
AuthRuns.v
AuthDemo.v
AuthIsolation.v
AuthIsolationTheorems.v
AuthFrames.v
AuthSteps.v
AccountSteps.v
KeySteps.v
KeyTheorems.v
AuthTheorems.v
AccountTheorems.v
OAuthProviders.v
RegisterTheorems.v
UserService.v
UserTheorems.v
PlaybackFollows.v
RoomFollows.v
Startup.v
Observability.v
Config.v
ServiceConfig.v
Wiring.v
TestClients.v
