(* ===== verification/Prelude.v ===== *)
(** * VibeSync: a verification development

    VibeSync plays media in step for the members of a room.  It is a set of Go
    services under [src/apps] that share the libraries of [src/libs], talk to
    each other by RPC and by events on Kafka, keep their data in Postgres and
    small shared facts in Redis.  This library models the services' own logic
    as executable definitions and proves what makes it correct.

    ** The parts of the program and the files that model them

    _The language._  [GoNum] has the machine integers, [time.Time] (nanoseconds)
    and [time.Duration]; [GoFloat] is [float64], on the standard library's
    [SpecFloat], and [GoRound] its rounding on scaled integers; [GoString] is
    the byte level of strings, [GoUnicode] UTF-8 and letter case, [GoRegexp]
    regular expressions, [GoTime] dates and RFC 3339, [GoBase64] base64.  This
    file has the result and panic monads, the [vibe] hint database, tactics and
    lemmas on lists the components share.

    _Synchronisation_ ([apps/sync-service]).  [SyncState] is
    [internal/domain/state.go] (the authoritative state, [AdvanceMediaTime],
    [ApplyCommand]), [Heartbeat] is [heartbeat.go], [Controller] is
    [controller.go].  [RoomSync] is [internal/app/room_sync.go]: every method
    of the per-room actor as one atomic step (the mutex), with its channels,
    its ring buffer and the order of map iteration and the clock as a runtime.
    [RoomSyncEvolution] says what any method does to a room, [RoomSyncRuns]
    makes the methods the labels of a transition system,
    [RoomSyncElection] is the election of hosts and [RoomSyncTheorems] has the
    theorems.  [SyncService] is [service.go] and [handlers.go] with the
    checkpoint repository; [SyncServiceTheorems] its theorems.

    _Shared libraries._  [Errors] is [libs/errors]; [Ids] is [libs/id]; [Store]
    is the transaction helper every service repeats ([withTx]) and the world it
    runs in, [Transactions] the same with panics, [InTx] of [libs/store] and the
    runner of the user service; [Isolation] runs many transactions at once at
    READ COMMITTED, which [BeginTx] of every [pool.go] gives them; [Web] is the callers, CORS and interceptors of
    [libs/web] and [libs/rpc], [WebServer] the engine, its middleware and the
    mux; [Rbac] is [libs/rbac]; [FeatureFlag] is [libs/featureflag];
    [Observability] is [libs/log], [libs/telemetry] and [libs/observability].

    _Events._  [Outbox] is the outbox writer and the draining of its rows;
    [RedisLock] the lock of the relays, presence and rate limits as interleaved
    Redis commands; [Delivery] the loop of a relay and the wire format;
    [Relays] the four copies of the relay, each with its own publisher, outbox
    statements, drain and loop; [Kafka] is [libs/kafka] and the consumer loop,
    whose fetch, handling and commit are separate steps with crashes between them.

    _Rooms_ ([apps/room-service]).  [RoomDomain] is [internal/domain],
    [RoomRepo] the tables and statements of [internal/infra/postgres],
    [RoomService] the handlers of [internal/app], [RoomServiceInv] the
    invariant of the tables and [RoomServiceTheorems] the theorems.
    [RoomIsolation] has the same transactions statement by statement, with the
    row locks they take, and [RoomIsolationTheorems] what holds when they
    overlap.  [RoomClient] is the permission port: the class the sync and media services
    are written against, and the room service behind it.

    _Playback_ ([apps/playback-service]) is [Playback]; _media_
    ([apps/media-service]) is [Media] with [MediaTheorems], and [MediaIsolation]
    for requests that overlap; _users_
    ([apps/user-service]) are [UserService] with [UserTheorems]; _providers_
    ([apps/provider-service]) are [Duration] and [Provider] with
    [ProviderTheorems].

    _Authentication_ ([apps/auth-service]).  [AuthDomain] is the data; [Auth]
    log-in, rotation and log-out; [Register] registration; [OAuth] the flows,
    links and provider tokens, and [OAuthProviders] the clients behind their
    port; [SigningKeys] the keys, the signer and introspection; [Crypto] with
    [CryptoTheorems] the password hashes and the key encryption behind theirs;
    [JwksCache] the key set cache as the interleaving of its atomic actions.
    [AuthRuns] makes the requests the labels of a run, [AuthFrames] says what
    they leave alone, [AuthSteps], [AccountSteps] and [KeySteps] what they do to
    sessions and tokens, to users and links, and to keys; [AuthTheorems],
    [AccountTheorems], [KeyTheorems] and [RegisterTheorems] have the theorems,
    [AuthDemo] a small world for their witnesses.  [AuthIsolation] and
    [AuthIsolationTheorems] are about requests that overlap.

    _Processes._  [Startup] is [run] of the seven services as a trace of
    effects; [Config] the loader of [libs/config] over Viper's documented calls
    and [ServiceConfig] what every service loads; [Wiring] that the services find
    one another with it.

    _Compositions._  [PlaybackFollows] carries a room's snapshot through outbox,
    relay and broker to the cache of the playback service; [RoomFollows] carries
    the creation of a room to the live room its owner commands; [UserTheorems]
    relates the read model to the auth service's users.

    _Test clients_ ([apps/test-clients]).  [TestClients] is the seeder over the
    auth database, the command loop of the host and the heartbeats of the
    listener, against the services' own definitions.

    ** How state and effects correspond

    A Go function that returns [(A, error)] is a [res error A].  Code that can
    panic is a state transformer whose [None] is the panic ([PM]).  A use case
    over Postgres is an [SM]: it has the database and a counter of interactions
    with the outside, and an [Env] answers each interaction: the context may
    be cancelled, a statement may fail and abort the transaction, a commit may
    fail, also after the server applied it, and clocks, ids and random bytes
    are whatever the environment says.  [Calm] environments are those where
    nothing fails.  Tables are finite maps by primary key, with the unique
    keys, foreign keys, cascades and column ranges of the migrations written
    out in the statements.  Each transaction of an [SM] is one step; [Isolation]
    runs the same transactions statement by statement in any order, at the
    isolation level the services ask for, and its trees are tied to the [SM]s by
    equations ([serial], the [_agrees] lemmas, [alone_serial]).  Where the code
    itself is concurrent outside a mutex or a transaction (the key set cache, the
    Redis locks), its atomic actions are the steps of a transition system.  Enumerations whose wire values are converted
    without a check are integers.

    ** What the theorems show

    - Playback time: within an epoch the position never runs backwards; it is
      accurate to 1.25 ms and exact at rate 1; commands keep it continuous;
      the state invariant holds for every command, unknown kinds included.
    - Fencing: after a host migration, and in the playback service after a
      newer command, stale commands are rejected and change nothing, whatever
      interleaves.
    - The room actor: no reachable operation panics, buffers stay bounded,
      epochs and tokens never go back, the ring buffer refines the history of
      frames, the election is correct for every iteration order, snapshots do
      not depend on it, heartbeats do not move the clock.
    - Rooms: for every sequence of requests and every failure the tables stay
      consistent; everything that changes was changed by someone entitled to,
      with the system role and the unexpired invite code a join needs; joins and
      grants behave as specified.
    - Commands and restarts: an accepted command comes from the host, the owner
      or a user with the matching grant in the room service's database; when
      nothing fails a restart resumes from the last checkpoint.
    - Queues: the rows of the queue table refine one list per room, whatever
      fails; entitled requests succeed.
    - Tokens: the log-in, rotation and log-out code is a state machine in which
      a family has one usable token and a used token is refused for ever; the
      outcome of presenting a token on every branch; issued tokens work.
    - Accounts: users, links and their events stay consistent for every
      sequence of requests; a link never moves; the state of an OAuth flow is
      used once, a log-in is of the user linked to the identity its provider
      reported and, for a code with a challenge, bound to the holder of the
      verifier; what registration answers and every row it stores.
    - Keys: at most one signing key is active and none is lost; a token is
      accepted until it expires across rotations and restarts.  A stored hash
      accepts the password that was hashed, and nothing but an encryption
      decrypts.  Calls of the key set cache return under every schedule.
    - Overlapping requests: for every interleaving of statements with waits,
      deadlocks and failures anywhere, the room tables stay consistent and the
      queues dense as long as the requests the code does not separate do not
      overlap, and a spent token or OAuth state is refused to every request that
      begins later.  Examples show what each excluded overlap does: a room over
      its capacity, a wrong count, a token rotated twice, a queue with a gap.
    - Users and providers: the read model follows the users when events arrive
      at least once in any order; a profile is changed only for its user or an
      administrator; a resolution never changes once answered, by clients that
      answer for the reference they are asked for.
    - Delivery: transactions are all or nothing, panics included; at most
      one relay leads while no key expires between the GET and the DEL of a
      release; a relay loses no event and publishes all of them once it leads
      often enough; its four copies are one machine; a committed offset stands
      after a message that was handled, and every message below it was given to
      the handler, wherever the process crashes; redeliveries are dropped; what a
      consumer sees determines its key.
    - Compositions: the cache of the playback service has the fields of the room
      that the snapshot it handled carries; a created room becomes live with its owner, whose
      commands are accepted.
    - Processes: every service becomes ready exactly when its mandatory steps
      succeed, with the tasks its configuration allows, and closes what it
      opened in the opposite order; a setting that has a default is the
      variable, else the overlay, else the base file, else the default, the
      database and Redis passwords come from the environment, and with the
      defaults alone every consumer reads the topic its producer stages to.
    - Test clients: the seeded accounts log in, the host's commands are accepted
      in a room that never migrated (and never in one that did), the listener
      reports the server's own position while the room plays.

    Several files end with a section on where the code differs from its
    comments or documents, each difference with a proof or an evaluated
    example.

    ** Bounds and fuel

    Loops over lists are structural.  Fuel occurs in [GoString] ([trimWith]),
    [GoUnicode] ([runesOf]) and [RoomDomain] ([slugBody]), where it is the
    number of bytes of the input and every round consumes at least one
    ([trimWith_done], [runesOf_ascii]); in [Duration] ([decimalDigits]) and
    [SigningKeys] ([bigBytes]), where every round divides the number and the
    fuel is its number of bits ([decimalDigits_value], [bigBytes_value]); and in
    the walk over pages of [RoomServiceTheorems].  The runs of relays, of
    consumers and of the auth service are over given lists of turns or requests.
    The key set cache has no fuel: its termination is a theorem.  Integers keep
    the width of their Go types wherever the code converts or adds at a width
    ([int8] to [uint64], [SMALLINT], [INTEGER] and [BIGINT] columns).

    ** What is not modelled

    Drivers and network clients (Postgres, Redis, Kafka, the HTTP client) and
    the interfaces that describe them; generated protocol code; the test helpers
    and [libs/storage], which have no logic of the services; the frontend.  Viper, the OpenTelemetry SDK, Gin, the ULID, OAuth 2 and JOSE
    libraries, Argon2, AES-GCM and RSA are parameters with their documented laws
    where the theorems need any; so are JSON decoding below the fields,
    Postgres's name search, e-mail comparison and the order in which an update
    visits rows.  Not modelled either are the construction of a service's objects
    in [run] beyond what it opens and spawns, and the migrations.  Overlapping
    transactions are modelled for the requests of the room, auth and media
    services whose outcome the overlap can change; registration, the upsert of an
    OAuth log-in, provider tokens, key rotation and the projections of events run
    one after the other.  Ids are taken
    to fit their columns of 26 characters, except in the checkpoint table, whose
    limit and padding are written out.  The copies of the Kafka writer in the
    media and sync services, and of their [Append] to the outbox, repeat those of
    the room and auth services, which are modelled. *)

From stdpp Require Export prelude gmap strings sorting.
From Stdlib Require Export ZArith Lia.

#[global] Set Default Goal Selector "!".
Open Scope Z_scope.

(** ** Results: Go's [(value, error)] pairs *)

(** A Go function that returns [(A, error)] is a [res E A]: the caller of the
    source never uses the value when the error is non-nil. *)
Inductive res (E A : Type) : Type :=
| Ok (a : A)
| Err (e : E).
Arguments Ok {E A} _.
Arguments Err {E A} _.

Definition res_bind {E A B} (r : res E A) (k : A -> res E B) : res E B :=
  match r with
  | Ok a => k a
  | Err e => Err e
  end.

Definition is_Ok {E A} (r : res E A) : bool :=
  match r with Ok _ => true | Err _ => false end.

(** ** Code that can panic: explicit state passing with [None] for a panic *)

Definition PM (S A : Type) : Type := S -> option (A * S).

Definition pret {S A} (a : A) : PM S A := fun s => Some (a, s).
Definition pbind {S A B} (m : PM S A) (k : A -> PM S B) : PM S B :=
  fun s => match m s with
           | Some (a, s') => k a s'
           | None => None
           end.
Definition pget {S A} (f : S -> A) : PM S A := fun s => Some (f s, s).
Definition pmod {S} (f : S -> S) : PM S unit := fun s => Some (tt, f s).
Definition pskip {S} : PM S unit := pret tt.

Declare Scope go_scope.
Delimit Scope go_scope with go.

Notation "x <-! m ;; k" := (pbind m (fun x => k))
  (at level 100, m at next level, right associativity) : go_scope.
Notation "m ;;! k" := (pbind m (fun _ => k))
  (at level 100, right associativity) : go_scope.

Create HintDb vibe.

(** Running a bind, when the first computation is known not to panic. *)
Lemma pbind_Some {S A B} (m : PM S A) (k : A -> PM S B) s a s' :
  m s = Some (a, s') -> pbind m k s = k a s'.
Proof. by unfold pbind; intros ->. Qed.

(** ** Tactics *)

(** Case analysis on every [match], [if] and [decide] of the goal. *)
Ltac go_cases := repeat (case_match || case_decide); simplify_eq/=.

(** Boolean tests of the source, turned into the propositions they decide. *)
Ltac go_bool :=
  repeat match goal with
  | H : (_ <? _) = true |- _ => apply Z.ltb_lt in H
  | H : (_ <? _) = false |- _ => apply Z.ltb_ge in H
  | H : (_ <=? _) = true |- _ => apply Z.leb_le in H
  | H : (_ <=? _) = false |- _ => apply Z.leb_gt in H
  | H : (_ =? _)%Z = true |- _ => apply Z.eqb_eq in H
  | H : (_ =? _)%Z = false |- _ => apply Z.eqb_neq in H
  | H : bool_decide _ = true |- _ => apply bool_decide_eq_true in H
  | H : bool_decide _ = false |- _ => apply bool_decide_eq_false in H
  | H : andb _ _ = true |- _ => apply andb_prop in H as [? ?]
  | H : negb _ = true |- _ => apply negb_true_iff in H
  | H : negb _ = false |- _ => apply negb_false_iff in H
  end.

(** ** The last [n] elements of a list *)

Definition lastn {A} (n : nat) (l : list A) : list A := drop (length l - n) l.

Section lastn.
Context {A : Type}.
Implicit Types l : list A.

Lemma lastn_length n l : length (lastn n l) = Nat.min n (length l).
Proof. unfold lastn. rewrite length_drop. lia. Qed.

Lemma lastn_all n l : (length l <= n)%nat -> lastn n l = l.
Proof. intros. unfold lastn. by replace (length l - n)%nat with 0%nat by lia. Qed.

Lemma lastn_suffix n l : exists l', l = l' ++ lastn n l.
Proof. exists (take (length l - n) l). symmetry. apply take_drop. Qed.

Lemma lastn_app_lastn n l1 l2 : lastn n (lastn n l1 ++ l2) = lastn n (l1 ++ l2).
Proof.
  unfold lastn. rewrite !length_app, length_drop.
  destruct (decide (length l1 <= n)%nat).
  { by replace (length l1 - n)%nat with 0%nat by lia; rewrite drop_0, Nat.sub_0_r. }
  destruct (decide (length l2 <= n)%nat).
  - rewrite !drop_app_le; [|lia|rewrite length_drop; lia].
    rewrite drop_drop. do 2 f_equal. lia.
  - rewrite !drop_app_ge; [|lia|rewrite length_drop; lia].
    f_equal. rewrite length_drop. lia.
Qed.
End lastn.

(** ** Filters that keep everything or nothing *)

Section filter.
Context {A : Type} (P : A -> Prop) `{!forall x, Decision (P x)}.

Lemma filter_all l : Forall P l -> filter P l = l.
Proof. induction 1; [done|]. rewrite filter_cons_True by done. by f_equal. Qed.

Lemma filter_none l : Forall (fun x => ~ P x) l -> filter P l = [].
Proof. induction 1; [done|]. by rewrite filter_cons_False. Qed.
End filter.

(** ** Computations that cannot panic *)

(** [m] runs to completion from every state that satisfies [P], and keeps [P]. *)
Definition safe {S A} (P : S -> Prop) (m : PM S A) : Prop :=
  forall s, P s -> exists a s', m s = Some (a, s') /\ P s'.

Section safe.
Context {S : Type} (P : S -> Prop).

Lemma safe_ret {A} (a : A) : safe P (pret a).
Proof. intros s Hs. by exists a, s. Qed.

Lemma safe_bind {A B} (m : PM S A) (k : A -> PM S B) :
  safe P m -> (forall a, safe P (k a)) -> safe P (pbind m k).
Proof.
  intros Hm Hk s Hs. destruct (Hm s Hs) as (a & s' & E & Hs').
  destruct (Hk a s' Hs') as (b & s'' & E' & Hs''). exists b, s''.
  by rewrite (pbind_Some _ _ _ _ _ E).
Qed.

Lemma safe_get {A} (f : S -> A) : safe P (pget f).
Proof. intros s Hs. by exists (f s), s. Qed.

Lemma safe_mod (f : S -> S) : (forall s, P s -> P (f s)) -> safe P (pmod f).
Proof. intros Hf s Hs. exists tt, (f s). split; [done|auto]. Qed.

Lemma safe_if {A} (b : bool) (m1 m2 : PM S A) :
  safe P m1 -> safe P m2 -> safe P (if b then m1 else m2).
Proof. by destruct b. Qed.
End safe.

#[export] Hint Resolve safe_ret safe_get safe_if : vibe.
