(* ===== verification/GoNum.v ===== *)
(** * Go's fixed-width integers and [time.Time]

    Integers are [Z] kept in the range of their Go type; every operation of
    the source that can wrap is written with the wrap-around functions below.
    A [time.Time] is its distance from the Unix epoch in nanoseconds (an
    unbounded [Z]: Go's range of years is larger than any reading), a
    [time.Duration] an [int64] number of nanoseconds. *)

From S2P Require Import Prelude.

(** ** Widths *)

Definition uwrap (w : Z) (z : Z) : Z := z mod 2 ^ w.
Definition swrap (w : Z) (z : Z) : Z := (z + 2 ^ (w - 1)) mod 2 ^ w - 2 ^ (w - 1).

Definition uint64 : Z -> Z := uwrap 64.
Definition uint32 : Z -> Z := uwrap 32.
Definition uint16 : Z -> Z := uwrap 16.
Definition int64 : Z -> Z := swrap 64.
Definition int32 : Z -> Z := swrap 32.
Definition int16 : Z -> Z := swrap 16.
Definition int8 : Z -> Z := swrap 8.

Definition in_u (w z : Z) : Prop := 0 <= z < 2 ^ w.
Definition in_s (w z : Z) : Prop := - 2 ^ (w - 1) <= z < 2 ^ (w - 1).

Definition MaxInt32 : Z := 2147483647.

#[global] Instance in_u_dec w z : Decision (in_u w z).
Proof. unfold in_u. apply _. Defined.
#[global] Instance in_s_dec w z : Decision (in_s w z).
Proof. unfold in_s. apply _. Defined.

Section widths.
Context (w : Z) (Hw : 0 < w).

Lemma pow_half : 2 ^ w = 2 * 2 ^ (w - 1).
Proof using Hw.
  replace w with (1 + (w - 1)) at 1 by lia.
  by rewrite Z.pow_add_r by lia.
Qed.

Lemma half_pos : 0 < 2 ^ (w - 1).
Proof using Hw. apply Z.pow_pos_nonneg; lia. Qed.

Lemma uwrap_range z : in_u w (uwrap w z).
Proof using Hw. unfold in_u, uwrap. apply Z.mod_pos_bound. pose proof pow_half. pose proof half_pos. lia. Qed.

Lemma uwrap_id z : in_u w z -> uwrap w z = z.
Proof using Hw. intros [??]. unfold uwrap. by apply Z.mod_small. Qed.

Lemma swrap_range z : in_s w (swrap w z).
Proof using Hw.
  unfold in_s, swrap. pose proof pow_half. pose proof half_pos.
  pose proof (Z.mod_pos_bound (z + 2 ^ (w - 1)) (2 ^ w)). lia.
Qed.

Lemma swrap_id z : in_s w z -> swrap w z = z.
Proof using Hw.
  intros [??]. unfold swrap. pose proof pow_half. pose proof half_pos.
  rewrite Z.mod_small; lia.
Qed.
End widths.

#[export] Hint Resolve uwrap_range swrap_range : vibe.

Lemma int64_id z : in_s 64 z -> int64 z = z.
Proof. apply swrap_id; lia. Qed.
Lemma uint64_id z : in_u 64 z -> uint64 z = z.
Proof. apply uwrap_id; lia. Qed.

(** A [uint64] survives a [BIGINT] column. *)
Lemma uint64_int64 z : in_u 64 z -> uint64 (int64 z) = z.
Proof.
  intros Hz. unfold uint64, int64, uwrap, swrap, in_u in *.
  rewrite Zminus_mod_idemp_l. replace (z + 2 ^ (64 - 1) - 2 ^ (64 - 1)) with z by lia.
  by apply Z.mod_small.
Qed.

(** Go's [++] on a [uint64]. *)
Definition incr64 (z : Z) : Z := uint64 (z + 1).

Lemma incr64_succ z : 0 <= z < 2 ^ 64 - 1 -> incr64 z = z + 1.
Proof. intros. unfold incr64. apply uint64_id. unfold in_u. lia. Qed.

(** ** Time *)

Definition time : Type := Z.
Definition duration : Type := Z.

Definition Millisecond : duration := 1000000.
Definition Second : duration := 1000000000.
Definition Minute : duration := 60 * Second.
Definition Hour : duration := 60 * Minute.

(** The zero [time.Time], January 1 of year 1. *)
Definition time_zero : time := -62135596800 * Second.

(** [t.Sub(u)] saturates at the bounds of [time.Duration]. *)
Definition time_Sub (t u : time) : duration :=
  let d := t - u in
  if 2 ^ 63 - 1 <? d then 2 ^ 63 - 1
  else if d <? - 2 ^ 63 then - 2 ^ 63
  else d.

Definition time_Add (t : time) (d : duration) : time := t + d.
Definition time_Before (t u : time) : bool := t <? u.
Definition time_IsZero (t : time) : bool := t =? time_zero.
Definition UnixMilli (t : time) : Z := t / Millisecond.

(** Saturation is invisible to a comparison with a positive duration. *)
Lemma time_Sub_lt t u d : 0 < d < 2 ^ 63 -> (time_Sub t u <? d) = (t - u <? d).
Proof.
  intros [??]. unfold time_Sub.
  destruct (2 ^ 63 - 1 <? t - u) eqn:?; go_bool.
  { transitivity false; [|symmetry]; apply Z.ltb_ge; lia. }
  destruct (t - u <? - 2 ^ 63) eqn:?; go_bool; [|done].
  transitivity true; [|symmetry]; apply Z.ltb_lt; lia.
Qed.
