(* ===== verification/GoFloat.v ===== *)
(** * Go's [float64]

    A [float64] is an IEEE-754 binary64 datum, [spec_float] of the standard
    library's executable specification at precision 53 and maximal exponent
    1024.  The arithmetic operators round to nearest, ties to even, as the Go
    compiler does on amd64 (no fused multiply-add).  Conversions to an integer
    truncate; a value with no representation in the target type gives the
    "integer indefinite" value of the amd64 conversion instructions, the
    smallest integer of the type.

    The lemmas are the ones the sync service's control code needs: [<] is a
    strict weak order on the values that are not NaN, and which operations
    keep a value non-negative or away from NaN. *)

From S2P Require Import Prelude GoNum.
From Stdlib Require Export SpecFloat.

Abbreviation float64 := spec_float.

Definition fprec : Z := 53.
Definition femax : Z := 1024.

Definition fadd : float64 -> float64 -> float64 := SFadd fprec femax.
Definition fsub : float64 -> float64 -> float64 := SFsub fprec femax.
Definition fmul : float64 -> float64 -> float64 := SFmul fprec femax.
Definition fdiv : float64 -> float64 -> float64 := SFdiv fprec femax.
Definition fneg : float64 -> float64 := SFopp.
Definition fabs : float64 -> float64 := SFabs.

Definition flt (x y : float64) : bool := SFltb x y.
Definition fle (x y : float64) : bool := SFleb x y.
Definition fgt (x y : float64) : bool := SFltb y x.
Definition fge (x y : float64) : bool := SFleb y x.
Definition feq (x y : float64) : bool := SFeqb x y.

(** [float64(z)] for an integer [z]. *)
Definition float_of_Z (z : Z) : float64 := binary_normalize fprec femax z 0 false.

(** The untyped constant [n / d]: the quotient of two integers below [2^53]
    is correctly rounded, hence the float64 nearest to the constant. *)
Definition flit (n d : Z) : float64 := fdiv (float_of_Z n) (float_of_Z d).

Definition fzero : float64 := S754_zero false.

(** Truncation towards zero of a finite value. *)
Definition ftrunc (x : float64) : option Z :=
  match x with
  | S754_zero _ => Some 0
  | S754_finite s m e =>
      let a := if 0 <=? e then Zpos m * 2 ^ e else Zpos m / 2 ^ (- e) in
      Some (if s then - a else a)
  | _ => None
  end.

Definition int64_of_float (x : float64) : Z :=
  match ftrunc x with
  | Some z => if bool_decide (in_s 64 z) then z else - 2 ^ 63
  | None => - 2 ^ 63
  end.

Definition int32_of_float (x : float64) : Z :=
  match ftrunc x with
  | Some z => if bool_decide (in_s 32 z) then z else - 2 ^ 31
  | None => - 2 ^ 31
  end.

(** ** Classes of values *)

Definition is_nan (x : float64) : bool :=
  match x with S754_nan => true | _ => false end.

Definition is_finite (x : float64) : bool :=
  match x with S754_zero _ | S754_finite _ _ _ => true | _ => false end.

(** Non-negative: zero of either sign, or a positive value; never NaN. *)
Definition nonneg (x : float64) : bool :=
  match x with
  | S754_zero _ | S754_infinity false | S754_finite false _ _ => true
  | _ => false
  end.

#[global] Instance float64_eq_dec : EqDecision float64.
Proof. solve_decision. Defined.

(** ** Comparison is a total preorder on the values that are not NaN *)

(** Position of a value in the order: sign class, then exponent, then
    mantissa, mirrored for the negative values. *)
Definition frank (x : float64) : Z * Z * Z :=
  match x with
  | S754_infinity true => (-2, 0, 0)
  | S754_finite true m e => (-1, - e, - Zpos m)
  | S754_zero _ | S754_nan => (0, 0, 0)
  | S754_finite false m e => (1, e, Zpos m)
  | S754_infinity false => (2, 0, 0)
  end.

Definition rank_cmp (a b : Z * Z * Z) : comparison :=
  let '(a1, a2, a3) := a in
  let '(b1, b2, b3) := b in
  match a1 ?= b1 with
  | Eq => match a2 ?= b2 with Eq => a3 ?= b3 | c => c end
  | c => c
  end.

Lemma pcompare_cont m n : Pos.compare_cont Eq m n = (Zpos m ?= Zpos n).
Proof. done. Qed.

Lemma SFcompare_rank x y :
  is_nan x = false -> is_nan y = false ->
  SFcompare x y = Some (rank_cmp (frank x) (frank y)).
Proof.
  destruct x as [?|[]| |[] m e], y as [?|[]| |[] n f]; try done; intros _ _; simpl; f_equal.
  rewrite Z.compare_opp, (Z.compare_antisym e f).
  by destruct (e ?= f); simpl.
Qed.

Definition rank_le (a b : Z * Z * Z) : Prop :=
  let '(a1, a2, a3) := a in
  let '(b1, b2, b3) := b in
  a1 < b1 \/ (a1 = b1 /\ (a2 < b2 \/ (a2 = b2 /\ a3 <= b3))).

Lemma rank_cmp_gt a b : rank_cmp a b = Gt <-> ~ rank_le a b.
Proof.
  destruct a as [[a1 a2] a3], b as [[b1 b2] b3]; unfold rank_cmp, rank_le.
  destruct (Z.compare_spec a1 b1), (Z.compare_spec a2 b2), (Z.compare_spec a3 b3);
    split; intros; try done; lia.
Qed.

Lemma rank_cmp_lt a b : rank_cmp a b = Lt <-> ~ rank_le b a.
Proof.
  destruct a as [[a1 a2] a3], b as [[b1 b2] b3]; unfold rank_cmp, rank_le.
  destruct (Z.compare_spec a1 b1), (Z.compare_spec a2 b2), (Z.compare_spec a3 b3);
    split; intros; try done; lia.
Qed.

#[global] Instance rank_le_dec a b : Decision (rank_le a b).
Proof. destruct a as [[a1 a2] a3], b as [[b1 b2] b3]. unfold rank_le. apply _. Defined.

Section order.
Context (x y z : float64).
Context (Hx : is_nan x = false) (Hy : is_nan y = false) (Hz : is_nan z = false).

Lemma fle_rank : fle x y = bool_decide (rank_le (frank x) (frank y)).
Proof using Hx Hy.
  unfold fle, SFleb. rewrite SFcompare_rank by done.
  destruct (rank_cmp _ _) eqn:E; symmetry.
  - apply bool_decide_eq_true. destruct (decide (rank_le (frank x) (frank y))) as [|n]; [done|].
    apply rank_cmp_gt in n. congruence.
  - apply bool_decide_eq_true. destruct (decide (rank_le (frank x) (frank y))) as [|n]; [done|].
    apply rank_cmp_gt in n. congruence.
  - apply bool_decide_eq_false. by apply rank_cmp_gt.
Qed.

Lemma flt_rank : flt x y = bool_decide (~ rank_le (frank y) (frank x)).
Proof using Hx Hy.
  unfold flt, SFltb. rewrite SFcompare_rank by done.
  destruct (rank_cmp _ _) eqn:E; symmetry.
  - apply bool_decide_eq_false. rewrite <- rank_cmp_lt. congruence.
  - apply bool_decide_eq_true. by apply rank_cmp_lt.
  - apply bool_decide_eq_false. rewrite <- rank_cmp_lt. congruence.
Qed.

Lemma rank_le_trans a b c : rank_le a b -> rank_le b c -> rank_le a c.
Proof. destruct a as [[??]?], b as [[??]?], c as [[??]?]. unfold rank_le. lia. Qed.

Lemma rank_le_total a b : rank_le a b \/ rank_le b a.
Proof. destruct a as [[??]?], b as [[??]?]. unfold rank_le. lia. Qed.

(** [x < y] is the negation of [y <= x] away from NaN. *)
Lemma flt_not_fle : flt x y = negb (bool_decide (rank_le (frank y) (frank x))).
Proof using Hx Hy.
  rewrite flt_rank. case_bool_decide; case_bool_decide; done.
Qed.
End order.

Lemma flt_negb_fle x y :
  is_nan x = false -> is_nan y = false -> flt x y = negb (fle y x).
Proof. intros. rewrite flt_not_fle, fle_rank by done. done. Qed.

Lemma fle_trans x y z :
  is_nan x = false -> is_nan y = false -> is_nan z = false ->
  fle x y = true -> fle y z = true -> fle x z = true.
Proof.
  intros. rewrite fle_rank in * by done. go_bool. apply bool_decide_eq_true.
  by eapply rank_le_trans.
Qed.

Lemma fle_refl x : is_nan x = false -> fle x x = true.
Proof.
  intros. rewrite fle_rank by done. apply bool_decide_eq_true.
  destruct (rank_le_total (frank x) (frank x)); done.
Qed.

Lemma flt_fle x y : flt x y = true -> fle x y = true.
Proof. unfold flt, fle, SFltb, SFleb. by repeat case_match. Qed.

Lemma flt_false_fle x y :
  is_nan x = false -> is_nan y = false -> flt x y = false -> fle y x = true.
Proof. intros ??. rewrite flt_negb_fle by done. by destruct (fle y x). Qed.

(** ** Signs *)

Lemma nonneg_not_nan x : nonneg x = true -> is_nan x = false.
Proof. by destruct x as [|[]| |[]]. Qed.

Lemma nonneg_fle x : nonneg x = true -> fle fzero x = true.
Proof. by destruct x as [?|[]| |[]]. Qed.

Lemma fle_zero_nonneg x : fle fzero x = true -> nonneg x = true.
Proof. by destruct x as [?|[]| |[]]. Qed.

Lemma nonneg_fabs x : is_nan x = false -> nonneg (fabs x) = true.
Proof. by destruct x. Qed.

Lemma iter_pos_ind {A} (P : A -> Prop) (f : A -> A) p x :
  (forall a, P a -> P (f a)) -> P x -> P (iter_pos f p x).
Proof. intros Hf. revert x. induction p; simpl; auto. Qed.

Lemma shr_nonneg mrs e n :
  0 <= shr_m mrs -> 0 <= shr_m (shr mrs e n).1.
Proof.
  intros H. destruct n; simpl; try done.
  apply (iter_pos_ind (fun r => 0 <= shr_m r)); [|done].
  intros [m r s]; simpl. by destruct m as [|[]|[]].
Qed.

Lemma round_nearest_even_nonneg m l : 0 <= m -> 0 <= round_nearest_even m l.
Proof. unfold round_nearest_even. intros. repeat case_match; lia. Qed.

Lemma shr_record_of_loc_m m l : shr_m (shr_record_of_loc m l) = m.
Proof. by destruct l as [|[]]. Qed.

(** Rounding a non-negative mantissa never gives NaN and keeps the sign. *)
Lemma binary_round_aux_sign sx m e l :
  0 <= m ->
  match binary_round_aux fprec femax sx m e l with
  | S754_nan => False
  | S754_zero s | S754_infinity s | S754_finite s _ _ => s = sx
  end.
Proof.
  intros Hm. unfold binary_round_aux, shr_fexp.
  pose proof (shr_nonneg (shr_record_of_loc m l) e (fexp fprec femax (Zdigits2 m + e) - e)
                ltac:(by rewrite shr_record_of_loc_m)) as H1.
  destruct (shr _ _ _) as [mrs' e'] eqn:E1; simpl in H1.
  match goal with |- context [shr ?a ?b ?c] =>
    pose proof (shr_nonneg a b c) as H2; destruct (shr a b c) as [mrs'' e''] eqn:E2 end.
  simpl in H2.
  specialize (H2 (round_nearest_even_nonneg _ _ H1)).
  destruct (shr_m mrs''); [done| |lia]. by destruct (Z.leb _ _).
Qed.

Lemma binary_round_sign sx m e :
  match binary_round fprec femax sx m e with
  | S754_nan => False
  | S754_zero s | S754_infinity s | S754_finite s _ _ => s = sx
  end.
Proof.
  unfold binary_round. destruct (shl_align _ _ _) as [mz ez].
  by apply binary_round_aux_sign.
Qed.

Lemma binary_normalize_nonneg m e s :
  0 <= m -> nonneg (binary_normalize fprec femax m e s) = true.
Proof.
  intros. destruct m as [|m|m]; [done| |lia]. simpl.
  pose proof (binary_round_sign false m e).
  by destruct (binary_round _ _ _ _ _) as [?|[]| |[]].
Qed.

Lemma binary_normalize_not_nan m e s :
  is_nan (binary_normalize fprec femax m e s) = false.
Proof.
  destruct m as [|m|m]; [done| |]; simpl;
  match goal with |- context [binary_round _ _ ?b _ _] =>
    pose proof (binary_round_sign b m e) end;
  by destruct (binary_round _ _ _ _ _).
Qed.

Lemma float_of_Z_not_nan z : is_nan (float_of_Z z) = false.
Proof. apply binary_normalize_not_nan. Qed.

Lemma float_of_Z_nonneg z : 0 <= z -> nonneg (float_of_Z z) = true.
Proof. apply binary_normalize_nonneg. Qed.

Lemma fmul_nonneg x y :
  nonneg x = true -> nonneg y = true -> is_nan (fmul x y) = false -> nonneg (fmul x y) = true.
Proof.
  destruct x as [sx|[]| |[] mx ex], y as [sy|[]| |[] my ey]; simpl; try done; intros _ _ _.
  unfold fmul, SFmul.
  pose proof (binary_round_aux_sign false (Zpos (mx * my)) (ex + ey) loc_Exact ltac:(lia)).
  simpl xorb. by destruct (binary_round_aux _ _ _ _ _ _) as [?|[]| |[]].
Qed.

Lemma fadd_nonneg x y :
  nonneg x = true -> nonneg y = true -> nonneg (fadd x y) = true.
Proof.
  destruct x as [[]|[]| |[] mx ex], y as [[]|[]| |[] my ey]; try done; intros _ _;
  unfold fadd, SFadd; apply binary_normalize_nonneg; simpl; lia.
Qed.

Lemma fmul_finite_not_nan x y :
  is_finite x = true -> is_finite y = true -> is_nan (fmul x y) = false.
Proof.
  destruct x as [| | |sx mx ex], y as [| | |sy my ey]; try done; intros _ _.
  unfold fmul, SFmul.
  pose proof (binary_round_aux_sign (xorb sx sy) (Zpos (mx * my)) (ex + ey) loc_Exact ltac:(lia)).
  by destruct (binary_round_aux _ _ _ _ _ _).
Qed.

Lemma fadd_finite_not_nan x y :
  is_finite x = true -> is_nan y = false -> is_nan (fadd x y) = false.
Proof.
  destruct x as [[]|[]| |[] mx ex], y as [[]|[]| |[] my ey]; try done; intros _ _;
  apply binary_normalize_not_nan.
Qed.

Lemma fsub_finite_not_nan x y :
  is_finite x = true -> is_nan y = false -> is_nan (fsub x y) = false.
Proof.
  destruct x as [[]|[]| |[] mx ex], y as [[]|[]| |[] my ey]; try done; intros _ _;
  apply binary_normalize_not_nan.
Qed.

Lemma is_finite_not_nan x : is_finite x = true -> is_nan x = false.
Proof. by destruct x. Qed.

Lemma fneg_is_nan x : is_nan (fneg x) = is_nan x.
Proof. by destruct x. Qed.

Lemma fneg_is_finite x : is_finite (fneg x) = is_finite x.
Proof. by destruct x. Qed.

(** A value between two finite values is finite. *)
Lemma between_finite a x b :
  is_finite a = true -> is_finite b = true -> fle a x = true -> fle x b = true -> is_finite x = true.
Proof.
  destruct x as [|[]| |]; try done.
  - by destruct a as [|[]| |].
  - by destruct b as [|[]| |].
Qed.

#[export] Hint Resolve nonneg_not_nan float_of_Z_not_nan is_finite_not_nan fle_refl : vibe.

Example flit_0_15 : flit 15 100 = S754_finite false 5404319552844595 (-55).
Proof. vm_compute. reflexivity. Qed.
Example flit_1 : flit 1 1 = S754_finite false 4503599627370496 (-52).
Proof. vm_compute. reflexivity. Qed.
