(* ===== verification/GoRound.v ===== *)
(** * Rounding of [float64] operations

    The position formula of the sync service multiplies two floats and
    truncates.  This file characterises the rounding of the standard
    library's [binary_round_aux] on integers scaled by [2^K]: the scaled value
    of a result is [RN] of the scaled exact value, where [RN] rounds to the
    nearest multiple of a power of two, ties to even.  [RN] is monotone, exact
    on the representable values and off by at most half a unit otherwise. *)

From S2P Require Import Prelude GoNum GoFloat.

(** ** Digits *)

Lemma digits2_pos_log2 p : Zpos (digits2_pos p) = Z.log2 (Zpos p) + 1.
Proof.
  induction p as [p IH|p IH|]; [..|done]; cbn [digits2_pos]; rewrite Pos2Z.inj_succ, IH.
  - rewrite (Pos2Z.inj_xI p). rewrite Z.log2_succ_double by lia. lia.
  - rewrite (Pos2Z.inj_xO p). rewrite Z.log2_double by lia. lia.
Qed.

Lemma Zdigits2_log2 m : 0 < m -> Zdigits2 m = Z.log2 m + 1.
Proof. destruct m; [lia| |lia]. intros _. apply digits2_pos_log2. Qed.

Lemma pow2_pos n : 0 <= n -> 0 < 2 ^ n.
Proof. intros. by apply Z.pow_pos_nonneg. Qed.

Lemma pow2_add a b : 0 <= a -> 0 <= b -> 2 ^ (a + b) = 2 ^ a * 2 ^ b.
Proof. intros. by apply Z.pow_add_r. Qed.

(** ** Nearest-even quotient by a power of two *)

Definition rne (m n : Z) : Z :=
  let q := m / 2 ^ n in
  let r := m mod 2 ^ n in
  if 2 * r <? 2 ^ n then q
  else if 2 ^ n <? 2 * r then q + 1
  else if Z.even q then q else q + 1.

Section rne.
Context (n : Z) (Hn : 0 <= n).
Let P := 2 ^ n.
Let HP : 0 < P := pow2_pos n Hn.

Lemma rne_bounds m : 2 * Z.abs (rne m n * P - m) <= P.
Proof using HP.
  unfold rne. fold P. pose proof (Z.div_mod m P ltac:(lia)).
  pose proof (Z.mod_pos_bound m P HP).
  destruct (2 * _ <? P) eqn:?; go_bool; [nia|].
  destruct (P <? 2 * _) eqn:?; go_bool; [nia|].
  destruct (Z.even _); nia.
Qed.

Lemma rne_exact k : rne (k * P) n = k.
Proof using HP.
  unfold rne. fold P. rewrite Z.mod_mul, Z.div_mul by lia.
  destruct (2 * 0 <? P) eqn:?; go_bool; lia.
Qed.

Lemma rne_mono a b : a <= b -> rne a n <= rne b n.
Proof using HP.
  intros. unfold rne. fold P.
  pose proof (Z.div_mod a P ltac:(lia)). pose proof (Z.mod_pos_bound a P HP).
  pose proof (Z.div_mod b P ltac:(lia)). pose proof (Z.mod_pos_bound b P HP).
  pose proof (Z.div_le_mono a b P HP ltac:(done)).
  assert (a / P = b / P -> a mod P <= b mod P) by (intros E; rewrite E in *; lia).
  destruct (Z.eq_dec (a / P) (b / P)) as [E|].
  - rewrite E in *. repeat case_match; go_bool; lia.
  - repeat case_match; go_bool; lia.
Qed.

Lemma rne_nonneg m : 0 <= m -> 0 <= rne m n.
Proof using HP. intros. rewrite <- (rne_exact 0). apply rne_mono. lia. Qed.
End rne.

Lemma rne_scale m a n : 0 <= a -> 0 <= n -> rne (m * 2 ^ a) (a + n) = rne m n.
Proof.
  intros Ha Hn. unfold rne. rewrite (Z.add_comm a n), pow2_add by done.
  pose proof (pow2_pos a Ha). pose proof (pow2_pos n Hn).
  rewrite Z.div_mul_cancel_r, Z.mul_mod_distr_r by lia.
  replace (2 * (m mod 2 ^ n * 2 ^ a)) with (2 * (m mod 2 ^ n) * 2 ^ a) by ring.
  assert (forall x y, (x * 2 ^ a <? y * 2 ^ a) = (x <? y)) as E.
  { intros x y. destruct (x <? y) eqn:?, (x * 2 ^ a <? y * 2 ^ a) eqn:?; go_bool; nia. }
  by rewrite !E.
Qed.

(** ** The shift with round and sticky bits *)

(** [mrs] stands for [M] shifted right by [k]. *)
Definition shr_rep (M k : Z) (mrs : shr_record) : Prop :=
  shr_m mrs = M / 2 ^ k /\
  shr_r mrs = (2 ^ k <=? 2 * (M mod 2 ^ k)) /\
  shr_s mrs = negb (2 * (M mod 2 ^ k) =? if shr_r mrs then 2 ^ k else 0).

Lemma shr_1_fields m r s :
  0 <= m -> shr_1 (Build_shr_record m r s) = Build_shr_record (m / 2) (Z.odd m) (r || s).
Proof.
  intros Hm. rewrite <- Z.div2_div. by destruct m as [|[p|p|]|]; [..|lia].
Qed.

Lemma shr_1_rep M k mrs : 0 <= M -> 0 <= k -> shr_rep M k mrs -> shr_rep M (k + 1) (shr_1 mrs).
Proof.
  intros HM Hk (Hm & Hr & Hs). destruct mrs as [m r s]. cbn [shr_m shr_r shr_s] in *.
  pose proof (pow2_pos k Hk) as HP. set (P := 2 ^ k) in *.
  pose proof (Z.div_mod M P ltac:(lia)). pose proof (Z.mod_pos_bound M P HP).
  assert (0 <= m) by (subst m; apply Z.div_pos; lia).
  rewrite shr_1_fields by done. unfold shr_rep. cbn [shr_m shr_r shr_s].
  rewrite pow2_add by lia. fold P. change (2 ^ 1) with 2.
  assert (M mod (P * 2) = Z.b2z (Z.odd m) * P + M mod P) as Hmod.
  { pose proof (Zmod_odd m) as Ho. pose proof (Z.div_mod m 2 ltac:(lia)) as Hd.
    symmetry. apply Z.mod_unique_pos with (q := m / 2); [destruct (Z.odd m); simpl; lia|].
    rewrite Ho in Hd. subst m. destruct (Z.odd (M / P)); simpl; nia. }
  rewrite Hmod. split_and!.
  - subst m. rewrite Z.div_div by lia. done.
  - destruct (Z.odd m); simpl; symmetry; [apply Z.leb_le|apply Z.leb_gt]; lia.
  - subst s. destruct (Z.odd m), r; simpl; symmetry in Hr; go_bool;
      repeat match goal with |- context [?a =? ?b] => destruct (Z.eqb_spec a b) end;
      simpl; try done; lia.
Qed.

Lemma iter_pos_rep M k p mrs :
  0 <= M -> 0 <= k -> shr_rep M k mrs -> shr_rep M (k + Zpos p) (iter_pos shr_1 p mrs).
Proof.
  intros HM. revert k mrs. induction p as [p IH|p IH|]; intros k mrs Hk H; simpl.
  - replace (k + Z.pos p~1) with (k + 1 + Z.pos p + Z.pos p) by lia.
    apply IH; [lia|]. apply IH; [lia|]. by apply shr_1_rep.
  - replace (k + Z.pos p~0) with (k + Z.pos p + Z.pos p) by lia.
    apply IH; [lia|]. by apply IH.
  - by apply shr_1_rep.
Qed.

Lemma shr_rep_round M k mrs :
  0 <= k -> shr_rep M k mrs ->
  round_nearest_even (shr_m mrs) (loc_of_shr_record mrs) = rne M k.
Proof.
  intros Hk (Hm & Hr & Hs). destruct mrs as [m r s]. cbn [shr_m shr_r shr_s] in *. unfold rne.
  rewrite <- Hm. destruct r; symmetry in Hr; go_bool.
  - destruct (Z.eqb_spec (2 * (M mod 2 ^ k)) (2 ^ k)); subst s; simpl;
      repeat case_match; go_bool; try lia; done.
  - destruct (Z.eqb_spec (2 * (M mod 2 ^ k)) 0); subst s; simpl;
      repeat case_match; go_bool; try lia; done.
Qed.

Lemma shr_round M e n :
  0 <= M ->
  exists mrs, shr (shr_record_of_loc M loc_Exact) e n = (mrs, e + Z.max 0 n) /\
    shr_m mrs = M / 2 ^ Z.max 0 n /\
    round_nearest_even (shr_m mrs) (loc_of_shr_record mrs) = rne M (Z.max 0 n).
Proof.
  intros HM.
  assert (shr_rep M 0 (shr_record_of_loc M loc_Exact)) as H0.
  { unfold shr_rep. simpl. by rewrite Z.div_1_r, Z.mod_1_r. }
  destruct n as [|p|p]; cbn [shr Z.max Z.compare].
  - eexists. rewrite Z.add_0_r. split; [done|]. split; [apply H0|by apply shr_rep_round].
  - pose proof (iter_pos_rep M 0 p _ HM ltac:(lia) H0) as H.
    rewrite Z.add_0_l in H. eexists. split; [done|].
    split; [apply H|]. by apply shr_rep_round.
  - eexists. rewrite Z.add_0_r. split; [done|]. split; [apply H0|by apply shr_rep_round].
Qed.

(** ** Rounding on the scaled integers *)

Definition emin64 : Z := -1074.
Definition K : Z := 4000.

(** Exponent of the last place of the result for the scaled value [X]. *)
Definition lastplace (X : Z) : Z := Z.max (Z.log2 X + 1 - 53) (K + emin64).
Definition RN (X : Z) : Z := rne X (lastplace X) * 2 ^ lastplace X.

Lemma fexp_eq e : fexp fprec femax e = Z.max (e - 53) emin64.
Proof. done. Qed.

Lemma lastplace_nonneg X : 0 <= lastplace X.
Proof. unfold lastplace, K, emin64. lia. Qed.
#[local] Hint Resolve lastplace_nonneg : core.

Lemma log2_mul_pow2' m a : 0 < m -> 0 <= a -> Z.log2 (m * 2 ^ a) = a + Z.log2 m.
Proof. intros. by rewrite Z.log2_mul_pow2. Qed.

Lemma log2_lt_pow2' m d : 0 < m -> Z.log2 m < d -> m < 2 ^ d.
Proof. intros. by apply Z.log2_lt_pow2. Qed.

(** The shift of [binary_round_aux] and its rounded mantissa. *)
Definition shiftBy (m e : Z) : Z := Z.max 0 (fexp fprec femax (Z.log2 m + 1 + e) - e).

Lemma shiftBy_eq m e : shiftBy m e = Z.max 0 (Z.max (Z.log2 m + 1 + e - 53) emin64 - e).
Proof. done. Qed.

Lemma rne_le_pow m n d : 0 <= n -> 0 <= d -> 0 < m -> m < 2 ^ (n + d) -> rne m n <= 2 ^ d.
Proof.
  intros Hn Hd Hm Hlt. rewrite <- (rne_exact n Hn (2 ^ d)). apply rne_mono; [done|].
  rewrite <- pow2_add by done. rewrite Z.add_comm. lia.
Qed.

Lemma rounded_mantissa_le m e : 0 < m -> rne m (shiftBy m e) <= 2 ^ 53.
Proof.
  intros Hm. apply rne_le_pow; [rewrite shiftBy_eq; lia|lia|done|].
  apply log2_lt_pow2'; [done|]. rewrite shiftBy_eq. lia.
Qed.

Lemma rne_normal m n : 0 < m -> 0 <= n -> n = Z.log2 m + 1 - 53 -> 2 ^ 52 <= rne m n.
Proof.
  intros Hm Hn ->. rewrite <- (rne_exact _ Hn (2 ^ 52)). apply rne_mono; [done|].
  rewrite <- pow2_add by lia. replace (52 + _) with (Z.log2 m) by lia.
  by apply Z.log2_spec.
Qed.

(** The result of the final renormalisation: the rounded mantissa, or half of
    it with the next exponent when rounding carried to [2^53]. *)
Lemma renormalise m1 e' :
  0 <= m1 <= 2 ^ 53 -> emin64 <= e' ->
  exists mrs k, shr_fexp fprec femax m1 e' loc_Exact = (mrs, e' + k) /\
    (k = 0 \/ k = 1) /\ shr_m mrs * 2 ^ k = m1 /\ (k = 1 -> m1 = 2 ^ 53).
Proof.
  intros Hm He. destruct (Z.eq_dec m1 0) as [->|].
  { unfold shr_fexp. rewrite fexp_eq. unfold emin64 in *. simpl Zdigits2.
    destruct (shr_round 0 e' (Z.max (0 + e' - 53) (-1074) - e') ltac:(lia)) as (mrs & -> & Hms & _).
    replace (Z.max 0 (Z.max (0 + e' - 53) (-1074) - e')) with 0 in * by lia.
    exists mrs, 0. rewrite Hms. split_and!; [done|lia|done|lia]. }
  unfold shr_fexp. rewrite fexp_eq, Zdigits2_log2 by lia.
  destruct (shr_round m1 e' (Z.max (Z.log2 m1 + 1 + e' - 53) emin64 - e') ltac:(lia))
    as (mrs & -> & Hms & _).
  destruct (Z.eq_dec m1 (2 ^ 53)) as [->|].
  - replace (Z.log2 (2 ^ 53)) with 53 in * by done.
    replace (Z.max 0 _) with 1 in * by (unfold emin64 in *; lia).
    exists mrs, 1. rewrite Hms. split_and!; [done|lia|done|done].
  - assert (Z.log2 m1 < 53) by (apply Z.log2_lt_pow2; lia).
    replace (Z.max 0 _) with 0 in * by (unfold emin64 in *; lia).
    exists mrs, 0. rewrite Hms, Z.div_1_r. split_and!; [done|lia|lia|lia].
Qed.

(** Scaled value and rounding agree. *)
Lemma RN_mantissa m e :
  0 < m -> - K <= e ->
  rne m (shiftBy m e) * 2 ^ (e + shiftBy m e + K) = RN (m * 2 ^ (e + K)).
Proof.
  intros Hm He. rewrite shiftBy_eq. unfold RN, lastplace.
  rewrite log2_mul_pow2' by lia. set (a := e + K). set (d := Z.log2 m).
  replace (Z.max 0 (Z.max (d + 1 + e - 53) emin64 - e))
    with (Z.max 0 (Z.max (a + d + 1 - 53) (K + emin64) - a)) by (unfold a; lia).
  set (q := Z.max (a + d + 1 - 53) (K + emin64)).
  assert (0 <= q) by (unfold q, K, emin64; lia). assert (0 <= a) by (unfold a; lia).
  destruct (Z.le_ge_cases a q).
  - replace (Z.max 0 (q - a)) with (q - a) by lia.
    replace q with (a + (q - a)) at 2 3 by lia.
    rewrite rne_scale by lia. f_equal. f_equal. unfold a. lia.
  - replace (Z.max 0 (q - a)) with 0 by lia.
    replace (m * 2 ^ a) with (m * 2 ^ (a - q) * 2 ^ q)
      by (rewrite <- Z.mul_assoc, <- pow2_add by lia; do 2 f_equal; lia).
    rewrite rne_exact by done.
    replace (rne m 0) with m by (rewrite <- (rne_exact 0 ltac:(lia) m) at 1; simpl; f_equal; lia).
    rewrite <- Z.mul_assoc, <- pow2_add by lia. do 2 f_equal. unfold a. lia.
Qed.

(** A float whose scaled value is [V], or an infinity when [V] is out of range. *)
Definition rounded (sx : bool) (V : Z) (x : float64) : Prop :=
  match x with
  | S754_zero s => s = sx /\ V = 0
  | S754_finite s m e => s = sx /\ V = Zpos m * 2 ^ (e + K) /\ emin64 <= e
  | S754_infinity s => s = sx /\ 2 ^ (1024 + K) <= V
  | S754_nan => False
  end.

Lemma binary_round_aux_RN sx m e :
  0 < m -> - K <= e -> e <= fexp fprec femax (Z.log2 m + 1 + e) ->
  rounded sx (RN (m * 2 ^ (e + K))) (binary_round_aux fprec femax sx m e loc_Exact).
Proof.
  intros Hm He Hfe.
  pose proof (RN_mantissa m e Hm He) as HRN.
  pose proof (rounded_mantissa_le m e Hm) as Hle.
  rewrite fexp_eq in Hfe.
  unfold binary_round_aux, shr_fexp at 1. rewrite fexp_eq, Zdigits2_log2 by done.
  destruct (shr_round m e (Z.max (Z.log2 m + 1 + e - 53) emin64 - e) ltac:(lia))
    as (mrs & -> & _ & ->).
  replace (Z.max 0 (Z.max (Z.log2 m + 1 + e - 53) emin64 - e)) with (shiftBy m e) by done.
  set (n := shiftBy m e) in *.
  assert (0 <= n /\ e + n = Z.max (Z.log2 m + 1 + e - 53) emin64) as [Hn Hen]
    by (unfold n; rewrite shiftBy_eq; lia).
  destruct (renormalise (rne m n) (e + n)) as (mrs2 & k & -> & Hk & Hmk & Hk1).
  { split; [|done]. apply rne_nonneg; lia. }
  { lia. }
  assert (0 <= shr_m mrs2) as Hpos.
  { pose proof (rne_nonneg n Hn m ltac:(lia)). pose proof (pow2_pos k ltac:(lia)). nia. }
  assert (RN (m * 2 ^ (e + K)) = shr_m mrs2 * 2 ^ (e + n + k + K)) as HV.
  { rewrite <- HRN, <- Hmk. unfold emin64, K in *. rewrite <- Z.mul_assoc, <- pow2_add by lia.
    do 2 f_equal. lia. }
  rewrite HV. destruct (shr_m mrs2) as [|p|p] eqn:Ep; [done| |lia].
  destruct (Z.leb_spec (e + n + k) (femax - fprec)); simpl.
  { split_and!; [done|done|lia]. }
  split; [done|]. unfold femax, fprec, emin64 in *.
  assert (2 ^ 52 <= rne m n) as Hnorm by (apply rne_normal; lia).
  apply Z.le_trans with (2 ^ 52 * 2 ^ (972 + K)); [by rewrite <- pow2_add|].
  apply Z.mul_le_mono_nonneg; [lia| |unfold K; lia|apply Z.pow_le_mono_r; unfold K in *; lia].
  destruct Hk as [->| ->]; [lia|]. specialize (Hk1 eq_refl). lia.
Qed.

Lemma pos_iter_xO m d : Zpos (Pos.iter xO m d) = Zpos m * 2 ^ Zpos d.
Proof.
  revert m. induction d as [|d IH] using Pos.peano_ind; intros m; [simpl; lia|].
  rewrite Pos.iter_succ, Pos2Z.inj_xO, IH, Pos2Z.inj_succ, Z.pow_succ_r by lia. ring.
Qed.

Lemma binary_round_RN sx m e :
  - K <= e -> rounded sx (RN (Zpos m * 2 ^ (e + K))) (binary_round fprec femax sx m e).
Proof.
  intros He. unfold binary_round, shl_align. rewrite digits2_pos_log2, fexp_eq.
  set (f := Z.max (Z.log2 (Z.pos m) + 1 + e - 53) emin64).
  assert (- K <= f) by (unfold f, K, emin64; lia).
  destruct (f - e) as [|d|d] eqn:Ed.
  - apply binary_round_aux_RN; [done|done|]. rewrite fexp_eq. fold f. lia.
  - apply binary_round_aux_RN; [done|done|]. rewrite fexp_eq. fold f. lia.
  - replace (Z.pos m * 2 ^ (e + K)) with (Zpos (Pos.iter xO m d) * 2 ^ (f + K)).
    + apply binary_round_aux_RN; [done|done|].
      rewrite fexp_eq, pos_iter_xO, log2_mul_pow2' by lia. unfold f in *. lia.
    + rewrite pos_iter_xO, <- Z.mul_assoc, <- pow2_add by lia. do 2 f_equal. lia.
Qed.

(** ** Properties of [RN] *)

Lemma RN_0 : RN 0 = 0.
Proof. unfold RN. change 0 with (0 * 2 ^ lastplace 0) at 1. by rewrite rne_exact. Qed.

Lemma RN_upper X : 0 < X -> RN X <= 2 ^ (lastplace X + 53).
Proof.
  intros HX. unfold RN. rewrite Z.add_comm, pow2_add by (auto; lia).
  apply Z.mul_le_mono_nonneg_r; [apply Z.pow_nonneg; lia|].
  apply rne_le_pow; [auto|lia|done|]. apply log2_lt_pow2'; [done|]. unfold lastplace. lia.
Qed.

Lemma RN_lower X : 0 < X -> K + emin64 < lastplace X -> 2 ^ (lastplace X + 52) <= RN X.
Proof.
  intros HX Hl. unfold RN. rewrite Z.add_comm, pow2_add by (auto; lia).
  apply Z.mul_le_mono_nonneg_r; [apply Z.pow_nonneg; lia|].
  apply rne_normal; [done|auto|]. unfold lastplace in *. lia.
Qed.

Lemma lastplace_mono X Y : X <= Y -> lastplace X <= lastplace Y.
Proof. intros. unfold lastplace. pose proof (Z.log2_le_mono X Y ltac:(done)). lia. Qed.

Lemma RN_mono X Y : 0 <= X <= Y -> RN X <= RN Y.
Proof.
  intros [HX HXY]. destruct (Z.eq_dec X 0) as [->|].
  { rewrite RN_0. unfold RN. apply Z.mul_nonneg_nonneg; [by apply rne_nonneg; auto|].
    apply Z.pow_nonneg; lia. }
  pose proof (lastplace_mono X Y HXY). destruct (Z.eq_dec (lastplace X) (lastplace Y)) as [E|].
  - unfold RN. rewrite E. apply Z.mul_le_mono_nonneg_r; [apply Z.pow_nonneg; lia|].
    by apply rne_mono; auto.
  - etransitivity; [apply RN_upper; lia|].
    etransitivity; [|apply RN_lower; [lia|]].
    + apply Z.pow_le_mono_r; lia.
    + pose proof (Z.le_max_r (Z.log2 X + 1 - 53) (K + emin64)). unfold lastplace in *. lia.
Qed.

Lemma RN_nonneg X : 0 <= X -> 0 <= RN X.
Proof. intros. rewrite <- RN_0. apply RN_mono. lia. Qed.

Lemma RN_error X : 2 * Z.abs (RN X - X) <= 2 ^ lastplace X.
Proof. apply rne_bounds; auto. Qed.

Lemma RN_exact k j : 0 <= k < 2 ^ 53 -> emin64 <= j -> RN (k * 2 ^ (j + K)) = k * 2 ^ (j + K).
Proof.
  intros Hk Hj. destruct (Z.eq_dec k 0) as [->|]; [by rewrite Z.mul_0_l, RN_0|].
  assert (Z.log2 k < 53) by (apply Z.log2_lt_pow2; lia).
  unfold RN. set (X := k * 2 ^ (j + K)). set (l := lastplace X).
  assert (0 <= l <= j + K) as Hl.
  { unfold l, X, lastplace. unfold K, emin64 in *. rewrite log2_mul_pow2' by lia. lia. }
  replace X with (k * 2 ^ (j + K - l) * 2 ^ l)
    by (unfold X; rewrite <- Z.mul_assoc, <- pow2_add by lia; do 2 f_equal; lia).
  by rewrite rne_exact by lia.
Qed.

(** ** Conversions and products *)

(** A non-negative integer converted to a float. *)
Lemma float_of_Z_rounded z : 0 <= z -> rounded false (RN (z * 2 ^ K)) (float_of_Z z).
Proof.
  intros Hz. destruct z as [|p|p]; [|by apply (binary_round_RN false p 0)|lia].
  rewrite Z.mul_0_l, RN_0. by split.
Qed.

Lemma rounded_finite sx V x : rounded sx V x -> V < 2 ^ (1024 + K) -> is_finite x = true.
Proof. destruct x; simpl; try done. intros [_ ?]. lia. Qed.

Lemma RN_lt_pow X d : 0 <= X < 2 ^ (d + K) -> emin64 + 53 <= d -> RN X <= 2 ^ (d + K).
Proof.
  intros [HX Hlt] Hd. destruct (Z.eq_dec X 0) as [->|]; [rewrite RN_0; apply Z.pow_nonneg; lia|].
  etransitivity; [apply RN_upper; lia|]. apply Z.pow_le_mono_r; [lia|].
  apply Z.log2_lt_pow2 in Hlt; [|lia]. unfold lastplace. lia.
Qed.

(** Every [int64] converts to a finite float. *)
Lemma float_of_Z_finite z : - 2 ^ 63 <= z <= 2 ^ 63 -> is_finite (float_of_Z z) = true.
Proof.
  intros Hz.
  assert (2 ^ (64 + K) < 2 ^ (1024 + K)) by (apply Z.pow_lt_mono_r; unfold K; lia).
  destruct z as [|p|p]; [done| |];
  [pose proof (binary_round_RN false p 0 ltac:(unfold K; lia)) as H1
  |pose proof (binary_round_RN true p 0 ltac:(unfold K; lia)) as H1];
  (eapply rounded_finite; [exact H1|];
   eapply Z.le_lt_trans; [apply (RN_lt_pow _ 64)|done]; [|unfold emin64; lia];
   rewrite (pow2_add 64 K), Z.add_0_l by (unfold K; lia);
   pose proof (pow2_pos K ltac:(unfold K; lia)); split; [lia|];
   apply Z.mul_lt_mono_pos_r; lia).
Qed.

(** Truncation of a rounded value. *)
Lemma ftrunc_rounded V x :
  rounded false V x -> is_finite x = true -> ftrunc x = Some (V / 2 ^ K).
Proof.
  destruct x as [s| | |s m e]; simpl; try done.
  - intros [_ ->] _. done.
  - intros (-> & -> & He) _. f_equal. unfold emin64 in *.
    destruct (Z.leb_spec 0 e).
    + rewrite pow2_add, Z.mul_assoc, Z.div_mul; [done| |done|unfold K; lia].
      apply Z.pow_nonzero; unfold K; lia.
    + assert (2 ^ K = 2 ^ (e + K) * 2 ^ (- e)) as ->
        by (rewrite <- pow2_add by (unfold K; lia); f_equal; lia).
      rewrite (Z.mul_comm (Zpos m)), Z.div_mul_cancel_l; [done| |];
        apply Z.pow_nonzero; unfold K; lia.
Qed.

(** A normal positive value: a 53-bit mantissa. *)
Definition normal_pos (x : float64) (m : positive) (e : Z) : Prop :=
  x = S754_finite false m e /\ Z.log2 (Zpos m) = 52 /\ - K / 2 <= e.

Lemma fmul_rounded V x y m e :
  rounded false V x -> is_finite x = true -> normal_pos y m e ->
  rounded false (RN (V * (Zpos m * 2 ^ (e + K)) / 2 ^ K)) (fmul x y).
Proof.
  intros Hx Hf (-> & Hm & He). change (- K / 2) with (-2000) in He.
  destruct x as [s| | |s mx ex]; try done.
  - destruct Hx as [-> ->].
    rewrite Z.mul_0_l, Z.div_0_l, RN_0; [by split|]. apply Z.pow_nonzero; unfold K; lia.
  - destruct Hx as (-> & -> & Hex). unfold fmul, SFmul. simpl xorb. unfold emin64 in *.
    assert (Z.log2 (Zpos mx) + 52 <= Z.log2 (Zpos mx * Zpos m)).
    { rewrite <- Hm. apply Z.log2_mul_below; lia. }
    replace (Zpos mx * 2 ^ (ex + K) * (Zpos m * 2 ^ (e + K)) / 2 ^ K)
      with (Zpos (mx * m) * 2 ^ (ex + e + K)).
    + apply binary_round_aux_RN; [done|unfold K; lia|].
      rewrite fexp_eq, Pos2Z.inj_mul. pose proof (Z.log2_nonneg (Zpos mx)). lia.
    + replace (Zpos mx * 2 ^ (ex + K) * (Zpos m * 2 ^ (e + K)))
        with (Zpos (mx * m) * 2 ^ (ex + e + K) * 2 ^ K).
      * rewrite Z.div_mul; [done|]. apply Z.pow_nonzero; unfold K; lia.
      * rewrite Pos2Z.inj_mul, <- Z.mul_assoc, <- pow2_add by (unfold K; lia).
        replace (ex + e + K + K) with ((ex + K) + (e + K)) by lia.
        rewrite pow2_add by (unfold K; lia). ring.
Qed.
