(* ===== verification/SyncState.v ===== *)
(** * The authoritative playback state of a room

    Model of [apps/sync-service/internal/domain/state.go]: the [SyncState]
    record, the position formula [AdvanceMediaTime] and the command
    interpreter [ApplyCommand].  Enumerations are the integers of their Go
    types, because the service converts wire values to them unchecked. *)

From S2P Require Import Prelude GoNum GoFloat GoRound.

(** ** Data *)

Definition PlaybackStatus : Type := Z.
Definition StatusUnspecified : PlaybackStatus := 0.
Definition StatusPaused : PlaybackStatus := 1.
Definition StatusPlaying : PlaybackStatus := 2.
Definition StatusBuffering : PlaybackStatus := 3.
Definition StatusEnded : PlaybackStatus := 4.

Definition CommandKind : Type := Z.
Definition CmdUnspecified : CommandKind := 0.
Definition CmdPlay : CommandKind := 1.
Definition CmdPause : CommandKind := 2.
Definition CmdSeek : CommandKind := 3.
Definition CmdSetRate : CommandKind := 4.
Definition CmdLoadMedia : CommandKind := 5.
Definition CmdNext : CommandKind := 6.
Definition CmdPrevious : CommandKind := 7.

Record SyncState : Type := mkSyncState {
  RoomID : string;
  MediaID : string;
  Status : PlaybackStatus;
  MediaTimeMs : Z;
  WallTimeMs : Z;
  PlaybackRate : float64;
  Epoch : Z;
  HostID : string;
  FencingToken : Z;
  EpochStarted : time;
  OwnerID : string;
}.

(** Field assignments. *)
Definition set_MediaID v s := mkSyncState (RoomID s) v (Status s) (MediaTimeMs s) (WallTimeMs s)
  (PlaybackRate s) (Epoch s) (HostID s) (FencingToken s) (EpochStarted s) (OwnerID s).
Definition set_Status v s := mkSyncState (RoomID s) (MediaID s) v (MediaTimeMs s) (WallTimeMs s)
  (PlaybackRate s) (Epoch s) (HostID s) (FencingToken s) (EpochStarted s) (OwnerID s).
Definition set_MediaTimeMs v s := mkSyncState (RoomID s) (MediaID s) (Status s) v (WallTimeMs s)
  (PlaybackRate s) (Epoch s) (HostID s) (FencingToken s) (EpochStarted s) (OwnerID s).
Definition set_WallTimeMs v s := mkSyncState (RoomID s) (MediaID s) (Status s) (MediaTimeMs s) v
  (PlaybackRate s) (Epoch s) (HostID s) (FencingToken s) (EpochStarted s) (OwnerID s).
Definition set_PlaybackRate v s := mkSyncState (RoomID s) (MediaID s) (Status s) (MediaTimeMs s)
  (WallTimeMs s) v (Epoch s) (HostID s) (FencingToken s) (EpochStarted s) (OwnerID s).
Definition set_Epoch v s := mkSyncState (RoomID s) (MediaID s) (Status s) (MediaTimeMs s) (WallTimeMs s)
  (PlaybackRate s) v (HostID s) (FencingToken s) (EpochStarted s) (OwnerID s).
Definition set_HostID v s := mkSyncState (RoomID s) (MediaID s) (Status s) (MediaTimeMs s) (WallTimeMs s)
  (PlaybackRate s) (Epoch s) v (FencingToken s) (EpochStarted s) (OwnerID s).
Definition set_FencingToken v s := mkSyncState (RoomID s) (MediaID s) (Status s) (MediaTimeMs s)
  (WallTimeMs s) (PlaybackRate s) (Epoch s) (HostID s) v (EpochStarted s) (OwnerID s).
Definition set_EpochStarted v s := mkSyncState (RoomID s) (MediaID s) (Status s) (MediaTimeMs s)
  (WallTimeMs s) (PlaybackRate s) (Epoch s) (HostID s) (FencingToken s) v (OwnerID s).
Definition set_OwnerID v s := mkSyncState (RoomID s) (MediaID s) (Status s) (MediaTimeMs s)
  (WallTimeMs s) (PlaybackRate s) (Epoch s) (HostID s) (FencingToken s) (EpochStarted s) v.

(** [s.Epoch++]. *)
Definition bumpEpoch (s : SyncState) : SyncState := set_Epoch (incr64 (Epoch s)) s.

(** ** Operations *)

(** [float64] constants of the file. *)
Definition rate_1 : float64 := flit 1 1.
Definition rate_min : float64 := flit 1 4.
Definition rate_max : float64 := flit 4 1.

Definition AdvanceMediaTime (s : SyncState) (nowMs : Z) : Z :=
  if feq (PlaybackRate s) fzero then MediaTimeMs s
  else
    let elapsed := int64 (nowMs - WallTimeMs s) in
    let elapsed := if elapsed <? 0 then 0 else elapsed in
    int64 (MediaTimeMs s + int64_of_float (fmul (float_of_Z elapsed) (PlaybackRate s))).

(** The body of the [switch] of [ApplyCommand]. *)
Definition applyKind (kind : CommandKind) (seekToMs : option Z) (rate : option float64)
    (mediaID : string) (s : SyncState) : SyncState :=
  if kind =? CmdPlay then
    let s := set_Status StatusPlaying s in
    if feq (PlaybackRate s) fzero then set_PlaybackRate rate_1 s else s
  else if kind =? CmdPause then
    set_PlaybackRate fzero (set_Status StatusPaused s)
  else if kind =? CmdSeek then
    match seekToMs with
    | Some t => set_MediaTimeMs t s
    | None => s
    end
  else if kind =? CmdSetRate then
    match rate with
    | Some r =>
        if fge r rate_min && fle r rate_max then
          let s := set_PlaybackRate r s in
          if fgt r fzero then set_Status StatusPlaying s else s
        else s
    | None => s
    end
  else if kind =? CmdLoadMedia then
    set_PlaybackRate fzero (set_Status StatusPaused (set_MediaTimeMs 0 (set_MediaID mediaID s)))
  else s (* CmdNext, CmdPrevious and unknown kinds *).

Definition ApplyCommand (kind : CommandKind) (seekToMs : option Z) (rate : option float64)
    (mediaID : string) (nowMs : Z) (now : time) (s : SyncState) : SyncState :=
  let s := if Status s =? StatusPlaying
           then set_MediaTimeMs (AdvanceMediaTime s nowMs) s else s in
  let s := set_WallTimeMs nowMs s in
  let s := applyKind kind seekToMs rate mediaID s in
  set_EpochStarted now (bumpEpoch s).

(** ** Frame lemmas *)

(** Every branch of the command switch, without keeping the float tests. *)
Ltac apply_kind_cases :=
  repeat match goal with |- context [if ?b then _ else _] => destruct b end.

Section frame.
Context (kind : CommandKind) (seek : option Z) (rate : option float64) (mid : string)
        (nowMs : Z) (now : time) (s : SyncState).

Let s' := ApplyCommand kind seek rate mid nowMs now s.

Lemma applyKind_frame t :
  let t' := applyKind kind seek rate mid t in
  RoomID t' = RoomID t /\ WallTimeMs t' = WallTimeMs t /\ Epoch t' = Epoch t /\
  HostID t' = HostID t /\ FencingToken t' = FencingToken t /\
  EpochStarted t' = EpochStarted t /\ OwnerID t' = OwnerID t.
Proof.
  unfold applyKind. destruct seek, rate; apply_kind_cases; split_and!; reflexivity.
Qed.

Lemma ApplyCommand_frame :
  RoomID s' = RoomID s /\ WallTimeMs s' = nowMs /\ Epoch s' = incr64 (Epoch s) /\
  HostID s' = HostID s /\ FencingToken s' = FencingToken s /\
  EpochStarted s' = now /\ OwnerID s' = OwnerID s.
Proof.
  unfold s', ApplyCommand, bumpEpoch; cbn.
  destruct (applyKind_frame
    (set_WallTimeMs nowMs
       (if Status s =? StatusPlaying then set_MediaTimeMs (AdvanceMediaTime s nowMs) s else s)))
    as (-> & -> & -> & -> & -> & _ & ->).
  by destruct (Status s =? StatusPlaying).
Qed.
End frame.

(** ** Position of a state *)

(** No time has elapsed since the sample: the position is the sample. *)
Lemma int64_of_float_zero_mul r :
  is_finite r = true -> int64_of_float (fmul (float_of_Z 0) r) = 0.
Proof. by destruct r. Qed.

(** Sampled values live in [int64]. *)
Definition sampled (s : SyncState) : Prop :=
  in_s 64 (MediaTimeMs s) /\ in_s 64 (WallTimeMs s) /\ is_finite (PlaybackRate s) = true.

Lemma AdvanceMediaTime_at_sample s nowMs :
  in_s 64 (MediaTimeMs s) -> is_finite (PlaybackRate s) = true -> WallTimeMs s = nowMs ->
  AdvanceMediaTime s nowMs = MediaTimeMs s.
Proof.
  intros Hm Hr <-. unfold AdvanceMediaTime. case_match; [done|].
  rewrite Z.sub_diag. change (int64 0) with 0. cbn -[int64_of_float fmul int64 float_of_Z].
  rewrite int64_of_float_zero_mul, Z.add_0_r by done. by apply int64_id.
Qed.

Lemma AdvanceMediaTime_range s nowMs :
  in_s 64 (MediaTimeMs s) -> in_s 64 (AdvanceMediaTime s nowMs).
Proof.
  intros. unfold AdvanceMediaTime. case_match; [done|]. by apply swrap_range.
Qed.

(** A clock that reads before the sample does not rewind the position. *)
Lemma AdvanceMediaTime_skew s nowMs :
  sampled s -> in_s 64 (nowMs - WallTimeMs s) -> nowMs <= WallTimeMs s ->
  AdvanceMediaTime s nowMs = MediaTimeMs s.
Proof.
  intros (Hm & Hw & Hr) Hd Hle. unfold AdvanceMediaTime. case_match; [done|].
  rewrite (int64_id (nowMs - _)) by done.
  replace (if nowMs - WallTimeMs s <? 0 then 0 else nowMs - WallTimeMs s) with 0.
  - cbn -[int64_of_float fmul int64 float_of_Z].
    rewrite int64_of_float_zero_mul, Z.add_0_r by done. by apply int64_id.
  - destruct (nowMs - WallTimeMs s <? 0) eqn:?; go_bool; lia.
Qed.

(** ** The position formula is accurate *)

(** The rates a room can have: stopped, or within the limits of [CmdSetRate]. *)
Definition rate_ok (r : float64) : Prop :=
  valid_binary fprec femax r = true /\
  (feq r fzero = true \/ (fge r rate_min = true /\ fle r rate_max = true)).

#[global] Instance rate_ok_dec r : Decision (rate_ok r).
Proof. unfold rate_ok. apply _. Defined.

(** The scaled value of a positive rate. *)
Definition rate_val (r : float64) : Z :=
  match r with S754_finite false m e => Zpos m * 2 ^ (e + K) | _ => 0 end.

Lemma rate_ok_normal r :
  rate_ok r -> feq r fzero = false ->
  exists m e, normal_pos r m e /\ rate_val r = Zpos m * 2 ^ (e + K) /\
    0 <= rate_val r <= 4 * 2 ^ K.
Proof.
  intros [Hv [H|[Hlo Hhi]]] Hz; [congruence|].
  destruct r as [|[]| |[] m e]; try discriminate. exists m, e. unfold rate_val, normal_pos.
  unfold fge in Hlo. change (SFleb rate_min ?x) with (fle rate_min x) in Hlo.
  rewrite fle_rank in Hlo, Hhi by done. apply bool_decide_eq_true in Hlo, Hhi.
  change (frank rate_min) with (1, -54, 2 ^ 52) in Hlo.
  change (frank rate_max) with (1, -50, 2 ^ 52) in Hhi.
  cbn [frank rank_le] in Hlo, Hhi.
  unfold valid_binary, bounded, canonical_mantissa in Hv. go_bool.
  rewrite digits2_pos_log2, fexp_eq in H. unfold emin64 in H.
  assert (Z.log2 (Zpos m) = 52) as Hl by lia.
  split_and!; [done|done|change (- K / 2) with (-2000); lia|done|lia|].
  assert (Zpos m < 2 ^ 53) by (apply log2_lt_pow2'; lia).
  assert (4 * 2 ^ K = 2 ^ 52 * 2 ^ (-50 + K)) as ->
    by (change 4 with (2 ^ 2); rewrite <- !pow2_add by (unfold K; lia); f_equal; lia).
  destruct (Z.eq_dec e (-50)) as [->|].
  - apply Z.mul_le_mono_nonneg_r; [apply Z.pow_nonneg; lia|lia].
  - transitivity (2 ^ 53 * 2 ^ (-51 + K)).
    + apply Z.mul_le_mono_nonneg; [lia|lia|apply Z.pow_nonneg; lia|].
      apply Z.pow_le_mono_r; lia.
    + rewrite <- !pow2_add by (unfold K; lia). apply Z.pow_le_mono_r; unfold K; lia.
Qed.

(** Milliseconds of media played in [elapsed] milliseconds of wall clock. *)
Definition progress (r : float64) (elapsed : Z) : Z :=
  int64_of_float (fmul (float_of_Z elapsed) r).

Definition progress_exact (r : float64) (elapsed : Z) : Z :=
  RN (RN (elapsed * 2 ^ K) * rate_val r / 2 ^ K) / 2 ^ K.

Lemma K_pos : 0 < 2 ^ K.
Proof. apply pow2_pos. unfold K. lia. Qed.

Lemma scaled_product_bound r elapsed :
  0 <= elapsed < 2 ^ 59 -> 0 <= rate_val r <= 4 * 2 ^ K ->
  0 <= RN (elapsed * 2 ^ K) * rate_val r / 2 ^ K < 2 ^ (62 + K).
Proof.
  intros He Hr. pose proof K_pos. rewrite pow2_add by (unfold K; lia).
  assert (0 <= RN (elapsed * 2 ^ K) <= 2 ^ (59 + K)) as HRN.
  { split; [apply RN_nonneg; nia|]. apply RN_lt_pow; [|unfold emin64; lia].
    rewrite pow2_add by (unfold K; lia). nia. }
  rewrite pow2_add in HRN by (unfold K; lia). split; [apply Z.div_pos; nia|].
  apply Z.le_lt_trans with (2 ^ 59 * 2 ^ K * (4 * 2 ^ K) / 2 ^ K).
  - apply Z.div_le_mono; [done|]. apply Z.mul_le_mono_nonneg; lia.
  - replace (2 ^ 59 * 2 ^ K * (4 * 2 ^ K)) with (2 ^ 61 * 2 ^ K * 2 ^ K) by lia.
    rewrite Z.div_mul by lia. apply Z.mul_lt_mono_pos_r; lia.
Qed.

Lemma progress_eq r elapsed :
  rate_ok r -> feq r fzero = false -> 0 <= elapsed < 2 ^ 59 ->
  progress r elapsed = progress_exact r elapsed /\ 0 <= progress_exact r elapsed <= 2 ^ 62.
Proof.
  intros Hr Hz He. destruct (rate_ok_normal r Hr Hz) as (m & e & Hn & Hv & Hb).
  pose proof (scaled_product_bound r elapsed He Hb) as HX. pose proof K_pos as HK.
  pose proof (RN_lt_pow _ 62 HX ltac:(unfold emin64; lia)) as HR.
  assert (2 ^ (62 + K) < 2 ^ (1024 + K)) by (apply Z.pow_lt_mono_r; unfold K; lia).
  assert (0 <= progress_exact r elapsed <= 2 ^ 62).
  { unfold progress_exact. split.
    - apply Z.div_pos; [apply RN_nonneg; lia|done].
    - rewrite pow2_add in HR by (unfold K; lia).
      apply (Z.div_le_mono _ _ (2 ^ K) HK) in HR. by rewrite Z.div_mul in HR by lia. }
  split; [|done].
  pose proof (float_of_Z_rounded elapsed ltac:(lia)) as Hf.
  pose proof (float_of_Z_finite elapsed ltac:(lia)) as Hfin.
  pose proof (fmul_rounded _ _ r m e Hf Hfin Hn) as Hm. rewrite <- Hv in Hm.
  unfold progress, int64_of_float.
  rewrite (ftrunc_rounded _ _ Hm) by (eapply rounded_finite; [exact Hm|lia]).
  fold (progress_exact r elapsed). rewrite bool_decide_eq_true_2; [done|]. unfold in_s. lia.
Qed.

Lemma progress_exact_mono r a b :
  0 <= rate_val r -> 0 <= a <= b -> progress_exact r a <= progress_exact r b.
Proof.
  intros Hr Hab. pose proof K_pos. unfold progress_exact. apply Z.div_le_mono; [done|].
  assert (0 <= RN (a * 2 ^ K) <= RN (b * 2 ^ K)).
  { split; [apply RN_nonneg; nia|]. apply RN_mono. nia. }
  apply RN_mono. split; [apply Z.div_pos; nia|]. apply Z.div_le_mono; [done|nia].
Qed.

(** Away from overflow the position is the sample plus the progress. *)
Lemma AdvanceMediaTime_progress s nowMs :
  rate_ok (PlaybackRate s) -> feq (PlaybackRate s) fzero = false ->
  - 2 ^ 61 <= MediaTimeMs s <= 2 ^ 61 -> - 2 ^ 62 < nowMs - WallTimeMs s < 2 ^ 59 ->
  AdvanceMediaTime s nowMs =
    MediaTimeMs s + progress_exact (PlaybackRate s) (Z.max 0 (nowMs - WallTimeMs s)).
Proof.
  intros Hr Hz Hm He. unfold AdvanceMediaTime. rewrite Hz.
  rewrite (int64_id (nowMs - _)) by (unfold in_s; lia).
  replace (if nowMs - WallTimeMs s <? 0 then 0 else nowMs - WallTimeMs s)
    with (Z.max 0 (nowMs - WallTimeMs s)) by (destruct (Z.ltb_spec (nowMs - WallTimeMs s) 0); lia).
  set (d := Z.max 0 (nowMs - WallTimeMs s)).
  destruct (progress_eq (PlaybackRate s) d Hr Hz ltac:(unfold d; lia)) as [Heq Hb].
  unfold progress in Heq. rewrite Heq. apply int64_id. unfold in_s. lia.
Qed.

Lemma RN_int z : 0 <= z < 2 ^ 53 -> RN (z * 2 ^ K) = z * 2 ^ K.
Proof. intros. apply (RN_exact z 0); [done|unfold emin64; lia]. Qed.

Lemma progress_exact_1 d : 0 <= d < 2 ^ 53 -> progress_exact rate_1 d = d.
Proof.
  intros Hd. pose proof K_pos. unfold progress_exact.
  assert (rate_val rate_1 = 2 ^ K) as ->.
  { change rate_1 with (S754_finite false 4503599627370496 (-52)). cbn [rate_val].
    change 4503599627370496 with (2 ^ 52). rewrite <- pow2_add by (unfold K; lia). f_equal. }
  rewrite Z.div_mul, (RN_int d Hd), (RN_int d Hd), Z.div_mul by lia. done.
Qed.

(** The truncated product is within a millisecond and a quarter of the exact one. *)
Lemma progress_exact_error r d :
  0 <= d < 2 ^ 50 -> 0 <= rate_val r <= 4 * 2 ^ K ->
  4 * Z.abs (progress_exact r d * 2 ^ K - d * rate_val r) <= 5 * 2 ^ K.
Proof.
  intros Hd Hr. pose proof K_pos as HK. unfold progress_exact. rewrite RN_int by lia.
  replace (d * 2 ^ K * rate_val r) with (d * rate_val r * 2 ^ K) by ring.
  rewrite Z.div_mul by lia. set (X := d * rate_val r).
  assert (0 <= X < 2 ^ (52 + K)) as HX by (rewrite pow2_add by (unfold K; lia); unfold X; nia).
  assert (4 * Z.abs (RN X - X) <= 2 ^ K) as HE.
  { pose proof (RN_error X) as H1. assert (2 ^ lastplace X <= 2 ^ (K - 1)) as H2.
    { apply Z.pow_le_mono_r; [lia|]. unfold lastplace, emin64.
      destruct (Z.eq_dec X 0) as [->|]; [unfold K; simpl; lia|].
      destruct HX as [? HX2]. apply Z.log2_lt_pow2 in HX2; lia. }
    assert (2 ^ K = 2 * 2 ^ (K - 1)) as H3 by (apply pow_half; unfold K; lia). lia. }
  pose proof (Z.div_mod (RN X) (2 ^ K) ltac:(lia)). pose proof (Z.mod_pos_bound (RN X) (2 ^ K) HK).
  lia.
Qed.

(** ** Invariants of the state *)

(** A room that does not play has rate zero: its position stands still. *)
Definition still_unless_playing (s : SyncState) : Prop :=
  Status s = StatusPlaying \/ feq (PlaybackRate s) fzero = true.

Lemma feq_zero_finite r : feq r fzero = true -> is_finite r = true.
Proof. by destruct r as [|[]| |[]]. Qed.

Lemma rate_ok_finite r : rate_ok r -> is_finite r = true.
Proof.
  intros [_ [H|[H1 H2]]]; [by apply feq_zero_finite|].
  by apply (between_finite rate_min r rate_max).
Qed.

Lemma rate_fixed_ok : rate_ok fzero /\ rate_ok rate_1.
Proof.
  split; (split; [done|]); [by left|right]. vm_compute. done.
Qed.

Lemma applyKind_rate_ok kind seek rate mid s :
  (forall r, rate = Some r -> valid_binary fprec femax r = true) ->
  rate_ok (PlaybackRate s) -> rate_ok (PlaybackRate (applyKind kind seek rate mid s)).
Proof.
  intros Hv Hs. pose proof rate_fixed_ok as [H0 H1]. unfold applyKind.
  destruct (kind =? CmdPlay); [by simpl; case_match|].
  destruct (kind =? CmdPause); [done|].
  destruct (kind =? CmdSeek); [by destruct seek|].
  destruct (kind =? CmdSetRate).
  { destruct rate as [r|]; [|done]. destruct (fge r rate_min) eqn:E1; [|done].
    destruct (fle r rate_max) eqn:E2; [|done]. simpl.
    replace (PlaybackRate _) with r by (by case_match). split; auto. }
  by destruct (kind =? CmdLoadMedia).
Qed.

Lemma applyKind_still kind seek rate mid s :
  still_unless_playing s -> still_unless_playing (applyKind kind seek rate mid s).
Proof.
  unfold still_unless_playing. intros Hs. unfold applyKind.
  destruct (kind =? CmdPlay); [left; by simpl; case_match|].
  destruct (kind =? CmdPause); [by right|].
  destruct (kind =? CmdSeek); [by destruct seek|].
  destruct (kind =? CmdSetRate).
  { destruct rate as [r|]; [|done]. destruct (fge r rate_min) eqn:E1; [|done].
    destruct (fle r rate_max) eqn:E2; [|done]. simpl.
    destruct (fgt r fzero) eqn:E3; [by left|]. by destruct r as [|[]| |[]]. }
  by destruct (kind =? CmdLoadMedia); [right|].
Qed.

(** The media position a command starts from. *)
Lemma ApplyCommand_position kind seek rate mid nowMs now s :
  kind <> CmdSeek -> kind <> CmdLoadMedia ->
  MediaTimeMs (ApplyCommand kind seek rate mid nowMs now s) =
    if Status s =? StatusPlaying then AdvanceMediaTime s nowMs else MediaTimeMs s.
Proof.
  intros H1 H2. unfold ApplyCommand, applyKind.
  apply Z.eqb_neq in H1, H2. rewrite H1, H2.
  destruct (Status s =? StatusPlaying), seek, rate; apply_kind_cases; reflexivity.
Qed.

Lemma ApplyCommand_rate kind seek rate mid nowMs now s :
  PlaybackRate (ApplyCommand kind seek rate mid nowMs now s) =
    PlaybackRate (applyKind kind seek rate mid s).
Proof.
  unfold ApplyCommand, applyKind.
  destruct (Status s =? StatusPlaying), seek, rate;
    cbn [PlaybackRate set_Status set_WallTimeMs set_MediaTimeMs]; apply_kind_cases; reflexivity.
Qed.

Lemma ApplyCommand_status kind seek rate mid nowMs now s :
  Status (ApplyCommand kind seek rate mid nowMs now s) = Status (applyKind kind seek rate mid s).
Proof.
  unfold ApplyCommand, applyKind.
  destruct (Status s =? StatusPlaying), seek, rate;
    cbn [PlaybackRate set_Status set_WallTimeMs set_MediaTimeMs]; apply_kind_cases; reflexivity.
Qed.

(** The position right after a command, as a function of the one right before. *)
Definition positionAfter (kind : CommandKind) (seek : option Z) (before : Z) : Z :=
  if kind =? CmdSeek then default before seek
  else if kind =? CmdLoadMedia then 0 else before.

Lemma ApplyCommand_sample kind seek rate mid nowMs now s :
  MediaTimeMs (ApplyCommand kind seek rate mid nowMs now s) =
    positionAfter kind seek
      (if Status s =? StatusPlaying then AdvanceMediaTime s nowMs else MediaTimeMs s).
Proof.
  unfold positionAfter. destruct (Z.eqb_spec kind CmdSeek) as [->|].
  { unfold ApplyCommand, applyKind. by destruct seek, (Status s =? StatusPlaying). }
  destruct (Z.eqb_spec kind CmdLoadMedia) as [->|]; [done|].
  by apply ApplyCommand_position.
Qed.

Lemma ApplyCommand_still kind seek rate mid nowMs now s :
  still_unless_playing s -> still_unless_playing (ApplyCommand kind seek rate mid nowMs now s).
Proof.
  unfold still_unless_playing at 2. rewrite ApplyCommand_rate, ApplyCommand_status. apply applyKind_still.
Qed.

Lemma ApplyCommand_keeps kind seek rate mid nowMs now s :
  (forall r, rate = Some r -> valid_binary fprec femax r = true) ->
  (forall t, seek = Some t -> in_s 64 t) ->
  in_s 64 (MediaTimeMs s) -> rate_ok (PlaybackRate s) ->
  let s' := ApplyCommand kind seek rate mid nowMs now s in
  rate_ok (PlaybackRate s') /\ in_s 64 (MediaTimeMs s').
Proof.
  intros Hv Hs Hm Hr s'. unfold s'. split.
  - rewrite ApplyCommand_rate. by apply applyKind_rate_ok.
  - rewrite ApplyCommand_sample. pose proof (AdvanceMediaTime_range s nowMs Hm).
    unfold positionAfter. destruct seek; repeat case_match; simpl; eauto. all: unfold in_s; lia.
Qed.

(** ** Theorems *)

(** While the state stays the same, the authoritative position never runs
    backwards, and it is never behind the sample it is computed from, at any
    allowed rate. *)
Theorem AdvanceMediaTime_monotone s t1 t2 :
  rate_ok (PlaybackRate s) -> - 2 ^ 61 <= MediaTimeMs s <= 2 ^ 61 ->
  - 2 ^ 62 < t1 - WallTimeMs s -> t1 <= t2 -> t2 - WallTimeMs s < 2 ^ 59 ->
  MediaTimeMs s <= AdvanceMediaTime s t1 <= AdvanceMediaTime s t2.
Proof.
  intros Hr Hm H1 H12 H2. destruct (feq (PlaybackRate s) fzero) eqn:Hz.
  { unfold AdvanceMediaTime. rewrite Hz. lia. }
  rewrite !AdvanceMediaTime_progress by (done || lia).
  destruct (rate_ok_normal _ Hr Hz) as (m & e & _ & _ & Hv & _).
  pose proof (progress_eq _ (Z.max 0 (t1 - WallTimeMs s)) Hr Hz ltac:(lia)) as [_ H0].
  pose proof (progress_exact_mono (PlaybackRate s) (Z.max 0 (t1 - WallTimeMs s))
                (Z.max 0 (t2 - WallTimeMs s)) Hv ltac:(lia)). lia.
Qed.

(** A room that has played for an hour at 1.25x. *)
Definition playing_state : SyncState :=
  mkSyncState "r" "m" StatusPlaying 5000 1700000000000 (flit 5 4) 3 "host" 1 0 "host".

Lemma AdvanceMediaTime_monotone_witness :
  5000 <= AdvanceMediaTime playing_state 1700003600000
       <= AdvanceMediaTime playing_state 1700003600001.
Proof.
  apply (AdvanceMediaTime_monotone playing_state 1700003600000 1700003600001);
    [|simpl; lia..].
  by apply (bool_decide_unpack (rate_ok (flit 5 4))); vm_compute.
Defined.

(** C13. The position formula is accurate: for less than [2^50] ms of playback
    the truncated float product is within 1.25 ms of the exact product of the
    elapsed time and the rate (both scaled by [2^K]), and at rate 1.0 it is
    exact. *)
Theorem AdvanceMediaTime_accurate s nowMs :
  rate_ok (PlaybackRate s) -> feq (PlaybackRate s) fzero = false ->
  - 2 ^ 61 <= MediaTimeMs s <= 2 ^ 61 -> 0 <= nowMs - WallTimeMs s < 2 ^ 50 ->
  4 * Z.abs ((AdvanceMediaTime s nowMs - MediaTimeMs s) * 2 ^ K
             - (nowMs - WallTimeMs s) * rate_val (PlaybackRate s)) <= 5 * 2 ^ K /\
  (PlaybackRate s = rate_1 ->
   AdvanceMediaTime s nowMs = MediaTimeMs s + (nowMs - WallTimeMs s)).
Proof.
  intros Hr Hz Hm Hd. rewrite AdvanceMediaTime_progress by (done || lia).
  rewrite Z.max_r by lia. set (d := nowMs - WallTimeMs s) in *. split.
  - destruct (rate_ok_normal _ Hr Hz) as (m & e & _ & _ & Hv).
    replace (MediaTimeMs s + _ - MediaTimeMs s) with (progress_exact (PlaybackRate s) d) by lia.
    by apply progress_exact_error.
  - intros ->. rewrite progress_exact_1; lia.
Qed.

Lemma AdvanceMediaTime_accurate_witness :
  4 * Z.abs ((AdvanceMediaTime playing_state 1700003600000 - 5000) * 2 ^ K
             - 3600000 * rate_val (flit 5 4)) <= 5 * 2 ^ K.
Proof.
  apply (AdvanceMediaTime_accurate playing_state 1700003600000); [| |simpl; lia..].
  - by apply (bool_decide_unpack (rate_ok (flit 5 4))); vm_compute.
  - by vm_compute.
Defined.

(** A command is continuous in the position: at the instant it is applied
    the position is the one before it, except that a seek moves to its target
    and loading media restarts at zero.  In particular a pause keeps the
    position playback had reached. *)
Theorem ApplyCommand_continuous kind seek rate mid nowMs now s :
  (forall r, rate = Some r -> valid_binary fprec femax r = true) ->
  (forall t, seek = Some t -> in_s 64 t) ->
  in_s 64 (MediaTimeMs s) -> rate_ok (PlaybackRate s) -> still_unless_playing s ->
  AdvanceMediaTime (ApplyCommand kind seek rate mid nowMs now s) nowMs =
    positionAfter kind seek (AdvanceMediaTime s nowMs).
Proof.
  intros Hv Hs Hm Hr Hst.
  assert ((if Status s =? StatusPlaying then AdvanceMediaTime s nowMs else MediaTimeMs s)
          = AdvanceMediaTime s nowMs) as Hpos.
  { destruct (Z.eqb_spec (Status s) StatusPlaying); [done|].
    destruct Hst as [?|Hz]; [done|]. unfold AdvanceMediaTime. by rewrite Hz. }
  rewrite AdvanceMediaTime_at_sample.
  - by rewrite ApplyCommand_sample, Hpos.
  - rewrite ApplyCommand_sample, Hpos. pose proof (AdvanceMediaTime_range s nowMs Hm).
    unfold positionAfter. destruct seek; repeat case_match; simpl; eauto. all: unfold in_s; lia.
  - rewrite ApplyCommand_rate. by apply rate_ok_finite, applyKind_rate_ok.
  - apply ApplyCommand_frame.
Qed.

Lemma ApplyCommand_continuous_witness :
  AdvanceMediaTime (ApplyCommand CmdPause None None "" 1700003600000 0 playing_state) 1700003600000
  = AdvanceMediaTime playing_state 1700003600000.
Proof.
  apply (ApplyCommand_continuous CmdPause None None "" 1700003600000 0 playing_state);
    [done|done|unfold in_s; simpl; lia| |by left].
  by apply (bool_decide_unpack (rate_ok (flit 5 4))); vm_compute.
Defined.

(** C33. The type invariant of the playback state: whatever the command (a wire
    value outside the enumeration included), the rate stays 0 or within
    [0.25, 4.0], a room that is not playing has rate 0, and the position and
    the sample time stay in [int64]. *)
Theorem ApplyCommand_invariant kind seek rate mid nowMs now s :
  (forall r, rate = Some r -> valid_binary fprec femax r = true) ->
  (forall t, seek = Some t -> in_s 64 t) -> in_s 64 nowMs ->
  in_s 64 (MediaTimeMs s) -> rate_ok (PlaybackRate s) -> still_unless_playing s ->
  let s' := ApplyCommand kind seek rate mid nowMs now s in
  rate_ok (PlaybackRate s') /\ still_unless_playing s' /\
  in_s 64 (MediaTimeMs s') /\ in_s 64 (WallTimeMs s') /\ in_u 64 (Epoch s').
Proof.
  intros Hv Hs Hn Hm Hr Hst s'.
  destruct (ApplyCommand_keeps kind seek rate mid nowMs now s Hv Hs Hm Hr) as (H1 & H3).
  pose proof (ApplyCommand_frame kind seek rate mid nowMs now s) as (_ & Hw & He & _).
  split_and!; [done|by apply ApplyCommand_still|done|by unfold s'; rewrite Hw|].
  unfold s'. rewrite He. by apply uwrap_range.
Qed.

Lemma ApplyCommand_invariant_witness :
  rate_ok (PlaybackRate (ApplyCommand CmdSetRate None (Some (flit 2 1)) "" 1700003600000 0
                           playing_state)).
Proof.
  apply (ApplyCommand_invariant CmdSetRate None (Some (flit 2 1)) "" 1700003600000 0 playing_state);
    [|done|unfold in_s; lia|unfold in_s; simpl; lia| |by left].
  - intros r [= <-]. by vm_compute.
  - by apply (bool_decide_unpack (rate_ok (flit 5 4))); vm_compute.
Defined.
