(* ===== verification/Heartbeat.v ===== *)
(** * Client heartbeats

    Model of [apps/sync-service/internal/domain/heartbeat.go]: the
    per-client record with its four-timestamp exchange and EWMA smoothing,
    and the aggregations over clients (median by an in-place insertion sort,
    largest absolute value).

    An index of a slice that is out of range panics; the sort is therefore an
    [option], and it is proved never to be [None]. *)

From S2P Require Import Prelude GoNum GoFloat GoRound.

(** ** One client *)

Record ClientHeartbeat : Type := mkHeartbeat {
  SmoothedRTT : float64;
  SmoothedOffset : float64;
  DriftMs : float64;
  LastSeen : time;
  prevT1 : Z;
  prevT2 : Z;
  prevT3 : Z;
  hasPrev : bool;
}.

(** [&ClientHeartbeat{}]. *)
Definition heartbeat_zero : ClientHeartbeat :=
  mkHeartbeat fzero fzero fzero time_zero 0 0 0 false.

Definition ewmaAlpha : float64 := flit 1 4.
(** The constant expression [1-ewmaAlpha]. *)
Definition ewmaBeta : float64 := flit 3 4.

Definition set_DriftMs (d : float64) (c : ClientHeartbeat) : ClientHeartbeat :=
  mkHeartbeat (SmoothedRTT c) (SmoothedOffset c) d (LastSeen c)
              (prevT1 c) (prevT2 c) (prevT3 c) (hasPrev c).

(** The clamped round-trip sample of the exchange that the heartbeat closes. *)
Definition rttSample (c : ClientHeartbeat) (t4 : Z) : float64 :=
  let rtt := fsub (float_of_Z (int64 (t4 - prevT1 c)))
                  (float_of_Z (int64 (prevT3 c - prevT2 c))) in
  if flt rtt fzero then fzero else rtt.

Definition offsetSample (c : ClientHeartbeat) (t4 : Z) : float64 :=
  fdiv (fadd (float_of_Z (int64 (prevT2 c - prevT1 c)))
             (float_of_Z (int64 (prevT3 c - t4)))) (flit 2 1).

Definition ewma (sample old : float64) : float64 :=
  fadd (fmul ewmaAlpha sample) (fmul ewmaBeta old).

Definition Update (t1 t2 t3 : Z) (now : time) (c : ClientHeartbeat) : ClientHeartbeat :=
  if negb (hasPrev c) then
    mkHeartbeat (SmoothedRTT c) (SmoothedOffset c) (DriftMs c) now t1 t2 t3 true
  else
    let t4 := t1 in
    let rtt := rttSample c t4 in
    let offset := offsetSample c t4 in
    let '(srtt, soff) :=
      if feq (SmoothedRTT c) fzero then (rtt, offset)
      else (ewma rtt (SmoothedRTT c), ewma offset (SmoothedOffset c)) in
    mkHeartbeat srtt soff (DriftMs c) now t1 t2 t3 (hasPrev c).

Definition IsAlive (c : ClientHeartbeat) (now : time) (timeout : duration) : bool :=
  time_Sub now (LastSeen c) <? timeout.

Definition ClientMediaTimeAt (c : ClientHeartbeat) (clientMediaTimeMs : Z) : float64 :=
  fadd (float_of_Z clientMediaTimeMs) (SmoothedOffset c).

Definition HeartbeatReset (c : ClientHeartbeat) : ClientHeartbeat :=
  mkHeartbeat fzero fzero fzero (LastSeen c) 0 0 0 false.

(** ** Aggregation over clients *)

(** The inner loop [for j >= 0 && sorted[j] > key]; [k] is [j + 1].  Returns
    the slice and the final [j + 1]. *)
Fixpoint shiftLoop (sorted : list float64) (key : float64) (k : nat)
    : option (list float64 * nat) :=
  match k with
  | O => Some (sorted, O)
  | S j =>
      x ← sorted !! j;
      if fgt x key then shiftLoop (<[S j := x]> sorted) key j else Some (sorted, k)
  end.

(** One round of the outer loop. *)
Definition insertAt (sorted : list float64) (i : nat) : option (list float64) :=
  key ← sorted !! i;
  '(sorted, k) ← shiftLoop sorted key i;
  if decide (k < length sorted)%nat then Some (<[k := key]> sorted) else None.

(** [for i := 1; i < len(sorted); i++], [n] rounds from [i]. *)
Fixpoint sortLoop (sorted : list float64) (i n : nat) : option (list float64) :=
  match n with
  | O => Some sorted
  | S n => sorted ← insertAt sorted i; sortLoop sorted (S i) n
  end.

Definition insertionSort (vals : list float64) : option (list float64) :=
  sortLoop vals 1 (length vals - 1).

Definition MedianFloats (vals : list float64) : option float64 :=
  match vals with
  | [] => Some fzero
  | _ =>
      sorted ← insertionSort vals;
      let mid := (length sorted / 2)%nat in
      if (length sorted mod 2 =? 0)%nat then
        a ← sorted !! (mid - 1)%nat;
        b ← sorted !! mid;
        Some (fdiv (fadd a b) (flit 2 1))
      else sorted !! mid
  end.

(** Written out a second time in the source. *)
Definition MedianRTT (rtts : list float64) : option float64 :=
  match rtts with
  | [] => Some fzero
  | _ =>
      sorted ← insertionSort rtts;
      let mid := (length sorted / 2)%nat in
      if (length sorted mod 2 =? 0)%nat then
        a ← sorted !! (mid - 1)%nat;
        b ← sorted !! mid;
        Some (fdiv (fadd a b) (flit 2 1))
      else sorted !! mid
  end.

(** The body of the loop. *)
Definition maxAbsStep (max v : float64) : float64 :=
  let a := fabs v in if fgt a max then a else max.

Definition MaxAbsFloats (vals : list float64) : float64 :=
  match vals with
  | [] => fzero
  | v0 :: rest =>
      fold_left maxAbsStep rest (fabs v0)
  end.

(** ** The sort *)

Definition no_nan (l : list float64) : Prop := Forall (fun x => is_nan x = false) l.
Definition fle_rel (x y : float64) : Prop := fle x y = true.
#[global] Instance fle_rel_dec x y : Decision (fle_rel x y).
Proof. unfold fle_rel. apply _. Defined.

(** The inner loop moves the elements greater than the key one to the right. *)
Lemma shiftLoop_spec key pre x suf :
  exists p1 p2 arr, pre = p1 ++ p2 /\
    shiftLoop (pre ++ x :: suf) key (length pre) = Some (arr, length p1) /\
    (length p1 < length arr)%nat /\
    <[length p1 := key]> arr = p1 ++ key :: p2 ++ suf /\
    Forall (fun y => fgt y key = true) p2 /\
    (forall y, last p1 = Some y -> fgt y key = false).
Proof.
  revert x suf. induction pre as [|y pre IH] using rev_ind; intros x suf.
  - exists [], [], (x :: suf). simpl. repeat split; [lia|constructor|done].
  - rewrite length_app, Nat.add_comm. simpl.
    rewrite <- app_assoc; simpl. rewrite list_lookup_middle by done; simpl.
    destruct (fgt y key) eqn:E.
    + replace (<[S (length pre):=y]> (pre ++ y :: x :: suf)) with (pre ++ y :: y :: suf).
      2: { rewrite insert_app_r_alt by lia.
           by replace (S (length pre) - length pre)%nat with 1%nat by lia. }
      destruct (IH y (y :: suf)) as (p1 & p2 & arr & -> & Hs & Hl & Hi & Hf & Hla).
      exists p1, (p2 ++ [y]), arr.
      split_and!; [by rewrite app_assoc|done|done|by rewrite <- app_assoc| |done].
      apply Forall_app; auto.
    + exists (pre ++ [y]), [], (pre ++ y :: x :: suf).
      rewrite app_nil_r, !length_app, Nat.add_comm. simpl. repeat split; [lia| |constructor|].
      * rewrite insert_app_r_alt by lia.
        replace (S (length pre) - length pre)%nat with 1%nat by lia. simpl.
        by rewrite <- app_assoc.
      * intros z. rewrite last_snoc. congruence.
Qed.

Lemma fle_rel_trans_no_nan : forall x y z,
  is_nan x = false -> is_nan y = false -> is_nan z = false ->
  fle_rel x y -> fle_rel y z -> fle_rel x z.
Proof. unfold fle_rel. intros. by eapply (fle_trans x y z). Qed.

(** A sorted list stays sorted when the key is placed by the inner loop. *)
Lemma insert_sorted p1 p2 key :
  no_nan (p1 ++ p2) -> is_nan key = false ->
  StronglySorted fle_rel (p1 ++ p2) ->
  Forall (fun y => fgt y key = true) p2 ->
  (forall y, last p1 = Some y -> fgt y key = false) ->
  StronglySorted fle_rel (p1 ++ key :: p2).
Proof.
  intros Hn Hk Hs Hp2 Hla. apply Forall_app in Hn as [Hn1 Hn2].
  assert (StronglySorted fle_rel (key :: p2)) as Hkey.
  { constructor; [by eapply StronglySorted_app_1_r|].
    eapply Forall_impl; [exact Hp2|]. intros y. apply flt_fle. }
  assert (Forall (fun y => fle_rel y key) p1) as Hp1.
  { destruct p1 as [|z p1 _] using rev_ind; [constructor|].
    specialize (Hla z). rewrite last_snoc in Hla. specialize (Hla eq_refl).
    apply Forall_app in Hn1 as [Hn1 Hz]. rewrite Forall_singleton in Hz.
    assert (fle_rel z key) as Hzk by exact (flt_false_fle key z Hk Hz Hla).
    apply Forall_app. split; [|by apply Forall_singleton].
    rewrite Forall_forall in *. intros y Hy.
    eapply (fle_rel_trans_no_nan y z key); auto.
    rewrite <- app_assoc in Hs. simpl in Hs.
    eapply StronglySorted_app_1_elem_of; [exact Hs|exact Hy|by left]. }
  apply StronglySorted_app_2; [|by eapply StronglySorted_app_1_l|done].
  intros y1 y2 Hy1 Hy2. rewrite Forall_forall in Hp1. specialize (Hp1 _ Hy1).
  apply elem_of_cons in Hy2 as [->|Hy2]; [done|].
  eapply StronglySorted_app_1_elem_of; eauto.
Qed.

Lemma insertAt_spec pre key suf :
  exists p1 p2, pre = p1 ++ p2 /\
    insertAt (pre ++ key :: suf) (length pre) = Some (p1 ++ key :: p2 ++ suf) /\
    Forall (fun y => fgt y key = true) p2 /\
    (forall y, last p1 = Some y -> fgt y key = false).
Proof.
  destruct (shiftLoop_spec key pre key suf) as (p1 & p2 & arr & -> & Hs & Hl & Hi & Hf & Hla).
  exists p1, p2. split_and!; [done| |done|done].
  unfold insertAt. rewrite list_lookup_middle by done. simpl. rewrite Hs. simpl.
  rewrite decide_True by done. by rewrite Hi.
Qed.

(** The outer loop extends the sorted prefix to the whole slice. *)
Lemma sortLoop_spec pre suf :
  exists l, sortLoop (pre ++ suf) (length pre) (length suf) = Some l /\
    l ≡ₚ pre ++ suf /\
    (no_nan (pre ++ suf) -> StronglySorted fle_rel pre -> StronglySorted fle_rel l).
Proof.
  revert pre. induction suf as [|key suf IH]; intros pre; simpl.
  { exists pre. by rewrite app_nil_r. }
  destruct (insertAt_spec pre key suf) as (p1 & p2 & -> & -> & Hf & Hla). simpl.
  destruct (IH (p1 ++ key :: p2)) as (l & Hl & Hp & Hs).
  exists l. split_and!.
  - rewrite <- Hl. rewrite <- app_assoc. simpl. f_equal. rewrite !length_app. simpl. lia.
  - rewrite Hp, <- !app_assoc. simpl. f_equiv. by rewrite Permutation_middle.
  - intros Hn Hsrt. apply Hs.
    + unfold no_nan in *. rewrite !Forall_app, Forall_cons in *. tauto.
    + unfold no_nan in Hn. rewrite !Forall_app, Forall_cons in Hn.
      apply insert_sorted; try tauto. by apply Forall_app; tauto.
Qed.

Lemma insertionSort_spec vals :
  exists l, insertionSort vals = Some l /\ l ≡ₚ vals /\
    (no_nan vals -> StronglySorted fle_rel l).
Proof.
  unfold insertionSort. destruct vals as [|v vals]; [exists []; split_and!; [done|done|constructor]|].
  destruct (sortLoop_spec [v] vals) as (l & Hl & Hp & Hs).
  exists l. simpl in *. rewrite Nat.sub_0_r. split_and!; [done|done|].
  intros Hn. apply Hs; [done|]. by repeat constructor.
Qed.

#[local] Arguments Nat.div : simpl never.
#[local] Arguments Nat.modulo : simpl never.

(** What a median is: the middle of the sorted list, or the mean of the two
    middle values. *)
Definition median_of (l : list float64) (m : float64) : Prop :=
  if (length l mod 2 =? 0)%nat then
    exists a b, l !! (length l / 2 - 1)%nat = Some a /\ l !! (length l / 2)%nat = Some b /\
      m = fdiv (fadd a b) (flit 2 1)
  else l !! (length l / 2)%nat = Some m.

Lemma MedianFloats_spec vals :
  vals <> [] ->
  exists m l, MedianFloats vals = Some m /\ l ≡ₚ vals /\
    (no_nan vals -> StronglySorted fle_rel l) /\ median_of l m.
Proof.
  intros Hne. destruct (insertionSort_spec vals) as (l & Hl & Hp & Hs).
  destruct vals as [|v vals]; [done|]. unfold MedianFloats, median_of. rewrite Hl. simpl.
  assert (length l <> 0)%nat by (rewrite Hp; done).
  pose proof (Nat.div_lt (length l) 2 ltac:(lia) ltac:(lia)).
  destruct (lookup_lt_is_Some_2 l (length l / 2)) as [b Hb]; [done|].
  destruct (Nat.eqb_spec (length l mod 2) 0) as [E|E].
  - destruct (lookup_lt_is_Some_2 l (length l / 2 - 1)) as [a Ha]; [lia|].
    rewrite Ha, Hb. simpl. eexists _, l. split_and!; [done..|].
    rewrite E. simpl. eauto.
  - rewrite Hb. exists b, l. split_and!; [done..|]. apply Nat.eqb_neq in E. by rewrite E.
Qed.

Lemma MedianRTT_MedianFloats vals : MedianRTT vals = MedianFloats vals.
Proof. done. Qed.

(** ** The largest absolute value *)

Lemma MaxAbs_fold_spec rest m0 :
  no_nan rest -> is_nan m0 = false ->
  let m := fold_left maxAbsStep rest m0 in
  is_nan m = false /\ fle m0 m = true /\
  (forall v, v ∈ rest -> fle (fabs v) m = true) /\ (m = m0 \/ exists v, v ∈ rest /\ m = fabs v).
Proof.
  revert m0. induction rest as [|v rest IH]; intros m0 Hn Hm0; simpl.
  { split_and!; [done|by apply fle_refl|set_solver|by left]. }
  apply Forall_cons in Hn as [Hv Hn].
  assert (is_nan (fabs v) = false) as Hav by (by destruct v).
  set (m1 := maxAbsStep m0 v).
  assert (is_nan m1 = false /\ fle m0 m1 = true /\ fle (fabs v) m1 = true
          /\ (m1 = m0 \/ m1 = fabs v)) as (Hm1 & H01 & Hv1 & Hin).
  { unfold m1, maxAbsStep. destruct (fgt (fabs v) m0) eqn:E.
    - split_and!; [done|by apply flt_fle|by apply fle_refl|by right].
    - split_and!; [done|by apply fle_refl|by apply flt_false_fle|by left]. }
  destruct (IH m1 Hn Hm1) as (Hm & Hle & Hall & Hex).
  split_and!; [done|by eapply (fle_trans m0 m1)| |].
  - intros w [->|Hw]%elem_of_cons; [by eapply (fle_trans _ m1)|auto].
  - destruct Hex as [->|(w & Hw & ->)].
    + destruct Hin as [->| ->]; [by left|]. right. exists v. split; [left|done].
    + right. exists w. split; [by right|done].
Qed.

Lemma MaxAbsFloats_spec vals :
  no_nan vals -> vals <> [] ->
  (forall v, v ∈ vals -> fle (fabs v) (MaxAbsFloats vals) = true) /\
  (exists v, v ∈ vals /\ MaxAbsFloats vals = fabs v).
Proof.
  destruct vals as [|v0 rest]; [done|]. intros [Hv Hn]%Forall_cons _.
  destruct (MaxAbs_fold_spec rest (fabs v0)) as (Hm & Hle & Hall & Hex); [done|by destruct v0|].
  split.
  - intros v [->|?]%elem_of_cons; [done|]. by apply Hall.
  - destruct Hex as [Hex|(v & Hin & Hex)].
    + exists v0. split; [left|done].
    + exists v. split; [by right|done].
Qed.

(** ** Order independence *)

(** Away from zero the order is antisymmetric. *)
Lemma fle_antisym_pos x y :
  flt fzero x = true -> fle x y = true -> fle y x = true -> x = y.
Proof.
  intros Hx Hxy Hyx. destruct x as [|[]| |[] m e]; try discriminate.
  { by destruct y as [|[]| |[]]. }
  destruct y as [|[]| |[] n f]; try discriminate.
  rewrite fle_rank in Hxy, Hyx by done. go_bool. cbn in Hxy, Hyx.
  assert (e = f) by lia. assert (Zpos m = Zpos n) by lia. congruence.
Qed.

Lemma positive_no_nan l : Forall (fun x => flt fzero x = true) l -> no_nan l.
Proof. intros H. eapply Forall_impl; [exact H|]. by intros [|[]| |[]]. Qed.

Lemma insertionSort_perm v1 v2 :
  Forall (fun x => flt fzero x = true) v1 -> v1 ≡ₚ v2 -> insertionSort v1 = insertionSort v2.
Proof.
  intros Hpos Hp.
  destruct (insertionSort_spec v1) as (l1 & -> & Hp1 & Hs1).
  destruct (insertionSort_spec v2) as (l2 & -> & Hp2 & Hs2). f_equal.
  assert (no_nan v1) as Hn by (by apply positive_no_nan).
  assert (no_nan v2) as Hn2 by (unfold no_nan; by rewrite <- Hp).
  apply (StronglySorted_unique_strong fle_rel); [|auto..|by rewrite Hp1, Hp2].
  intros x1 x2 Hx1 _. rewrite Hp1 in Hx1. rewrite Forall_forall in Hpos.
  by apply fle_antisym_pos; auto.
Qed.

Lemma MedianFloats_perm v1 v2 :
  Forall (fun x => flt fzero x = true) v1 -> v1 ≡ₚ v2 -> MedianFloats v1 = MedianFloats v2.
Proof.
  intros Hpos Hp. destruct v1 as [|a v1].
  { apply Permutation_nil_l in Hp. by subst. }
  destruct v2 as [|b v2]; [by apply Permutation_nil_r in Hp|].
  unfold MedianFloats. by rewrite (insertionSort_perm _ _ Hpos Hp).
Qed.

Lemma fabs_antisym x y : is_nan x = false ->
  fle (fabs x) (fabs y) = true -> fle (fabs y) (fabs x) = true -> fabs x = fabs y.
Proof.
  intros Hx. destruct x as [|b| |b m e]; [..|];
    destruct y as [|b'| |b' n f]; try discriminate; try reflexivity.
  intros Hxy Hyx. apply fle_antisym_pos; done.
Qed.

Lemma MaxAbsFloats_perm v1 v2 :
  no_nan v1 -> v1 ≡ₚ v2 -> MaxAbsFloats v1 = MaxAbsFloats v2.
Proof.
  intros Hn Hp. destruct (decide (v1 = [])) as [->|Hne].
  { apply Permutation_nil_l in Hp. by subst. }
  assert (v2 <> []) as Hne2 by (intros ->; by apply Permutation_nil_r in Hp).
  assert (no_nan v2) as Hn2 by (unfold no_nan; by rewrite <- Hp).
  destruct (MaxAbsFloats_spec v1 Hn Hne) as (H1 & x & Hx & Ex).
  destruct (MaxAbsFloats_spec v2 Hn2 Hne2) as (H2 & y & Hy & Ey).
  rewrite Ex, Ey in *. unfold no_nan in Hn. rewrite Forall_forall in Hn.
  apply fabs_antisym; [auto|apply H2; by rewrite <- Hp|apply H1; by rewrite Hp].
Qed.

(** ** The exchange *)

Lemma rttSample_nonneg c t4 : nonneg (rttSample c t4) = true.
Proof.
  unfold rttSample. destruct (flt _ fzero) eqn:E; [done|].
  apply fle_zero_nonneg, flt_false_fle; [|done|done].
  apply fsub_finite_not_nan; [|auto with vibe]. apply float_of_Z_finite.
  pose proof (swrap_range 64 ltac:(lia) (t4 - prevT1 c)) as [??]. unfold int64. lia.
Qed.

Lemma fmul_const_nonneg m e y :
  nonneg y = true -> nonneg (fmul (S754_finite false m e) y) = true.
Proof.
  intros Hy. apply fmul_nonneg; [done|done|].
  destruct y as [|[]| |[]]; try done. by apply fmul_finite_not_nan.
Qed.

Lemma ewma_nonneg x y : nonneg x = true -> nonneg y = true -> nonneg (ewma x y) = true.
Proof.
  intros. apply fadd_nonneg; by apply fmul_const_nonneg.
Qed.

(** ** Theorems *)

(** A heartbeat keeps the smoothed round trip time non-negative and never
    NaN (whatever timestamps the client reports); the first heartbeat of a
    client only stores the baseline, and every one records the timestamps,
    marks the baseline present and refreshes [LastSeen]. *)
Theorem Update_exchange t1 t2 t3 now c :
  nonneg (SmoothedRTT c) = true ->
  let c' := Update t1 t2 t3 now c in
  nonneg (SmoothedRTT c') = true /\
  (hasPrev c = false -> SmoothedRTT c' = SmoothedRTT c /\ SmoothedOffset c' = SmoothedOffset c) /\
  (prevT1 c', prevT2 c', prevT3 c', hasPrev c', LastSeen c', DriftMs c')
  = (t1, t2, t3, true, now, DriftMs c).
Proof.
  intros Hc c'. unfold c', Update. destruct (hasPrev c) eqn:Eh; cbn [negb].
  - destruct (feq (SmoothedRTT c) fzero); (split; [|done]); cbn [SmoothedRTT].
    + apply rttSample_nonneg.
    + apply ewma_nonneg; [apply rttSample_nonneg|done].
  - done.
Qed.

Lemma Update_exchange_witness :
  nonneg (SmoothedRTT (Update 2000 1010 1012 5 (Update 900 1005 1006 3 heartbeat_zero))) = true.
Proof.
  apply (Update_exchange 2000 1010 1012 5 (Update 900 1005 1006 3 heartbeat_zero)). reflexivity.
Defined.

(** The median is total (no index is out of range) and is the middle of a
    sorted permutation of its input, or the mean of the two middle values; for
    positive inputs it does not depend on the order in which they are listed. *)
Theorem MedianFloats_correct vals :
  vals <> [] ->
  (exists m l, MedianFloats vals = Some m /\ l ≡ₚ vals /\
     (no_nan vals -> StronglySorted fle_rel l) /\ median_of l m) /\
  (forall vals', Forall (fun x => flt fzero x = true) vals -> vals ≡ₚ vals' ->
     MedianFloats vals' = MedianFloats vals).
Proof.
  intros Hne. split; [by apply MedianFloats_spec|].
  intros vals' Hpos Hp. symmetry. by apply MedianFloats_perm.
Qed.

Lemma MedianFloats_correct_witness :
  MedianFloats [flit 30 1; flit 10 1; flit 20 1; flit 40 1] = Some (flit 25 1) /\
  MedianFloats [flit 10 1; flit 20 1; flit 40 1; flit 30 1] =
  MedianFloats [flit 30 1; flit 10 1; flit 20 1; flit 40 1].
Proof.
  split; [reflexivity|].
  apply (MedianFloats_correct [flit 30 1; flit 10 1; flit 20 1; flit 40 1] ltac:(done)).
  - by repeat constructor.
  - apply (bool_decide_unpack _). by vm_compute.
Defined.
