(* ===== verification/Controller.v ===== *)
(** * The P+I drift controller

    Model of [apps/sync-service/internal/domain/controller.go]: the gains and
    limits, one correction cycle with its skip and discontinuity branches, and
    the anti-windup clamp of the integral. *)

From S2P Require Import Prelude GoNum GoFloat GoRound.

Record DriftController : Type := mkController {
  Kp : float64;
  Ki : float64;
  IntegralClampMs : float64;
  DiscontinuityThresholdMs : float64;
  integral : float64;
}.

Definition set_integral (v : float64) (dc : DriftController) : DriftController :=
  mkController (Kp dc) (Ki dc) (IntegralClampMs dc) (DiscontinuityThresholdMs dc) v.

Definition NewDriftController : DriftController :=
  mkController (flit 15 100) (flit 2 100) (flit 200 1) (flit 2000 1) fzero.

Record ControllerResult : Type := mkResult {
  CorrectionMs : float64;
  ForceSnapshot : bool;
}.

(** [d.Seconds()] of the standard library. *)
Definition duration_Seconds (d : duration) : float64 :=
  fadd (float_of_Z (Z.quot d Second)) (fdiv (float_of_Z (Z.rem d Second)) (flit 1000000000 1)).

(** The anti-windup clamp. *)
Definition clampIntegral (dc : DriftController) : DriftController :=
  if fgt (integral dc) (IntegralClampMs dc) then set_integral (IntegralClampMs dc) dc
  else if flt (integral dc) (fneg (IntegralClampMs dc))
       then set_integral (fneg (IntegralClampMs dc)) dc
  else dc.

Definition Correct (medianDriftMs : float64) (dt : duration) (activePeers : Z) (confidence : Z)
    (dc : DriftController) : ControllerResult * DriftController :=
  if activePeers <? 2 then (mkResult fzero false, dc)
  else if confidence <? 30 then (mkResult fzero false, dc)
  else if fgt (fabs medianDriftMs) (DiscontinuityThresholdMs dc) then
    (mkResult fzero true, set_integral fzero dc)
  else
    let dtSec := duration_Seconds dt in
    let dc := set_integral (fadd (integral dc) (fmul medianDriftMs dtSec)) dc in
    let dc := clampIntegral dc in
    let correction := fadd (fmul (Kp dc) medianDriftMs) (fmul (Ki dc) (integral dc)) in
    (mkResult correction false, dc).

Definition ControllerReset (dc : DriftController) : DriftController := set_integral fzero dc.

(** ** The anti-windup invariant *)

Definition within_clamp (dc : DriftController) : Prop :=
  is_finite (IntegralClampMs dc) = true /\ nonneg (IntegralClampMs dc) = true /\
  fle (fneg (IntegralClampMs dc)) (integral dc) = true /\
  fle (integral dc) (IntegralClampMs dc) = true.

#[global] Instance within_clamp_dec dc : Decision (within_clamp dc).
Proof. unfold within_clamp. apply _. Defined.

Lemma fneg_le_self x : nonneg x = true -> fle (fneg x) x = true.
Proof. by destruct x as [|[]| |[]]. Qed.

Lemma fneg_le_zero x : nonneg x = true -> fle (fneg x) fzero = true.
Proof. by destruct x as [|[]| |[]]. Qed.

Lemma within_clamp_zero dc :
  is_finite (IntegralClampMs dc) = true -> nonneg (IntegralClampMs dc) = true ->
  within_clamp (set_integral fzero dc).
Proof. intros. split_and!; [done|done|by apply fneg_le_zero|by apply nonneg_fle]. Qed.

Lemma clampIntegral_within dc :
  is_finite (IntegralClampMs dc) = true -> nonneg (IntegralClampMs dc) = true ->
  is_nan (integral dc) = false -> within_clamp (clampIntegral dc).
Proof.
  intros Hf Hn Hi. unfold clampIntegral.
  assert (is_nan (IntegralClampMs dc) = false) as Hc by auto with vibe.
  assert (is_nan (fneg (IntegralClampMs dc)) = false) as Hc' by (by rewrite fneg_is_nan).
  destruct (fgt _ _) eqn:E1.
  { split_and!; cbn; [done|done|by apply fneg_le_self|by apply fle_refl]. }
  destruct (flt _ _) eqn:E2.
  { split_and!; cbn; [done|done|by apply fle_refl|by apply fneg_le_self]. }
  split_and!; [done|done|by apply flt_false_fle|by apply flt_false_fle].
Qed.

Lemma within_clamp_finite dc : within_clamp dc -> is_finite (integral dc) = true.
Proof.
  intros (Hf & _ & H1 & H2). apply (between_finite _ _ _ ltac:(by rewrite fneg_is_finite) Hf H1 H2).
Qed.

Lemma fabs_le_finite x t :
  is_nan x = false -> is_finite t = true -> fgt (fabs x) t = false -> is_finite x = true.
Proof.
  intros Hx Ht H. apply flt_false_fle in H; [|auto with vibe|by destruct x].
  by destruct x, t as [|[]| |[]].
Qed.

(** ** Theorems *)

(** Anti-windup: a correction cycle keeps the integral within
    [-IntegralClampMs, IntegralClampMs], whatever the (non-NaN) drift. *)
Theorem Correct_antiwindup drift dt peers conf dc :
  is_nan drift = false -> is_finite (duration_Seconds dt) = true ->
  is_finite (DiscontinuityThresholdMs dc) = true ->
  within_clamp dc -> within_clamp (Correct drift dt peers conf dc).2.
Proof.
  intros Hd Hdt Ht Hw. unfold Correct.
  destruct (peers <? 2); [done|]. destruct (conf <? 30); [done|].
  pose proof Hw as (Hf & Hn & _).
  destruct (fgt _ _) eqn:E; [exact (within_clamp_zero dc Hf Hn)|].
  apply clampIntegral_within; [done|done|]. cbn [integral set_integral].
  apply fadd_finite_not_nan; [by apply within_clamp_finite|].
  apply fmul_finite_not_nan; [|done]. exact (fabs_le_finite _ _ Hd Ht E).
Qed.

Lemma Correct_antiwindup_witness :
  within_clamp (Correct (flit 1500 1) Second 3 60 NewDriftController).2 /\
  integral (Correct (flit 1500 1) Second 3 60 NewDriftController).2 = flit 200 1.
Proof.
  split; [|by vm_compute].
  apply (Correct_antiwindup (flit 1500 1) Second 3 60 NewDriftController);
    [by vm_compute..|apply (bool_decide_unpack _); by vm_compute].
Defined.

(** When the controller does not act: without two active peers or with a
    confidence below 30 the correction is zero and the controller unchanged;
    a drift beyond the threshold clears the integral and asks for a snapshot,
    with a zero correction; a snapshot is asked for in no other case. *)
Theorem Correct_skips drift dt peers conf dc :
  (peers < 2 \/ conf < 30 ->
   Correct drift dt peers conf dc = (mkResult fzero false, dc)) /\
  (ForceSnapshot (Correct drift dt peers conf dc).1 = true <->
   2 <= peers /\ 30 <= conf /\ fgt (fabs drift) (DiscontinuityThresholdMs dc) = true) /\
  (ForceSnapshot (Correct drift dt peers conf dc).1 = true ->
   CorrectionMs (Correct drift dt peers conf dc).1 = fzero /\
   integral (Correct drift dt peers conf dc).2 = fzero).
Proof.
  unfold Correct. destruct (Z.ltb_spec peers 2).
  { split; [done|]. split; [|done]. split; [done|lia]. }
  destruct (Z.ltb_spec conf 30).
  { split; [done|]. split; [|done]. split; [done|lia]. }
  split; [lia|]. destruct (fgt (fabs drift) _) eqn:E; cbn; split; [| |split|];
    try done; intuition lia || by intros (_ & _ & ?).
Qed.
