(* ===== verification/RoomSync.v ===== *)
(** * The per-room synchronisation actor

    Model of [apps/sync-service/internal/app/room_sync.go]: the [RoomSync]
    struct and all its methods.  Every method holds the mutex for its whole
    body (except [UnregisterSubscriber], which closes the channel after
    unlocking), so a method is one atomic state transformer; a Go panic is
    [None].

    What the methods observe of their surroundings is a [Runtime]: the
    successive readings of the clock ([Now] and [NowMs] of [systemClock] both
    read the same clock), the order in which a [range] over a map visits its
    entries, and the generated ids.  The state counts the readings and the
    iterations, so a runtime fixes a run.  Calls of the injected functions
    ([persist], [stager], [presence]) are recorded in a trace. *)

From S2P Require Import Prelude GoNum GoFloat GoRound SyncState Heartbeat Controller.

(** ** Surroundings *)

Class Runtime : Type := {
  rt_now : nat -> time;
  rt_range : forall A : Type, nat -> list A -> list A;
  rt_newID : nat -> string;
  rt_range_perm : forall A n (l : list A), rt_range A n l ≡ₚ l;
}.
Arguments rt_range {_ A} _ _.

(** ** Data *)

Record SyncConfig : Type := mkSyncConfig {
  HeartbeatInterval : duration;
  HostTimeout : duration;
  SnapshotInterval : duration;
  ControllerKp : float64;
  ControllerKi : float64;
  ControllerIntegralClampMs : float64;
  RecoverRingBufferSize : Z;
  CfgDiscontinuityThresholdMs : float64;
  DriftCorrectionEnabled : bool;
}.

(** The wire form of the state; [None] is an absent message field. *)
Record SyncStateProto : Type := mkProto {
  pRoomId : string;
  pStatus : Z;
  pMediaTimeMs : Z;
  pWallTimeMs : Z;
  pPlaybackRate : float64;
  pEpoch : Z;
  pFencingToken : Z;
  pMediaId : option string;
  pHostId : option string;
  pEpochStartedAt : time;
}.

Record SyncSnapshot : Type := mkSnapshot {
  snState : SyncStateProto;
  DriftEstimateMs : Z;
  Confidence : Z;
  ActivePeers : Z;
  MedianRttMs : Z;
  CapturedAt : time;
}.

Inductive Payload : Type :=
| PUpdate (s : SyncStateProto)
| PSnapshot (s : SyncSnapshot)
| PHostMigration (room prev new : string) (newEpoch newToken : Z) (at_ : time).

Record Frame : Type := mkFrame { SentAt : option time; payload : Payload }.

Record frameEntry : Type := mkEntry { feEpoch : Z; feFrame : Frame }.

(** A buffered channel of the runtime. *)
Record chan : Type := mkChan { chBuf : list Frame; chClosed : bool }.
Definition chanCap : nat := 16.

(** The JSON object of a [sync.updated.v1] event. *)
Record SyncUpdatedV1 : Type := mkUpdated {
  uRoomID : string; uEpoch : Z; uStatus : Z; uMediaTime : Z; uWallTime : Z;
  uRate : float64; uHostID : string; uDriftMs : Z; uPeers : Z;
}.

Record Event : Type := mkEvent {
  evID : string; evAggregateID : string; evTopic : string; evKey : string;
  evPayload : SyncUpdatedV1; evOccurredAt : time; evVersion : string;
}.

(** Calls of the functions injected by the service. *)
Inductive extCall : Type :=
| CallPersist (s : SyncState)
| CallStager (e : Event)
| CallPresence (room user : string).

(** What lives outside the struct: the channels, the counters of the runtime
    and the trace of calls. *)
Record World : Type := mkWorld {
  chans : gmap nat chan;
  nextChan : nat;
  reads : nat;
  iters : nat;
  newIDs : nat;
  calls : list extCall;
}.

(** No channels, no readings, no calls yet. *)
Definition emptyWorld : World := mkWorld ∅ 0 0 0 0 [].

Record RoomSync : Type := mkRoomSync {
  cfg : SyncConfig;
  roomID : string;
  state : SyncState;
  heartbeats : gmap string ClientHeartbeat;
  controller : DriftController;
  ringBuffer : list frameEntry;
  subscribers : gset nat;
  started : bool;
  cancelled : bool;
  hasPersist : bool;
  hasPresence : bool;
  world : World;
}.

Definition set_state v rs := mkRoomSync (cfg rs) (roomID rs) v (heartbeats rs) (controller rs)
  (ringBuffer rs) (subscribers rs) (started rs) (cancelled rs) (hasPersist rs) (hasPresence rs) (world rs).
Definition set_heartbeats v rs := mkRoomSync (cfg rs) (roomID rs) (state rs) v (controller rs)
  (ringBuffer rs) (subscribers rs) (started rs) (cancelled rs) (hasPersist rs) (hasPresence rs) (world rs).
Definition set_controller v rs := mkRoomSync (cfg rs) (roomID rs) (state rs) (heartbeats rs) v
  (ringBuffer rs) (subscribers rs) (started rs) (cancelled rs) (hasPersist rs) (hasPresence rs) (world rs).
Definition set_ringBuffer v rs := mkRoomSync (cfg rs) (roomID rs) (state rs) (heartbeats rs) (controller rs)
  v (subscribers rs) (started rs) (cancelled rs) (hasPersist rs) (hasPresence rs) (world rs).
Definition set_subscribers v rs := mkRoomSync (cfg rs) (roomID rs) (state rs) (heartbeats rs) (controller rs)
  (ringBuffer rs) v (started rs) (cancelled rs) (hasPersist rs) (hasPresence rs) (world rs).
Definition set_started v rs := mkRoomSync (cfg rs) (roomID rs) (state rs) (heartbeats rs) (controller rs)
  (ringBuffer rs) (subscribers rs) v (cancelled rs) (hasPersist rs) (hasPresence rs) (world rs).
Definition set_cancelled v rs := mkRoomSync (cfg rs) (roomID rs) (state rs) (heartbeats rs) (controller rs)
  (ringBuffer rs) (subscribers rs) (started rs) v (hasPersist rs) (hasPresence rs) (world rs).
Definition set_world v rs := mkRoomSync (cfg rs) (roomID rs) (state rs) (heartbeats rs) (controller rs)
  (ringBuffer rs) (subscribers rs) (started rs) (cancelled rs) (hasPersist rs) (hasPresence rs) v.

Definition upd_state (f : SyncState -> SyncState) (rs : RoomSync) : RoomSync :=
  set_state (f (state rs)) rs.
Definition upd_world (f : World -> World) (rs : RoomSync) : RoomSync :=
  set_world (f (world rs)) rs.

Definition w_chans v w := mkWorld v (nextChan w) (reads w) (iters w) (newIDs w) (calls w).
Definition w_nextChan v w := mkWorld (chans w) v (reads w) (iters w) (newIDs w) (calls w).
Definition w_reads v w := mkWorld (chans w) (nextChan w) v (iters w) (newIDs w) (calls w).
Definition w_iters v w := mkWorld (chans w) (nextChan w) (reads w) v (newIDs w) (calls w).
Definition w_newIDs v w := mkWorld (chans w) (nextChan w) (reads w) (iters w) v (calls w).
Definition w_calls v w := mkWorld (chans w) (nextChan w) (reads w) (iters w) (newIDs w) v.

(** ** Configuration with its fallbacks *)

Definition heartbeatInterval (c : SyncConfig) : duration :=
  if 0 <? HeartbeatInterval c then HeartbeatInterval c else Second.
Definition snapshotInterval (c : SyncConfig) : duration :=
  if 0 <? SnapshotInterval c then SnapshotInterval c else 5 * Second.
Definition hostTimeout (c : SyncConfig) : duration :=
  if 0 <? HostTimeout c then HostTimeout c else 5 * Second.
Definition ringSize (c : SyncConfig) : Z :=
  if RecoverRingBufferSize c <=? 0 then 32 else RecoverRingBufferSize c.

Definition makeController (c : SyncConfig) : DriftController :=
  let dc := NewDriftController in
  let dc := if fgt (ControllerKp c) fzero
            then mkController (ControllerKp c) (Ki dc) (IntegralClampMs dc)
                   (DiscontinuityThresholdMs dc) (integral dc) else dc in
  let dc := if fgt (ControllerKi c) fzero
            then mkController (Kp dc) (ControllerKi c) (IntegralClampMs dc)
                   (DiscontinuityThresholdMs dc) (integral dc) else dc in
  let dc := if fgt (ControllerIntegralClampMs c) fzero
            then mkController (Kp dc) (Ki dc) (ControllerIntegralClampMs c)
                   (DiscontinuityThresholdMs dc) (integral dc) else dc in
  if fgt (CfgDiscontinuityThresholdMs c) fzero
  then mkController (Kp dc) (Ki dc) (IntegralClampMs dc)
         (CfgDiscontinuityThresholdMs c) (integral dc) else dc.

Definition NewRoomSync (c : SyncConfig) (room : string) (initial : SyncState)
    (persist presence : bool) (w : World) : RoomSync :=
  mkRoomSync c room initial ∅ (makeController c) [] ∅ false false persist presence w.

(** ** Pure helpers *)

Definition computeConfidence (activePeers : Z) (rtts : list float64) : Z :=
  if activePeers =? 0 then 0
  else
    let c := uint32 (int64 (activePeers * 20)) in
    let c := if 100 <? c then 100 else c in
    if 1 <? Z.of_nat (length rtts) then
      let '(sum, sumSq) :=
        fold_left (fun acc r => (fadd acc.1 r, fadd acc.2 (fmul r r))) rtts (fzero, fzero) in
      let n := float_of_Z (Z.of_nat (length rtts)) in
      let mean := fdiv sum n in
      let variance := fsub (fdiv sumSq n) (fmul mean mean) in
      if fgt variance (flit 1000 1) then c / 2 else c
    else c.

Definition clampMax : float64 := flit 2147483647 1.

Definition clampInt32 (v : float64) : Z :=
  if fgt v clampMax then MaxInt32
  else if flt v (fneg clampMax) then - MaxInt32
  else int32_of_float v.

Section methods.
Context `{Runtime}.
Local Open Scope go_scope.

Abbreviation M := (PM RoomSync).

(** ** Clock, iteration, ids, calls *)

Definition clockNow : M time := fun rs =>
  let w := world rs in
  Some (rt_now (reads w), set_world (w_reads (S (reads w)) w) rs).

Definition clockNowMs : M Z :=
  t <-! clockNow ;; pret (UnixMilli t).

Definition newID : M string := fun rs =>
  let w := world rs in
  Some (rt_newID (newIDs w), set_world (w_newIDs (S (newIDs w)) w) rs).

(** The entries of a map in the order in which this iteration visits them. *)
Definition rangeOver {A} (l : RoomSync -> list A) : M (list A) := fun rs =>
  let w := world rs in
  Some (rt_range (iters w) (l rs), set_world (w_iters (S (iters w)) w) rs).

Definition callExt (c : extCall) : M unit :=
  pmod (upd_world (fun w => w_calls (calls w ++ [c]) w)).

Definition liftOpt {A} (o : option A) : M A := fun rs =>
  match o with Some a => Some (a, rs) | None => None end.

Definition modState (f : SyncState -> SyncState) : M unit := pmod (upd_state f).

(** ** Broadcasting *)

(** [select { case ch <- frame: default: }]: a send on a closed channel
    panics, a full buffer drops the frame. *)
Definition trySend (frame : Frame) (id : nat) : M unit := fun rs =>
  match chans (world rs) !! id with
  | None => Some (tt, rs) (* a nil channel is never ready *)
  | Some ch =>
      if chClosed ch then None
      else if decide (length (chBuf ch) < chanCap)%nat then
        Some (tt, upd_world (fun w =>
          w_chans (<[id := mkChan (chBuf ch ++ [frame]) false]> (chans w)) w) rs)
      else Some (tt, rs)
  end.

Fixpoint sendAll (frame : Frame) (ids : list nat) : M unit :=
  match ids with
  | [] => pskip
  | id :: ids => trySend frame id ;;! sendAll frame ids
  end.

Definition broadcastLocked (frame : Frame) : M unit :=
  ids <-! rangeOver (fun rs => elements (subscribers rs)) ;;
  sendAll frame ids.

(** The slice after one append and the trim to the ring size. *)
Definition ringAppend (c : SyncConfig) (ring : list frameEntry) (e : frameEntry)
    : list frameEntry :=
  let ring := ring ++ [e] in
  let over := (Z.of_nat (length ring) - ringSize c)%Z in
  if 0 <? over then drop (Z.to_nat over) ring else ring.

Definition addToRingLocked (frame : Frame) : M unit :=
  pmod (fun rs => set_ringBuffer
                    (ringAppend (cfg rs) (ringBuffer rs) (mkEntry (Epoch (state rs)) frame)) rs).

Definition stateToProto (room : string) (s : SyncState) : SyncStateProto :=
  mkProto room (Status s) (MediaTimeMs s) (WallTimeMs s) (PlaybackRate s)
    (Epoch s) (FencingToken s)
    (if bool_decide (MediaID s <> "") then Some (MediaID s) else None)
    (if bool_decide (HostID s <> "") then Some (HostID s) else None)
    (EpochStarted s).

Definition stateToProtoLocked : M SyncStateProto :=
  pget (fun rs => stateToProto (roomID rs) (state rs)).

Definition broadcastUpdateLocked : M unit :=
  now <-! clockNow ;;
  p <-! stateToProtoLocked ;;
  let frame := mkFrame (Some now) (PUpdate p) in
  addToRingLocked frame ;;!
  broadcastLocked frame.

(** The loop of [buildSnapshotLocked] over the heartbeats. *)
Definition activeStats (now : time) (timeout : duration) (hbs : list (string * ClientHeartbeat))
    : Z * list float64 * list float64 :=
  fold_left (fun acc kv =>
    let '(active, drifts, rtts) := acc in
    let hb := kv.2 in
    if IsAlive hb now timeout then
      if fgt (SmoothedRTT hb) fzero
      then (active + 1, drifts ++ [DriftMs hb], rtts ++ [SmoothedRTT hb])
      else (active + 1, drifts, rtts)
    else acc) hbs (0, [], []).

Definition buildSnapshotLocked : M SyncSnapshot :=
  now <-! clockNow ;;
  hbs <-! rangeOver (fun rs => map_to_list (heartbeats rs)) ;;
  timeout <-! pget (fun rs => hostTimeout (cfg rs)) ;;
  let '(active, drifts, rtts) := activeStats now timeout hbs in
  p <-! stateToProtoLocked ;;
  median <-! liftOpt (MedianFloats rtts) ;;
  pret (mkSnapshot p (clampInt32 (MaxAbsFloats drifts)) (computeConfidence active rtts)
          (uint32 active) (clampInt32 median) now).

Definition broadcastSnapshot : M unit :=
  snap <-! buildSnapshotLocked ;;
  now <-! clockNow ;;
  let frame := mkFrame (Some now) (PSnapshot snap) in
  addToRingLocked frame ;;!
  broadcastLocked frame.

(** ** Host migration *)

Definition migrateHostLocked (successor : string) (now : time) : M unit :=
  prevHost <-! pget (fun rs => HostID (state rs)) ;;
  modState (fun s =>
    set_EpochStarted now
      (set_FencingToken (incr64 (FencingToken s)) (bumpEpoch (set_HostID successor s)))) ;;!
  frame <-! pget (fun rs =>
    mkFrame (Some now)
      (PHostMigration (roomID rs) prevHost successor (Epoch (state rs))
         (FencingToken (state rs)) now)) ;;
  broadcastLocked frame.

(** The loop of [selectSuccessorLocked]: the best candidate so far and its
    [LastSeen]. *)
Definition pickStep (now : time) (timeout : duration) (excludeID : string)
    (acc : string * time) (kv : string * ClientHeartbeat) : string * time :=
  let '(userID, h) := kv in
  if bool_decide (userID = excludeID) then acc
  else if IsAlive h now timeout && time_Before (LastSeen h) acc.2
       then (userID, LastSeen h) else acc.

Definition selectSuccessorLocked (now : time) (excludeID : string) : M string :=
  hbs <-! rangeOver (fun rs => map_to_list (heartbeats rs)) ;;
  timeout <-! pget (fun rs => hostTimeout (cfg rs)) ;;
  pret (fold_left (pickStep now timeout excludeID) hbs ("", now)).1.

(** [hb, ok := rs.heartbeats[id]; ok && hb.IsAlive(now, rs.hostTimeout())]. *)
Definition aliveIn (rs : RoomSync) (now : time) (id : string) : bool :=
  match heartbeats rs !! id with
  | Some hb => IsAlive hb now (hostTimeout (cfg rs))
  | None => false
  end.

Definition preferredSuccessorLocked (now : time) (excludeID : string) : M string :=
  rs <-! pget id ;;
  let owner := OwnerID (state rs) in
  if bool_decide (owner <> "") && bool_decide (owner <> excludeID) && aliveIn rs now owner
  then pret owner
  else selectSuccessorLocked now excludeID.

Definition checkHostMigrationLocked (now : time) : M unit :=
  rs <-! pget id ;;
  let owner := OwnerID (state rs) in
  let host := HostID (state rs) in
  if bool_decide (owner <> "") && bool_decide (host <> owner) && aliveIn rs now owner then
    migrateHostLocked owner now
  else if bool_decide (host = "") then
    successor <-! preferredSuccessorLocked now "" ;;
    if bool_decide (successor = "") then pskip else migrateHostLocked successor now
  else if aliveIn rs now host then pskip
  else
    successor <-! preferredSuccessorLocked now host ;;
    if bool_decide (successor = "") then
      if Status (state rs) =? StatusPlaying then
        modState (fun s => bumpEpoch (set_PlaybackRate fzero (set_Status StatusPaused s))) ;;!
        broadcastUpdateLocked
      else pskip
    else migrateHostLocked successor now.

(** ** The 1 Hz loop *)

(** The drift inputs of [tick]: the reference client's, when it is alive and
    measured. *)
Definition referenceDrift (rs : RoomSync) (now : time) : list float64 * list float64 :=
  let refID := if bool_decide (OwnerID (state rs) = "") then HostID (state rs)
               else OwnerID (state rs) in
  if bool_decide (refID <> "") then
    match heartbeats rs !! refID with
    | Some hb =>
        if IsAlive hb now (hostTimeout (cfg rs)) && fgt (SmoothedRTT hb) fzero
        then ([DriftMs hb], [SmoothedRTT hb]) else ([], [])
    | None => ([], [])
    end
  else ([], []).

Definition countActive (rs : RoomSync) (now : time) (hbs : list (string * ClientHeartbeat)) : Z :=
  fold_left (fun n kv => if IsAlive kv.2 now (hostTimeout (cfg rs)) then n + 1 else n) hbs 0.

(** The drift-correction block; [true] when [tick] returns early. *)
Definition driftCorrection (now : time) (nowMs : Z) : M bool :=
  hbs <-! rangeOver (fun rs => map_to_list (heartbeats rs)) ;;
  rs <-! pget id ;;
  let activeCount := countActive rs now hbs in
  let '(drifts, rtts) := referenceDrift rs now in
  let confidence := computeConfidence activeCount rtts in
  medianDrift <-! liftOpt (MedianFloats drifts) ;;
  let '(result, dc) := Correct medianDrift (heartbeatInterval (cfg rs)) activeCount confidence
                         (controller rs) in
  pmod (set_controller dc) ;;!
  if ForceSnapshot result then
    pmod (fun rs => set_controller (ControllerReset (controller rs)) rs) ;;!
    broadcastUpdateLocked ;;!
    pret true
  else if negb (feq (CorrectionMs result) fzero) && (Status (state rs) =? StatusPlaying) then
    modState (fun s =>
      bumpEpoch (set_WallTimeMs nowMs
        (set_MediaTimeMs (int64 (MediaTimeMs s - int64_of_float (CorrectionMs result))) s))) ;;!
    broadcastUpdateLocked ;;!
    pret false
  else pret false.

Definition tick : M unit :=
  now <-! clockNow ;;
  nowMs <-! clockNowMs ;;
  enabled <-! pget (fun rs => DriftCorrectionEnabled (cfg rs)) ;;
  early <-! (if (enabled : bool) then driftCorrection now nowMs else pret false) ;;
  if (early : bool) then pskip else checkHostMigrationLocked now.

(** ** RPC methods *)

Definition AdoptOwnerIfUnset (ownerID : string) : M bool :=
  if bool_decide (ownerID = "") then pret false
  else
    modState (fun s => if bool_decide (OwnerID s = "") then set_OwnerID ownerID s else s) ;;!
    host <-! pget (fun rs => HostID (state rs)) ;;
    if bool_decide (host <> "") then pret false
    else
      modState (fun s => bumpEpoch (set_HostID ownerID s)) ;;!
      now <-! clockNow ;;
      modState (set_EpochStarted now) ;;!
      broadcastUpdateLocked ;;!
      pret true.

Record HeartbeatReply : Type := mkReply {
  serverWallTimeMs : Z; serverMediaTimeMs : Z; replyEpoch : Z;
  clientDriftMs : Z; smoothedRttMs : Z;
}.

Definition ProcessHeartbeat (room userID : string)
    (clientEpoch clientMediaTimeMs clientWallTimeMs lastServerWallTimeMs : Z)
    : M HeartbeatReply :=
  t2 <-! clockNowMs ;;
  now <-! clockNow ;;
  hb <-! pget (fun rs => default heartbeat_zero (heartbeats rs !! userID)) ;;
  t3 <-! clockNowMs ;;
  let hb := Update clientWallTimeMs t2 t3 now hb in
  serverMediaTime <-! pget (fun rs => AdvanceMediaTime (state rs) t3) ;;
  let clientAdjusted := ClientMediaTimeAt hb clientMediaTimeMs in
  let hb := set_DriftMs (fsub clientAdjusted (float_of_Z serverMediaTime)) hb in
  pmod (fun rs => set_heartbeats (<[userID := hb]> (heartbeats rs)) rs) ;;!
  hasP <-! pget hasPresence ;;
  (if (hasP : bool) then callExt (CallPresence room userID) else pskip) ;;!
  epoch <-! pget (fun rs => Epoch (state rs)) ;;
  pret (mkReply t3 serverMediaTime epoch (clampInt32 (DriftMs hb)) (clampInt32 (SmoothedRTT hb))).

Record CommandReply : Type := mkCmdReply { crEpoch : Z; crAccepted : bool; crReason : string }.

Definition applyCommandLocked (kind : CommandKind) (seekToMs : option Z) (rate : option float64)
    (mediaID : string) (fencingToken : Z) : M CommandReply :=
  rs <-! pget id ;;
  if fencingToken <? FencingToken (state rs) then
    pret (mkCmdReply (Epoch (state rs)) false "STALE_FENCING_TOKEN")
  else
    nowMs <-! clockNowMs ;;
    now <-! clockNow ;;
    modState (ApplyCommand kind seekToMs rate mediaID nowMs now) ;;!
    broadcastUpdateLocked ;;!
    epoch <-! pget (fun rs => Epoch (state rs)) ;;
    pret (mkCmdReply epoch true "").

Definition ProcessCommand (userID : string) (kind : CommandKind) (seekToMs : option Z)
    (rate : option float64) (mediaID : string) (fencingToken : Z) : M CommandReply :=
  rs <-! pget id ;;
  if fencingToken <? FencingToken (state rs) then
    pret (mkCmdReply (Epoch (state rs)) false "STALE_FENCING_TOKEN")
  else if bool_decide (userID <> HostID (state rs)) then
    pret (mkCmdReply (Epoch (state rs)) false "NOT_HOST")
  else applyCommandLocked kind seekToMs rate mediaID fencingToken.

Definition ProcessCommandAuthorized (kind : CommandKind) (seekToMs : option Z)
    (rate : option float64) (mediaID : string) (fencingToken : Z) : M CommandReply :=
  applyCommandLocked kind seekToMs rate mediaID fencingToken.

Definition Recover (sinceEpoch : Z) : M (option SyncSnapshot * list Frame) :=
  rs <-! pget id ;;
  if (uint64 (Epoch (state rs) - sinceEpoch) <=? uint64 (ringSize (cfg rs))) && (0 <? sinceEpoch)
  then
    pret (None, map feFrame (filter (fun fe => sinceEpoch < feEpoch fe) (ringBuffer rs)))
  else
    snap <-! buildSnapshotLocked ;;
    pret (Some snap, []).

Definition Snapshot : M SyncSnapshot := buildSnapshotLocked.

Definition getHostID : M string := pget (fun rs => HostID (state rs)).
Definition getOwnerID : M string := pget (fun rs => OwnerID (state rs)).
Definition CurrentEpoch : M Z := pget (fun rs => Epoch (state rs)).

(** ** Subscribers *)

Definition RegisterSubscriber : M nat := fun rs =>
  let w := world rs in
  let id := nextChan w in
  let w := w_nextChan (S id) (w_chans (<[id := mkChan [] false]> (chans w)) w) in
  Some (id, set_subscribers ({[id]} ∪ subscribers rs) (set_world w rs)).

(** The locked part and the [close] after unlocking are two steps. *)
Definition deleteSubscriber (id : nat) : M unit :=
  pmod (fun rs => set_subscribers (subscribers rs ∖ {[id]}) rs).

Definition closeChan (id : nat) : M unit := fun rs =>
  match chans (world rs) !! id with
  | Some ch =>
      if chClosed ch then None
      else Some (tt, upd_world (fun w => w_chans (<[id := mkChan (chBuf ch) true]> (chans w)) w) rs)
  | None => None (* close of a nil channel *)
  end.

Definition UnregisterSubscriber (id : nat) : M unit :=
  deleteSubscriber id ;;! closeChan id.

(** A receive by the handler that owns the channel. *)
Definition recvChan (id : nat) : M (option Frame) := fun rs =>
  match chans (world rs) !! id with
  | Some (mkChan (f :: buf) cl) =>
      Some (Some f, upd_world (fun w => w_chans (<[id := mkChan buf cl]> (chans w)) w) rs)
  | _ => Some (None, rs)
  end.

(** ** Outbox and checkpoint *)

Definition stageOutbox : M unit :=
  snapshot <-! buildSnapshotLocked ;;
  room <-! pget roomID ;;
  let st := snState snapshot in
  let body := mkUpdated room (pEpoch st) (pStatus st) (pMediaTimeMs st) (pWallTimeMs st)
                (pPlaybackRate st) (default "" (pHostId st)) (DriftEstimateMs snapshot)
                (ActivePeers snapshot) in
  id <-! newID ;;
  now <-! clockNow ;;
  callExt (CallStager (mkEvent id room "sync.updated.v1" room body now "v1")).

Definition persistState : M unit :=
  s <-! pget state ;;
  hasP <-! pget hasPersist ;;
  if (hasP : bool) then callExt (CallPersist s) else pskip.

(** The snapshot branch of [runLoop]'s [select]. *)
Definition snapshotTick : M unit :=
  broadcastSnapshot ;;! stageOutbox ;;! persistState.

Definition Start : M unit := pmod (fun rs => if started rs then rs else set_started true rs).

(** [rs.cancel] is set exactly when the loop has been started. *)
Definition Shutdown : M unit :=
  pmod (fun rs => if started rs then set_cancelled true rs else rs).
End methods.
