(* ===== verification/RoomSyncEvolution.v ===== *)
(** * How a room evolves

    One relation, [evo], says what any method of [RoomSync] can do to the
    authoritative state: how far the epoch and the fencing token advance,
    that the host role only leaves a host together with a token bump, which
    entries the ring buffer gains, and that the playback invariant is kept.
    Each method is shown to [evolve]; the theorems about runs of a room are
    consequences. *)

From S2P Require Import Prelude GoNum GoFloat GoRound SyncState Heartbeat Controller RoomSync.

(** ** The relation *)

Definition play_ok (s : SyncState) : Prop :=
  rate_ok (PlaybackRate s) /\ in_s 64 (MediaTimeMs s).

(** What the position is computed from. *)
Definition sample (s : SyncState) : PlaybackStatus * Z * Z * float64 :=
  (Status s, MediaTimeMs s, WallTimeMs s, PlaybackRate s).

(** From [s] to [s'], while the epoch advances by [j]: the two invariants of the
    playback are kept, and what the position is computed from stays the same
    within an epoch. *)
Record play_keeps (j : Z) (s s' : SyncState) : Prop := mkPlayKeeps {
  pk_ok : play_ok s -> play_ok s';
  pk_still : still_unless_playing s -> still_unless_playing s';
  pk_sample : j = 0 -> sample s' = sample s;
}.

Lemma play_keeps_refl j s s' : sample s' = sample s -> play_keeps j s s'.
Proof. intros [= E1 E2 E3 E4]. split; unfold play_ok, still_unless_playing, sample; congruence. Qed.

Lemma play_keeps_trans j1 j2 s1 s2 s3 :
  0 <= j1 -> 0 <= j2 -> play_keeps j1 s1 s2 -> play_keeps j2 s2 s3 -> play_keeps (j1 + j2) s1 s3.
Proof.
  intros H1 H2 [] []. split; [auto..|]. intros Hj. rewrite pk_sample1 by lia. apply pk_sample0. lia.
Qed.

Definition ringCap (c : SyncConfig) : nat := Z.to_nat (ringSize c).

Definition room_wf (rs : RoomSync) : Prop :=
  in_u 64 (FencingToken (state rs)) /\ in_u 64 (Epoch (state rs)) /\
  (length (ringBuffer rs) <= ringCap (cfg rs))%nat.

(** From [rs] to [rs'] the token advanced by [k], the epoch by [j], and the
    entries [L] were appended to the ring, the [i]-th of them when the epoch
    had advanced by the [i]-th offset. *)
Record evo (k j : Z) (L : list frameEntry) (offs : list Z) (rs rs' : RoomSync) : Prop := mkEvo {
  evo_cfg : cfg rs' = cfg rs;
  evo_room : roomID rs' = roomID rs;
  evo_kj : 0 <= k <= j;
  evo_token : FencingToken (state rs') = uint64 (FencingToken (state rs) + k);
  evo_epoch : Epoch (state rs') = uint64 (Epoch (state rs) + j);
  evo_host : HostID (state rs) <> "" ->
             HostID (state rs') <> "" /\ (HostID (state rs') <> HostID (state rs) -> 1 <= k);
  evo_owner : OwnerID (state rs) <> "" -> OwnerID (state rs') = OwnerID (state rs);
  evo_ring : ringBuffer rs' = lastn (ringCap (cfg rs)) (ringBuffer rs ++ L);
  evo_offs : map feEpoch L = map (fun i => uint64 (Epoch (state rs) + i)) offs;
  evo_sorted : StronglySorted Z.le offs;
  evo_bound : Forall (fun i => 0 <= i <= j) offs;
  evo_play : play_keeps j (state rs) (state rs');
}.

Lemma uint64_add x a b : uint64 (uint64 (x + a) + b) = uint64 (x + (a + b)).
Proof. unfold uint64, uwrap. rewrite Z.add_mod_idemp_l by lia. f_equal. lia. Qed.

Lemma evo_trans k1 j1 L1 o1 k2 j2 L2 o2 r1 r2 r3 :
  evo k1 j1 L1 o1 r1 r2 -> evo k2 j2 L2 o2 r2 r3 ->
  evo (k1 + k2) (j1 + j2) (L1 ++ L2) (o1 ++ map (Z.add j1) o2) r1 r3.
Proof.
  intros [] []. split; try congruence.
  - lia.
  - by rewrite evo_token1, evo_token0, uint64_add.
  - by rewrite evo_epoch1, evo_epoch0, uint64_add.
  - intros Hh. destruct (evo_host0 Hh) as [H2 H2']. destruct (evo_host1 H2) as [H3 H3'].
    split; [done|]. intros Hne.
    destruct (decide (HostID (state r2) = HostID (state r1))) as [E|E]; [|specialize (H2' E); lia].
    rewrite <- E in Hne. specialize (H3' Hne). lia.
  - intros Ho. rewrite evo_owner1; [by apply evo_owner0|]. by rewrite evo_owner0.
  - by rewrite evo_ring1, evo_ring0, evo_cfg0, lastn_app_lastn, app_assoc.
  - rewrite !map_app, evo_offs0, evo_offs1, evo_epoch0. f_equal.
    rewrite map_map. apply map_ext. intros i. by rewrite uint64_add.
  - apply StronglySorted_app_2; [|done|].
    + intros x y Hx (z & -> & Hz)%list_elem_of_fmap.
      rewrite Forall_forall in evo_bound0, evo_bound1.
      specialize (evo_bound0 _ Hx). specialize (evo_bound1 _ Hz). lia.
    + clear -evo_sorted1. induction evo_sorted1; simpl; constructor; [done|].
      apply Forall_map. eapply Forall_impl; [done|]. simpl. lia.
  - apply Forall_app. split.
    + eapply Forall_impl; [done|]. simpl. lia.
    + apply Forall_map. eapply Forall_impl; [exact evo_bound1|]. simpl. lia.
  - by eapply play_keeps_trans; [lia|lia|..].
Qed.

(** A step that leaves the struct's own data alone. *)
Lemma evo_same rs rs' :
  room_wf rs -> cfg rs' = cfg rs -> roomID rs' = roomID rs -> state rs' = state rs ->
  ringBuffer rs' = ringBuffer rs -> evo 0 0 [] [] rs rs'.
Proof.
  intros (Ht & He & Hr) Hc Hid Hs Hring. split; rewrite ?Hs; try done.
  - by rewrite Z.add_0_r, uint64_id.
  - by rewrite Z.add_0_r, uint64_id.
  - by rewrite app_nil_r, lastn_all.
  - constructor.
Qed.

Lemma evo_wf k j L offs rs rs' : evo k j L offs rs rs' -> room_wf rs'.
Proof.
  intros []. split_and!.
  - rewrite evo_token0. by apply uwrap_range.
  - rewrite evo_epoch0. by apply uwrap_range.
  - rewrite evo_ring0, evo_cfg0, lastn_length. lia.
Qed.

(** ** Methods *)

Definition evolves {A} (K J : Z) (m : PM RoomSync A) : Prop :=
  forall rs a rs', room_wf rs -> m rs = Some (a, rs') ->
    exists k j L offs, k <= K /\ j <= J /\ evo k j L offs rs rs'.

Lemma evolves_bind {A B} K1 J1 K2 J2 (m : PM RoomSync A) (c : A -> PM RoomSync B) :
  evolves K1 J1 m -> (forall a, evolves K2 J2 (c a)) -> evolves (K1 + K2) (J1 + J2) (pbind m c).
Proof.
  intros Hm Hc rs b rs'' Hwf E. unfold pbind in E.
  destruct (m rs) as [[a rs']|] eqn:Em; [|done].
  destruct (Hm rs a rs' Hwf Em) as (k1 & j1 & L1 & o1 & Hk1 & Hj1 & E1).
  destruct (Hc a rs' b rs'' (evo_wf _ _ _ _ _ _ E1) E) as (k2 & j2 & L2 & o2 & Hk2 & Hj2 & E2).
  eexists _, _, _, _. split; [|split; [|by eapply evo_trans]]; lia.
Qed.

Lemma evolves_weaken {A} K1 J1 K2 J2 (m : PM RoomSync A) :
  evolves K1 J1 m -> K1 <= K2 -> J1 <= J2 -> evolves K2 J2 m.
Proof.
  intros Hm HK HJ rs a rs' Hwf E. destruct (Hm rs a rs' Hwf E) as (k & j & L & o & ? & ? & ?).
  eexists _, _, _, _. split; [|split; [|done]]; lia.
Qed.

(** Sequencing after a computation that only observes. *)
Lemma evolves_bind0 {A B} K J (m : PM RoomSync A) (c : A -> PM RoomSync B) :
  evolves 0 0 m -> (forall a, evolves K J (c a)) -> evolves K J (pbind m c).
Proof. intros Hm Hc. apply (evolves_bind 0 0 K J m c Hm Hc). Qed.

(** Sequencing before a computation that only observes. *)
Lemma evolves_then0 {A B} K J (m : PM RoomSync A) (c : A -> PM RoomSync B) :
  evolves K J m -> (forall a, evolves 0 0 (c a)) -> evolves K J (pbind m c).
Proof.
  intros Hm Hc. eapply evolves_weaken; [apply (evolves_bind K J 0 0 m c Hm Hc)|lia|lia].
Qed.

Lemma evolves_if {A} K J (b : bool) (m1 m2 : PM RoomSync A) :
  evolves K J m1 -> evolves K J m2 -> evolves K J (if b then m1 else m2).
Proof. by destruct b. Qed.

(** Computations that leave the struct's own data alone. *)
Definition observes {A} (m : PM RoomSync A) : Prop :=
  forall rs a rs', m rs = Some (a, rs') ->
    cfg rs' = cfg rs /\ roomID rs' = roomID rs /\ state rs' = state rs /\
    ringBuffer rs' = ringBuffer rs.

Lemma observes_evolves {A} (m : PM RoomSync A) : observes m -> evolves 0 0 m.
Proof.
  intros Hm rs a rs' Hwf E. destruct (Hm rs a rs' E) as (? & ? & ? & ?).
  exists 0, 0, [], []. split_and!; [done|done|by apply evo_same].
Qed.

Lemma observes_bind {A B} (m : PM RoomSync A) (c : A -> PM RoomSync B) :
  observes m -> (forall a, observes (c a)) -> observes (pbind m c).
Proof.
  intros Hm Hc rs b rs'' E. unfold pbind in E.
  destruct (m rs) as [[a rs']|] eqn:Em; [|done].
  destruct (Hm _ _ _ Em) as (? & ? & ? & ?). destruct (Hc _ _ _ _ E) as (? & ? & ? & ?).
  split_and!; congruence.
Qed.

Lemma observes_if {A} (b : bool) (m1 m2 : PM RoomSync A) :
  observes m1 -> observes m2 -> observes (if b then m1 else m2).
Proof. by destruct b. Qed.

Lemma observes_ret {A} (a : A) : observes (pret a).
Proof. by intros rs a' rs' [= <- <-]. Qed.

Lemma observes_get {A} (f : RoomSync -> A) : observes (pget f).
Proof. by intros rs a' rs' [= <- <-]. Qed.

Lemma observes_mod f :
  (forall rs, cfg (f rs) = cfg rs /\ roomID (f rs) = roomID rs /\ state (f rs) = state rs /\
              ringBuffer (f rs) = ringBuffer rs) -> observes (pmod f).
Proof. intros Hf rs a rs' [= <- <-]. apply Hf. Qed.

#[export] Hint Resolve observes_ret observes_get observes_if observes_bind : vibe.
#[export] Hint Resolve observes_evolves : vibe.

Ltac observe_steps := repeat (apply observes_bind; [solve [auto with vibe]|intros ?]).

Section methods.
Context `{Runtime}.

Lemma observes_clockNow : observes clockNow.
Proof. by intros rs a rs' [= <- <-]. Qed.
Lemma observes_newID : observes newID.
Proof. by intros rs a rs' [= <- <-]. Qed.
Lemma observes_rangeOver {A} (l : RoomSync -> list A) : observes (rangeOver l).
Proof. by intros rs a rs' [= <- <-]. Qed.
Lemma observes_liftOpt {A} (o : option A) : observes (liftOpt o).
Proof. intros rs a rs'. destruct o; [|done]. by intros [= <- <-]. Qed.
Lemma observes_callExt c : observes (callExt c).
Proof. by apply observes_mod. Qed.
Hint Resolve observes_clockNow observes_newID @observes_rangeOver @observes_liftOpt
  observes_callExt : vibe.

Lemma observes_clockNowMs : observes clockNowMs.
Proof. unfold clockNowMs. auto with vibe. Qed.
Hint Resolve observes_clockNowMs : vibe.

Lemma observes_trySend frame id : observes (trySend frame id).
Proof.
  intros rs a rs'. unfold trySend. repeat case_match; try done; by intros [= <- <-].
Qed.

Lemma observes_sendAll frame ids : observes (sendAll frame ids).
Proof. induction ids; simpl; auto using observes_trySend with vibe. by apply observes_ret. Qed.
Hint Resolve observes_sendAll : vibe.

Lemma observes_broadcastLocked frame : observes (broadcastLocked frame).
Proof. unfold broadcastLocked. auto with vibe. Qed.
Hint Resolve observes_broadcastLocked : vibe.

Lemma observes_buildSnapshotLocked : observes buildSnapshotLocked.
Proof.
  unfold buildSnapshotLocked. observe_steps.
  destruct (activeStats _ _ _) as [[active drifts] rtts].
  unfold stateToProtoLocked. auto with vibe.
Qed.
Hint Resolve observes_buildSnapshotLocked : vibe.

Lemma observes_selectSuccessorLocked now ex : observes (selectSuccessorLocked now ex).
Proof. unfold selectSuccessorLocked. auto with vibe. Qed.
Hint Resolve observes_selectSuccessorLocked : vibe.

Lemma observes_preferredSuccessorLocked now ex : observes (preferredSuccessorLocked now ex).
Proof. unfold preferredSuccessorLocked. auto with vibe. Qed.
Hint Resolve observes_preferredSuccessorLocked : vibe.

Lemma observes_stageOutbox : observes stageOutbox.
Proof. unfold stageOutbox. observe_steps. auto with vibe. Qed.

Lemma observes_persistState : observes persistState.
Proof. unfold persistState, pskip. auto with vibe. Qed.

Lemma observes_RegisterSubscriber : observes RegisterSubscriber.
Proof. by intros rs a rs' [= <- <-]. Qed.
Lemma observes_deleteSubscriber id : observes (deleteSubscriber id).
Proof. by intros rs a rs' [= <- <-]. Qed.
Lemma observes_closeChan id : observes (closeChan id).
Proof. intros rs a rs'. unfold closeChan. repeat case_match; try done; by intros [= <- <-]. Qed.
Lemma observes_recvChan id : observes (recvChan id).
Proof. intros rs a rs'. unfold recvChan. repeat case_match; by intros [= <- <-]. Qed.
Lemma observes_Start : observes Start.
Proof. apply observes_mod. intros rs. by destruct (started rs). Qed.
Lemma observes_Shutdown : observes Shutdown.
Proof. apply observes_mod. intros rs. by destruct (started rs). Qed.

Lemma observes_ProcessHeartbeat room u e m wt l : observes (ProcessHeartbeat room u e m wt l).
Proof.
  unfold ProcessHeartbeat, pskip. observe_steps.
  apply observes_bind; [by apply observes_mod|intros _]. observe_steps. auto with vibe.
Qed.

Lemma observes_Recover since : observes (Recover since).
Proof. unfold Recover. auto with vibe. Qed.
End methods.

#[export] Hint Resolve observes_clockNow observes_newID observes_rangeOver observes_liftOpt
  observes_callExt observes_clockNowMs observes_broadcastLocked observes_buildSnapshotLocked
  observes_selectSuccessorLocked observes_preferredSuccessorLocked observes_stageOutbox
  observes_persistState observes_RegisterSubscriber observes_deleteSubscriber observes_closeChan
  observes_recvChan observes_Start observes_Shutdown observes_ProcessHeartbeat observes_Recover
  : vibe.

(** ** Methods that change the state *)

(** What a change of the state must satisfy to advance the token by [k] and the
    epoch by [j]. *)
Record advances (k j : Z) (s s' : SyncState) : Prop := mkAdvances {
  adv_kj : 0 <= k <= j;
  adv_token : FencingToken s' = uint64 (FencingToken s + k) \/
              (k = 0 /\ FencingToken s' = FencingToken s);
  adv_epoch : Epoch s' = uint64 (Epoch s + j) \/ (j = 0 /\ Epoch s' = Epoch s);
  adv_host : HostID s <> "" -> HostID s' <> "" /\ (HostID s' <> HostID s -> 1 <= k);
  adv_owner : OwnerID s <> "" -> OwnerID s' = OwnerID s;
  adv_play : play_keeps j s s';
}.

Lemma advances_evo k j rs s' :
  room_wf rs -> advances k j (state rs) s' -> evo k j [] [] rs (set_state s' rs).
Proof.
  intros (Hwt & Hwe & Hwr) []. split; cbn [state set_state cfg roomID ringBuffer]; auto.
  - destruct adv_token0 as [?|[-> ->]]; [done|]. by rewrite Z.add_0_r, uint64_id.
  - destruct adv_epoch0 as [?|[-> ->]]; [done|]. by rewrite Z.add_0_r, uint64_id.
  - by rewrite app_nil_r, lastn_all.
  - constructor.
Qed.

Lemma evolves_state K J k j (f : SyncState -> SyncState) :
  k <= K -> j <= J -> (forall s, advances k j s (f s)) -> evolves K J (pmod (upd_state f)).
Proof.
  intros HK HJ Hf rs a rs' Hwf [= <- <-]. exists k, j, [], [].
  split_and!; [done|done|]. by apply advances_evo.
Qed.

Lemma evolves_skip {A} K J (a : A) : 0 <= K -> 0 <= J -> evolves K J (pret a).
Proof. intros. apply (evolves_weaken 0 0); [auto with vibe|done|done]. Qed.

Lemma ringSize_pos c : 0 < ringSize c.
Proof. unfold ringSize. destruct (Z.leb_spec (RecoverRingBufferSize c) 0); lia. Qed.

Lemma ringAppend_lastn c ring e : ringAppend c ring e = lastn (ringCap c) (ring ++ [e]).
Proof.
  unfold ringAppend, lastn, ringCap. pose proof (ringSize_pos c).
  destruct (Z.ltb_spec 0 (Z.of_nat (length (ring ++ [e])) - ringSize c)).
  - f_equal. lia.
  - replace (_ - _)%nat with 0%nat by lia. done.
Qed.

Section changes.
Context `{Runtime}.

Lemma evolves_addToRingLocked frame : evolves 0 0 (addToRingLocked frame).
Proof.
  intros rs a rs' (Ht & He & Hr) [= <- <-].
  exists 0, 0, [mkEntry (Epoch (state rs)) frame], [0]. split_and!; [done|done|].
  split; cbn [state set_ringBuffer cfg roomID ringBuffer]; try done.
  - by rewrite Z.add_0_r, uint64_id.
  - by rewrite Z.add_0_r, uint64_id.
  - apply ringAppend_lastn.
  - simpl. by rewrite Z.add_0_r, uint64_id.
  - repeat constructor.
  - repeat constructor; lia.
Qed.

Lemma evolves_broadcastUpdateLocked : evolves 0 0 broadcastUpdateLocked.
Proof.
  unfold broadcastUpdateLocked, stateToProtoLocked.
  do 2 (apply evolves_bind0; [auto with vibe|intros ?]).
  apply evolves_bind0; [apply evolves_addToRingLocked|auto with vibe].
Qed.

Lemma evolves_broadcastSnapshot : evolves 0 0 broadcastSnapshot.
Proof.
  unfold broadcastSnapshot.
  do 2 (apply evolves_bind0; [auto with vibe|intros ?]).
  apply evolves_bind0; [apply evolves_addToRingLocked|auto with vibe].
Qed.

Lemma evolves_migrateHostLocked successor now :
  successor <> "" -> evolves 1 1 (migrateHostLocked successor now).
Proof.
  intros Hs. unfold migrateHostLocked. apply evolves_bind0; [auto with vibe|intros prev].
  apply evolves_then0; [|auto with vibe].
  apply (evolves_state 1 1 1 1); [lia|lia|]. intros s.
  split; [lia|by left|by left|done|done|by apply play_keeps_refl].
Qed.

Lemma play_keeps_paused s :
  play_keeps 1 s (bumpEpoch (set_PlaybackRate fzero (set_Status StatusPaused s))).
Proof. split; [|by right|done]. intros (_ & Hm). split_and!; [apply rate_fixed_ok|done]. Qed.

(** Electing whoever [preferredSuccessorLocked] returns. *)
Lemma evolves_elect now ex (otherwise : PM RoomSync unit) :
  evolves 1 1 otherwise ->
  evolves 1 1 (pbind (preferredSuccessorLocked now ex) (fun successor =>
    if bool_decide (successor = "") then otherwise else migrateHostLocked successor now)).
Proof.
  intros Ho. apply evolves_bind0; [auto with vibe|intros successor].
  destruct (bool_decide (successor = "")) eqn:E; [done|]. go_bool.
  by apply evolves_migrateHostLocked.
Qed.

Lemma evolves_checkHostMigrationLocked now : evolves 1 1 (checkHostMigrationLocked now).
Proof.
  unfold checkHostMigrationLocked. apply evolves_bind0; [auto with vibe|intros rs].
  destruct (_ && _ && _) eqn:E1.
  { go_bool. by apply evolves_migrateHostLocked. }
  apply evolves_if; [apply evolves_elect; by apply evolves_skip|].
  apply evolves_if; [by apply evolves_skip|]. apply evolves_elect.
  apply evolves_if; [|by apply evolves_skip].
  apply evolves_then0; [|intros _; apply evolves_broadcastUpdateLocked].
  apply (evolves_state 1 1 0 1); [lia|lia|]. intros s.
  split; [lia|by right|by left|done|done|apply play_keeps_paused].
Qed.

Lemma evolves_driftCorrection now nowMs : evolves 0 1 (driftCorrection now nowMs).
Proof.
  unfold driftCorrection.
  do 2 (apply evolves_bind0; [auto with vibe|intros ?]).
  destruct (referenceDrift _ _) as [drifts rtts].
  apply evolves_bind0; [auto with vibe|intros median].
  destruct (Correct _ _ _ _ _) as [result dc].
  apply evolves_bind0; [by apply observes_evolves, observes_mod|intros _].
  apply evolves_if; [|apply evolves_if; [|by apply evolves_skip]].
  - apply (evolves_weaken 0 0); [|lia|lia].
    apply evolves_bind0; [by apply observes_evolves, observes_mod|intros _].
    apply evolves_bind0; [apply evolves_broadcastUpdateLocked|auto with vibe].
  - apply evolves_then0; [|intros _; apply evolves_bind0;
                           [apply evolves_broadcastUpdateLocked|auto with vibe]].
    apply (evolves_state 0 1 0 1); [lia|lia|]. intros s.
    split; [lia|by right|by left|done|done|].
    split; [|done|done]. intros (? & ?). split_and!; [done|by apply swrap_range].
Qed.

Lemma evolves_tick : evolves 1 2 tick.
Proof.
  unfold tick. do 3 (apply evolves_bind0; [auto with vibe|intros ?]).
  eapply evolves_weaken; [apply (evolves_bind 0 1 1 1)|lia|lia].
  - apply evolves_if; [apply evolves_driftCorrection|by apply evolves_skip].
  - intros early. apply evolves_if; [by apply evolves_skip|apply evolves_checkHostMigrationLocked].
Qed.

Lemma evolves_snapshotTick : evolves 0 0 snapshotTick.
Proof.
  unfold snapshotTick. apply evolves_bind0; [apply evolves_broadcastSnapshot|intros _].
  auto with vibe.
Qed.

Lemma evolves_adopted :
  evolves 0 0 (now <-! clockNow ;; modState (set_EpochStarted now) ;;!
               broadcastUpdateLocked ;;! pret true)%go.
Proof.
  apply evolves_bind0; [auto with vibe|intros now]. apply evolves_bind0.
  { apply (evolves_state 0 0 0 0); [lia|lia|]. intros s.
    split; [lia|by right|by right|done|done|by apply play_keeps_refl]. }
  intros _. apply evolves_bind0; [apply evolves_broadcastUpdateLocked|auto with vibe].
Qed.

(** Adopting a host is the one change of host without a token bump: the room
    had none. *)
Lemma evolves_AdoptOwnerIfUnset owner : evolves 0 1 (AdoptOwnerIfUnset owner).
Proof.
  unfold AdoptOwnerIfUnset. destruct (bool_decide (owner = "")) eqn:Eo; [by apply evolves_skip|].
  go_bool. apply evolves_bind0.
  { apply (evolves_state 0 0 0 0); [lia|lia|]. intros s.
    case_bool_decide; (split; [lia|by right|by right|done|done|by apply play_keeps_refl]). }
  intros _ rs a rs' Hwf. unfold pbind at 1, pget at 1.
  destruct (bool_decide (HostID (state rs) <> "")) eqn:Eh; go_bool.
  { intros E. exact (evolves_skip 0 1 false ltac:(done) ltac:(done) rs a rs' Hwf E). }
  unfold pbind at 1, modState, pmod at 1. intros E.
  assert (evo 0 1 [] [] rs (upd_state (fun s => bumpEpoch (set_HostID owner s)) rs)) as E1.
  { apply advances_evo; [done|].
    split; [lia|by right|by left|by intros Hne; destruct (Eh Hne)|done|by apply play_keeps_refl]. }
  destruct (evolves_adopted _ _ _ (evo_wf _ _ _ _ _ _ E1) E) as (k & j & L & o & ? & ? & E2).
  eexists _, _, _, _. split; [|split; [|exact (evo_trans _ _ _ _ _ _ _ _ _ _ _ E1 E2)]]; lia.
Qed.

Lemma evolves_applyCommandLocked kind seek rate mid tok :
  (forall r, rate = Some r -> valid_binary fprec femax r = true) ->
  (forall t, seek = Some t -> in_s 64 t) ->
  evolves 0 1 (applyCommandLocked kind seek rate mid tok).
Proof.
  intros Hv Hs. unfold applyCommandLocked. apply evolves_bind0; [auto with vibe|intros rs].
  apply evolves_if; [by apply evolves_skip|].
  do 2 (apply evolves_bind0; [auto with vibe|intros ?]).
  apply evolves_then0; [|intros _; apply evolves_bind0;
                         [apply evolves_broadcastUpdateLocked|auto with vibe]].
  apply (evolves_state 0 1 0 1); [lia|lia|]. intros s.
  pose proof (ApplyCommand_frame kind seek rate mid a a0 s) as (_ & _ & He & Hh & Ht & _ & Ho).
  split; [lia|by right|by left|by rewrite Hh|done|]. split; [|by apply ApplyCommand_still|done].
  intros (? & ?). split; by apply ApplyCommand_keeps.
Qed.

Lemma evolves_ProcessCommand u kind seek rate mid tok :
  (forall r, rate = Some r -> valid_binary fprec femax r = true) ->
  (forall t, seek = Some t -> in_s 64 t) ->
  evolves 0 1 (ProcessCommand u kind seek rate mid tok).
Proof.
  intros Hv Hs. unfold ProcessCommand. apply evolves_bind0; [auto with vibe|intros rs].
  apply evolves_if; [by apply evolves_skip|].
  apply evolves_if; [by apply evolves_skip|by apply evolves_applyCommandLocked].
Qed.
End changes.
