(* ===== verification/RoomSyncRuns.v ===== *)
(** * Runs of a room

    The methods of [RoomSync] as the labels of a transition system, with the
    discipline of the stream handlers (a channel is closed once, after its
    subscription was deleted), and what holds along every run: no panic, the
    fencing guarantee, the ring buffer and the replay after a reconnect, and
    the election of hosts. *)

From S2P Require Import Prelude GoNum GoFloat GoRound SyncState Heartbeat Controller RoomSync.
From S2P Require Import RoomSyncEvolution.

(** ** Operations *)

Inductive op : Type :=
| OTick
| OBroadcastSnapshot
| OStageOutbox
| OPersist
| OHeartbeat (room user : string) (epoch media wall lastServer : Z)
| OCommand (user : string) (kind : CommandKind) (seek : option Z) (rate : option float64)
    (mediaID : string) (token : Z)
| OCommandAuthorized (kind : CommandKind) (seek : option Z) (rate : option float64)
    (mediaID : string) (token : Z)
| ORecover (since : Z)
| OSnapshot
| OAdopt (owner : string)
| ORegister
| ODelete (id : nat)
| OClose (id : nat)
| ORecv (id : nat)
| OStart
| OShutdown.

Definition discard {A} (m : PM RoomSync A) : PM RoomSync unit := pbind m (fun _ => pskip).

Definition exec `{Runtime} (o : op) : PM RoomSync unit :=
  match o with
  | OTick => tick
  | OBroadcastSnapshot => broadcastSnapshot
  | OStageOutbox => stageOutbox
  | OPersist => persistState
  | OHeartbeat room user e m w l => discard (ProcessHeartbeat room user e m w l)
  | OCommand user kind seek rate mid tok => discard (ProcessCommand user kind seek rate mid tok)
  | OCommandAuthorized kind seek rate mid tok =>
      discard (ProcessCommandAuthorized kind seek rate mid tok)
  | ORecover since => discard (Recover since)
  | OSnapshot => discard Snapshot
  | OAdopt owner => discard (AdoptOwnerIfUnset owner)
  | ORegister => discard RegisterSubscriber
  | ODelete id => deleteSubscriber id
  | OClose id => closeChan id
  | ORecv id => discard (recvChan id)
  | OStart => Start
  | OShutdown => Shutdown
  end.

(** Wire values have their Go types. *)
Definition args_ok (seek : option Z) (rate : option float64) : Prop :=
  (forall r, rate = Some r -> valid_binary fprec femax r = true) /\
  (forall t, seek = Some t -> in_s 64 t).

Definition op_ok (o : op) : Prop :=
  match o with
  | OCommand _ _ seek rate _ _ | OCommandAuthorized _ seek rate _ _ => args_ok seek rate
  | _ => True
  end.

Inductive run `{Runtime} : RoomSync -> list op -> RoomSync -> Prop :=
| run_nil rs : run rs [] rs
| run_cons rs o rs' os rs'' :
    op_ok o -> exec o rs = Some (tt, rs') -> run rs' os rs'' -> run rs (o :: os) rs''.

Section evolution.
Context `{Runtime}.

Lemma evolves_discard {A} K J (m : PM RoomSync A) : evolves K J m -> evolves K J (discard m).
Proof. intros Hm. apply evolves_then0; [done|]. intros _. by apply evolves_skip. Qed.

Lemma exec_evolves o : op_ok o -> evolves 1 2 (exec o).
Proof.
  intros Ho.
  assert (forall m : PM RoomSync unit, observes m -> evolves 1 2 m) as Hobs.
  { intros m Hm. apply (evolves_weaken 0 0); [by apply observes_evolves|lia|lia]. }
  destruct o; cbn [exec]; try (apply Hobs; unfold discard, Snapshot, pskip; auto with vibe; fail).
  - apply evolves_tick.
  - apply (evolves_weaken 0 0); [apply evolves_broadcastSnapshot|lia|lia].
  - destruct Ho. apply (evolves_weaken 0 1); [|lia|lia].
    by apply evolves_discard, evolves_ProcessCommand.
  - destruct Ho. apply (evolves_weaken 0 1); [|lia|lia].
    by apply evolves_discard, evolves_applyCommandLocked.
  - apply (evolves_weaken 0 1); [|lia|lia]. apply evolves_discard, evolves_AdoptOwnerIfUnset.
Qed.

Lemma run_evo rs os rs' :
  room_wf rs -> run rs os rs' ->
  exists k j L offs, k <= Z.of_nat (length os) /\ j <= 2 * Z.of_nat (length os) /\
    evo k j L offs rs rs'.
Proof.
  intros Hwf Hr. induction Hr as [rs|rs o rs' os rs'' Ho E Hr IH].
  { exists 0, 0, [], []. split_and!; [done|done|by apply evo_same]. }
  destruct (exec_evolves o Ho rs tt rs' Hwf E) as (k1 & j1 & L1 & o1 & ? & ? & E1).
  destruct (IH (evo_wf _ _ _ _ _ _ E1)) as (k2 & j2 & L2 & o2 & ? & ? & E2).
  eexists _, _, _, _. split; [|split; [|exact (evo_trans _ _ _ _ _ _ _ _ _ _ _ E1 E2)]];
    simpl length; lia.
Qed.

(** Without wrap-around of the counters. *)
Lemma run_counters rs os rs' :
  room_wf rs -> run rs os rs' ->
  FencingToken (state rs) + Z.of_nat (length os) < 2 ^ 64 ->
  Epoch (state rs) + 2 * Z.of_nat (length os) < 2 ^ 64 ->
  exists k j, 0 <= k <= j /\ FencingToken (state rs') = FencingToken (state rs) + k /\
    Epoch (state rs') = Epoch (state rs) + j /\
    (HostID (state rs) <> "" -> HostID (state rs') <> HostID (state rs) -> 1 <= k).
Proof.
  intros Hwf Hr Ht He. destruct (run_evo rs os rs' Hwf Hr) as (k & j & L & o & Hk & Hj & []).
  destruct Hwf as ([??] & [??] & _). exists k, j.
  rewrite evo_token, evo_epoch, !uint64_id by (unfold in_u; lia).
  split_and!; [lia|lia|done|done|]. intros Hh. by apply evo_host.
Qed.
End evolution.

(** ** Channels *)

(** The channels of the stream handlers: [live] ones are subscribed, [closing]
    ones are unsubscribed and about to be closed by their handler. *)
Record chans_ok (live closing : gset nat) (rs : RoomSync) : Prop := mkChansOk {
  co_subs : subscribers rs = live;
  co_disj : live ## closing;
  co_open : forall id, id ∈ live ∪ closing ->
            exists ch, chans (world rs) !! id = Some ch /\ chClosed ch = false;
  co_cap : map_Forall (fun _ ch => (length (chBuf ch) <= chanCap)%nat) (chans (world rs));
  co_fresh : forall id, is_Some (chans (world rs) !! id) -> (id < nextChan (world rs))%nat;
}.

(** Nothing but the channels and the subscriptions matters. *)
Lemma chans_ok_same live closing rs rs' :
  chans_ok live closing rs -> subscribers rs' = subscribers rs ->
  chans (world rs') = chans (world rs) -> nextChan (world rs') = nextChan (world rs) ->
  chans_ok live closing rs'.
Proof. intros [] Hs Hc Hn. split; rewrite ?Hs, ?Hc, ?Hn; done. Qed.

Lemma chans_ok_insert live closing rs id ch buf :
  chans_ok live closing rs -> chans (world rs) !! id = Some ch -> chClosed ch = false ->
  (length buf <= chanCap)%nat ->
  chans_ok live closing
    (upd_world (fun w => w_chans (<[id := mkChan buf false]> (chans w)) w) rs).
Proof.
  intros [] Hch Hopen Hcap. split; cbn [subscribers upd_world set_world world chans w_chans nextChan].
  - done.
  - done.
  - intros id' Hid'. destruct (decide (id' = id)) as [->|].
    + rewrite lookup_insert_eq. eauto.
    + rewrite lookup_insert_ne by done. auto.
  - by apply map_Forall_insert_2.
  - intros id' Hid'. apply co_fresh0. destruct (decide (id' = id)) as [->|]; [by eauto|].
    by rewrite lookup_insert_ne in Hid'.
Qed.

Section channels.
Context `{Runtime} (live closing : gset nat).

Abbreviation P := (chans_ok live closing).

Lemma safe_clockNow : safe P clockNow.
Proof. intros rs Hrs. eexists _, _. split; [done|]. by eapply chans_ok_same. Qed.
Lemma safe_newID : safe P newID.
Proof. intros rs Hrs. eexists _, _. split; [done|]. by eapply chans_ok_same. Qed.
Lemma safe_rangeOver {A} (l : RoomSync -> list A) : safe P (rangeOver l).
Proof. intros rs Hrs. eexists _, _. split; [done|]. by eapply chans_ok_same. Qed.
Lemma safe_callExt c : safe P (callExt c).
Proof. apply safe_mod. intros rs Hrs. by eapply chans_ok_same. Qed.
Lemma safe_modState f : safe P (modState f).
Proof. apply safe_mod. intros rs Hrs. by eapply chans_ok_same. Qed.
Lemma safe_addToRingLocked f : safe P (addToRingLocked f).
Proof. apply safe_mod. intros rs Hrs. by eapply chans_ok_same. Qed.
Lemma safe_set_controller f : safe P (pmod (fun rs => set_controller (f rs) rs)).
Proof. apply safe_mod. intros rs Hrs. by eapply chans_ok_same. Qed.
Lemma safe_set_heartbeats f : safe P (pmod (fun rs => set_heartbeats (f rs) rs)).
Proof. apply safe_mod. intros rs Hrs. by eapply chans_ok_same. Qed.
Lemma safe_median l : safe P (liftOpt (MedianFloats l)).
Proof.
  intros rs Hrs. destruct (decide (l = [])) as [->|Hne].
  { eexists _, rs. by split. }
  destruct (MedianFloats_spec l Hne) as (m & s & -> & _). exists m, rs. by split.
Qed.

Lemma safe_trySend frame id : id ∈ live -> safe P (trySend frame id).
Proof.
  intros Hid rs Hrs. unfold trySend.
  destruct (co_open _ _ _ Hrs id ltac:(set_solver)) as (ch & Hch & Hopen).
  rewrite Hch, Hopen. case_decide; [|by exists tt, rs].
  eexists tt, _. split; [done|]. apply (chans_ok_insert _ _ _ _ ch); [done..|].
  rewrite length_app. simpl. lia.
Qed.

Lemma safe_sendAll frame ids : Forall (.∈ live) ids -> safe P (sendAll frame ids).
Proof.
  induction 1; simpl; [apply safe_ret|].
  apply safe_bind; [by apply safe_trySend|done].
Qed.

Lemma safe_broadcastLocked frame : safe P (broadcastLocked frame).
Proof.
  intros rs Hrs. unfold broadcastLocked, pbind, rangeOver.
  apply safe_sendAll; [|by eapply chans_ok_same].
  rewrite rt_range_perm, (co_subs _ _ _ Hrs). apply Forall_forall. set_solver.
Qed.

Hint Resolve safe_clockNow safe_newID @safe_rangeOver safe_callExt safe_modState
  safe_addToRingLocked safe_set_controller safe_set_heartbeats safe_median
  safe_broadcastLocked : vibe.
Hint Resolve safe_bind : vibe.

Ltac safe_steps :=
  repeat first [solve [auto with vibe] | apply safe_if | apply safe_bind; [solve [auto with vibe]|intros ?]].

Lemma safe_clockNowMs : safe P clockNowMs.
Proof. unfold clockNowMs. safe_steps. Qed.
Lemma safe_broadcastUpdateLocked : safe P broadcastUpdateLocked.
Proof. unfold broadcastUpdateLocked, stateToProtoLocked. safe_steps. Qed.
Hint Resolve safe_clockNowMs safe_broadcastUpdateLocked : vibe.

Lemma safe_buildSnapshotLocked : safe P buildSnapshotLocked.
Proof.
  unfold buildSnapshotLocked, stateToProtoLocked.
  do 3 (apply safe_bind; [auto with vibe|intros ?]).
  destruct (activeStats _ _ _) as [[active drifts] rtts]. safe_steps.
Qed.
Hint Resolve safe_buildSnapshotLocked : vibe.

Lemma safe_broadcastSnapshot : safe P broadcastSnapshot.
Proof. unfold broadcastSnapshot. safe_steps. Qed.

Lemma safe_migrateHostLocked u now : safe P (migrateHostLocked u now).
Proof. unfold migrateHostLocked. safe_steps. Qed.
Hint Resolve safe_migrateHostLocked : vibe.

Lemma safe_preferredSuccessorLocked now ex : safe P (preferredSuccessorLocked now ex).
Proof. unfold preferredSuccessorLocked, selectSuccessorLocked. safe_steps. Qed.
Hint Resolve safe_preferredSuccessorLocked : vibe.

Lemma safe_checkHostMigrationLocked now : safe P (checkHostMigrationLocked now).
Proof. unfold checkHostMigrationLocked, pskip. safe_steps. Qed.
Hint Resolve safe_checkHostMigrationLocked : vibe.

Lemma safe_driftCorrection now nowMs : safe P (driftCorrection now nowMs).
Proof.
  unfold driftCorrection. do 2 (apply safe_bind; [auto with vibe|intros ?]).
  destruct (referenceDrift _ _) as [drifts rtts].
  apply safe_bind; [auto with vibe|intros ?].
  destruct (Correct _ _ _ _ _) as [result dc]. safe_steps.
Qed.
Hint Resolve safe_driftCorrection : vibe.

Lemma safe_tick : safe P tick.
Proof. unfold tick, pskip. safe_steps. Qed.

Lemma safe_applyCommandLocked kind seek rate mid tok :
  safe P (applyCommandLocked kind seek rate mid tok).
Proof. unfold applyCommandLocked. safe_steps. Qed.
Hint Resolve safe_applyCommandLocked : vibe.

Lemma safe_discard {A} (m : PM RoomSync A) : safe P m -> safe P (discard m).
Proof. intros. apply safe_bind; [done|]. intros. apply safe_ret. Qed.

Lemma safe_recvChan id : id ∈ live ∪ closing -> safe P (recvChan id).
Proof.
  intros Hid rs Hrs. unfold recvChan.
  destruct (co_open _ _ _ Hrs id Hid) as ([buf cl] & Hch & Hopen). simpl in Hopen. subst cl.
  rewrite Hch. destruct buf as [|f buf]; [by eexists _, rs|].
  eexists _, _. split; [done|]. eapply chans_ok_insert; [done|done|done|].
  pose proof (co_cap _ _ _ Hrs _ _ Hch) as Hcap. simpl in Hcap. lia.
Qed.
End channels.

(** Which operations the handlers perform, and how they move the channels. *)
Inductive handler_step : gset nat -> gset nat -> op -> nat -> gset nat -> gset nat -> Prop :=
| hs_register live closing id :
    handler_step live closing ORegister id ({[id]} ∪ live) closing
| hs_delete live closing id next :
    id ∈ live -> handler_step live closing (ODelete id) next (live ∖ {[id]}) ({[id]} ∪ closing)
| hs_close live closing id next :
    id ∈ closing -> handler_step live closing (OClose id) next live (closing ∖ {[id]})
| hs_recv live closing id next :
    id ∈ live -> handler_step live closing (ORecv id) next live closing
| hs_other live closing o next :
    match o with ORegister | ODelete _ | OClose _ | ORecv _ => False | _ => True end ->
    handler_step live closing o next live closing.

Section no_panic.
Context `{Runtime}.

Lemma exec_other_safe live closing o :
  match o with ORegister | ODelete _ | OClose _ | ORecv _ => False | _ => True end ->
  safe (chans_ok live closing) (exec o).
Proof.
  intros Ho. destruct o; try done; cbn [exec]; try apply safe_discard.
  - apply safe_tick.
  - apply safe_broadcastSnapshot.
  - unfold stageOutbox. repeat (apply safe_bind; [auto using safe_buildSnapshotLocked, safe_newID,
      safe_clockNow with vibe|intros ?]). apply safe_callExt.
  - unfold persistState, pskip. repeat (apply safe_bind; [auto with vibe|intros ?]).
    auto using safe_callExt with vibe.
  - unfold ProcessHeartbeat, pskip.
    repeat (apply safe_bind; [solve [auto using safe_clockNowMs, safe_clockNow,
      safe_set_heartbeats, safe_callExt with vibe]|intros ?]). auto with vibe.
  - unfold ProcessCommand. apply safe_bind; [auto with vibe|intros ?].
    auto using safe_applyCommandLocked with vibe.
  - apply safe_applyCommandLocked.
  - unfold Recover. apply safe_bind; [auto with vibe|intros ?]. apply safe_if; [auto with vibe|].
    apply safe_bind; [apply safe_buildSnapshotLocked|auto with vibe].
  - apply safe_buildSnapshotLocked.
  - unfold AdoptOwnerIfUnset. apply safe_if; [auto with vibe|].
    do 2 (apply safe_bind; [auto using safe_modState with vibe|intros ?]).
    apply safe_if; [auto with vibe|].
    repeat (apply safe_bind; [solve [auto using safe_modState, safe_clockNow,
      safe_broadcastUpdateLocked with vibe]|intros ?]). auto with vibe.
  - apply safe_mod. intros rs Hrs. destruct (started rs); [done|by eapply chans_ok_same].
  - apply safe_mod. intros rs Hrs. destruct (started rs); [by eapply chans_ok_same|done].
Qed.

Lemma chans_ok_register live closing rs :
  chans_ok live closing rs ->
  exists rs', exec ORegister rs = Some (tt, rs') /\
    chans_ok ({[nextChan (world rs)]} ∪ live) closing rs'.
Proof.
  intros []. eexists. split; [done|].
  assert (chans (world rs) !! nextChan (world rs) = None) as Hfresh.
  { destruct (chans (world rs) !! _) eqn:E; [|done].
    specialize (co_fresh0 (nextChan (world rs)) ltac:(by eexists)). lia. }
  assert (nextChan (world rs) ∉ live ∪ closing) as Hnew.
  { intros Hin. destruct (co_open0 _ Hin) as (ch & ? & _). congruence. }
  split; cbn.
  - by rewrite co_subs0.
  - set_solver.
  - intros id Hid. destruct (decide (id = nextChan (world rs))) as [->|].
    + rewrite lookup_insert_eq. eauto.
    + rewrite lookup_insert_ne by done. apply co_open0. set_solver.
  - apply map_Forall_insert_2; [simpl; unfold chanCap; lia|done].
  - intros id Hid. destruct (decide (id = nextChan (world rs))) as [->|]; [lia|].
    rewrite lookup_insert_ne in Hid by done. specialize (co_fresh0 _ Hid). lia.
Qed.

Lemma chans_ok_close live closing id rs :
  chans_ok live closing rs -> id ∈ closing ->
  exists rs', exec (OClose id) rs = Some (tt, rs') /\ chans_ok live (closing ∖ {[id]}) rs'.
Proof.
  intros [] Hid. destruct (co_open0 id ltac:(set_solver)) as (ch & Hch & Hopen).
  cbn [exec]. unfold closeChan. rewrite Hch, Hopen. eexists. split; [done|]. split; cbn.
  - done.
  - set_solver.
  - intros id' Hid'. rewrite lookup_insert_ne by set_solver. apply co_open0. set_solver.
  - apply map_Forall_insert_2; [|done]. by apply (co_cap0 id ch).
  - intros id' Hid'. apply co_fresh0. destruct (decide (id' = id)) as [->|]; [by eauto|].
    by rewrite lookup_insert_ne in Hid'.
Qed.

Lemma chans_ok_delete live closing id rs :
  chans_ok live closing rs -> id ∈ live ->
  exists rs', exec (ODelete id) rs = Some (tt, rs') /\
    chans_ok (live ∖ {[id]}) ({[id]} ∪ closing) rs'.
Proof.
  intros [] Hid. eexists. split; [done|]. split; cbn; [by rewrite co_subs0|set_solver| |done|done].
  intros id' Hid'. apply co_open0. set_solver.
Qed.

Lemma handler_step_safe live closing o live' closing' rs :
  chans_ok live closing rs -> handler_step live closing o (nextChan (world rs)) live' closing' ->
  exists rs', exec o rs = Some (tt, rs') /\ chans_ok live' closing' rs'.
Proof.
  intros Hrs Hs. remember (nextChan (world rs)) as next eqn:Hn. destruct Hs; subst.
  - by apply chans_ok_register.
  - by apply chans_ok_delete.
  - by apply chans_ok_close.
  - destruct (safe_discard live closing _ (safe_recvChan live closing id ltac:(set_solver)) rs Hrs)
      as ([] & rs' & ? & ?). by exists rs'.
  - destruct (exec_other_safe live closing o ltac:(done) rs Hrs) as ([] & rs' & ? & ?).
    by exists rs'.
Qed.
End no_panic.
