(* ===== verification/RoomSyncElection.v ===== *)
(** * Host election and migration

    What [selectSuccessorLocked] and [checkHostMigrationLocked] of
    [room_sync.go] compute, whatever the order in which the heartbeat map is
    visited. *)

From S2P Require Import Prelude GoNum GoFloat GoRound SyncState Heartbeat Controller RoomSync.
From S2P Require Import RoomSyncEvolution RoomSyncRuns.

(** ** Computations that touch nothing but the surroundings *)

Definition worldly {A} (m : PM RoomSync A) : Prop :=
  forall rs a rs', m rs = Some (a, rs') -> exists w, rs' = set_world w rs.

Lemma set_world_self rs : set_world (world rs) rs = rs.
Proof. by destruct rs. Qed.

Lemma worldly_bind {A B} (m : PM RoomSync A) (c : A -> PM RoomSync B) :
  worldly m -> (forall a, worldly (c a)) -> worldly (pbind m c).
Proof.
  intros Hm Hc rs b rs'' E. unfold pbind in E. destruct (m rs) as [[a rs']|] eqn:Em; [|done].
  destruct (Hm _ _ _ Em) as [w ->]. destruct (Hc _ _ _ _ E) as [w' ->]. by exists w'.
Qed.

Lemma worldly_if {A} (b : bool) (m1 m2 : PM RoomSync A) :
  worldly m1 -> worldly m2 -> worldly (if b then m1 else m2).
Proof. by destruct b. Qed.

Lemma worldly_ret {A} (a : A) : worldly (pret a).
Proof. intros rs a' rs' [= <- <-]. exists (world rs). by rewrite set_world_self. Qed.

Lemma worldly_get {A} (f : RoomSync -> A) : worldly (pget f).
Proof. intros rs a' rs' [= <- <-]. exists (world rs). by rewrite set_world_self. Qed.

Lemma worldly_upd f : worldly (pmod (upd_world f)).
Proof. intros rs a' rs' [= <- <-]. by eexists. Qed.

#[export] Hint Resolve worldly_bind worldly_if worldly_ret worldly_get worldly_upd : vibe.

Section election.
Context `{Runtime}.

Lemma worldly_clockNow : worldly clockNow.
Proof. intros rs a rs' [= <- <-]. by eexists. Qed.
Lemma worldly_rangeOver {A} (l : RoomSync -> list A) : worldly (rangeOver l).
Proof. intros rs a rs' [= <- <-]. by eexists. Qed.
Lemma worldly_trySend frame id : worldly (trySend frame id).
Proof.
  intros rs a rs'. unfold trySend.
  repeat case_match; try done; intros [= <- <-];
    first [by eexists | exists (world rs); by rewrite set_world_self].
Qed.
Lemma worldly_sendAll frame ids : worldly (sendAll frame ids).
Proof. induction ids; simpl; [apply worldly_ret|]. apply worldly_bind; [apply worldly_trySend|done]. Qed.
Lemma worldly_broadcastLocked frame : worldly (broadcastLocked frame).
Proof. apply worldly_bind; [apply worldly_rangeOver|]. intros ids. apply worldly_sendAll. Qed.
Lemma worldly_selectSuccessorLocked now ex : worldly (selectSuccessorLocked now ex).
Proof. unfold selectSuccessorLocked. apply worldly_bind; [apply worldly_rangeOver|]. auto with vibe. Qed.
Lemma worldly_preferredSuccessorLocked now ex : worldly (preferredSuccessorLocked now ex).
Proof.
  unfold preferredSuccessorLocked. apply worldly_bind; [auto with vibe|intros rs].
  apply worldly_if; [auto with vibe|apply worldly_selectSuccessorLocked].
Qed.

(** ** The successor *)

(** A peer that may take over from [ex]. *)
Definition eligible (now : time) (timeout : duration) (ex u : string) (h : ClientHeartbeat)
    : Prop :=
  u <> ex /\ IsAlive h now timeout = true /\ LastSeen h < now.

Lemma pickStep_spec (now : time) timeout ex (acc : string * time) u h :
  acc.2 <= now ->
  (eligible now timeout ex u h /\ LastSeen h < acc.2 /\
   pickStep now timeout ex acc (u, h) = (u, LastSeen h)) \/
  ((eligible now timeout ex u h -> acc.2 <= LastSeen h) /\
   pickStep now timeout ex acc (u, h) = acc).
Proof.
  intros Hle. unfold pickStep, eligible, time_Before.
  destruct (bool_decide (u = ex)) eqn:E1; go_bool; [right; split; [by intros (? & _)|done]|].
  destruct (IsAlive h now timeout) eqn:E2; cbn [andb]; [|right; split; [by intros (_ & ? & _)|done]].
  destruct (LastSeen h <? acc.2) eqn:E3; go_bool; [left|right; split; [done|done]].
  split_and!; [done|done|unfold time in *; lia|done|done].
Qed.

(** The invariant of the loop after the entries [seen]. *)
Definition picked (now : time) (timeout : duration) (ex : string)
    (seen : list (string * ClientHeartbeat)) (acc : string * time) : Prop :=
  acc.2 <= now /\
  (forall u h, (u, h) ∈ seen -> eligible now timeout ex u h -> acc.2 <= LastSeen h) /\
  (acc = ("", now) \/
   exists h, (acc.1, h) ∈ seen /\ eligible now timeout ex acc.1 h /\ acc.2 = LastSeen h).

Lemma pick_fold now timeout ex hbs :
  picked now timeout ex hbs (fold_left (pickStep now timeout ex) hbs ("", now)).
Proof.
  induction hbs as [|[u h] hbs IH] using rev_ind.
  { split_and!; [simpl; lia|set_solver|by left]. }
  rewrite fold_left_app. cbn [fold_left]. destruct IH as (Hle & Hmin & Hwho).
  destruct (pickStep_spec now timeout ex _ u h Hle)
    as [(He & Hlt & ->)|[Hge ->]]; cbn [fst snd].
  - split_and!; cbn [fst snd].
    + destruct He as (_ & _ & ?). lia.
    + intros u' h' [Hin|Hin]%elem_of_app He'; [specialize (Hmin _ _ Hin He'); lia|].
      apply list_elem_of_singleton in Hin. simplify_eq. lia.
    + right. exists h. split_and!; [set_solver|done|done].
  - split_and!; [done| |].
    + intros u' h' [Hin|Hin]%elem_of_app He'; [by eapply Hmin|].
      apply list_elem_of_singleton in Hin. simplify_eq. by apply Hge.
    + destruct Hwho as [?|(h' & Hin & ?)]; [by left|]. right. exists h'. set_solver.
Qed.

(** The successor is an eligible peer that was seen the longest ago; there is
    none exactly when nobody is eligible. *)
Definition successor_of (rs : RoomSync) (now : time) (ex s : string) : Prop :=
  let timeout := hostTimeout (cfg rs) in
  (s = "" /\ forall u h, heartbeats rs !! u = Some h -> ~ eligible now timeout ex u h) \/
  (s <> "" /\ exists h, heartbeats rs !! s = Some h /\ eligible now timeout ex s h /\
     forall u h', heartbeats rs !! u = Some h' -> eligible now timeout ex u h' ->
                  LastSeen h <= LastSeen h').

Lemma selectSuccessorLocked_spec rs now ex :
  heartbeats rs !! "" = None ->
  exists s w, selectSuccessorLocked now ex rs = Some (s, set_world w rs) /\
    successor_of rs now ex s.
Proof.
  intros Hempty. unfold selectSuccessorLocked, pbind, rangeOver, pget, pret.
  eexists _, _. split; [done|]. cbn [cfg set_world].
  set (timeout := hostTimeout (cfg rs)).
  set (hbs := rt_range (iters (world rs)) (map_to_list (heartbeats rs))).
  assert (forall u h, (u, h) ∈ hbs <-> heartbeats rs !! u = Some h) as Hin.
  { intros u h. unfold hbs. rewrite rt_range_perm. apply elem_of_map_to_list. }
  destruct (pick_fold now timeout ex hbs) as (Hle & Hmin & Hwho).
  unfold successor_of. fold timeout.
  destruct Hwho as [Hnone|(h & Hh & He & Ht)].
  - left. rewrite Hnone in *. split; [done|]. intros u h Hu He.
    specialize (Hmin u h (proj2 (Hin u h) Hu) He). cbn [snd] in Hmin.
    destruct He as (_ & _ & ?). lia.
  - right. apply Hin in Hh. split; [intros E; rewrite E in Hh; congruence|].
    exists h. split_and!; [done|done|]. intros u h' Hu He'. rewrite <- Ht.
    by apply (Hmin u h' (proj2 (Hin u h') Hu)).
Qed.

(** ** Migration *)

Definition migrated (u : string) (now : time) (s : SyncState) : SyncState :=
  set_EpochStarted now
    (set_FencingToken (incr64 (FencingToken s)) (bumpEpoch (set_HostID u s))).

Lemma migrateHostLocked_eq u now rs a rs' :
  migrateHostLocked u now rs = Some (a, rs') ->
  exists w, rs' = set_world w (upd_state (migrated u now) rs).
Proof.
  unfold migrateHostLocked, pbind, modState, pget, pmod. intros E.
  by apply worldly_broadcastLocked in E.
Qed.

Lemma broadcastUpdateLocked_eq rs a rs' :
  broadcastUpdateLocked rs = Some (a, rs') ->
  exists w ring, rs' = set_world w (set_ringBuffer ring rs).
Proof.
  unfold broadcastUpdateLocked, stateToProtoLocked, clockNow, pbind, pget, pmod, addToRingLocked.
  intros E. apply worldly_broadcastLocked in E as [w ->]. exists w.
  by eexists.
Qed.

(** The peer [preferredSuccessorLocked] settles on. *)
Lemma preferredSuccessorLocked_spec rs now ex s rs' :
  heartbeats rs !! "" = None ->
  preferredSuccessorLocked now ex rs = Some (s, rs') ->
  (exists w, rs' = set_world w rs) /\
  ((s <> "" /\ s <> ex /\ aliveIn rs now s = true) \/
   (s = "" /\ forall u h, heartbeats rs !! u = Some h ->
                          ~ eligible now (hostTimeout (cfg rs)) ex u h)).
Proof.
  intros Hempty E. split; [by eapply worldly_preferredSuccessorLocked|].
  unfold preferredSuccessorLocked, pbind, pget, id in E.
  destruct (bool_decide (OwnerID (state rs) <> "") && bool_decide (OwnerID (state rs) <> ex)
            && aliveIn rs now (OwnerID (state rs))) eqn:Eo.
  { injection E as <- <-. go_bool. by left. }
  destruct (selectSuccessorLocked_spec rs now ex Hempty) as (s' & w & E' & Hs).
  rewrite E' in E. injection E as <- <-.
  destruct Hs as [[-> Hs]|(Hne & h & Hh & (Hex & Ha & _) & _)]; [by right|].
  left. split_and!; [done|done|]. unfold aliveIn. by rewrite Hh.
Qed.

(** The three outcomes of a liveness check: somebody alive takes the role over,
    which changes the host, the epoch and the token only; the host is alive and
    nothing happens; or nobody can take over and a room that had a host does not
    play. *)
Inductive check_outcome (rs : RoomSync) (now : time) : RoomSync -> Prop :=
| check_migrated w u : u <> HostID (state rs) -> aliveIn rs now u = true ->
    check_outcome rs now (set_world w (upd_state (migrated u now) rs))
| check_alive : aliveIn rs now (HostID (state rs)) = true -> check_outcome rs now rs
| check_nobody rs' : HostID (state rs') = HostID (state rs) -> heartbeats rs' = heartbeats rs ->
    aliveIn rs now (HostID (state rs)) = false ->
    (forall u h, heartbeats rs !! u = Some h -> ~ eligible now (hostTimeout (cfg rs)) (HostID (state rs)) u h) ->
    (HostID (state rs) <> "" -> Status (state rs') <> StatusPlaying) -> check_outcome rs now rs'.

Lemma elect_outcome rs now host otherwise a rs' :
  heartbeats rs !! "" = None -> host = HostID (state rs) ->
  (forall w a rs', (forall u h, heartbeats rs !! u = Some h ->
                      ~ eligible now (hostTimeout (cfg rs)) host u h) ->
    otherwise (set_world w rs) = Some (a, rs') -> check_outcome rs now rs') ->
  pbind (preferredSuccessorLocked now host) (fun successor =>
    if bool_decide (successor = "") then otherwise else migrateHostLocked successor now) rs
    = Some (a, rs') ->
  check_outcome rs now rs'.
Proof.
  intros Hempty Hh Ho E. unfold pbind in E.
  destruct (preferredSuccessorLocked now host rs) as [[s rs1]|] eqn:Ep; [|done].
  destruct (preferredSuccessorLocked_spec _ _ _ _ _ Hempty Ep) as [[w ->] [(Hs & Hne & Ha)|[-> Hn]]].
  - rewrite bool_decide_eq_false_2 in E by done. subst host.
    apply migrateHostLocked_eq in E as [w' ->]. by apply (check_migrated rs now w' s).
  - rewrite bool_decide_eq_true_2 in E by done. by eapply Ho.
Qed.

Lemma checkHostMigrationLocked_outcome rs now rs' :
  heartbeats rs !! "" = None -> checkHostMigrationLocked now rs = Some (tt, rs') -> check_outcome rs now rs'.
Proof.
  intros Hempty E. unfold checkHostMigrationLocked, pbind at 1, pget at 1, id in E.
  destruct (bool_decide (OwnerID (state rs) <> "") && _ && _) eqn:Eo.
  { go_bool. apply migrateHostLocked_eq in E as [w ->]. by apply check_migrated. }
  assert (aliveIn rs now "" = false) as He by (unfold aliveIn; by rewrite Hempty).
  destruct (bool_decide (HostID (state rs) = "")) eqn:Eh; go_bool.
  { eapply elect_outcome; [done|symmetry; exact Eh| |exact E].
    intros w a rs1 Hn [= <- <-]. rewrite <- Eh in Hn, He. by apply check_nobody. }
  destruct (aliveIn rs now (HostID (state rs))) eqn:Ea.
  { injection E as <-. by apply check_alive. }
  eapply elect_outcome; [done|reflexivity| |exact E].
  intros w a rs1 Hn. unfold pskip, pret.
  destruct (Z.eqb_spec (Status (state rs)) StatusPlaying) as [Hp|Hp].
  - unfold pbind, modState, pmod. intros (w' & ring & ->)%broadcastUpdateLocked_eq. by apply check_nobody.
  - intros [= <- <-]. by apply check_nobody.
Qed.
End election.
