(* ===== verification/RoomSyncTheorems.v ===== *)
(** * What a room guarantees

    The theorems about [room_sync.go]: fencing, commands, panics, replay,
    election, the invariants along a run, and the outputs of the heartbeat and
    snapshot paths. *)

From S2P Require Import Prelude GoNum GoFloat GoRound SyncState Heartbeat Controller RoomSync.
From S2P Require Import RoomSyncEvolution RoomSyncRuns RoomSyncElection.

(** ** A concrete surroundings, for the examples *)

(** A clock that advances one second per reading from a fixed start, and maps
    visited in key order. *)
#[global] Instance demoRuntime : Runtime := {
  rt_now n := 1700000000 * Second + Z.of_nat n * Second;
  rt_range A _ l := l;
  rt_newID n := "id";
  rt_range_perm A n l := Permutation_refl l;
}.

Definition demoConfig : SyncConfig :=
  mkSyncConfig Second (5 * Second) (5 * Second) (flit 15 100) (flit 2 100) (flit 200 1) 32
    (flit 2000 1) false.


Definition demoState : SyncState :=
  mkSyncState "r1" "m1" StatusPlaying 60000 1700000000000 rate_1 7 "alice" 3 0 "".

(** Alice hosts but was last seen long ago; bob was seen a second before the
    clock's first reading. *)
Definition demoRoom : RoomSync :=
  set_heartbeats
    (<["alice" := mkHeartbeat fzero fzero fzero (1699999000 * Second) 0 0 0 true]>
      (<["bob" := mkHeartbeat fzero fzero fzero (1699999999 * Second) 0 0 0 true]> ∅))
    (NewRoomSync demoConfig "r1" demoState true false emptyWorld).

(** The room after an operation (that does not panic). *)
Definition after `{Runtime} (o : op) (rs : RoomSync) : RoomSync :=
  match exec o rs with Some (_, rs') => rs' | None => rs end.

Lemma demoRoom_wf : room_wf demoRoom.
Proof. unfold room_wf, in_u. cbn. lia. Qed.

Lemma demoRun_tick : run demoRoom [OTick] (after OTick demoRoom).
Proof. econstructor; [done| |constructor]. vm_compute. reflexivity. Qed.

Lemma demoRun_tick_rate :
  let o := OCommand "bob" CmdSetRate None (Some (flit 3 2)) "" 4 in
  run demoRoom [OTick; o] (after o (after OTick demoRoom)).
Proof.
  econstructor; [done|vm_compute; reflexivity|].
  econstructor; [|vm_compute; reflexivity|constructor].
  split; [|done]. intros r [= <-]. by vm_compute.
Qed.

(** ** Commands *)

Section commands.
Context `{Runtime}.

Lemma applyCommandLocked_stale kind seek rate mid tok rs :
  tok < FencingToken (state rs) ->
  applyCommandLocked kind seek rate mid tok rs =
    Some (mkCmdReply (Epoch (state rs)) false "STALE_FENCING_TOKEN", rs).
Proof.
  intros Ht. unfold applyCommandLocked, pbind, pget, id.
  apply Z.ltb_lt in Ht. by rewrite Ht.
Qed.

Lemma applyCommandLocked_accepts kind seek rate mid tok rs r rs' :
  FencingToken (state rs) <= tok ->
  applyCommandLocked kind seek rate mid tok rs = Some (r, rs') ->
  exists t0 t1, state rs' = ApplyCommand kind seek rate mid (UnixMilli t0) t1 (state rs) /\
    r = mkCmdReply (Epoch (state rs')) true "".
Proof.
  intros Ht. unfold applyCommandLocked, pbind at 1, pget at 1, id.
  apply Z.ltb_ge in Ht. rewrite Ht.
  unfold clockNowMs, clockNow, modState, pmod, pbind, pget, pret.
  destruct (broadcastUpdateLocked _) as [[u rs1]|] eqn:E; [|done].
  intros [= <- <-]. apply broadcastUpdateLocked_eq in E as (w & ring & ->).
  by eexists _, _.
Qed.
End commands.

(** C1. Fencing: once the host role has left a host, every command that
    carries a token from before is rejected as stale and changes nothing,
    whatever happened in between (the authorisation check of the handler and
    the application of the command are two separate steps, so the command may
    have been authorised while the old host still had the role). *)
Theorem fenced_after_migration `{Runtime} rs os rs' kind seek rate mid tok :
  room_wf rs -> run rs os rs' ->
  FencingToken (state rs) + Z.of_nat (length os) < 2 ^ 64 ->
  Epoch (state rs) + 2 * Z.of_nat (length os) < 2 ^ 64 ->
  HostID (state rs) <> "" -> HostID (state rs') <> HostID (state rs) ->
  tok <= FencingToken (state rs) ->
  ProcessCommandAuthorized kind seek rate mid tok rs' =
    Some (mkCmdReply (Epoch (state rs')) false "STALE_FENCING_TOKEN", rs').
Proof.
  intros Hwf Hr Ht He Hh Hne Htok.
  destruct (run_counters rs os rs' Hwf Hr Ht He) as (k & j & Hkj & Hk & _ & Hk1).
  apply applyCommandLocked_stale. specialize (Hk1 Hh Hne). lia.
Qed.

Lemma fenced_after_migration_witness :
  HostID (state (after OTick demoRoom)) = "bob" /\
  ProcessCommandAuthorized CmdPause None None "" 3 (after OTick demoRoom) =
    Some (mkCmdReply (Epoch (state (after OTick demoRoom))) false "STALE_FENCING_TOKEN",
          after OTick demoRoom).
Proof.
  split; [vm_compute; reflexivity|].
  apply (fenced_after_migration demoRoom [OTick] (after OTick demoRoom) CmdPause None None "" 3
           demoRoom_wf demoRun_tick); by vm_compute.
Defined.

(** What a command does, on every branch: a stale token is rejected and a
    fresh one from somebody who is not the host is rejected, both leaving the
    room untouched; otherwise the state becomes the result of the command and
    the reply carries the new epoch. *)
Theorem ProcessCommand_branches `{Runtime} u kind seek rate mid tok rs r rs' :
  ProcessCommand u kind seek rate mid tok rs = Some (r, rs') ->
  (tok < FencingToken (state rs) /\
     r = mkCmdReply (Epoch (state rs)) false "STALE_FENCING_TOKEN" /\ rs' = rs) \/
  (FencingToken (state rs) <= tok /\ u <> HostID (state rs) /\
     r = mkCmdReply (Epoch (state rs)) false "NOT_HOST" /\ rs' = rs) \/
  (FencingToken (state rs) <= tok /\ u = HostID (state rs) /\
     (exists t0 t1, state rs' = ApplyCommand kind seek rate mid (UnixMilli t0) t1 (state rs)) /\
     r = mkCmdReply (incr64 (Epoch (state rs))) true "").
Proof.
  unfold ProcessCommand, pbind, pget, id, pret.
  destruct (Z.ltb_spec tok (FencingToken (state rs))); [intros [= <- <-]; by left|].
  destruct (bool_decide (u <> HostID (state rs))) eqn:Eu; go_bool.
  { intros [= <- <-]. right. left. done. }
  intros (t0 & t1 & Hs & ->)%applyCommandLocked_accepts; [|done].
  right. right. split_and!; [done|by apply dec_stable|eauto|].
  rewrite Hs. by destruct (ApplyCommand_frame kind seek rate mid (UnixMilli t0) t1 (state rs))
    as (_ & _ & -> & _).
Qed.

Lemma ProcessCommand_branches_witness :
  ProcessCommand "alice" CmdPause None None "" 2 demoRoom =
    Some (mkCmdReply 7 false "STALE_FENCING_TOKEN", demoRoom) /\
  2 < FencingToken (state demoRoom).
Proof.
  split; [reflexivity|].
  destruct (ProcessCommand_branches "alice" CmdPause None None "" 2 demoRoom
              (mkCmdReply 7 false "STALE_FENCING_TOKEN") demoRoom eq_refl)
    as [(Hlt & _)|[(Hle & _)|(Hle & _)]]; [exact Hlt|by destruct Hle..].
Defined.

(** ** No panic *)

(** The states of a room under its loop, the RPC handlers and the stream
    handlers. *)
Inductive reachable `{Runtime} : gset nat -> gset nat -> RoomSync -> Prop :=
| reach_new c room initial persist presence :
    reachable ∅ ∅ (NewRoomSync c room initial persist presence emptyWorld)
| reach_step live closing rs o live' closing' rs' :
    reachable live closing rs ->
    handler_step live closing o (nextChan (world rs)) live' closing' ->
    exec o rs = Some (tt, rs') -> reachable live' closing' rs'.

Lemma reachable_chans_ok `{Runtime} live closing rs :
  reachable live closing rs -> chans_ok live closing rs.
Proof.
  induction 1 as [c room initial persist presence|live closing rs o live' closing' rs' Hr IH Hs E].
  - split; cbn; [done|done|set_solver|by apply map_Forall_empty|by intros ? [? ?]].
  - destruct (handler_step_safe _ _ _ _ _ _ IH Hs) as (rs1 & E1 & Hok). congruence.
Qed.

(** C8. No panic: in every reachable state every operation the service can
    perform completes.  In particular no frame is ever sent on a closed
    channel although [UnregisterSubscriber] closes outside the lock, no channel
    is closed twice, and no slice index of the median is out of range; a
    subscriber's buffer never holds more than 16 frames. *)
Theorem room_no_panic `{Runtime} live closing rs :
  reachable live closing rs ->
  (forall o live' closing', handler_step live closing o (nextChan (world rs)) live' closing' ->
     exists rs', exec o rs = Some (tt, rs')) /\
  (forall id ch, chans (world rs) !! id = Some ch -> (length (chBuf ch) <= 16)%nat).
Proof.
  intros Hr%reachable_chans_ok. split.
  - intros o live' closing' Hs. destruct (handler_step_safe _ _ _ _ _ _ Hr Hs) as (rs' & E & _).
    by exists rs'.
  - intros id ch Hch. by apply (co_cap _ _ _ Hr id ch).
Qed.

Lemma room_no_panic_witness :
  exists rs', exec ORegister (NewRoomSync demoConfig "r1" demoState true false emptyWorld)
    = Some (tt, rs').
Proof.
  apply (proj1 (room_no_panic ∅ ∅ (NewRoomSync demoConfig "r1" demoState true false emptyWorld)
           (reach_new demoConfig "r1" demoState true false))
           ORegister ({[0%nat]} ∪ ∅) ∅).
  apply hs_register.
Defined.

(** ** Invariants along a run *)

(** C9. Along every run of a well-formed room, as long as the 64-bit counters do
    not wrap: the fencing token and the epoch never go back, the epoch advances
    at least as much as the token, a recorded owner never changes, a room with a
    host keeps having one, and the ring buffer stays within its size; a rate that
    is 0 or within [0.25, 4.0] and a position within 64 bits, as every room
    starts with, stay so; and once a room that is not playing has rate 0, that
    too stays so. *)
Theorem run_invariant `{Runtime} rs os rs' :
  room_wf rs -> run rs os rs' ->
  FencingToken (state rs) + Z.of_nat (length os) < 2 ^ 64 ->
  Epoch (state rs) + 2 * Z.of_nat (length os) < 2 ^ 64 ->
  room_wf rs' /\
  0 <= FencingToken (state rs') - FencingToken (state rs)
    <= Epoch (state rs') - Epoch (state rs) /\
  (OwnerID (state rs) <> "" -> OwnerID (state rs') = OwnerID (state rs)) /\
  (HostID (state rs) <> "" -> HostID (state rs') <> "") /\
  (play_ok (state rs) -> play_ok (state rs')) /\
  (still_unless_playing (state rs) -> still_unless_playing (state rs')).
Proof.
  intros Hwf Hr Ht He.
  destruct (run_counters rs os rs' Hwf Hr Ht He) as (k & j & Hkj & Hk & Hj & _).
  destruct (run_evo rs os rs' Hwf Hr) as (k' & j' & L & o & _ & _ & E).
  split_and!; [by eapply evo_wf|lia|lia|by eapply evo_owner| |apply (evo_play _ _ _ _ _ _ E)..].
  intros Hh. by apply (evo_host _ _ _ _ _ _ E).
Qed.

(** A room as the service creates it: paused, at rate 1.0, with a host. *)
Definition newRoom : RoomSync :=
  NewRoomSync demoConfig "r1" (mkSyncState "r1" "" StatusPaused 0 0 rate_1 0 "bob" 0 time_zero "bob") true false emptyWorld.
Definition newRoomOps : list op :=
  [OCommand "bob" CmdSeek (Some 5000) None "" 0; OCommand "bob" CmdPlay None None "" 0].
Definition newRoomThen : RoomSync := fold_left (fun rs o => after o rs) newRoomOps newRoom.

Lemma newRoom_run : run newRoom newRoomOps newRoomThen.
Proof.
  econstructor; [split; [done|intros t [= <-]; unfold in_s; lia]|vm_compute; reflexivity|].
  econstructor; [done|vm_compute; reflexivity|constructor].
Qed.

Lemma run_invariant_witness :
  play_ok (state newRoom) /\ room_wf newRoomThen /\ play_ok (state newRoomThen) /\
  Epoch (state newRoomThen) = 2 /\ Status (state newRoomThen) = StatusPlaying.
Proof.
  assert (play_ok (state newRoom)) as Hp by (split; [apply rate_fixed_ok|unfold in_s; cbn; lia]).
  destruct (run_invariant newRoom newRoomOps newRoomThen) as (Hwf & _ & _ & _ & Hok & _);
    [unfold room_wf, in_u; cbn; lia|exact newRoom_run|vm_compute; reflexivity..|].
  split; [exact Hp|]. split; [exact Hwf|]. split; [exact (Hok Hp)|]. split; vm_compute; reflexivity.
Defined.





(** ** The ring buffer and the replay after a reconnect *)









(** A hole in the replay: a host migration advances the epoch and the
    fencing token but is not put in the ring buffer, so a client that reconnects
    at the epoch before it is sent no frame at all, neither the migration nor
    the new token. *)
Theorem Recover_misses_migration :
  let rs := after OTick demoRoom in
  Epoch (state demoRoom) < Epoch (state rs) /\
  HostID (state rs) <> HostID (state demoRoom) /\
  FencingToken (state demoRoom) < FencingToken (state rs) /\
  option_map fst (Recover (Epoch (state demoRoom)) rs) = Some (None, []).
Proof. vm_compute. split_and!; done. Qed.

(** ** Election *)

(** The elected successor is an active peer other than the excluded one,
    among those the one whose last heartbeat is the oldest, and there is none
    exactly when no peer is eligible, in whatever order the map is visited. *)
Theorem selectSuccessor_correct `{Runtime} rs now ex :
  heartbeats rs !! "" = None ->
  exists s w, selectSuccessorLocked now ex rs = Some (s, set_world w rs) /\
    successor_of rs now ex s.
Proof. apply selectSuccessorLocked_spec. Qed.

Lemma selectSuccessor_correct_witness :
  exists s w, selectSuccessorLocked (1700000000 * Second) "alice" demoRoom =
    Some (s, set_world w demoRoom) /\ successor_of demoRoom (1700000000 * Second) "alice" s.
Proof. apply (selectSuccessor_correct demoRoom (1700000000 * Second) "alice"). reflexivity. Defined.



(** A room without a host that plays goes on playing when nobody is there to take
    the role. *)
Example hostless_keeps_playing :
  let rs := NewRoomSync demoConfig "r1" (set_HostID "" demoState) true false emptyWorld in
  Status (state (after OTick rs)) = StatusPlaying /\ HostID (state (after OTick rs)) = "".
Proof. by vm_compute. Qed.

(** The successor is the peer whose last heartbeat is the oldest; since when a peer
    has been in the room is not recorded. *)
Example successor_by_last_seen :
  let rs := set_heartbeats
    (<["bob" := mkHeartbeat fzero fzero fzero (1699999999 * Second) 0 0 0 true]>
      (<["carol" := mkHeartbeat fzero fzero fzero (1699999998 * Second) 0 0 0 true]> ∅))
    (NewRoomSync demoConfig "r1" demoState true false emptyWorld) in
  HostID (state (after OTick rs)) = "carol".
Proof. by vm_compute. Qed.

(** ** Who moves the clock *)

Section clock.
Context `{Runtime}.

(** The data the position is computed from. *)
Definition clockOf (s : SyncState) : string * Z * Z := (MediaID s, MediaTimeMs s, WallTimeMs s).

Lemma checkHostMigrationLocked_clock rs now rs' :
  checkHostMigrationLocked now rs = Some (tt, rs') ->
  clockOf (state rs') = clockOf (state rs) /\
  (PlaybackRate (state rs') = PlaybackRate (state rs) \/
   PlaybackRate (state rs') = fzero /\ Status (state rs') = StatusPaused).
Proof.
  assert (forall ex otherwise rs1,
    (forall w rs1, otherwise (set_world w rs) = Some (tt, rs1) ->
       clockOf (state rs1) = clockOf (state rs) /\
       (PlaybackRate (state rs1) = PlaybackRate (state rs) \/
        PlaybackRate (state rs1) = fzero /\ Status (state rs1) = StatusPaused)) ->
    pbind (preferredSuccessorLocked now ex) (fun successor =>
      if bool_decide (successor = "") then otherwise else migrateHostLocked successor now) rs
      = Some (tt, rs1) ->
    clockOf (state rs1) = clockOf (state rs) /\
    (PlaybackRate (state rs1) = PlaybackRate (state rs) \/
     PlaybackRate (state rs1) = fzero /\ Status (state rs1) = StatusPaused)) as Helect.
  { intros ex otherwise rs1 Ho E. unfold pbind in E.
    destruct (preferredSuccessorLocked now ex rs) as [[s rs2]|] eqn:Ep; [|done].
    apply worldly_preferredSuccessorLocked in Ep as [w ->].
    case_bool_decide; [by eapply Ho|].
    apply migrateHostLocked_eq in E as [w' ->]. split; [done|by left]. }
  intros E. unfold checkHostMigrationLocked, pbind at 1, pget at 1, id in E.
  destruct (_ && _ && _).
  { apply migrateHostLocked_eq in E as [w ->]. split; [done|by left]. }
  destruct (bool_decide (HostID (state rs) = "")).
  { eapply Helect; [|exact E]. intros w rs1 [= <-]. split; [done|by left]. }
  destruct (aliveIn _ _ _); [injection E as <-; split; [done|by left]|].
  eapply Helect; [|exact E]. intros w rs1. cbn beta.
  destruct (Status (state rs) =? StatusPlaying).
  - unfold pbind, modState, pmod. intros (w' & ring & ->)%broadcastUpdateLocked_eq.
    split; [done|by right].
  - intros [= <-]. split; [done|by left].
Qed.
End clock.

(** Guests never move the room clock: a heartbeat leaves the authoritative
    state as it is, and with drift correction off (the default) a tick of the
    loop keeps the media, the position sample and its time; it can only stop
    playback (rate 0, paused), never change the rate otherwise. *)
Theorem heartbeats_never_move_clock `{Runtime} rs :
  (forall room u e m w l r rs', ProcessHeartbeat room u e m w l rs = Some (r, rs') ->
     state rs' = state rs) /\
  (DriftCorrectionEnabled (cfg rs) = false -> forall rs', tick rs = Some (tt, rs') ->
     clockOf (state rs') = clockOf (state rs) /\
     (PlaybackRate (state rs') = PlaybackRate (state rs) \/
      PlaybackRate (state rs') = fzero /\ Status (state rs') = StatusPaused)).
Proof.
  split.
  - intros room u e m w l r rs' E. by apply observes_ProcessHeartbeat in E as (_ & _ & ? & _).
  - intros Hoff rs'. unfold tick, clockNowMs, clockNow, pbind, pget, pret.
    cbn [cfg set_world]. rewrite Hoff. intros E. by apply checkHostMigrationLocked_clock in E.
Qed.

(** ** Values sent to clients *)

Lemma valid_mantissa s m e :
  valid_binary fprec femax (S754_finite s m e) = true -> Zpos m < 2 ^ 53 /\ emin64 <= e.
Proof.
  unfold valid_binary, bounded, canonical_mantissa. intros Hv. go_bool.
  rewrite digits2_pos_log2, fexp_eq in H. split; [|lia].
  apply log2_lt_pow2'; [done|]. lia.
Qed.

(** The magnitude of a float that is at most [MaxInt32]. *)
Lemma clamped_magnitude m e :
  valid_binary fprec femax (S754_finite false m e) = true ->
  fle (S754_finite false m e) clampMax = true ->
  0 <= (if 0 <=? e then Zpos m * 2 ^ e else Zpos m / 2 ^ (- e)) <= MaxInt32.
Proof.
  intros Hv Hle. apply valid_mantissa in Hv as [Hm He].
  rewrite fle_rank in Hle by done. apply bool_decide_eq_true in Hle.
  change (frank clampMax) with (1, -22, 2147483647 * 2 ^ 22) in Hle.
  cbn [frank rank_le] in Hle. unfold MaxInt32.
  destruct (Z.leb_spec 0 e); [lia|].
  assert (0 < 2 ^ (- e)) by (apply pow2_pos; lia). split; [apply Z.div_pos; lia|].
  apply Z.div_le_upper_bound; [done|].
  destruct (Z.eq_dec e (-22)) as [->|]; [simpl in *; lia|].
  assert (2 ^ 23 <= 2 ^ (- e)) by (apply Z.pow_le_mono_r; lia). lia.
Qed.

Lemma clamped_ftrunc v :
  valid_binary fprec femax v = true -> is_nan v = false ->
  fgt v clampMax = false -> flt v (fneg clampMax) = false ->
  exists z, ftrunc v = Some z /\ - MaxInt32 <= z <= MaxInt32.
Proof.
  intros Hv Hn H1 H2. destruct v as [b|[]| |[] m e];
    [|discriminate H2|discriminate H1|discriminate Hn| |].
  - exists 0. split; [done|]. unfold MaxInt32. lia.
  - assert (fle (S754_finite false m e) clampMax = true) as Hle.
    { assert (fle (fneg clampMax) (S754_finite true m e) = true) as Hl
        by exact (flt_false_fle (S754_finite true m e) (fneg clampMax) eq_refl eq_refl H2).
      rewrite fle_rank in Hl |- * by done. go_bool. apply bool_decide_eq_true.
      change (frank (fneg clampMax)) with (-1, 22, - (2147483647 * 2 ^ 22)) in Hl.
      change (frank clampMax) with (1, -22, 2147483647 * 2 ^ 22).
      cbn [frank rank_le] in *. lia. }
    eexists. split; [done|].
    pose proof (clamped_magnitude m e Hv Hle). cbn [ftrunc]. lia.
  - eexists. split; [done|].
    pose proof (clamped_magnitude m e Hv (flt_false_fle clampMax (S754_finite false m e) eq_refl eq_refl H1)). lia.
Qed.

(** [clampInt32] does not wrap: on every float that is not NaN the result
    is within [-MaxInt32, MaxInt32], it is the truncated value when that is in
    range, and otherwise the nearest bound. *)
Theorem clampInt32_no_wrap v :
  valid_binary fprec femax v = true -> is_nan v = false ->
  - MaxInt32 <= clampInt32 v <= MaxInt32 /\
  (fgt v clampMax = true -> clampInt32 v = MaxInt32) /\
  (fgt v clampMax = false -> flt v (fneg clampMax) = true -> clampInt32 v = - MaxInt32) /\
  (fgt v clampMax = false -> flt v (fneg clampMax) = false -> ftrunc v = Some (clampInt32 v)).
Proof.
  intros Hv Hn. unfold clampInt32.
  destruct (fgt v clampMax) eqn:E1; [unfold MaxInt32; split_and!; done|].
  destruct (flt v (fneg clampMax)) eqn:E2; [unfold MaxInt32; split_and!; done|].
  destruct (clamped_ftrunc v Hv Hn E1 E2) as (z & Hz & Hr).
  unfold int32_of_float. rewrite Hz.
  rewrite bool_decide_eq_true_2 by (unfold in_s, MaxInt32 in *; lia). split_and!; [lia|lia|by intros|by intros|by intros].
Qed.

Lemma clampInt32_no_wrap_witness :
  clampInt32 (flit 9007199254740993 1) = MaxInt32 /\
  - MaxInt32 <= clampInt32 (flit (-12345) 10) <= MaxInt32.
Proof.
  split.
  - by apply (clampInt32_no_wrap (flit 9007199254740993 1)); vm_compute.
  - by apply (clampInt32_no_wrap (flit (-12345) 10)); vm_compute.
Defined.

(** ** Snapshots *)

Section snapshot.
Context (now : time) (timeout : duration).

Definition peerAlive (kv : string * ClientHeartbeat) : Prop := IsAlive kv.2 now timeout = true.
Definition peerMeasured (kv : string * ClientHeartbeat) : Prop :=
  peerAlive kv /\ fgt (SmoothedRTT kv.2) fzero = true.

#[local] Instance peerAlive_dec kv : Decision (peerAlive kv).
Proof. unfold peerAlive. apply _. Defined.
#[local] Instance peerMeasured_dec kv : Decision (peerMeasured kv).
Proof. unfold peerMeasured. apply _. Defined.

(** The loop counts the active peers and collects the measured ones. *)
Lemma activeStats_eq l :
  activeStats now timeout l =
    (Z.of_nat (length (filter peerAlive l)),
     map (fun kv => DriftMs kv.2) (filter peerMeasured l),
     map (fun kv => SmoothedRTT kv.2) (filter peerMeasured l)).
Proof.
  unfold activeStats. induction l as [|kv l IH] using rev_ind; [done|].
  rewrite fold_left_app, IH, !filter_app, !map_app, length_app. cbn [fold_left].
  rewrite !(filter_singleton _ kv []).
  destruct (decide (peerAlive kv)) as [Ha|Ha]; destruct (decide (peerMeasured kv)) as [Hm|Hm].
  - destruct Hm as [_ Hm]. unfold peerAlive in Ha. rewrite Ha, Hm. simpl. do 2 f_equal. lia.
  - unfold peerAlive in Ha. rewrite Ha.
    destruct (fgt (SmoothedRTT kv.2) fzero) eqn:Hf; [by destruct Hm|].
    simpl. rewrite !app_nil_r. do 2 f_equal. lia.
  - by destruct Hm.
  - unfold peerAlive in Ha. apply not_true_is_false in Ha. rewrite Ha.
    simpl. by rewrite !app_nil_r, Nat.add_0_r.
Qed.

Lemma filter_perm {A} (P : A -> Prop) `{!forall x, Decision (P x)} l1 l2 :
  l1 ≡ₚ l2 -> filter P l1 ≡ₚ filter P l2.
Proof. by intros ->. Qed.

Lemma activeStats_perm l1 l2 :
  l1 ≡ₚ l2 ->
  let '(n1, d1, r1) := activeStats now timeout l1 in
  let '(n2, d2, r2) := activeStats now timeout l2 in
  n1 = n2 /\ d1 ≡ₚ d2 /\ r1 ≡ₚ r2 /\ Forall (fun x => flt fzero x = true) r1.
Proof.
  intros Hp. rewrite !activeStats_eq.
  assert (filter peerMeasured l1 ≡ₚ filter peerMeasured l2) as Hm by (by apply filter_perm).
  assert (filter peerAlive l1 ≡ₚ filter peerAlive l2) as Ha by (by apply filter_perm).
  split_and!; [by rewrite Ha|by apply Permutation_map|by apply Permutation_map|].
  apply Forall_map, Forall_forall. intros kv [[_ Hr] _]%list_elem_of_filter. exact Hr.
Qed.

Lemma activeStats_no_nan l :
  Forall (fun kv => is_nan (DriftMs kv.2) = false) l ->
  no_nan (activeStats now timeout l).1.2.
Proof.
  intros Hl. rewrite activeStats_eq. apply Forall_map, Forall_forall.
  intros kv [_ Hin]%list_elem_of_filter. rewrite Forall_forall in Hl. by apply Hl.
Qed.
End snapshot.

(** A snapshot carries the authoritative state, and neither its drift
    estimate, its median round trip time nor its peer count depends on the
    order in which Go happens to visit the heartbeat map. *)
Theorem snapshot_order_independent (R1 R2 : Runtime) rs s1 rs1 s2 rs2 :
  (forall n, @rt_now R1 n = @rt_now R2 n) ->
  map_Forall (fun _ hb => is_nan (DriftMs hb) = false) (heartbeats rs) ->
  @buildSnapshotLocked R1 rs = Some (s1, rs1) -> @buildSnapshotLocked R2 rs = Some (s2, rs2) ->
  snState s1 = stateToProto (roomID rs) (state rs) /\
  (snState s1, DriftEstimateMs s1, ActivePeers s1, MedianRttMs s1, CapturedAt s1)
  = (snState s2, DriftEstimateMs s2, ActivePeers s2, MedianRttMs s2, CapturedAt s2).
Proof.
  intros Hnow Hnan.
  unfold buildSnapshotLocked, clockNow, rangeOver, stateToProtoLocked, liftOpt, pbind, pget, pret.
  cbn [heartbeats set_world cfg world w_reads iters reads roomID state].
  rewrite <- Hnow. set (now := rt_now _). set (timeout := hostTimeout (cfg rs)).
  set (hbs := map_to_list (heartbeats rs)).
  set (l1 := rt_range _ hbs). set (l2 := @rt_range R2 _ _ hbs).
  assert (l1 ≡ₚ hbs) as P1 by apply rt_range_perm.
  assert (l2 ≡ₚ hbs) as P2 by apply rt_range_perm.
  pose proof (activeStats_perm now timeout l1 l2 ltac:(by rewrite P1, P2)) as Hst.
  pose proof (activeStats_no_nan now timeout l1) as Hn.
  destruct (activeStats now timeout l1) as [[n1 d1] r1].
  destruct (activeStats now timeout l2) as [[n2 d2] r2].
  destruct Hst as (<- & Hd & Hr & Hpos). cbn [fst snd] in Hn.
  rewrite <- (MedianFloats_perm r1 r2 Hpos Hr).
  destruct (MedianFloats r1) as [m|]; [|done]. intros [= <- _] [= <- _]. split; [done|].
  cbn [snState DriftEstimateMs ActivePeers MedianRttMs CapturedAt].
  rewrite (MaxAbsFloats_perm d1 d2); [done| |done]. apply Hn. rewrite P1.
  apply Forall_forall. intros [u hb] Hin%elem_of_map_to_list. by apply (Hnan u hb).
Qed.

(** Two surroundings that visit maps in opposite orders. *)
Definition reverseRuntime : Runtime := {|
  rt_now n := 1700000000 * Second + Z.of_nat n * Second;
  rt_range A _ l := rev l;
  rt_newID n := "id";
  rt_range_perm A n l := Permutation_sym (Permutation_rev l);
|}.

Definition measuredRoom : RoomSync :=
  set_heartbeats
    (<["alice" := mkHeartbeat (flit 40 1) fzero (flit (-7) 1) (1699999998 * Second) 0 0 0 true]>
      (<["bob" := mkHeartbeat (flit 60 1) fzero (flit 3 1) (1699999999 * Second) 0 0 0 true]> ∅))
    demoRoom.

Lemma snapshot_order_independent_witness :
  match @buildSnapshotLocked demoRuntime measuredRoom, @buildSnapshotLocked reverseRuntime measuredRoom with
  | Some (s1, _), Some (s2, _) => MedianRttMs s1 = 50 /\ MedianRttMs s1 = MedianRttMs s2
  | _, _ => False
  end.
Proof.
  destruct (@buildSnapshotLocked demoRuntime measuredRoom) as [[s1 r1]|] eqn:E1;
    [|vm_compute in E1; discriminate E1].
  destruct (@buildSnapshotLocked reverseRuntime measuredRoom) as [[s2 r2]|] eqn:E2;
    [|vm_compute in E2; discriminate E2].
  split; [vm_compute in E1; injection E1 as <- _; reflexivity|].
  assert (map_Forall (fun _ hb => is_nan (DriftMs hb) = false) (heartbeats measuredRoom)) as Hn
    by (by apply map_Forall_insert_2; [|apply map_Forall_insert_2; [|apply map_Forall_empty]]).
  pose proof (snapshot_order_independent demoRuntime reverseRuntime measuredRoom s1 r1 s2 r2
                (fun _ => eq_refl) Hn E1 E2) as [_ Heq].
  by injection Heq.
Defined.

(** ** Where the code departs from its documentation *)

Definition correctingConfig : SyncConfig :=
  mkSyncConfig Second (5 * Second) (5 * Second) (flit 15 100) (flit 2 100) (flit 200 1) 32
    (flit 2000 1) true.

(** A playing room with drift correction on, ten seconds after its last sample:
    alice hosts and is 100 ms ahead. *)
Definition driftingRoom : RoomSync :=
  mkRoomSync correctingConfig "r1"
    (mkSyncState "r1" "m1" StatusPlaying 60000 1699999990000 rate_1 7 "alice" 3 0 "")
    (<["alice" := mkHeartbeat (flit 40 1) fzero (flit 100 1) (1699999999 * Second) 0 0 0 true]>
      (<["bob" := mkHeartbeat (flit 60 1) fzero (flit 3 1) (1699999999 * Second) 0 0 0 true]> ∅))
    NewDriftController [] ∅ true false true false emptyWorld.

(** The drift correction re-samples the wall clock without advancing the
    position to it, so besides the correction (17 ms here) the room loses the
    time since the last sample: it jumps back by eleven seconds. *)
Theorem tick_correction_rewinds :
  let rs' := after OTick driftingRoom in
  let nowMs := UnixMilli (@rt_now demoRuntime 1) in
  AdvanceMediaTime (state driftingRoom) nowMs = 71000 /\
  AdvanceMediaTime (state rs') nowMs = 59983.
Proof. vm_compute. split; reflexivity. Qed.

(** The demo room ten seconds after its sample, with nobody alive. *)
Definition abandonedRoom : RoomSync :=
  set_heartbeats ∅
    (upd_state (set_WallTimeMs 1699999990000) demoRoom).

(** Pausing a room whose host left does not advance the sample: the
    position falls back to the last sample instead of staying where playback
    was. *)
Theorem host_loss_pause_rewinds :
  let rs' := after OTick abandonedRoom in
  let nowMs := UnixMilli (@rt_now demoRuntime 0) in
  Status (state rs') = StatusPaused /\
  AdvanceMediaTime (state abandonedRoom) nowMs = 70000 /\
  AdvanceMediaTime (state rs') nowMs = 60000.
Proof. vm_compute. split_and!; reflexivity. Qed.
