(* ===== verification/Errors.v ===== *)
(** * The typed error model

    Model of [libs/errors/errors.go] and [libs/errors/connect.go]: the
    [*Error] type with its kinds and constructors, the walk of a wrapped chain
    by [errors.As], the mapping of kinds to Connect codes and back, and the
    conversion at the transport boundary.  An [error] value is one of the
    error types the services use; [EWrap] is [fmt.Errorf] with [%w]. *)

From S2P Require Import Prelude GoNum.

(** ** Kinds and codes *)

Inductive Kind : Type :=
| KindOther
| KindCancelled
| KindUnknown
| KindInvalidArgument
| KindDeadlineExceeded
| KindNotFound
| KindAlreadyExists
| KindPermissionDenied
| KindResourceExhausted
| KindFailedPrecondition
| KindAborted
| KindOutOfRange
| KindUnimplemented
| KindInternal
| KindUnavailable
| KindUnauthenticated.

(** The codes of the Connect protocol, with the success code. *)
Inductive Code : Type :=
| CodeOK
| CodeCanceled
| CodeUnknown
| CodeInvalidArgument
| CodeDeadlineExceeded
| CodeNotFound
| CodeAlreadyExists
| CodePermissionDenied
| CodeResourceExhausted
| CodeFailedPrecondition
| CodeAborted
| CodeOutOfRange
| CodeUnimplemented
| CodeInternal
| CodeUnavailable
| CodeDataLoss
| CodeUnauthenticated.

#[global] Instance Kind_eq_dec : EqDecision Kind.
Proof. solve_decision. Defined.
#[global] Instance Code_eq_dec : EqDecision Code.
Proof. solve_decision. Defined.

Definition code (k : Kind) : Code :=
  match k with
  | KindCancelled => CodeCanceled
  | KindUnknown => CodeUnknown
  | KindInvalidArgument => CodeInvalidArgument
  | KindDeadlineExceeded => CodeDeadlineExceeded
  | KindNotFound => CodeNotFound
  | KindAlreadyExists => CodeAlreadyExists
  | KindPermissionDenied => CodePermissionDenied
  | KindResourceExhausted => CodeResourceExhausted
  | KindFailedPrecondition => CodeFailedPrecondition
  | KindAborted => CodeAborted
  | KindOutOfRange => CodeOutOfRange
  | KindUnimplemented => CodeUnimplemented
  | KindInternal => CodeInternal
  | KindUnavailable => CodeUnavailable
  | KindUnauthenticated => CodeUnauthenticated
  | KindOther => CodeInternal
  end.

Definition codeToKind (c : Code) : Kind :=
  match c with
  | CodeCanceled => KindCancelled
  | CodeUnknown => KindUnknown
  | CodeInvalidArgument => KindInvalidArgument
  | CodeDeadlineExceeded => KindDeadlineExceeded
  | CodeNotFound => KindNotFound
  | CodeAlreadyExists => KindAlreadyExists
  | CodePermissionDenied => KindPermissionDenied
  | CodeResourceExhausted => KindResourceExhausted
  | CodeFailedPrecondition => KindFailedPrecondition
  | CodeAborted => KindAborted
  | CodeOutOfRange => KindOutOfRange
  | CodeUnimplemented => KindUnimplemented
  | CodeInternal => KindInternal
  | CodeUnavailable => KindUnavailable
  | CodeUnauthenticated => KindUnauthenticated
  | CodeOK | CodeDataLoss => KindInternal
  end.

(** ** Errors *)

Record Error (err : Type) : Type := mkError {
  ErrKind : Kind;
  Reason : string;
  Domain : string;
  Message : string;
  Meta : option (gmap string string);
  Cause : option err;
}.
Arguments mkError {err} _ _ _ _ _ _.
Arguments ErrKind {err} _.
Arguments Reason {err} _.
Arguments Domain {err} _.
Arguments Message {err} _.
Arguments Meta {err} _.
Arguments Cause {err} _.

Inductive error : Type :=
| EVb (e : Error error)                    (* *errors.Error *)
| ENotFound (entity id : string)           (* ports.notFoundErr *)
| ENoRows                                  (* pgx.ErrNoRows *)
| EUniqueViolation (constraint_ : string)  (* *pgconn.PgError, SQLSTATE 23505 *)
| ECanceled                                (* context.Canceled *)
| EConnect (c : Code) (msg : string)       (* *connect.Error *)
| EMsg (msg : string)                      (* errors.New, driver errors *)
| EWrap (msg : string) (cause : error).    (* fmt.Errorf("msg: %w", cause) *)

(** ** Constructors *)

Definition New (kind : Kind) (domain reason message : string) : Error error :=
  let reason := if bool_decide (reason = "") then "UNSPECIFIED" else reason in
  let domain := if bool_decide (domain = "") then "vibesync" else domain in
  mkError kind reason domain message None None.

Definition WithMeta (k v : string) (e : Error error) : Error error :=
  mkError (ErrKind e) (Reason e) (Domain e) (Message e)
    (Some (match Meta e with
           | None => {[k := v]}
           | Some m => <[k := v]> m
           end)) (Cause e).

Definition WithCause (cause : error) (e : Error error) : Error error :=
  mkError (ErrKind e) (Reason e) (Domain e) (Message e) (Meta e) (Some cause).

Definition domainFor (entity : string) : string :=
  if bool_decide (entity = "") then "vibesync" else ("vibesync." +:+ entity)%string.

Definition NotFound (entity id : string) : Error error :=
  WithMeta "id" id (WithMeta "entity" entity
    (New KindNotFound (domainFor entity) "NOT_FOUND" (entity +:+ " not found: " +:+ id))).

Definition AlreadyExists (entity id : string) : Error error :=
  WithMeta "id" id (WithMeta "entity" entity
    (New KindAlreadyExists (domainFor entity) "ALREADY_EXISTS"
       (entity +:+ " already exists: " +:+ id))).

Definition invalidArgument (domain reason msg : string) : Error error :=
  New KindInvalidArgument domain reason msg.
Definition InvalidArgument (reason msg : string) : Error error :=
  invalidArgument "vibesync" reason msg.
Definition InvalidArgumentFor (domain reason msg : string) : Error error :=
  invalidArgument domain reason msg.

Definition PermissionDenied (action resource : string) : Error error :=
  WithMeta "resource" resource (WithMeta "action" action
    (New KindPermissionDenied "vibesync.rbac" "PERMISSION_DENIED"
       ("not allowed to " +:+ action +:+ " on " +:+ resource))).

Definition Unauthenticated (reason : string) : Error error :=
  New KindUnauthenticated "vibesync.auth" reason "authentication required".

Definition FailedPrecondition (domain reason msg : string) : Error error :=
  New KindFailedPrecondition domain reason msg.
Definition Conflict (domain reason msg : string) : Error error :=
  New KindAborted domain reason msg.
Definition ResourceExhausted (domain reason msg : string) : Error error :=
  New KindResourceExhausted domain reason msg.
Definition Internal (reason msg : string) : Error error :=
  New KindInternal "vibesync" reason msg.

(** ** Chains *)

(** [e.Error()]; the texts of the library errors are their documented ones. *)
Fixpoint errText (e : error) : string :=
  match e with
  | EVb v =>
      let msg := if bool_decide (Message v = "") then Reason v else Message v in
      Domain v +:+ "/" +:+ Reason v +:+ ": " +:+ msg +:+
      match Cause v with
      | Some c => ": " +:+ errText c
      | None => ""
      end
  | ENotFound entity id => entity +:+ " not found: " +:+ id
  | ENoRows => "no rows in result set"
  | EUniqueViolation c => "duplicate key value violates unique constraint " +:+ c
  | ECanceled => "context canceled"
  | EConnect _ msg => msg
  | EMsg msg => msg
  | EWrap msg c => msg +:+ ": " +:+ errText c
  end.

(** [errors.As(err, &e)] for [*Error]: the first one of the chain. *)
Fixpoint AsError (e : error) : option (Error error) :=
  match e with
  | EVb v => Some v
  | EWrap _ c => AsError c
  | _ => None
  end.

(** [errors.As(err, &ce)] for [*connect.Error]. *)
Fixpoint AsConnect (e : error) : option (Code * string) :=
  match e with
  | EConnect c m => Some (c, m)
  | EVb v => match Cause v with Some c => AsConnect c | None => None end
  | EWrap _ c => AsConnect c
  | _ => None
  end.

(** [errors.Is(err, ports.ErrNotFound)]: [notFoundErr.Is] matches any other
    [notFoundErr]. *)
Fixpoint isNotFound (e : error) : bool :=
  match e with
  | ENotFound _ _ => true
  | EVb v => match Cause v with Some c => isNotFound c | None => false end
  | EWrap _ c => isNotFound c
  | _ => false
  end.

Definition errorCode (e : Error error) : Code := code (ErrKind e).

Definition Wrap (e : error) : Error error :=
  match AsError e with
  | Some v => v
  | None => WithCause e (Internal "INTERNAL" (errText e))
  end.

(** [(e *Error) Is(target)]. *)
Definition ErrorIs (e : Error error) (target : error) : bool :=
  match AsError target with
  | Some t =>
      bool_decide (ErrKind e = ErrKind t) && bool_decide (Reason e = Reason t) &&
      (bool_decide (Domain t = "") || bool_decide (Domain e = Domain t))
  | None => false
  end.

(** ** The transport boundary *)

Definition ToConnect (e : error) : error :=
  let v := Wrap e in
  EConnect (errorCode v) (Domain v +:+ "/" +:+ Reason v +:+ ": " +:+ Message v).

Definition FromConnect (e : error) : Error error :=
  match AsConnect e with
  | Some (c, m) => New (codeToKind c) "vibesync" "REMOTE" m
  | None => Wrap e
  end.

(** The code a client sees for an error a handler returns. *)
Definition wireCode (e : error) : Code := errorCode (Wrap e).

(** ** Theorems *)

(** Codes survive the wire: an error sent through [ToConnect] and received
    through [FromConnect] has the same Connect code, and every kind except the
    zero kind survives the round trip of the two mappings. *)
Theorem code_roundtrip e :
  errorCode (FromConnect (ToConnect e)) = wireCode e /\
  (forall k, k <> KindOther -> codeToKind (code k) = k) /\
  (forall k, code (codeToKind (code k)) = code k).
Proof.
  assert (forall k, code (codeToKind (code k)) = code k) as Hk by (by intros []).
  split_and!; [|by intros []|done].
  unfold FromConnect, ToConnect, wireCode. cbn [AsConnect]. apply Hk.
Qed.

(** Wrapping with [fmt.Errorf("%w")] any number of times loses nothing: the
    boundary still finds the original [*Error] with its reason and code, and a
    wrapped not-found is still recognised. *)
Theorem wrap_preserves (msgs : list string) (v : Error error) (entity id : string) :
  Wrap (foldr EWrap (EVb v) msgs) = v /\
  wireCode (foldr EWrap (EVb v) msgs) = code (ErrKind v) /\
  isNotFound (foldr EWrap (ENotFound entity id) msgs) = true.
Proof.
  assert (AsError (foldr EWrap (EVb v) msgs) = Some v) as Has by (by induction msgs).
  unfold wireCode, Wrap. rewrite Has. split_and!; [done|done|]. clear Has. by induction msgs.
Qed.
