(* ===== verification/GoString.v ===== *)
(** * Go's strings

    A Go string is a sequence of bytes, by convention UTF-8.  Rocq's [string]
    is a sequence of 8-bit characters; [bytes] gives their values.  Of the
    [strings] package this file has what the services use: [TrimSpace], with
    the white space of [unicode.IsSpace] at the byte level, and the part of
    [ToLower] that can produce ASCII. *)

From S2P Require Import Prelude GoNum.
From Stdlib Require Import Ascii.

Definition bytes (s : string) : list Z :=
  map (fun a => Z.of_N (N_of_ascii a)) (String.list_ascii_of_string s).

Definition ofBytes (l : list Z) : string :=
  String.string_of_list_ascii (map (fun z => ascii_of_N (Z.to_N z)) l).

Definition isByte (z : Z) : Prop := 0 <= z < 256.

(** [len(s)]. *)
Definition slen (s : string) : Z := Z.of_nat (String.length s).

Lemma bytes_range s : Forall isByte (bytes s).
Proof.
  unfold bytes. apply Forall_map, Forall_true. intros a. unfold isByte.
  pose proof (N_ascii_bounded a). lia.
Qed.

Lemma bytes_ofBytes l : Forall isByte l -> bytes (ofBytes l) = l.
Proof.
  intros Hl. unfold bytes, ofBytes. rewrite String.list_ascii_of_string_of_list_ascii, map_map.
  induction Hl as [|z l Hz Hl IH]; [done|]. simpl. rewrite IH. f_equal.
  unfold isByte in Hz. rewrite N_ascii_embedding; lia.
Qed.

Lemma ofBytes_bytes s : ofBytes (bytes s) = s.
Proof.
  unfold bytes, ofBytes. rewrite map_map.
  rewrite (map_ext _ id); [by rewrite map_id, String.string_of_list_ascii_of_string|].
  intros a. rewrite N2Z.id. apply ascii_N_embedding.
Qed.

Lemma length_bytes s : length (bytes s) = String.length s.
Proof. unfold bytes. rewrite length_map. induction s; simpl; [done|by f_equal]. Qed.

Lemma length_ofBytes l : String.length (ofBytes l) = length l.
Proof. unfold ofBytes. induction l; simpl; [done|by f_equal]. Qed.

Lemma bytes_app a b : bytes (a +:+ b) = bytes a ++ bytes b.
Proof. unfold bytes. induction a as [|c a IH]; simpl; [done|by f_equal]. Qed.

Lemma bytes_nil s : bytes s = [] <-> s = "".
Proof. by destruct s. Qed.

(** ** White space *)

(** The encoded length of a space rune at the head of the bytes, 0 if there is
    none: the ASCII spaces, U+0085, U+00A0, U+1680, U+2000 to U+200A, U+2028,
    U+2029, U+202F, U+205F and U+3000. *)
Definition spaceLen (l : list Z) : nat :=
  match l with
  | b :: rest =>
      if (b =? 32) || ((9 <=? b) && (b <=? 13)) then 1%nat
      else match rest with
      | c :: rest2 =>
          if (b =? 194) && ((c =? 133) || (c =? 160)) then 2%nat
          else match rest2 with
          | d :: _ =>
              if (b =? 225) && (c =? 154) && (d =? 128) then 3%nat
              else if (b =? 226) && (c =? 128) &&
                      (((128 <=? d) && (d <=? 138)) || (d =? 168) || (d =? 169) || (d =? 175))
              then 3%nat
              else if (b =? 226) && (c =? 129) && (d =? 159) then 3%nat
              else if (b =? 227) && (c =? 128) && (d =? 128) then 3%nat
              else 0%nat
          | [] => 0%nat
          end
      | [] => 0%nat
      end
  | [] => 0%nat
  end.

(** The same at the end of the bytes, given in reverse. *)
Definition spaceLenRev (l : list Z) : nat :=
  match l with
  | b :: rest =>
      if (b =? 32) || ((9 <=? b) && (b <=? 13)) then 1%nat
      else match rest with
      | c :: rest2 =>
          if (spaceLen [c; b] =? 2)%nat then 2%nat
          else match rest2 with
          | d :: _ => if (spaceLen [d; c; b] =? 3)%nat then 3%nat else 0%nat
          | [] => 0%nat
          end
      | [] => 0%nat
      end
  | [] => 0%nat
  end.

Fixpoint trimWith (fuel : nat) (spaces : list Z -> nat) (l : list Z) : list Z :=
  match fuel with
  | O => l
  | S fuel => match spaces l with
              | O => l
              | n => trimWith fuel spaces (drop n l)
              end
  end.

Definition TrimSpace (s : string) : string :=
  let l := bytes s in
  let l := trimWith (length l) spaceLen l in
  let r := rev l in
  ofBytes (rev (trimWith (length r) spaceLenRev r)).

(** The fuel is enough: nothing is left to trim. *)
Lemma spaceLen_cons l n : spaceLen l = S n -> (S n <= length l)%nat.
Proof. destruct l as [|b [|c [|d l]]]; simpl; repeat case_match; intros [=]; subst; simpl; lia. Qed.

Lemma spaceLenRev_cons l n : spaceLenRev l = S n -> (S n <= length l)%nat.
Proof.
  unfold spaceLenRev. destruct l as [|b [|c [|d l]]]; [done|..];
    repeat case_match; intros [=]; subst; simpl; lia.
Qed.

Lemma trimWith_done spaces l fuel :
  (forall l n, spaces l = S n -> (S n <= length l)%nat) ->
  (length l <= fuel)%nat -> spaces (trimWith fuel spaces l) = O.
Proof.
  intros Hs. revert l. induction fuel as [|fuel IH]; intros l Hl; simpl.
  - destruct (spaces l) eqn:E; [done|]. apply Hs in E. lia.
  - destruct (spaces l) as [|n] eqn:E; [done|]. apply IH. apply Hs in E.
    rewrite length_drop. lia.
Qed.

Lemma trimWith_suffix spaces fuel l : exists p, l = p ++ trimWith fuel spaces l.
Proof.
  revert l. induction fuel as [|fuel IH]; intros l; simpl; [by exists []|].
  destruct (spaces l) as [|n]; [by exists []|].
  destruct (IH (drop (S n) l)) as [p Hp]. exists (take (S n) l ++ p).
  by rewrite <- app_assoc, <- Hp, take_drop.
Qed.

(** [TrimSpace] removes a prefix and a suffix. *)
(** Text of visible ASCII characters has nothing to trim. *)
Definition graphic (b : Z) : Prop := 32 < b < 128.

Lemma spaceLen_graphic b l : graphic b -> spaceLen (b :: l) = O.
Proof.
  unfold graphic. intros Hb. simpl.
  rewrite !(proj2 (Z.eqb_neq b _)) by lia. rewrite (proj2 (Z.leb_gt b 13)) by lia.
  rewrite andb_false_r. by destruct l as [|c [|d l]].
Qed.

Lemma spaceLenRev_graphic l : Forall graphic l -> spaceLenRev l = O.
Proof.
  intros Hl. destruct l as [|b l]; [done|]. inversion Hl as [|? ? Hb Hl']; subst. unfold spaceLenRev.
  rewrite (proj2 (Z.eqb_neq b 32)), (proj2 (Z.leb_gt b 13)), andb_false_r by (unfold graphic in Hb; lia). simpl orb.
  destruct l as [|c l]; [done|]. inversion Hl' as [|? ? Hc Hl2]; subst. rewrite (spaceLen_graphic c) by done.
  destruct l as [|d l]; [done|]. inversion Hl2 as [|? ? Hd Hl3]; subst. by rewrite (spaceLen_graphic d).
Qed.

Lemma trimWith_none spaces fuel l : spaces l = O -> trimWith fuel spaces l = l.
Proof. destruct fuel; simpl; [done|]. by intros ->. Qed.

Lemma TrimSpace_graphic s : Forall graphic (bytes s) -> TrimSpace s = s.
Proof.
  intros Hs. unfold TrimSpace. rewrite (trimWith_none spaceLen) by (destruct Hs; [done|by apply spaceLen_graphic]).
  rewrite trimWith_none, rev_involutive; [apply ofBytes_bytes|]. by apply spaceLenRev_graphic, Forall_rev.
Qed.

Lemma TrimSpace_length s : slen (TrimSpace s) <= slen s.
Proof.
  unfold slen, TrimSpace. rewrite length_ofBytes, length_rev.
  destruct (trimWith_suffix spaceLen (length (bytes s)) (bytes s)) as [p Hp].
  set (l := trimWith _ spaceLen _) in *.
  destruct (trimWith_suffix spaceLenRev (length (rev l)) (rev l)) as [q Hq].
  rewrite <- (length_bytes s). apply (f_equal length) in Hp, Hq.
  rewrite length_app in Hp. rewrite length_app, length_rev in Hq.
  rewrite length_rev. lia.
Qed.

(** [strings.ToLower] and a match with [a-z0-9], one byte at a time: the class
    of the next character, and how many bytes it takes.  Besides the ASCII
    letters only U+0130 and U+212A have an ASCII lower case. *)
Definition lowerAlnum (l : list Z) : option Z * nat :=
  match l with
  | b :: rest =>
      if ((97 <=? b) && (b <=? 122)) || ((48 <=? b) && (b <=? 57)) then (Some b, 1%nat)
      else if (65 <=? b) && (b <=? 90) then (Some (b + 32), 1%nat)
      else match rest with
      | c :: rest2 =>
          if (b =? 196) && (c =? 176) then (Some 105, 2%nat)
          else match rest2 with
          | d :: _ =>
              if (b =? 226) && (c =? 132) && (d =? 170) then (Some 107, 3%nat)
              else (None, 1%nat)
          | [] => (None, 1%nat)
          end
      | [] => (None, 1%nat)
      end
  | [] => (None, 1%nat)
  end.

Definition isAlnum (z : Z) : bool :=
  ((97 <=? z) && (z <=? 122)) || ((48 <=? z) && (z <=? 57)).

Lemma lowerAlnum_alnum l z n : lowerAlnum l = (Some z, n) -> isAlnum z = true.
Proof.
  unfold lowerAlnum, isAlnum.
  destruct l as [|b [|c [|d l]]]; [done|..]; repeat case_match; intros [= <- <-];
    try done; apply orb_true_iff; left; apply andb_true_iff; go_bool;
    rewrite !Z.leb_le; lia.
Qed.
