(* ===== verification/GoRegexp.v ===== *)
(** * Regular expressions

    The regular expressions the services compile with [regexp.MustCompile], as
    a small syntax over byte classes.  The matcher takes Brzozowski
    derivatives; [MatchAll_spec] relates it to the language of the expression.
    Every expression of the source is anchored at both ends ([^...$]), so a
    match is a match of the whole text.  The classes of the source never
    contain only a part of a multi-byte character (a complemented class has all
    bytes above 127), so matching bytes is matching characters. *)

From S2P Require Import Prelude GoNum GoString.

Inductive regexp : Type :=
| RNone                       (* no text *)
| REmpty                      (* the empty text *)
| RClass (c : Z -> bool)      (* one byte of the class *)
| RSeq (r1 r2 : regexp)
| ROr (r1 r2 : regexp)
| RStar (r : regexp).

Definition RPlus (r : regexp) : regexp := RSeq r (RStar r).
Definition ROpt (r : regexp) : regexp := ROr REmpty r.
Definition RByte (b : Z) : regexp := RClass (Z.eqb b).

(** [r{m,n}] is [m] copies and then up to [n - m] optional ones. *)
Fixpoint RUpTo (n : nat) (r : regexp) : regexp :=
  match n with
  | O => REmpty
  | S n => ROpt (RSeq r (RUpTo n r))
  end.
Fixpoint RTimes (m : nat) (r rest : regexp) : regexp :=
  match m with
  | O => rest
  | S m => RSeq r (RTimes m r rest)
  end.
Definition RRepeat (m n : nat) (r : regexp) : regexp := RTimes m r (RUpTo (n - m) r).

(** ** The language *)

Inductive accepts : regexp -> list Z -> Prop :=
| acc_empty : accepts REmpty []
| acc_class c b : c b = true -> accepts (RClass c) [b]
| acc_seq r1 r2 l1 l2 : accepts r1 l1 -> accepts r2 l2 -> accepts (RSeq r1 r2) (l1 ++ l2)
| acc_left r1 r2 l : accepts r1 l -> accepts (ROr r1 r2) l
| acc_right r1 r2 l : accepts r2 l -> accepts (ROr r1 r2) l
| acc_stop r : accepts (RStar r) []
| acc_more r l1 l2 : accepts r l1 -> accepts (RStar r) l2 -> accepts (RStar r) (l1 ++ l2).

#[export] Hint Constructors accepts : vibe.

(** ** The matcher *)

Fixpoint nullable (r : regexp) : bool :=
  match r with
  | RNone | RClass _ => false
  | REmpty | RStar _ => true
  | RSeq r1 r2 => nullable r1 && nullable r2
  | ROr r1 r2 => nullable r1 || nullable r2
  end.

(** [RSeq] and [ROr] without the parts that match nothing, which keeps the
    derivatives small. *)
Definition seqOf (r1 r2 : regexp) : regexp :=
  match r1 with RNone => RNone | REmpty => r2 | _ => RSeq r1 r2 end.
Definition orOf (r1 r2 : regexp) : regexp :=
  match r1, r2 with RNone, r => r | r, RNone => r | _, _ => ROr r1 r2 end.

Fixpoint deriv (b : Z) (r : regexp) : regexp :=
  match r with
  | RNone | REmpty => RNone
  | RClass c => if c b then REmpty else RNone
  | RSeq r1 r2 =>
      if nullable r1 then orOf (seqOf (deriv b r1) r2) (deriv b r2) else seqOf (deriv b r1) r2
  | ROr r1 r2 => orOf (deriv b r1) (deriv b r2)
  | RStar r => seqOf (deriv b r) (RStar r)
  end.

Definition MatchAll (r : regexp) (l : list Z) : bool := nullable (fold_left (fun r b => deriv b r) l r).

(** [re.MatchString(s)] of an anchored expression. *)
Definition MatchString (r : regexp) (s : string) : bool := MatchAll r (bytes s).

(** ** The matcher decides the language *)

Lemma accepts_seqOf r1 r2 l : accepts (seqOf r1 r2) l <-> accepts (RSeq r1 r2) l.
Proof.
  unfold seqOf. destruct r1; try done.
  - split; intros H; inversion H; subst. by match goal with H : accepts RNone _ |- _ => inversion H end.
  - split; intros H; [apply (acc_seq REmpty r2 [] l); [constructor|done]|].
    inversion H; subst. by match goal with H : accepts REmpty _ |- _ => inversion H; subst end.
Qed.

Lemma accepts_orOf r1 r2 l : accepts (orOf r1 r2) l <-> accepts (ROr r1 r2) l.
Proof.
  unfold orOf. destruct r1, r2; try done; (split; intros H;
    [auto with vibe | inversion H; subst; try done;
       match goal with H : accepts RNone _ |- _ => inversion H end]).
Qed.

Lemma nullable_spec r : nullable r = true <-> accepts r [].
Proof.
  induction r as [| |c|r1 IH1 r2 IH2|r1 IH1 r2 IH2|r IH]; simpl.
  - split; [done|by inversion 1].
  - split; [constructor|done].
  - split; [done|by inversion 1].
  - rewrite andb_true_iff, IH1, IH2. split.
    + intros [H1 H2]. by apply (acc_seq r1 r2 [] []).
    + inversion 1 as [| |? ? l1 l2 H1 H2 E E'| | | |]; subst. by apply app_nil in E' as [-> ->].
  - rewrite orb_true_iff, IH1, IH2. split; [intros []; auto with vibe|].
    inversion 1; subst; auto.
  - split; [constructor|done].
Qed.

(** A non-empty member of a starred language starts with a non-empty member. *)
Lemma accepts_star_cons r b l :
  accepts (RStar r) (b :: l) -> exists l1 l2, l = l1 ++ l2 /\ accepts r (b :: l1) /\ accepts (RStar r) l2.
Proof.
  intros H. remember (RStar r) as q eqn:Eq. remember (b :: l) as m eqn:Em.
  revert b l Em. induction H as [| | | | | |r' l1 l2 H1 _ H2 IH2]; intros b0 l0 Em; try done.
  injection Eq as ->. destruct l1 as [|c l1]; [by apply IH2|].
  injection Em as -> <-. by exists l1, l2.
Qed.

Lemma deriv_spec b r l : accepts (deriv b r) l <-> accepts r (b :: l).
Proof.
  revert l. induction r as [| |c|r1 IH1 r2 IH2|r1 IH1 r2 IH2|r IH]; intros l; simpl.
  - split; inversion 1.
  - split; inversion 1.
  - destruct (c b) eqn:E.
    + split; [inversion 1; subst; by constructor|inversion 1; subst; constructor].
    + split; [inversion 1|]. inversion 1; subst. congruence.
  - assert (accepts (seqOf (deriv b r1) r2) l <->
      exists l1 l2, l = l1 ++ l2 /\ accepts r1 (b :: l1) /\ accepts r2 l2) as Hseq.
    { rewrite accepts_seqOf. split.
      - inversion 1 as [| |? ? l1 l2 H1 H2| | | |]; subst. apply IH1 in H1. eauto.
      - intros (l1 & l2 & -> & H1 & H2). apply IH1 in H1. by constructor. }
    assert (accepts (RSeq r1 r2) (b :: l) <->
      (exists l1 l2, l = l1 ++ l2 /\ accepts r1 (b :: l1) /\ accepts r2 l2) \/
      (accepts r1 [] /\ accepts r2 (b :: l))) as Hall.
    { split.
      - inversion 1 as [| |? ? l1 l2 H1 H2 E E'| | | |]; subst. destruct l1 as [|c l1]; [by right|].
        injection E' as -> <-. left. eauto.
      - intros [(l1 & l2 & -> & H1 & H2)|[H1 H2]]; [exact (acc_seq _ _ _ _ H1 H2)|].
        exact (acc_seq _ _ _ _ H1 H2). }
    rewrite Hall. destruct (nullable r1) eqn:En.
    + rewrite accepts_orOf. apply nullable_spec in En. split.
      * inversion 1; subst; [left; by apply Hseq|right]. by split; [|apply IH2].
      * intros [H|[_ H]]; [apply acc_left; by apply Hseq|]. apply acc_right. by apply IH2.
    + rewrite Hseq. split; [by left|]. intros [H|[H _]]; [done|]. apply nullable_spec in H. congruence.
  - rewrite accepts_orOf. split; inversion 1; subst.
    + apply acc_left. by apply IH1.
    + apply acc_right. by apply IH2.
    + apply acc_left. by apply IH1.
    + apply acc_right. by apply IH2.
  - rewrite accepts_seqOf. split.
    + inversion 1 as [| |? ? l1 l2 H1 H2| | | |]; subst. apply IH in H1. exact (acc_more _ _ _ H1 H2).
    + intros H. apply accepts_star_cons in H as (l1 & l2 & -> & H1 & H2). apply IH in H1. by constructor.
Qed.

Lemma MatchAll_spec r l : MatchAll r l = true <-> accepts r l.
Proof.
  unfold MatchAll. revert r. induction l as [|b l IH]; intros r; simpl; [apply nullable_spec|].
  by rewrite IH, deriv_spec.
Qed.

(** ** Shapes *)

Lemma accepts_class c l : accepts (RClass c) l <-> exists b, l = [b] /\ c b = true.
Proof.
  split; [inversion 1; subst; eauto|]. intros (b & -> & H). by constructor.
Qed.

Lemma accepts_seq r1 r2 l :
  accepts (RSeq r1 r2) l <-> exists l1 l2, l = l1 ++ l2 /\ accepts r1 l1 /\ accepts r2 l2.
Proof.
  split; [inversion 1; subst; eauto|]. intros (l1 & l2 & -> & H1 & H2). by constructor.
Qed.

Lemma accepts_star_class c l : accepts (RStar (RClass c)) l <-> Forall (fun b => c b = true) l.
Proof.
  split.
  - intros H. induction l as [|b l IH]; [constructor|].
    apply accepts_star_cons in H as (l1 & l2 & -> & H1 & H2). inversion H1; subst. constructor; [done|].
    by apply IH.
  - induction 1 as [|b l Hb Hl IH]; [constructor|]. apply (acc_more _ [b] l); [by constructor|done].
Qed.

Lemma accepts_plus_class c l :
  accepts (RPlus (RClass c)) l <-> l <> [] /\ Forall (fun b => c b = true) l.
Proof.
  unfold RPlus. rewrite accepts_seq. setoid_rewrite accepts_class. setoid_rewrite accepts_star_class. split.
  - intros (? & l2 & -> & (b & -> & Hb) & Hl). split; [done|]. by constructor.
  - intros [Hne Hl]. destruct Hl as [|b l Hb Hl]; [done|]. exists [b], l. eauto.
Qed.

Lemma accepts_upTo_class n c l :
  accepts (RUpTo n (RClass c)) l <-> (length l <= n)%nat /\ Forall (fun b => c b = true) l.
Proof.
  revert l. induction n as [|n IH]; intros l; simpl.
  - split; [by inversion 1; subst; split|]. intros [Hn _]. destruct l; [constructor|simpl in Hn; lia].
  - unfold ROpt. split.
    + inversion 1 as [| | |? ? ? H1|? ? ? H1| |]; subst; [inversion H1; subst; split; [simpl; lia|done]|].
      apply accepts_seq in H1 as (l1 & l2 & -> & H1 & H2). inversion H1; subst. apply IH in H2 as [Hn Hl].
      split; [simpl; lia|by constructor].
    + intros [Hn Hl]. destruct Hl as [|b l Hb Hl]; [auto with vibe|]. apply acc_right.
      apply (acc_seq _ _ [b] l); [by constructor|]. apply IH. split; [simpl in Hn; lia|done].
Qed.

(** [c{m,n}] is between [m] and [n] bytes of the class. *)
Lemma accepts_repeat_class m n c l :
  (m <= n)%nat ->
  accepts (RRepeat m n (RClass c)) l <-> (m <= length l <= n)%nat /\ Forall (fun b => c b = true) l.
Proof.
  intros Hmn. unfold RRepeat. assert (forall k m l, accepts (RTimes m (RClass c) (RUpTo k (RClass c))) l <->
    (m <= length l <= m + k)%nat /\ Forall (fun b => c b = true) l) as Ht.
  { intros k m'. induction m' as [|m' IH]; intros l'; simpl.
    - rewrite accepts_upTo_class. split; intros [? ?]; (split; [lia|done]).
    - rewrite accepts_seq. split.
      + intros (l1 & l2 & -> & H1 & H2). inversion H1; subst. apply IH in H2 as [? ?].
        split; [simpl; lia|by constructor].
      + intros [Hn Hl]. destruct Hl as [|b l2 Hb Hl]; [simpl in Hn; lia|].
        exists [b], l2. split; [done|]. split; [by constructor|]. apply IH. simpl in Hn. split; [lia|done]. }
  rewrite Ht. split; intros [? ?]; (split; [lia|done]).
Qed.
