(* ===== verification/Ids.v ===== *)
(** * Ids

    Model of [libs/id/id.go]: drawing, validating and parsing ULIDs.  The ULID
    library is the class [Ulid], with what it documents as [UlidLaws].  The
    services draw their ids here; the ids of the models of the services come
    from their environment. *)

From S2P Require Import Prelude GoNum Errors GoString GoRegexp.

Open Scope Z_scope.

(** [ulid.ULID] and the entropy it draws from. *)
Class Ulid (U S : Type) : Type := {
  u_New : Z -> S -> res error U * S;      (* [ulid.New] at a number of milliseconds *)
  u_String : U -> string;
  u_Parse : string -> res error U;
  u_Time : U -> Z;
}.

Definition Format : string := "0123456789ABCDEFGHJKMNPQRSTVWXYZ".

Definition ErrInvalidFormat : error := EMsg "id: must be 26 canonical ULID characters".

(** The class [[0-9A-HJKMNP-TV-Z]]. *)
Definition canonicalClass (b : Z) : bool :=
  ((48 <=? b) && (b <=? 57)) || ((65 <=? b) && (b <=? 72)) || (b =? 74) || (b =? 75) || (b =? 77) || (b =? 78) ||
  ((80 <=? b) && (b <=? 84)) || ((86 <=? b) && (b <=? 90)).
Definition canonicalRe : regexp := RRepeat 26 26 (RClass canonicalClass).

Definition validate (s : string) : res error unit :=
  if negb (MatchString canonicalRe s) then Err ErrInvalidFormat else Ok tt.

Definition Valid (s : string) : bool := is_Ok (validate s).

Section ids.
Context {U S : Type} `{Ulid U S}.

(** The locked source is the state that the callers pass on; [None] is the
    panic of [ulid.MustNew]. *)
Definition NewAt (now : time) : PM S string := fun src =>
  match u_New (uint64 (UnixMilli now)) src with
  | (Ok u, src') => Some (u_String u, src')
  | (Err _, _) => None
  end.

Definition Parse (s : string) : res error U :=
  match validate s with
  | Err e => Err e
  | Ok _ => u_Parse s
  end.

(** [None] is the panic. *)
Definition MustParse (s : string) : option U :=
  match validate s with
  | Err _ => None
  | Ok _ => match u_Parse s with Ok u => Some u | Err _ => None end
  end.

(** [ulid.Time] of the milliseconds is a [time.Time]. *)
Definition Time (s : string) : res error time :=
  match Parse s with
  | Err e => Err e
  | Ok u => Ok (u_Time u * Millisecond)
  end.
End ids.

(** What the library documents: an id drawn for a time below 2^48 ms carries it,
    is written in Crockford's alphabet with 26 characters, and parses back; a
    text whose first character is above 7 overflows 128 bits. *)
Class UlidLaws (U S : Type) `{Ulid U S} : Prop := {
  ulid_time : forall ms s u s', 0 <= ms < 2 ^ 48 -> u_New ms s = (Ok u, s') -> u_Time u = ms;
  ulid_text : forall ms s u s', 0 <= ms < 2 ^ 48 -> u_New ms s = (Ok u, s') ->
    length (bytes (u_String u)) = 26%nat /\ Forall (fun b => b ∈ bytes Format) (bytes (u_String u));
  ulid_parse : forall ms s u s', 0 <= ms < 2 ^ 48 -> u_New ms s = (Ok u, s') -> u_Parse (u_String u) = Ok u;
  ulid_overflow : forall s b rest, bytes s = b :: rest -> 55 < b -> is_Ok (u_Parse s) = false;
}.

(** ** What is valid *)

(** The class of the expression is the alphabet: 256 bytes to look at. *)
Lemma canonicalClass_format b : isByte b -> canonicalClass b = true <-> b ∈ bytes Format.
Proof.
  intros Hb. rewrite <- (bool_decide_spec (b ∈ bytes Format)).
  assert (Forall (fun b => canonicalClass b = bool_decide (b ∈ bytes Format)) (seqZ 0 256)) as Hall
    by (apply (bool_decide_unpack _); by vm_compute).
  rewrite Forall_forall in Hall. rewrite (Hall b) by (apply elem_of_seqZ; unfold isByte in Hb; lia).
  by rewrite Is_true_true.
Qed.

Lemma Valid_spec s : Valid s = true <-> slen s = 26 /\ Forall (fun b => b ∈ bytes Format) (bytes s).
Proof.
  unfold Valid, validate. transitivity (MatchString canonicalRe s = true); [by destruct (MatchString _ _)|].
  unfold MatchString, canonicalRe. rewrite MatchAll_spec, accepts_repeat_class by lia.
  unfold slen. rewrite <- length_bytes.
  assert (Forall (fun b => canonicalClass b = true) (bytes s) <-> Forall (fun b => b ∈ bytes Format) (bytes s)) as ->.
  { pose proof (bytes_range s) as Hr. rewrite Forall_forall in Hr.
    split; intros Hf; rewrite Forall_forall in Hf |- *; intros b Hb; apply canonicalClass_format; auto. }
  split; intros [Hl Hf]; (split; [lia|done]).
Qed.

Section ids_facts.
Context {U S : Type} `{UlidLaws U S}.

(** No lower-case, ambiguous or missing character gets past [Parse]. *)
Lemma Parse_canonical s u : Parse s = Ok u -> Valid s = true.
Proof. unfold Parse, Valid. by destruct (validate s). Qed.

(** [Valid] is not [Parse]: a text from 8 on is of the right form, but no id. *)
Lemma valid_not_parsed s b rest : bytes s = b :: rest -> 55 < b -> is_Ok (Parse s) = false.
Proof. intros Hs Hb. unfold Parse. destruct (validate s); [|done]. by eapply ulid_overflow. Qed.

Lemma NewAt_facts now src s src' : 0 <= now < 2 ^ 48 * Millisecond -> NewAt now src = Some (s, src') ->
  Valid s = true /\ exists u, u_String u = s /\ u_Parse s = Ok u /\ u_Time u = UnixMilli now.
Proof.
  intros Hnow Hn. unfold NewAt in Hn.
  assert (0 <= UnixMilli now < 2 ^ 48) as Hms.
  { unfold UnixMilli. split; [apply Z.div_pos; [lia|done]|]. apply Z.div_lt_upper_bound; [done|]. lia. }
  rewrite uint64_id in Hn by (unfold in_u; lia).
  destruct (u_New _ src) as [[u|e] s'] eqn:En; [|done]. injection Hn as <- <-.
  destruct (ulid_text _ _ _ _ Hms En) as [Hl Hf]. split.
  - apply Valid_spec. split; [|done]. unfold slen. rewrite <- length_bytes. by rewrite Hl.
  - exists u. split_and!; [done|by eapply ulid_parse|by eapply ulid_time].
Qed.
End ids_facts.

(** An id is what it was made for: whatever the entropy, an id drawn at a time
    before the year 10889 is valid, parses to the id that was drawn, without
    panicking, and gives back its time to the millisecond; and every text that
    parses is valid. *)
Theorem id_roundtrip {U S : Type} `{UlidLaws U S} now src s src' :
  0 <= now < 2 ^ 48 * Millisecond -> NewAt now src = Some (s, src') ->
  Valid s = true /\ (exists u : U, Parse s = Ok u /\ MustParse s = Some u /\ u_String u = s) /\
  Time s = Ok (now / Millisecond * Millisecond) /\
  (forall s' (u : U), Parse s' = Ok u -> slen s' = 26 /\ Forall (fun b => b ∈ bytes Format) (bytes s')).
Proof.
  intros Hnow Hn. destruct (NewAt_facts _ _ _ _ Hnow Hn) as (Hv & u & Hs & Hp & Ht).
  assert (validate s = Ok tt) as Hval by (unfold Valid in Hv; by destruct (validate s) as [[]|]).
  assert (Parse s = Ok u) as Hparse by (unfold Parse; by rewrite Hval).
  split_and!; [done|exists u|unfold Time; by rewrite Hparse, Ht|intros s' u' Hp'; by eapply Valid_spec, Parse_canonical].
  unfold MustParse. by rewrite Hval, Hp.
Qed.

(** ** A library *)

(** Ten characters for the time and sixteen zeros. *)
Fixpoint encode32 (n : nat) (z : Z) : list Z :=
  match n with
  | O => []
  | S n => encode32 n (z / 32) ++ [nth (Z.to_nat (z mod 32)) (bytes Format) 48]
  end.
Definition value32 (b : Z) : Z := Z.of_nat (default O (fst <$> list_find (fun x => x = b) (bytes Format))).
Definition decode32 (l : list Z) : Z := fold_left (fun acc b => acc * 32 + value32 b) l 0.

Definition demoUlid : Ulid Z unit := {|
  u_New ms s := (Ok ms, s);
  u_String ms := ofBytes (encode32 10 ms ++ replicate 16 48);
  u_Parse s := if 55 <? default 0 (head (bytes s)) then Err (EMsg "overflow") else Ok (decode32 (take 10 (bytes s)));
  u_Time ms := ms;
|}.

Lemma digit32 r : 0 <= r < 32 ->
  nth (Z.to_nat r) (bytes Format) 48 ∈ bytes Format /\ isByte (nth (Z.to_nat r) (bytes Format) 48) /\
  value32 (nth (Z.to_nat r) (bytes Format) 48) = r.
Proof.
  intros Hr. assert (Forall (fun r => nth (Z.to_nat r) (bytes Format) 48 ∈ bytes Format /\
    (0 <= nth (Z.to_nat r) (bytes Format) 48 < 256) /\ value32 (nth (Z.to_nat r) (bytes Format) 48) = r) (seqZ 0 32)) as Hall by (apply (bool_decide_unpack _); by vm_compute).
  rewrite Forall_forall in Hall. apply Hall, elem_of_seqZ. lia.
Qed.

Lemma encode32_spec n z : 0 <= z < 32 ^ Z.of_nat n ->
  length (encode32 n z) = n /\ Forall (fun b => b ∈ bytes Format) (encode32 n z) /\ Forall isByte (encode32 n z) /\
  decode32 (encode32 n z) = z.
Proof.
  revert z. induction n as [|n IH]; intros z Hz; [change (0 <= z < 1) in Hz; cbn; split_and!; [done..|lia]|].
  rewrite Nat2Z.inj_succ, Z.pow_succ_r in Hz by lia. pose proof (Z.mod_pos_bound z 32 eq_refl) as Hm.
  destruct (digit32 (z mod 32) Hm) as (Hf & Hb & Hv). destruct (IH (z / 32)) as (Hl & HF & HB & Hd).
  { split; [apply Z.div_pos; lia|apply Z.div_lt_upper_bound; lia]. }
  cbn [encode32]. split_and!.
  - rewrite length_app, Hl. simpl. lia.
  - apply Forall_app. by rewrite Forall_singleton.
  - apply Forall_app. by rewrite Forall_singleton.
  - unfold decode32 in *. rewrite fold_left_app, Hd. cbn [fold_left]. rewrite Hv. pose proof (Z.div_mod z 32). lia.
Qed.

Lemma demoUlid_text ms : 0 <= ms < 2 ^ 48 ->
  let l := encode32 10 ms ++ replicate 16 48 in
  length l = 26%nat /\ Forall (fun b => b ∈ bytes Format) l /\ bytes (ofBytes l) = l.
Proof.
  intros Hms l. destruct (encode32_spec 10 ms) as (Hl & Hf & Hb & _); [change (32 ^ Z.of_nat 10) with (2 ^ 50); lia|].
  unfold l. split_and!.
  - by rewrite length_app, Hl, length_replicate.
  - apply Forall_app. split; [done|]. apply Forall_replicate. apply (bool_decide_unpack _); by vm_compute.
  - apply bytes_ofBytes, Forall_app. split; [done|]. apply Forall_replicate. by unfold isByte.
Qed.

(** Below 2^48 the first character is at most 7. *)
Lemma encode32_first ms : 0 <= ms < 2 ^ 48 -> default 0 (head (encode32 10 ms ++ replicate 16 48)) <= 55.
Proof.
  intros Hms.
  assert (forall n z, 0 <= z < 8 * 32 ^ Z.of_nat n -> exists l, encode32 (S n) z = nth (Z.to_nat (z / 32 ^ Z.of_nat n)) (bytes Format) 48 :: l) as Hhead.
  { induction n as [|n IH]; intros z Hz.
    - exists []. cbn [encode32 app]. change (32 ^ Z.of_nat 0) with 1 in *. rewrite Z.div_1_r, Z.mod_small by lia. done.
    - rewrite Nat2Z.inj_succ, Z.pow_succ_r in * by lia. destruct (IH (z / 32)) as [l Hl].
      { split; [apply Z.div_pos; lia|apply Z.div_lt_upper_bound; lia]. }
      cbn [encode32] in *. rewrite Hl. rewrite Z.div_div by lia. by eexists. }
  destruct (Hhead 9%nat ms) as [l ->]; [change (8 * 32 ^ Z.of_nat 9) with (2 ^ 48); lia|]. simpl.
  assert (0 <= ms / 32 ^ 9 < 8) as Hd
    by (split; [apply Z.div_pos; lia|apply Z.div_lt_upper_bound; [lia|change (32 ^ 9 * 8) with (2 ^ 48); lia]]).
  assert (Forall (fun r => nth (Z.to_nat r) (bytes Format) 48 <= 55) (seqZ 0 8)) as Hall by (apply (bool_decide_unpack _); by vm_compute).
  rewrite Forall_forall in Hall. apply Hall, elem_of_seqZ. lia.
Qed.

Lemma demoUlidLaws : @UlidLaws Z unit demoUlid.
Proof.
  split; cbn [u_New u_String u_Parse u_Time demoUlid].
  - intros ms s u s' _ [= -> _]. done.
  - intros ms s u s' Hms [= -> _]. destruct (demoUlid_text u Hms) as (Hl & Hf & ->). done.
  - intros ms s u s' Hms [= -> _]. destruct (demoUlid_text u Hms) as (_ & _ & ->).
    pose proof (encode32_first u Hms). destruct (Z.ltb_spec 55 (default 0 (head (encode32 10 u ++ replicate 16 48)))); [lia|].
    destruct (encode32_spec 10 u) as (Hl & _ & _ & Hd); [change (32 ^ Z.of_nat 10) with (2 ^ 50); lia|].
    by rewrite take_app_length', Hd by done.
  - intros s b rest -> Hb. unfold head, default, from_option, id. by rewrite (proj2 (Z.ltb_lt 55 b) Hb).
Qed.

Lemma id_roundtrip_witness :
  exists s, @NewAt Z unit demoUlid 1700000000123456789 tt = Some (s, tt) /\ s = "01HF7YAT3V0000000000000000" /\ Valid s = true /\
    @Time Z unit demoUlid s = Ok 1700000000123000000.
Proof.
  assert (0 <= 1700000000123456789 < 2 ^ 48 * Millisecond) as Hnow by (vm_compute; split; [intros Hc; discriminate Hc|reflexivity]).
  eexists. split; [reflexivity|]. split; [vm_compute; reflexivity|].
  destruct (@id_roundtrip Z unit demoUlid demoUlidLaws 1700000000123456789 tt _ tt Hnow eq_refl) as (Hv & _ & Ht & _).
  split; [exact Hv|exact Ht].
Defined.

(** The largest text of the right form is valid, and no id. *)
Example valid_overflow :
  Valid "8ZZZZZZZZZZZZZZZZZZZZZZZZZ" = true /\
  forall (U S : Type) `{UlidLaws U S}, @is_Ok error U (Parse "8ZZZZZZZZZZZZZZZZZZZZZZZZZ") = false.
Proof. split; [by vm_compute|]. intros U S ??. by eapply valid_not_parsed. Qed.
