(* ===== verification/GoUnicode.v ===== *)
(** * UTF-8 and letter case

    Decoding and encoding of characters as [unicode/utf8] does it, and
    [strings.ToLower].  The lower case of a character above ASCII is a table of
    the Unicode database, a parameter ([UnicodeLower]). *)

From S2P Require Import Prelude GoNum GoString.

(** [utf8.RuneError]. *)
Definition RuneError : Z := 65533.

Definition within (lo hi b : Z) : bool := (lo <=? b) && (b <=? hi).

(** The second byte that may follow a lead byte. *)
Definition secondByte (b : Z) : Z -> bool :=
  if b =? 224 then within 160 191
  else if b =? 237 then within 128 159
  else if b =? 240 then within 144 191
  else if b =? 244 then within 128 143
  else within 128 191.

(** [utf8.DecodeRune] of a non-empty text: the character and its width; an
    invalid encoding is [RuneError] of width 1. *)
Definition DecodeRune (l : list Z) : Z * nat :=
  match l with
  | [] => (RuneError, 0%nat)
  | b0 :: rest =>
      if b0 <? 128 then (b0, 1%nat)
      else if within 194 223 b0 then
        match rest with
        | b1 :: _ => if secondByte b0 b1 then ((b0 - 192) * 64 + (b1 - 128), 2%nat) else (RuneError, 1%nat)
        | _ => (RuneError, 1%nat)
        end
      else if within 224 239 b0 then
        match rest with
        | b1 :: b2 :: _ =>
            if secondByte b0 b1 && within 128 191 b2
            then (((b0 - 224) * 64 + (b1 - 128)) * 64 + (b2 - 128), 3%nat) else (RuneError, 1%nat)
        | _ => (RuneError, 1%nat)
        end
      else if within 240 244 b0 then
        match rest with
        | b1 :: b2 :: b3 :: _ =>
            if secondByte b0 b1 && within 128 191 b2 && within 128 191 b3
            then ((((b0 - 240) * 64 + (b1 - 128)) * 64 + (b2 - 128)) * 64 + (b3 - 128), 4%nat)
            else (RuneError, 1%nat)
        | _ => (RuneError, 1%nat)
        end
      else (RuneError, 1%nat)
  end.

(** [utf8.AppendRune]. *)
Definition encodeValid (r : Z) : list Z :=
  if r <? 128 then [r]
  else if r <? 2048 then [192 + r / 64; 128 + r mod 64]
  else if r <? 65536 then [224 + r / 4096; 128 + r / 64 mod 64; 128 + r mod 64]
  else [240 + r / 262144; 128 + r / 4096 mod 64; 128 + r / 64 mod 64; 128 + r mod 64].
Definition validRune (r : Z) : bool := within 0 55295 r || within 57344 1114111 r.
Definition EncodeRune (r : Z) : list Z := encodeValid (if validRune r then r else RuneError).

(** The characters of a text ([for _, r := range s]). *)
Fixpoint runesOf (fuel : nat) (l : list Z) : list Z :=
  match fuel, l with
  | S fuel, _ :: _ => let '(r, n) := DecodeRune l in r :: runesOf fuel (drop n l)
  | _, _ => []
  end.
Definition runes (l : list Z) : list Z := runesOf (length l) l.

(** ** [strings.ToLower] *)

Class UnicodeLower : Type := lowerTable : Z -> Z.

Definition asciiLower (b : Z) : Z := if within 65 90 b then b + 32 else b.

Definition runeLower `{UnicodeLower} (r : Z) : Z := if r <? 128 then asciiLower r else lowerTable r.

Definition isASCII (l : list Z) : bool := forallb (fun b => b <? 128) l.

Definition ToLower `{UnicodeLower} (s : string) : string :=
  let l := bytes s in
  if isASCII l then ofBytes (map asciiLower l)
  else ofBytes (concat (map (fun r => EncodeRune (runeLower r)) (runes l))).

(** ASCII text is lowered byte by byte. *)
Lemma ToLower_ascii `{UnicodeLower} s :
  isASCII (bytes s) = true -> ToLower s = ofBytes (map asciiLower (bytes s)).
Proof. unfold ToLower. by intros ->. Qed.

(** Lower-case ASCII text does not change. *)
Definition lowerASCII (b : Z) : bool := (b <? 128) && negb (within 65 90 b).

Lemma ToLower_fixed `{UnicodeLower} s : Forall (fun b => lowerASCII b = true) (bytes s) -> ToLower s = s.
Proof.
  intros Hs. rewrite ToLower_ascii.
  - rewrite <- (ofBytes_bytes s) at 2. f_equal. induction Hs as [|b l Hb Hl IH]; [done|]. simpl. rewrite IH.
    unfold lowerASCII in Hb. apply andb_true_iff in Hb as [_ Hb]. apply negb_true_iff in Hb.
    unfold asciiLower. by rewrite Hb.
  - apply forallb_forall. intros b Hb. rewrite Forall_forall in Hs. apply list_elem_of_In, Hs in Hb.
    by apply andb_true_iff in Hb as [? _].
Qed.
