(* ===== verification/GoTime.v ===== *)
(** * Calendar dates and RFC 3339

    [time.Time.Format] and [time.Parse] with the layout
    ["2006-01-02T15:04:05Z07:00"] ([time.RFC3339]), in which the events carry
    their times.  Dates are those of the proleptic Gregorian calendar, counted
    in days from January 1 of year 1. *)

From S2P Require Import Prelude GoNum GoString GoUnicode.

(** ** The calendar *)

Definition leap (y : Z) : bool := (y mod 4 =? 0) && (negb (y mod 100 =? 0) || (y mod 400 =? 0)).

(** Days before January 1 of a year. *)
Definition daysBeforeYear (y : Z) : Z := 365 * (y - 1) + (y - 1) / 4 - (y - 1) / 100 + (y - 1) / 400.

(** Days of the year before a month. *)
Definition daysBeforeMonth (y m : Z) : Z :=
  nth (Z.to_nat m) [0; 0; 31; 59; 90; 120; 151; 181; 212; 243; 273; 304; 334; 365] 0 +
  (if leap y && (2 <? m) then 1 else 0).

Definition daysIn (y m : Z) : Z := daysBeforeMonth y (m + 1) - daysBeforeMonth y m.

Definition yearAt (d : Z) : Z :=
  let y := d * 400 / 146097 + 1 in
  if daysBeforeYear (y + 1) <=? d then y + 1 else y.

Definition monthAt (y yday : Z) : Z :=
  default 1 (List.find (fun m => daysBeforeMonth y m <=? yday) [12; 11; 10; 9; 8; 7; 6; 5; 4; 3; 2]).

(** January 1, 1970. *)
Definition epochDays : Z := 719162.

Definition dateToDays (y m d : Z) : Z := daysBeforeYear y + daysBeforeMonth y m + (d - 1) - epochDays.

Definition daysToDate (days : Z) : Z * Z * Z :=
  let d := days + epochDays in
  let y := yearAt d in
  let yday := d - daysBeforeYear y in
  let m := monthAt y yday in
  (y, m, yday - daysBeforeMonth y m + 1).

(** ** [t.UTC().Format(time.RFC3339)] *)

Definition digits2 (z : Z) : list Z := [48 + z / 10; 48 + z mod 10].
Definition digits4 (z : Z) : list Z := digits2 (z / 100) ++ digits2 (z mod 100).

(** Years from 0 to 9999, which have four digits. *)
Definition FormatRFC3339 (t : time) : string :=
  let s := t / Second in
  let '(y, m, d) := daysToDate (s / 86400) in
  let r := s mod 86400 in
  ofBytes (digits4 y ++ [45] ++ digits2 m ++ [45] ++ digits2 d ++ [84] ++
           digits2 (r / 3600) ++ [58] ++ digits2 (r / 60 mod 60) ++ [58] ++ digits2 (r mod 60) ++ [90]).

(** ** [time.Parse(time.RFC3339, s)] *)

Definition digitOf (b : Z) : option Z := if within 48 57 b then Some (b - 48) else None.

(** [getnum]: two digits, or one when the width is not fixed. *)
Definition getnum (fixed : bool) (l : list Z) : option (Z * list Z) :=
  match l with
  | a :: rest =>
      match digitOf a with
      | None => None
      | Some x =>
          let one := if fixed then None else Some (x, rest) in
          match rest with
          | b :: rest' => match digitOf b with Some y => Some (10 * x + y, rest') | None => one end
          | [] => one
          end
      end
  | [] => None
  end.

Definition getyear (l : list Z) : option (Z * list Z) :=
  match getnum true l with
  | None => None
  | Some (hi, l) => match getnum true l with Some (lo, l) => Some (100 * hi + lo, l) | None => None end
  end.

Definition literal (b : Z) (l : list Z) : option (list Z) :=
  match l with c :: l => if c =? b then Some l else None | [] => None end.

(** A fraction of a second, after a full stop or a comma; digits beyond the
    ninth are dropped. *)
Fixpoint fractionDigits (l : list Z) : list Z * list Z :=
  match l with
  | b :: rest => if within 48 57 b then let '(d, r) := fractionDigits rest in (b :: d, r) else ([], l)
  | [] => ([], [])
  end.
Definition digitsValue (l : list Z) : Z := fold_left (fun acc b => 10 * acc + (b - 48)) l 0.
Definition getfraction (l : list Z) : Z * list Z :=
  match l with
  | c :: rest =>
      if (c =? 46) || (c =? 44) then
        let '(d, r) := fractionDigits rest in
        match d with
        | [] => (0, l)
        | _ => let d := take 9 d in (digitsValue d * 10 ^ (9 - Z.of_nat (length d)), r)
        end
      else (0, l)
  | [] => (0, l)
  end.

(** The offset in seconds: [Z], [+hh:mm] or [-hh:mm]. *)
Definition getzone (l : list Z) : option (Z * list Z) :=
  match l with
  | 90 :: rest => Some (0, rest)
  | sign :: rest =>
      match getnum true rest with
      | Some (h, rest) =>
          match literal 58 rest with
          | Some rest =>
              match getnum true rest with
              | Some (m, rest) =>
                  if (24 <? h) || (60 <? m) then None
                  else if sign =? 43 then Some ((h * 60 + m) * 60, rest)
                  else if sign =? 45 then Some (- ((h * 60 + m) * 60), rest)
                  else None
              | None => None
              end
          | None => None
          end
      | None => None
      end
  | [] => None
  end.

Definition ParseRFC3339 (s : string) : option time :=
  '(y, l) ← getyear (bytes s);
  l ← literal 45 l;
  '(mo, l) ← getnum true l;
  l ← literal 45 l;
  '(d, l) ← getnum true l;
  l ← literal 84 l;
  '(h, l) ← getnum false l;
  l ← literal 58 l;
  '(mi, l) ← getnum true l;
  l ← literal 58 l;
  '(sec, l) ← getnum true l;
  let '(ns, l) := getfraction l in
  '(zone, l) ← getzone l;
  if (mo <? 1) || (12 <? mo) || (d <? 1) || (daysIn y mo <? d) || (23 <? h) || (59 <? mi) || (59 <? sec)
  then None
  else match l with
       | [] => Some ((dateToDays y mo d * 86400 + h * 3600 + mi * 60 + sec - zone) * Second + ns)
       | _ => None
       end.

(** ** The round trip *)

Lemma leap_days y : daysBeforeYear (y + 1) = daysBeforeYear y + 365 + (if leap y then 1 else 0).
Proof.
  unfold daysBeforeYear, leap. replace (y + 1 - 1) with y by lia.
  destruct (Z.eqb_spec (y mod 4) 0), (Z.eqb_spec (y mod 100) 0), (Z.eqb_spec (y mod 400) 0);
    simpl; Z.to_euclidean_division_equations; lia.
Qed.

(** The year of a day. *)
Lemma yearAt_spec d : daysBeforeYear (yearAt d) <= d < daysBeforeYear (yearAt d + 1).
Proof.
  unfold yearAt. set (y := d * 400 / 146097 + 1).
  assert (daysBeforeYear y <= d < daysBeforeYear (y + 2)) as [Hlo Hhi].
  { unfold daysBeforeYear, y. Z.to_euclidean_division_equations. lia. }
  destruct (Z.leb_spec (daysBeforeYear (y + 1)) d); [|lia].
  by replace (y + 1 + 1) with (y + 2) by lia.
Qed.

(** The month of a day of the year. *)
Lemma monthAt_spec y yday :
  0 <= yday < 365 + (if leap y then 1 else 0) ->
  1 <= monthAt y yday <= 12 /\ daysBeforeMonth y (monthAt y yday) <= yday < daysBeforeMonth y (monthAt y yday + 1).
Proof.
  intros Hd. unfold monthAt, daysBeforeMonth. destruct (leap y); simpl;
    repeat (match goal with |- context [?a <=? ?b] => destruct (Z.leb_spec a b); simpl end); lia.
Qed.

Lemma daysToDate_spec days y m d :
  daysToDate days = (y, m, d) -> dateToDays y m d = days /\ 1 <= m <= 12 /\ 1 <= d <= daysIn y m.
Proof.
  unfold daysToDate. set (n := days + epochDays). intros [= <- <- <-].
  pose proof (yearAt_spec n) as Hy. rewrite leap_days in Hy.
  destruct (monthAt_spec (yearAt n) (n - daysBeforeYear (yearAt n))) as [Hm Hd]; [lia|].
  unfold dateToDays, daysIn. split_and!; lia.
Qed.

Lemma daysIn_bound y m : 1 <= m <= 12 -> daysIn y m <= 31.
Proof.
  intros Hm. unfold daysIn, daysBeforeMonth.
  assert (m = 1 \/ m = 2 \/ m = 3 \/ m = 4 \/ m = 5 \/ m = 6 \/ m = 7 \/ m = 8 \/ m = 9 \/ m = 10 \/ m = 11 \/ m = 12)
    as Hc by lia.
  by destruct Hc as [->|[->|[->|[->|[->|[->|[->|[->|[->|[->|[->| ->]]]]]]]]]]]; destruct (leap y); vm_compute.
Qed.

Lemma digitOf_digit z : 0 <= z < 10 -> digitOf (48 + z) = Some z.
Proof.
  intros Hz. unfold digitOf, within. destruct (Z.leb_spec 48 (48 + z)); [|lia].
  destruct (Z.leb_spec (48 + z) 57); [|lia]. simpl. f_equal. lia.
Qed.

Lemma getnum_digits2 b z l : 0 <= z < 100 -> getnum b (digits2 z ++ l) = Some (z, l).
Proof.
  intros Hz. simpl. rewrite !digitOf_digit; [|Z.to_euclidean_division_equations; lia..].
  do 2 f_equal. Z.to_euclidean_division_equations. lia.
Qed.

Lemma getyear_digits4 z l : 0 <= z < 10000 -> getyear (digits4 z ++ l) = Some (z, l).
Proof.
  intros Hz. unfold getyear, digits4. rewrite <- app_assoc.
  rewrite getnum_digits2; [|Z.to_euclidean_division_equations; lia].
  rewrite getnum_digits2; [|Z.to_euclidean_division_equations; lia].
  do 2 f_equal. Z.to_euclidean_division_equations. lia.
Qed.

Lemma digits2_bytes z : 0 <= z < 100 -> Forall isByte (digits2 z).
Proof. intros Hz. repeat constructor; unfold isByte; Z.to_euclidean_division_equations; lia. Qed.

(** The years with four digits. *)
Definition formattable (t : time) : Prop := daysBeforeYear 0 <= t / Second / 86400 + epochDays < daysBeforeYear 10000.

(** The date of such a time. *)
Lemma formattable_date t y m d :
  formattable t -> daysToDate (t / Second / 86400) = (y, m, d) ->
  dateToDays y m d = t / Second / 86400 /\ 1 <= m <= 12 /\ 1 <= d <= daysIn y m /\ 0 <= y < 10000.
Proof.
  intros Ht E. pose proof E as E'. apply daysToDate_spec in E as (Hdate & Hm & Hd). split_and!; try done; try lia;
    unfold daysToDate in E'; injection E' as <- _ _; pose proof (yearAt_spec (t / Second / 86400 + epochDays)) as Hy;
    unfold formattable in Ht; revert Ht Hy; generalize (yearAt (t / Second / 86400 + epochDays)); intros z Ht Hy;
    unfold daysBeforeYear in *; Z.to_euclidean_division_equations; lia.
Qed.

(** Parsing gives back the time, to the second. *)
Lemma ParseRFC3339_Format t : formattable t -> ParseRFC3339 (FormatRFC3339 t) = Some (t / Second * Second).
Proof.
  intros Ht. unfold FormatRFC3339. set (s := t / Second) in *.
  destruct (daysToDate (s / 86400)) as [[y m] d] eqn:E.
  destruct (formattable_date t y m d Ht E) as (Hdate & Hm & Hd & Hy). pose proof (daysIn_bound y m Hm). fold s in Hdate.
  set (r := s mod 86400). assert (0 <= r < 86400) as Hr by by apply Z.mod_pos_bound.
  assert (0 <= r / 3600 < 24) as Hh by (Z.to_euclidean_division_equations; lia).
  assert (0 <= r / 60 mod 60 < 60) as Hmi by by apply Z.mod_pos_bound.
  assert (0 <= r mod 60 < 60) as Hs by by apply Z.mod_pos_bound.
  unfold ParseRFC3339. rewrite bytes_ofBytes.
  2:{ unfold digits4. repeat apply Forall_app_2; try (repeat constructor; unfold isByte; lia); apply digits2_bytes;
        try lia; Z.to_euclidean_division_equations; lia. }
  rewrite getyear_digits4 by lia. cbn [app literal Z.eqb Pos.eqb mbind option_bind].
  rewrite (getnum_digits2 true m) by lia. cbn [app literal Z.eqb Pos.eqb mbind option_bind].
  rewrite (getnum_digits2 true d) by lia. cbn [app literal Z.eqb Pos.eqb mbind option_bind].
  rewrite (getnum_digits2 false (r / 3600)) by lia. cbn [app literal Z.eqb Pos.eqb mbind option_bind].
  rewrite (getnum_digits2 true (r / 60 mod 60)) by lia. cbn [app literal Z.eqb Pos.eqb mbind option_bind].
  rewrite (getnum_digits2 true (r mod 60)) by lia. cbn [getfraction Z.eqb Pos.eqb orb getzone mbind option_bind].
  replace ((m <? 1) || (12 <? m) || (d <? 1) || (daysIn y m <? d) || (23 <? r / 3600) || (59 <? r / 60 mod 60)
    || (59 <? r mod 60)) with false
    by (symmetry; rewrite !orb_false_iff, !Z.ltb_ge; split_and!; lia).
  f_equal. rewrite Hdate.
  assert (r / 3600 * 3600 + r / 60 mod 60 * 60 + r mod 60 = r) as Er.
  { clear - Hr. clearbody r. Z.to_euclidean_division_equations. lia. }
  pose proof (Z.div_mod s 86400). unfold r in *. lia.
Qed.

Lemma digits2_graphic z : 0 <= z < 100 -> Forall graphic (digits2 z).
Proof. intros Hz. repeat constructor; unfold graphic; Z.to_euclidean_division_equations; lia. Qed.

(** The text has no white space. *)
Lemma FormatRFC3339_graphic t : formattable t -> Forall graphic (bytes (FormatRFC3339 t)).
Proof.
  intros Ht. unfold FormatRFC3339. set (s := t / Second) in *.
  destruct (daysToDate (s / 86400)) as [[y m] d] eqn:E.
  destruct (formattable_date t y m d Ht E) as (_ & Hm & Hd & Hy). pose proof (daysIn_bound y m Hm).
  set (r := s mod 86400). assert (0 <= r < 86400) as Hr by by apply Z.mod_pos_bound.
  set (l := digits4 y ++ _). assert (Forall graphic l) as Hl.
  { subst l. unfold digits4. repeat apply Forall_app_2; try (repeat constructor; unfold graphic; lia); apply digits2_graphic;
      try lia; clearbody r; Z.to_euclidean_division_equations; lia. }
  rewrite bytes_ofBytes; [done|]. eapply Forall_impl; [exact Hl|]. unfold graphic, isByte. lia.
Qed.
