(* ===== verification/GoBase64.v ===== *)
(** * Base64 and splitting

    [encoding/base64] with the standard alphabet, padded ([StdEncoding]) and not
    ([RawStdEncoding]), on lists of bytes, and [strings.Split] at one byte.
    Decoding follows [decodeQuantum]: line breaks are skipped, the bits after the
    last byte are not checked.  What is encoded decodes to itself. *)

From S2P Require Import Prelude GoNum GoString.

Open Scope Z_scope.

Definition lineBreak (b : Z) : bool := (b =? 10) || (b =? 13).
Definition padChar : Z := 61.

(** The alphabet of [StdEncoding], and [decodeMap]. *)
Definition stdChar (v : Z) : Z :=
  if v <? 26 then 65 + v
  else if v <? 52 then 71 + v
  else if v <? 62 then v - 4
  else if v =? 62 then 43 else 47.
Definition stdValue (b : Z) : option Z :=
  if (65 <=? b) && (b <=? 90) then Some (b - 65)
  else if (97 <=? b) && (b <=? 122) then Some (b - 71)
  else if (48 <=? b) && (b <=? 57) then Some (b + 4)
  else if b =? 43 then Some 62
  else if b =? 47 then Some 63
  else None.

(** [EncodeToString]; [pad] says whether the encoding pads. *)
Fixpoint base64Encode (pad : bool) (l : list Z) : list Z :=
  match l with
  | a :: b :: c :: rest =>
      stdChar (Z.shiftr a 2) ::
      stdChar (Z.lor (Z.shiftl (Z.land a 3) 4) (Z.shiftr b 4)) ::
      stdChar (Z.lor (Z.shiftl (Z.land b 15) 2) (Z.shiftr c 6)) ::
      stdChar (Z.land c 63) :: base64Encode pad rest
  | [a; b] =>
      [stdChar (Z.shiftr a 2);
       stdChar (Z.lor (Z.shiftl (Z.land a 3) 4) (Z.shiftr b 4));
       stdChar (Z.shiftl (Z.land b 15) 2)] ++ (if pad then [padChar] else [])
  | [a] => [stdChar (Z.shiftr a 2); stdChar (Z.shiftl (Z.land a 3) 4)] ++ (if pad then [padChar; padChar] else [])
  | [] => []
  end.

(** The bytes of a quantum: [val] has 24 bits. *)
Definition quantum (a b c d : Z) : Z :=
  Z.lor (Z.lor (Z.lor (Z.shiftl a 18) (Z.shiftl b 12)) (Z.shiftl c 6)) d.
Definition quantumByte (val : Z) (k : Z) : Z := Z.land (Z.shiftr val k) 255.

Fixpoint decodeQuanta (pad : bool) (l : list Z) : option (list Z) :=
  match l with
  | [] => Some []
  | [a; b] =>
      if pad then None
      else a ← stdValue a; b ← stdValue b; Some [quantumByte (quantum a b 0 0) 16]
  | [a; b; c] =>
      if pad then None
      else a ← stdValue a; b ← stdValue b; c ← stdValue c;
           let val := quantum a b c 0 in Some [quantumByte val 16; quantumByte val 8]
  | a :: b :: c :: d :: rest =>
      a ← stdValue a; b ← stdValue b;
      if pad && (c =? padChar) then
        if (d =? padChar) && bool_decide (rest = []) then Some [quantumByte (quantum a b 0 0) 16] else None
      else
        c ← stdValue c;
        if pad && (d =? padChar) then
          if bool_decide (rest = []) then
            let val := quantum a b c 0 in Some [quantumByte val 16; quantumByte val 8]
          else None
        else
          d ← stdValue d; rest ← decodeQuanta pad rest;
          let val := quantum a b c d in Some (quantumByte val 16 :: quantumByte val 8 :: quantumByte val 0 :: rest)
  | _ => None
  end.

(** [DecodeString]. *)
Definition base64Decode (pad : bool) (l : list Z) : option (list Z) :=
  decodeQuanta pad (filter (fun b => lineBreak b = false) l).

(** [strings.Split(s, sep)] for a separator of one byte. *)
Fixpoint splitByte (sep : Z) (l : list Z) : list (list Z) :=
  match l with
  | [] => [[]]
  | b :: rest =>
      if b =? sep then [] :: splitByte sep rest
      else match splitByte sep rest with
           | part :: parts => (b :: part) :: parts
           | [] => [[b]]
           end
  end.

(** ** The alphabet *)

Lemma sextet_ind (P : Z -> Prop) : Forall P (seqZ 0 64) -> forall v, 0 <= v < 64 -> P v.
Proof. intros HP v Hv. apply (proj1 (Forall_forall P _) HP), elem_of_seqZ. lia. Qed.

Lemma stdChar_value v : 0 <= v < 64 -> stdValue (stdChar v) = Some v.
Proof. apply (sextet_ind (fun v => stdValue (stdChar v) = Some v)). by repeat constructor. Qed.

Lemma stdChar_range v : 0 <= v < 64 ->
  isByte (stdChar v) /\ lineBreak (stdChar v) = false /\ stdChar v <> 36 /\ stdChar v <> padChar.
Proof.
  apply (sextet_ind (fun v => isByte (stdChar v) /\ lineBreak (stdChar v) = false /\ stdChar v <> 36 /\ stdChar v <> padChar)).
  repeat constructor; by vm_compute.
Qed.

(** ** Bits as arithmetic *)

Lemma lor_shiftl x y k : 0 <= k -> 0 <= y < 2 ^ k -> Z.lor (Z.shiftl x k) y = x * 2 ^ k + y.
Proof.
  intros Hk Hy. rewrite <- Z.add_lor_land, <- (Z.shiftl_mul_pow2 _ _ Hk).
  assert (Z.land (Z.shiftl x k) y = 0) as ->; [|lia].
  destruct (decide (y = 0)) as [->|Hy0]; [apply Z.land_0_r|].
  apply Z.bits_inj'. intros n Hn. rewrite Z.land_spec, Z.bits_0. destruct (Z.lt_ge_cases n k).
  - rewrite Z.shiftl_spec_low; [done|lia].
  - rewrite (Z.bits_above_log2 y n); [by rewrite andb_false_r|lia|].
    apply Z.log2_lt_pow2; [lia|].
    pose proof (Z.pow_le_mono_r 2 k n). lia.
Qed.

Lemma quantum_arith a b c d : 0 <= b < 64 -> 0 <= c < 64 -> 0 <= d < 64 ->
  quantum a b c d = a * 262144 + b * 4096 + c * 64 + d.
Proof.
  intros Hb Hc Hd. unfold quantum. rewrite <- !Z.lor_assoc.
  rewrite (lor_shiftl c d 6) by lia. rewrite (lor_shiftl b) by lia. rewrite lor_shiftl by lia. lia.
Qed.

Lemma quantumByte_arith val k : 0 <= k -> quantumByte val k = val / 2 ^ k mod 256.
Proof. intros Hk. unfold quantumByte. rewrite Z.shiftr_div_pow2 by done. by apply (Z.land_ones _ 8). Qed.

(** The four sextets of three bytes. *)
Lemma sextet_1 a : isByte a -> Z.shiftr a 2 = a / 4 /\ 0 <= a / 4 < 64.
Proof. unfold isByte. intros Ha. rewrite Z.shiftr_div_pow2 by done. split; [done|]. change (2 ^ 2) with 4. Z.to_euclidean_division_equations. lia. Qed.
Lemma sextet_2 a b : isByte a -> isByte b ->
  Z.lor (Z.shiftl (Z.land a 3) 4) (Z.shiftr b 4) = a mod 4 * 16 + b / 16 /\ 0 <= a mod 4 * 16 + b / 16 < 64.
Proof.
  unfold isByte. intros Ha Hb. rewrite Z.shiftr_div_pow2 by done. replace (Z.land a 3) with (a mod 4) by (symmetry; by apply (Z.land_ones a 2)).
  change (2 ^ 4) with 16. rewrite lor_shiftl by (Z.to_euclidean_division_equations; lia).
  split; [done|]. Z.to_euclidean_division_equations. lia.
Qed.
Lemma sextet_3 b c : isByte b -> isByte c ->
  Z.lor (Z.shiftl (Z.land b 15) 2) (Z.shiftr c 6) = b mod 16 * 4 + c / 64 /\ 0 <= b mod 16 * 4 + c / 64 < 64.
Proof.
  unfold isByte. intros Hb Hc. rewrite Z.shiftr_div_pow2 by done. replace (Z.land b 15) with (b mod 16) by (symmetry; by apply (Z.land_ones b 4)).
  change (2 ^ 6) with 64. rewrite lor_shiftl by (Z.to_euclidean_division_equations; lia).
  split; [done|]. Z.to_euclidean_division_equations. lia.
Qed.
Lemma sextet_4 c : isByte c -> Z.land c 63 = c mod 64 /\ 0 <= c mod 64 < 64.
Proof. intros Hc. split; [by apply (Z.land_ones c 6)|by apply Z.mod_pos_bound]. Qed.

(** The bytes of three sextet pairs. *)
Lemma quantum_3 a b c : isByte a -> isByte b -> isByte c ->
  let val := quantum (a / 4) (a mod 4 * 16 + b / 16) (b mod 16 * 4 + c / 64) (c mod 64) in
  quantumByte val 16 = a /\ quantumByte val 8 = b /\ quantumByte val 0 = c.
Proof.
  intros Ha Hb Hc. pose proof (sextet_2 a b Ha Hb) as [_ ?]. pose proof (sextet_3 b c Hb Hc) as [_ ?]. pose proof (sextet_4 c Hc) as [_ ?].
  cbv zeta. rewrite quantum_arith by done. rewrite !quantumByte_arith by done.
  change (2 ^ 16) with 65536. change (2 ^ 8) with 256. change (2 ^ 0) with 1. unfold isByte in *.
  split_and!; Z.to_euclidean_division_equations; lia.
Qed.

Lemma triple_ind {A} (P : list A -> Prop) :
  P [] -> (forall a, P [a]) -> (forall a b, P [a; b]) -> (forall a b c l, P l -> P (a :: b :: c :: l)) -> forall l, P l.
Proof.
  intros H0 H1 H2 H3. fix IH 1. intros [|a [|b [|c l]]]; [done|apply H1|apply H2|]. apply H3, IH.
Qed.

Lemma encode_chars pad l : Forall isByte l ->
  Forall (fun b => isByte b /\ lineBreak b = false /\ b <> 36) (base64Encode pad l).
Proof.
  assert (Hc : forall v, 0 <= v < 64 -> isByte (stdChar v) /\ lineBreak (stdChar v) = false /\ stdChar v <> 36)
    by (intros v Hv; apply stdChar_range in Hv; tauto).
  assert (Hp : isByte padChar /\ lineBreak padChar = false /\ padChar <> 36) by done.
  induction l as [|a|a b|a b c l IH] using triple_ind; intros Hl; rewrite ?Forall_cons in Hl; cbn [base64Encode].
  - done.
  - destruct Hl as [Ha _]. pose proof (sextet_1 a Ha) as [-> ?]. pose proof (sextet_2 a 0 Ha ltac:(done)) as [E ?].
    rewrite Z.shiftr_0_l, Z.lor_0_r in E. rewrite E. by destruct pad; cbn [app]; repeat (apply Forall_cons; split; [first [exact Hp|by apply Hc]|]).
  - destruct Hl as (Ha & Hb & _). pose proof (sextet_1 a Ha) as [-> ?]. pose proof (sextet_2 a b Ha Hb) as [-> ?].
    pose proof (sextet_3 b 0 Hb ltac:(done)) as [E ?]. rewrite Z.shiftr_0_l, Z.lor_0_r in E. rewrite E.
    by destruct pad; cbn [app]; repeat (apply Forall_cons; split; [first [exact Hp|by apply Hc]|]).
  - destruct Hl as (Ha & Hb & Hc' & Hl). pose proof (sextet_1 a Ha) as [-> ?]. pose proof (sextet_2 a b Ha Hb) as [-> ?].
    pose proof (sextet_3 b c Hb Hc') as [-> ?]. pose proof (sextet_4 c Hc') as [-> ?].
    repeat (apply Forall_cons; split; [by apply Hc|]). by apply IH.
Qed.

Lemma decode_encode_quanta pad l : Forall isByte l -> decodeQuanta pad (base64Encode pad l) = Some l.
Proof.
  assert (Hpad : forall v, 0 <= v < 64 -> (stdChar v =? padChar) = false)
    by (intros v Hv; apply Z.eqb_neq; apply stdChar_range in Hv; tauto).
  induction l as [|a|a b|a b c l IH] using triple_ind; intros Hl; rewrite ?Forall_cons in Hl; cbn [base64Encode].
  - done.
  - destruct Hl as [Ha _]. pose proof (sextet_1 a Ha) as [-> ?]. pose proof (sextet_2 a 0 Ha ltac:(done)) as [E ?].
    rewrite Z.shiftr_0_l, Z.lor_0_r in E. rewrite E. pose proof (quantum_3 a 0 0 Ha ltac:(done) ltac:(done)) as (Hq & _).
    change (0 mod 16 * 4 + 0 / 64) with 0 in Hq. change (0 mod 64) with 0 in Hq.
    destruct pad; cbn [app decodeQuanta]; rewrite !stdChar_value by done; cbn [mbind option_bind andb]; by rewrite Hq.
  - destruct Hl as (Ha & Hb & _). pose proof (sextet_1 a Ha) as [-> ?]. pose proof (sextet_2 a b Ha Hb) as [-> ?].
    pose proof (sextet_3 b 0 Hb ltac:(done)) as [E ?]. rewrite Z.shiftr_0_l, Z.lor_0_r in E. rewrite E.
    pose proof (quantum_3 a b 0 Ha Hb ltac:(done)) as (Hq1 & Hq2 & _). change (0 mod 64) with 0 in Hq1, Hq2.
    destruct pad; cbn [app decodeQuanta]; rewrite ?Hpad, !stdChar_value by done; cbn [mbind option_bind andb]; by rewrite Hq1, Hq2.
  - destruct Hl as (Ha & Hb & Hc & Hl). pose proof (sextet_1 a Ha) as [-> ?]. pose proof (sextet_2 a b Ha Hb) as [-> ?].
    pose proof (sextet_3 b c Hb Hc) as [-> ?]. pose proof (sextet_4 c Hc) as [-> ?].
    pose proof (quantum_3 a b c Ha Hb Hc) as (Hq1 & Hq2 & Hq3).
    cbn [decodeQuanta]. rewrite !Hpad, !stdChar_value by done. rewrite !andb_false_r. cbn [mbind option_bind].
    rewrite (IH Hl). cbn [mbind option_bind]. by rewrite Hq1, Hq2, Hq3.
Qed.

(** What is encoded decodes to itself. *)
Lemma base64_roundtrip pad l : Forall isByte l -> base64Decode pad (base64Encode pad l) = Some l.
Proof.
  intros Hl. unfold base64Decode. rewrite filter_all; [by apply decode_encode_quanta|].
  eapply Forall_impl; [by apply (encode_chars pad)|]. by intros b (_ & ? & _).
Qed.

(** ** Splitting *)

(** Parts without the separator are found again. *)
Lemma splitByte_part sep l : Forall (fun b => b <> sep) l -> splitByte sep l = [l].
Proof.
  induction 1 as [|b l Hb Hl IH]; [done|]. simpl. rewrite (proj2 (Z.eqb_neq b sep)) by done. by rewrite IH.
Qed.
Lemma splitByte_app sep l rest : Forall (fun b => b <> sep) l -> splitByte sep (l ++ sep :: rest) = l :: splitByte sep rest.
Proof.
  induction 1 as [|b l Hb Hl IH]; simpl; [by rewrite Z.eqb_refl|].
  rewrite (proj2 (Z.eqb_neq b sep)) by done. by rewrite IH.
Qed.

(** [strings.Join]. *)
Fixpoint joinByte (sep : Z) (parts : list (list Z)) : list Z :=
  match parts with
  | [] => []
  | [part] => part
  | part :: parts => part ++ sep :: joinByte sep parts
  end.

Lemma splitByte_join sep part parts :
  Forall (Forall (fun b => b <> sep)) (part :: parts) -> splitByte sep (joinByte sep (part :: parts)) = part :: parts.
Proof.
  revert part. induction parts as [|part' parts IH]; intros part [Hp Hps]%Forall_cons; [by apply splitByte_part|].
  cbn [joinByte]. rewrite splitByte_app by done. f_equal. by apply IH.
Qed.
