(* ===== verification/Store.v ===== *)
(** * Transactions

    The shape every Postgres-backed use case shares: [withTx] of the
    services' [app/service.go] (the same function as [InTx] of
    [libs/store/store.go]), statements that can fail, and the clock, id and
    random sources.

    A use case is a function of a state that holds the committed database and a
    counter of interactions with the outside world.  What the outside answers
    to the [n]-th interaction is an [Env]: whether the context is cancelled,
    whether a statement fails, the outcome of a commit (a failed commit may
    have been applied by the server when only its reply was lost), the time, a
    fresh id, random bytes.  Inside a transaction a failed statement aborts it:
    the statements that follow fail until the rollback. *)

From S2P Require Import Prelude GoNum Errors GoString.

Class Env : Type := {
  env_ctx : nat -> option error;
  env_begin : nat -> option error;
  env_fault : nat -> option error;
  env_commit : nat -> option (error * bool);
  env_now : nat -> time;
  env_id : nat -> string;
  env_rand : nat -> nat -> list Z;
}.

(** An outside world where nothing fails. *)
Definition calmEnv (now : nat -> time) (id : nat -> string) : Env := {|
  env_ctx _ := None; env_begin _ := None; env_fault _ := None; env_commit _ := None;
  env_now := now; env_id := id; env_rand _ k := repeat 7 k;
|}.

(** Nothing fails in this world. *)
Class Calm (E : Env) : Prop := {
  calm_ctx : forall n, env_ctx n = None;
  calm_begin : forall n, env_begin n = None;
  calm_fault : forall n, env_fault n = None;
  calm_commit : forall n, env_commit n = None;
}.

#[global] Instance calmEnv_Calm now id : Calm (calmEnv now id).
Proof. by split. Qed.

(** [errors.Is(err, pgx.ErrNoRows)]. *)
Fixpoint isNoRows (e : error) : bool :=
  match e with
  | ENoRows => true
  | EVb v => match Cause v with Some c => isNoRows c | None => false end
  | EWrap _ c => isNoRows c
  | _ => false
  end.

Definition mapErr (entity id : string) (e : error) : error :=
  if isNoRows e then ENotFound entity id else EWrap entity e.

(** [not found] and other errors of a scan. *)
Definition scanErr (entity id : string) (repo : string) (e : error) : error :=
  if isNoRows e then ENotFound entity id else EWrap repo e.

(** A [TIMESTAMPTZ] holds microseconds; the driver truncates. *)
Definition pgTime (t : time) : time := t / 1000 * 1000.

Lemma pgTime_close t : t - 1000 < pgTime t <= t.
Proof. unfold pgTime. pose proof (Z.mod_pos_bound t 1000). pose proof (Z.div_mod t 1000). lia. Qed.

(** The number of characters of a UTF-8 string, as [VARCHAR(n)] counts. *)
Definition charCount (s : string) : Z :=
  Z.of_nat (length (filter (fun b => ~ (128 <= b < 192)) (bytes s))).

Record st (DB : Type) : Type := mkSt {
  sdb : DB;        (* the database as this computation sees it *)
  sn : nat;        (* interactions so far *)
  saborted : bool; (* the current transaction is aborted *)
}.
Arguments mkSt {DB} _ _ _.
Arguments sdb {DB} _.
Arguments sn {DB} _.
Arguments saborted {DB} _.

Definition SM (DB A : Type) : Type := st DB -> res error A * st DB.

Section monad.
Context {DB : Type}.

Definition sret {A} (a : A) : SM DB A := fun s => (Ok a, s).
Definition sfail {A} (e : error) : SM DB A := fun s => (Err e, s).
Definition sbind {A B} (m : SM DB A) (k : A -> SM DB B) : SM DB B := fun s =>
  match m s with
  | (Ok a, s') => k a s'
  | (Err e, s') => (Err e, s')
  end.

(** [a, err := m] without an early return. *)
Definition stry {A} (m : SM DB A) : SM DB (res error A) := fun s =>
  let '(r, s') := m s in (Ok r, s').

Definition step_n (s : st DB) : st DB := mkSt (sdb s) (S (sn s)) (saborted s).

Context `{Env}.

Definition snow : SM DB time := fun s => (Ok (env_now (sn s)), step_n s).
Definition snewID : SM DB string := fun s => (Ok (env_id (sn s)), step_n s).
Definition srand (k : nat) : SM DB (list Z) := fun s => (Ok (env_rand (sn s) k), step_n s).

Definition ctxDone : SM DB unit := fun s =>
  match env_ctx (sn s) with
  | Some e => (Err e, step_n s)
  | None => (Ok tt, step_n s)
  end.

(** A call of a port whose answer may depend on the interaction. *)
Definition lift {A} (f : nat -> res error A) : SM DB A := fun s => (f (sn s), step_n s).

(** A statement of the current transaction. *)
Definition stmt {A} (f : DB -> res error (A * DB)) : SM DB A := fun s =>
  if saborted s then (Err (EMsg "current transaction is aborted"), step_n s)
  else
    match env_fault (sn s) with
    | Some e => (Err e, mkSt (sdb s) (S (sn s)) true)
    | None =>
        match f (sdb s) with
        | Ok (a, db) => (Ok a, mkSt db (S (sn s)) false)
        | Err e => (Err e, mkSt (sdb s) (S (sn s)) true)
        end
    end.

(** A query reads and never fails by itself; "no rows" is not a failure of the
    statement. *)
Definition query {A} (f : DB -> A) : SM DB A := stmt (fun db => Ok (f db, db)).

(** [f] applied to the error: [fmt.Errorf("...: %w", err)] and the like. *)
Definition smapErr {A} (g : error -> error) (m : SM DB A) : SM DB A := fun s =>
  match m s with
  | (Ok a, s') => (Ok a, s')
  | (Err e, s') => (Err (g e), s')
  end.

(** [tx.QueryRow(...).Scan(...)]. *)
Definition queryRow {A} (f : DB -> option A) : SM DB A :=
  sbind (query f) (fun o => match o with Some a => sret a | None => sfail ENoRows end).

Definition withTx {A} (fn : SM DB A) : SM DB A := fun s =>
  match env_begin (sn s) with
  | Some e => (Err e, step_n s)
  | None =>
      let '(r, s') := fn (mkSt (sdb s) (S (sn s)) false) in
      match r with
      | Err e => (Err e, mkSt (sdb s) (S (sn s')) (saborted s)) (* rollback *)
      | Ok a =>
          if saborted s' then
            (Err (EMsg "commit unexpectedly resulted in rollback"),
             mkSt (sdb s) (S (sn s')) (saborted s))
          else
            match env_commit (sn s') with
            | None => (Ok a, mkSt (sdb s') (S (sn s')) (saborted s))
            | Some (e, applied) =>
                (Err e, mkSt (if (applied : bool) then sdb s' else sdb s) (S (sn s')) (saborted s))
            end
      end
  end.
End monad.

Declare Scope sm_scope.
Delimit Scope sm_scope with sm.
Notation "x <- m ;; k" := (sbind m (fun x => k))
  (at level 100, m at next level, right associativity) : sm_scope.
Notation "m ;;; k" := (sbind m (fun _ => k))
  (at level 100, right associativity) : sm_scope.

(** ** Preservation of an invariant of the database *)

(** [m] takes a database that satisfies [P] to one that satisfies [P]. *)
Definition keepsDB {DB A} (P : DB -> Prop) (m : SM DB A) : Prop :=
  forall s, P (sdb s) -> P (sdb (m s).2).

(** An aborted transaction stays aborted. *)
Definition sticky {DB A} (m : SM DB A) : Prop :=
  forall s, saborted s = true -> saborted (m s).2 = true.

(** Inside a transaction: [m] takes [P] to [Q] when it succeeds without
    aborting the transaction (what it leaves behind otherwise is rolled
    back). *)
Definition establishes {DB A} (P Q : DB -> Prop) (m : SM DB A) : Prop :=
  sticky m /\
  (forall s a s', P (sdb s) -> m s = (Ok a, s') -> saborted s' = false -> Q (sdb s')).

Section keeps.
Context {DB : Type} (P : DB -> Prop) `{Env}.

Lemma keepsDB_ret {A} (a : A) : keepsDB P (sret a).
Proof. by intros s Hs. Qed.
Lemma keepsDB_fail {A} (e : error) : keepsDB P (@sfail DB A e).
Proof. by intros s Hs. Qed.
Lemma keepsDB_bind {A B} (m : SM DB A) (k : A -> SM DB B) :
  keepsDB P m -> (forall a, keepsDB P (k a)) -> keepsDB P (sbind m k).
Proof.
  intros Hm Hk s Hs. unfold sbind. specialize (Hm s Hs).
  destruct (m s) as [[a|e] s']; simpl in *; [by apply Hk|done].
Qed.
Lemma keepsDB_ctxDone : keepsDB P ctxDone.
Proof. intros s Hs. unfold ctxDone. by destruct (env_ctx _). Qed.
Lemma keepsDB_now : keepsDB P snow.
Proof. by intros s Hs. Qed.
Lemma keepsDB_newID : keepsDB P snewID.
Proof. by intros s Hs. Qed.
Lemma keepsDB_rand k : keepsDB P (srand k).
Proof. by intros s Hs. Qed.
Lemma keepsDB_try {A} (m : SM DB A) : keepsDB P m -> keepsDB P (stry m).
Proof. intros Hm s Hs. unfold stry. specialize (Hm s Hs). by destruct (m s). Qed.

(** A transaction keeps what its body establishes on success. *)
Lemma keepsDB_withTx {A} (fn : SM DB A) : establishes P P fn -> keepsDB P (withTx fn).
Proof.
  intros [_ Hf] s Hs. unfold withTx. destruct (env_begin _); [done|].
  destruct (fn _) as [[a|e] s'] eqn:E; [|done].
  destruct (saborted s') eqn:Ea; [done|].
  pose proof (Hf (mkSt (sdb s) (S (sn s)) false) a s' Hs E Ea) as Hp.
  by destruct (env_commit _) as [[e []]|].
Qed.
Lemma keepsDB_mapErr {A} g (m : SM DB A) : keepsDB P m -> keepsDB P (smapErr g m).
Proof. intros Hm s Hs. unfold smapErr. specialize (Hm s Hs). by destruct (m s) as [[a|e] s']. Qed.
End keeps.

Section sticky.
Context {DB : Type} `{Env}.

Lemma sticky_bind {A B} (m : SM DB A) (k : A -> SM DB B) :
  sticky m -> (forall a, sticky (k a)) -> sticky (sbind m k).
Proof.
  intros Hm Hk s Hs. unfold sbind. specialize (Hm s Hs).
  destruct (m s) as [[a|e] s']; simpl in *; [by apply Hk|done].
Qed.
Lemma sticky_stmt {A} (f : DB -> res error (A * DB)) : sticky (stmt f).
Proof. intros s Hs. unfold stmt. by rewrite Hs. Qed.
Lemma sticky_mapErr {A} g (m : SM DB A) : sticky m -> sticky (smapErr g m).
Proof. intros Hm s Hs. unfold smapErr. specialize (Hm s Hs). by destruct (m s) as [[a|e] s']. Qed.
Lemma sticky_try {A} (m : SM DB A) : sticky m -> sticky (stry m).
Proof. intros Hm s Hs. unfold stry. specialize (Hm s Hs). by destruct (m s). Qed.
Lemma sticky_queryRow {A} (f : DB -> option A) : sticky (queryRow f).
Proof.
  apply sticky_bind; [apply sticky_stmt|]. intros [a|]; by intros s.
Qed.
End sticky.

Section establish.
Context {DB : Type} `{Env}.
Implicit Types P Q R : DB -> Prop.

Lemma establishes_ret {A} P (a : A) : establishes P P (sret a).
Proof. split; [by intros s|]. by intros s a' s' Hs [= <- <-]. Qed.
Lemma establishes_fail {A} P Q (e : error) : establishes P Q (@sfail DB A e).
Proof. split; [by intros s|]. by intros s a' s' Hs [=]. Qed.
Lemma establishes_bind {A B} P Q R (m : SM DB A) (k : A -> SM DB B) :
  establishes P Q m -> (forall a, establishes Q R (k a)) -> establishes P R (sbind m k).
Proof.
  intros [Hs Hm] Hk. split; [apply sticky_bind; [done|intros a; apply Hk]|].
  intros s b s'' Hp E Ha. unfold sbind in E.
  destruct (m s) as [[a|e] s'] eqn:Em; [|done].
  destruct (saborted s') eqn:Ea'.
  - destruct (Hk a) as [Hst _]. specialize (Hst s' Ea'). rewrite E in Hst. simpl in Hst. congruence.
  - destruct (Hk a) as [_ Hq]. eapply Hq; [|done|done]. by eapply Hm.
Qed.
Lemma establishes_now P : establishes P P snow.
Proof. split; [by intros s|]. by intros s a s' Hs [= <- <-]. Qed.
Lemma establishes_newID P : establishes P P snewID.
Proof. split; [by intros s|]. by intros s a s' Hs [= <- <-]. Qed.
Lemma establishes_rand P k : establishes P P (srand k).
Proof. split; [by intros s|]. by intros s a s' Hs [= <- <-]. Qed.

Lemma establishes_stmt {A} P Q (f : DB -> res error (A * DB)) :
  (forall db a db', P db -> f db = Ok (a, db') -> Q db') -> establishes P Q (stmt f).
Proof.
  intros Hf. split; [apply sticky_stmt|]. intros s a s' Hs E _. unfold stmt in E.
  destruct (saborted s); [done|]. destruct (env_fault _); [done|].
  destruct (f (sdb s)) as [[a' db]|e] eqn:Ef; [|done]. injection E as <- <-. by eapply Hf.
Qed.

Lemma establishes_mapErr {A} P Q g (m : SM DB A) :
  establishes P Q m -> establishes P Q (smapErr g m).
Proof.
  intros [Hst Hm]. split; [by apply sticky_mapErr|]. intros s a s' Hs E Ha. unfold smapErr in E.
  destruct (m s) as [[b|e] s1] eqn:Em; [|done]. injection E as -> ->. by eapply Hm.
Qed.

(** The value of a query is available to what follows. *)
Lemma establishes_query {A B} P R (f : DB -> A) g (k : A -> SM DB B) :
  (forall v, establishes (fun db => P db /\ f db = v) R (k v)) ->
  establishes P R (sbind (smapErr g (query f)) k).
Proof.
  intros Hk. split.
  { apply sticky_bind; [apply sticky_mapErr, sticky_stmt|]. intros a. apply (Hk a). }
  intros s b s'' Hs E Ha. unfold sbind, smapErr, query, stmt in E.
  destruct (saborted s); [done|]. destruct (env_fault _); [done|].
  by eapply (Hk _), Ha; [|exact E].
Qed.

(** [m] reads the row [f]: it succeeds with the row, or fails because there is
    none, or fails and leaves the transaction aborted. *)
Definition reads {A} (f : DB -> option A) (m : SM DB A) : Prop :=
  sticky m /\
  forall s, sdb (m s).2 = sdb s /\
    match (m s).1 with
    | Ok a => f (sdb s) = Some a
    | Err e => saborted (m s).2 = true \/ f (sdb s) = None
    end.

Lemma reads_queryRow {A} (f : DB -> option A) : reads f (queryRow f).
Proof.
  split; [apply sticky_queryRow|]. intros s. unfold queryRow, query, sbind, stmt.
  destruct (saborted s) eqn:E; [by split; [|left]|].
  destruct (env_fault _); [by split; [|left]|].
  destruct (f (sdb s)) eqn:Ef; simpl; [done|by split; [|right]].
Qed.
Lemma reads_mapErr {A} (f : DB -> option A) g m : reads f m -> reads f (smapErr g m).
Proof.
  intros [Hs Hr]. split; [by apply sticky_mapErr|]. intros s. specialize (Hr s). unfold smapErr.
  by destruct (m s) as [[a|e] s'].
Qed.

(** A query for one row: what follows has the row. *)
Lemma establishes_reads {A B} P R (f : DB -> option A) m (k : A -> SM DB B) :
  reads f m ->
  (forall v, establishes (fun db => P db /\ f db = Some v) R (k v)) ->
  establishes P R (sbind m k).
Proof.
  intros [Hst Hr] Hk. split.
  { apply sticky_bind; [done|]. intros a. apply (Hk a). }
  intros s b s'' Hs E Ha. unfold sbind in E. destruct (Hr s) as [Hdb Hv].
  destruct (m s) as [[v|e] s1]; [|done]. simpl in *.
  eapply (Hk v); [|exact E|exact Ha]. by rewrite Hdb.
Qed.

(** The same without an early return: a row, or no row (any other failure
    aborts the transaction). *)
Lemma establishes_try_reads {A B} P R (f : DB -> option A) m (k : res error A -> SM DB B) :
  reads f m ->
  (forall v, establishes (fun db => P db /\ f db = Some v) R (k (Ok v))) ->
  (forall e, establishes (fun db => P db /\ f db = None) R (k (Err e))) ->
  establishes P R (sbind (stry m) k).
Proof.
  intros [Hst Hr] Hk He. split.
  { apply sticky_bind; [by apply sticky_try|].
    intros [a|e]; [apply (Hk a)|apply (He e)]. }
  intros s b s'' Hs E Ha. unfold sbind, stry in E. destruct (Hr s) as [Hdb Hv].
  destruct (m s) as [[v|e] s1]; simpl in *.
  - eapply (Hk v); [|exact E|exact Ha]. by rewrite Hdb.
  - destruct (He e) as [Hste Hq]. destruct Hv as [Hab|Hn].
    + specialize (Hste s1 Hab). rewrite E in Hste. simpl in Hste. congruence.
    + eapply Hq; [|exact E|exact Ha]. by rewrite Hdb.
Qed.

Lemma establishes_read {A} P (f : DB -> option A) m : reads f m -> establishes P P m.
Proof.
  intros [Hst Hr]. split; [done|]. intros s a s' Hs E _. destruct (Hr s) as [Hdb _].
  rewrite E in Hdb. simpl in Hdb. by rewrite Hdb.
Qed.

Lemma establishes_weaken {A} P P' Q Q' (m : SM DB A) :
  establishes P Q m -> (forall db, P' db -> P db) -> (forall db, Q db -> Q' db) ->
  establishes P' Q' m.
Proof.
  intros [Hst Hm] HP HQ. split; [done|]. intros s a s' Hs E Ha. eapply HQ, Hm; [|done|done].
  by apply HP.
Qed.
Lemma establishes_pre {A} P P' Q (m : SM DB A) :
  establishes P Q m -> (forall db, P' db -> P db) -> establishes P' Q m.
Proof. intros Hm HP. by eapply establishes_weaken. Qed.

(** A statement whose precondition determines its outcome. *)
Lemma establishes_imp {A} P Q (m : SM DB A) :
  (forall db, P db -> Q db) -> establishes Q Q m -> establishes P Q m.
Proof. intros HP Hm. by eapply establishes_pre. Qed.

Lemma establishes_if {A} P Q (b : bool) (m1 m2 : SM DB A) :
  establishes P Q m1 -> establishes P Q m2 -> establishes P Q (if b then m1 else m2).
Proof. by destruct b. Qed.
End establish.

(** ** Running in a calm world *)

Section calm.
Context {DB : Type} `{Env} `{!Calm _}.

Lemma calm_stmt {A} (f : DB -> res error (A * DB)) db n :
  stmt f (mkSt db n false) =
  match f db with
  | Ok (a, db') => (Ok a, mkSt db' (S n) false)
  | Err e => (Err e, mkSt db (S n) true)
  end.
Proof. unfold stmt. simpl. by rewrite calm_fault. Qed.

Lemma calm_queryRow {A} (f : DB -> option A) db n :
  queryRow f (mkSt db n false) =
  match f db with
  | Some a => (Ok a, mkSt db (S n) false)
  | None => (Err ENoRows, mkSt db (S n) false)
  end.
Proof. unfold queryRow, query, sbind. rewrite calm_stmt. by destruct (f db). Qed.

Lemma calm_withTx {A} (fn : SM DB A) db n b :
  withTx fn (mkSt db n b) =
  match fn (mkSt db (S n) false) with
  | (Err e, s') => (Err e, mkSt db (S (sn s')) b)
  | (Ok a, s') =>
      if saborted s' then (Err (EMsg "commit unexpectedly resulted in rollback"), mkSt db (S (sn s')) b)
      else (Ok a, mkSt (sdb s') (S (sn s')) b)
  end.
Proof.
  unfold withTx. simpl. rewrite calm_begin. destruct (fn _) as [[a|e] s']; [|done].
  destruct (saborted s'); [done|]. by rewrite calm_commit.
Qed.

Lemma calm_ctxDone (s : st DB) : ctxDone s = (Ok tt, step_n s).
Proof. unfold ctxDone. by rewrite calm_ctx. Qed.
End calm.

(** ** Running a computation step by step *)

Section run.
Context {DB : Type} `{Env}.

Lemma run_now {B} (k : time -> SM DB B) s : sbind snow k s = k (env_now (sn s)) (step_n s).
Proof. done. Qed.
Lemma run_id {B} (k : string -> SM DB B) s : sbind snewID k s = k (env_id (sn s)) (step_n s).
Proof. done. Qed.
Lemma run_rand {B} j (k : list Z -> SM DB B) s : sbind (srand j) k s = k (env_rand (sn s) j) (step_n s).
Proof. done. Qed.
Lemma run_ok {A B} (m : SM DB A) (k : A -> SM DB B) s a s' : m s = (Ok a, s') -> sbind m k s = k a s'.
Proof. unfold sbind. by intros ->. Qed.
Lemma run_err {A B} (m : SM DB A) (k : A -> SM DB B) s e s' : m s = (Err e, s') -> sbind m k s = (Err e, s').
Proof. unfold sbind. by intros ->. Qed.
Lemma run_try {A B} (m : SM DB A) (k : res error A -> SM DB B) s r s' : m s = (r, s') -> sbind (stry m) k s = k r s'.
Proof. unfold sbind, stry. by intros ->. Qed.
Lemma run_mapErr_ok {A} g (m : SM DB A) s a s' : m s = (Ok a, s') -> smapErr g m s = (Ok a, s').
Proof. unfold smapErr. by intros ->. Qed.
Lemma run_mapErr_err {A} g (m : SM DB A) s e s' : m s = (Err e, s') -> smapErr g m s = (Err (g e), s').
Proof. unfold smapErr. by intros ->. Qed.
End run.

(** [stry] keeps the answer. *)
Lemma stry_Ok {DB A} (m : SM DB A) s r s' : stry m s = (Ok r, s') -> m s = (r, s').
Proof. unfold stry. destruct (m s). by intros [= <- <-]. Qed.

(** ** What a transaction can do *)

(** Nothing, or what its body did by succeeding; in the latter case the caller
    sees the body's value, or an error when the reply to the commit was lost. *)
Lemma withTx_cases {DB A} `{Env} (fn : SM DB A) s r s' :
  withTx fn s = (r, s') ->
  (sdb s' = sdb s /\ exists e, r = Err e) \/
  exists a s1, fn (mkSt (sdb s) (S (sn s)) false) = (Ok a, s1) /\ saborted s1 = false /\
    sdb s' = sdb s1 /\ (r = Ok a \/ exists e, r = Err e).
Proof.
  unfold withTx. destruct (env_begin _); [intros [= <- <-]; left; split; [done|by eexists]|].
  destruct (fn _) as [[a|e] s1] eqn:E; [|intros [= <- <-]; left; split; [done|by eexists]].
  destruct (saborted s1) eqn:Ea; [intros [= <- <-]; left; split; [done|by eexists]|].
  destruct (env_commit _) as [[e []]|]; intros [= <- <-].
  - right. exists a, s1. split_and!; [done..|]. right. by eexists.
  - left. split; [done|by eexists].
  - right. exists a, s1. split_and!; [done..|]. by left.
Qed.

(** The value of a successful bind. *)
Lemma sbind_Ok {DB A B} (m : SM DB A) (k : A -> SM DB B) s b s'' :
  sbind m k s = (Ok b, s'') -> exists a s', m s = (Ok a, s') /\ k a s' = (Ok b, s'').
Proof. unfold sbind. destruct (m s) as [[a|e] s']; [|done]. intros E. by exists a, s'. Qed.

(** A successful statement ran on a transaction that was not aborted. *)
Lemma stmt_Ok {DB A} `{Env} (f : DB -> res error (A * DB)) s a s' :
  stmt f s = (Ok a, s') -> f (sdb s) = Ok (a, sdb s') /\ saborted s' = false.
Proof.
  unfold stmt. destruct (saborted s); [done|]. destruct (env_fault _); [done|].
  destruct (f (sdb s)) as [[b db]|e]; [|done]. by intros [= <- <-].
Qed.

Lemma stmt_live {DB A} `{Env} (f : DB -> res error (A * DB)) g s a s' :
  smapErr g (stmt f) s = (Ok a, s') -> saborted s = false.
Proof. unfold smapErr, stmt. by destruct (saborted s). Qed.

Lemma smapErr_Ok {DB A} g (m : SM DB A) s a s' : smapErr g m s = (Ok a, s') -> m s = (Ok a, s').
Proof. unfold smapErr. by destruct (m s) as [[b|e] s1]; intros [= <- <-]. Qed.

Lemma reads_Ok {DB A} `{Env} (f : DB -> option A) (m : SM DB A) s a s' :
  reads f m -> m s = (Ok a, s') -> f (sdb s) = Some a /\ sdb s' = sdb s.
Proof. intros [_ Hr] E. destruct (Hr s) as [Hd Hv]. rewrite E in Hd, Hv. by split. Qed.

(** ** What a computation may do to the database *)

Section related.
Context {DB : Type} `{Env}.

Definition relates {A} (R : DB -> DB -> Prop) (m : SM DB A) : Prop :=
  forall s, R (sdb s) (sdb (m s).2).

Context (R : DB -> DB -> Prop) (Rrefl : forall db, R db db).

Lemma relates_withTx {A} (fn : SM DB A) :
  (forall db0, establishes (eq db0) (R db0) fn) -> relates R (withTx fn).
Proof using Rrefl.
  intros Hf s. unfold withTx. destruct (env_begin _); [apply Rrefl|].
  destruct (fn _) as [[a|e] s'] eqn:E; [|apply Rrefl].
  destruct (saborted s') eqn:Ea; [apply Rrefl|].
  destruct (Hf (sdb s)) as [_ Hq].
  specialize (Hq (mkSt (sdb s) (S (sn s)) false) a s' eq_refl E Ea).
  destruct (env_commit _) as [[e []]|]; [done|apply Rrefl|done].
Qed.

(** What runs before or after a transaction and leaves the database alone. *)
Definition quiet {A} (m : SM DB A) : Prop := forall s, sdb (m s).2 = sdb s.

Lemma relates_quiet {A} (m : SM DB A) : quiet m -> relates R m.
Proof using Rrefl. intros Hq s. rewrite Hq. apply Rrefl. Qed.
Lemma relates_bind_l {A B} (m : SM DB A) (k : A -> SM DB B) :
  quiet m -> (forall a, relates R (k a)) -> relates R (sbind m k).
Proof using Rrefl.
  intros Hm Hk s. specialize (Hm s). unfold sbind. destruct (m s) as [[a|e] s']; simpl in *.
  - rewrite <- Hm. apply Hk.
  - rewrite Hm. apply Rrefl.
Qed.
Lemma relates_bind_r {A B} (m : SM DB A) (k : A -> SM DB B) :
  relates R m -> (forall a, quiet (k a)) -> relates R (sbind m k).
Proof.
  intros Hm Hk s. specialize (Hm s). unfold sbind. destruct (m s) as [[a|e] s']; simpl in *.
  - by rewrite Hk.
  - done.
Qed.
Lemma relates_mapErr {A} g (m : SM DB A) : relates R m -> relates R (smapErr g m).
Proof. intros Hm s. specialize (Hm s). unfold smapErr. by destruct (m s) as [[a|e] s']. Qed.

Lemma quiet_ret {A} (a : A) : quiet (sret a).
Proof. done. Qed.
Lemma quiet_fail {A} e : quiet (@sfail DB A e).
Proof. done. Qed.
Lemma quiet_now : quiet snow.
Proof. done. Qed.
Lemma quiet_id : quiet snewID.
Proof. done. Qed.
Lemma quiet_rand k : quiet (srand k).
Proof. done. Qed.
Lemma quiet_ctxDone : quiet ctxDone.
Proof. intros s. unfold ctxDone. by destruct (env_ctx _). Qed.
Lemma quiet_bind {A B} (m : SM DB A) (k : A -> SM DB B) :
  quiet m -> (forall a, quiet (k a)) -> quiet (sbind m k).
Proof.
  intros Hm Hk s. specialize (Hm s). unfold sbind. destruct (m s) as [[a|e] s']; simpl in *; [|done].
  by rewrite Hk.
Qed.
Lemma quiet_mapErr {A} g (m : SM DB A) : quiet m -> quiet (smapErr g m).
Proof. intros Hm s. specialize (Hm s). unfold smapErr. by destruct (m s) as [[a|e] s']. Qed.
Lemma quiet_lift {A} (f : nat -> res error A) : quiet (lift f).
Proof. done. Qed.
Lemma quiet_query {A} (f : DB -> A) : quiet (query f).
Proof. intros s. unfold query, stmt. destruct (saborted s); [done|]. by destruct (env_fault _). Qed.
Lemma quiet_queryRow {A} (f : DB -> option A) : quiet (queryRow f).
Proof. apply quiet_bind; [apply quiet_query|]. by intros []. Qed.
Lemma quiet_try {A} (m : SM DB A) : quiet m -> quiet (stry m).
Proof. intros Hm s. specialize (Hm s). unfold stry. by destruct (m s). Qed.

(** What the body of a transaction does when it succeeds. *)
Definition commits {A} (fn : SM DB A) : Prop :=
  forall s a s', fn s = (Ok a, s') -> R (sdb s) (sdb s').

Lemma relates_commits {A} (fn : SM DB A) : commits fn -> relates R (withTx fn).
Proof using Rrefl.
  intros Hf s. destruct (withTx fn s) as [r s'] eqn:E.
  apply withTx_cases in E as [[Hs _]|(a & s1 & Ha & _ & Hs & _)]; simpl in *; rewrite Hs; [apply Rrefl|].
  by apply (Hf _ _ _ Ha).
Qed.

Lemma commits_quiet {A} (m : SM DB A) : quiet m -> commits m.
Proof using Rrefl. intros Hq s a s' E. specialize (Hq s). rewrite E in Hq. simpl in Hq. rewrite Hq. apply Rrefl. Qed.

Lemma commits_mapErr {A} g (m : SM DB A) : commits m -> commits (smapErr g m).
Proof. intros Hm s a s' E. apply smapErr_Ok in E. by eapply Hm. Qed.
Lemma commits_stmt {A} (f : DB -> res error (A * DB)) :
  (forall db a db', f db = Ok (a, db') -> R db db') -> commits (stmt f).
Proof. intros Hf s a s' E. apply stmt_Ok in E as [E _]. by eapply Hf. Qed.
Lemma commits_fail {A} e : commits (@sfail DB A e).
Proof. by intros s a s' [=]. Qed.

Context (Rtrans : forall a b c, R a b -> R b c -> R a c).

Lemma relates_bind {A B} (m : SM DB A) (k : A -> SM DB B) :
  relates R m -> (forall a, relates R (k a)) -> relates R (sbind m k).
Proof using Rtrans.
  intros Hm Hk s. specialize (Hm s). unfold sbind. destruct (m s) as [[a|e] s']; simpl in *; [|done].
  eapply Rtrans; [exact Hm|apply Hk].
Qed.

Lemma commits_bind {A B} (m : SM DB A) (k : A -> SM DB B) :
  commits m -> (forall a, commits (k a)) -> commits (sbind m k).
Proof using Rtrans.
  intros Hm Hk s b s'' E. apply sbind_Ok in E as (a & s' & Ha & E). eapply Rtrans; [by eapply Hm|by eapply Hk].
Qed.
End related.

#[export] Hint Resolve quiet_ret quiet_fail quiet_now quiet_id quiet_rand quiet_ctxDone quiet_mapErr quiet_lift
  quiet_query quiet_queryRow quiet_try : vibe.

(** Computations that leave the database alone, by their structure. *)
Ltac quiet_tac := repeat first
  [ progress intros | apply quiet_bind | solve [auto with vibe] | apply quiet_mapErr | apply quiet_try
  | match goal with |- quiet (match ?x with _ => _ end) => destruct x end ].

(** A view of the database that does not change. *)
Definition keeps {DB V} (view : DB -> V) (db db' : DB) : Prop := view db' = view db.

Lemma keeps_refl {DB V} (view : DB -> V) db : keeps view db db.
Proof. done. Qed.
Lemma keeps_trans {DB V} (view : DB -> V) a b c : keeps view a b -> keeps view b c -> keeps view a c.
Proof. unfold keeps. congruence. Qed.

Lemma relates_mono {DB A} (R R' : DB -> DB -> Prop) (m : SM DB A) :
  (forall a b, R a b -> R' a b) -> relates R m -> relates R' m.
Proof. intros HR Hm s. apply HR, Hm. Qed.
Lemma commits_mono {DB A} (R R' : DB -> DB -> Prop) (m : SM DB A) :
  (forall a b, R a b -> R' a b) -> commits R m -> commits R' m.
Proof. intros HR Hm s a s' E. by eapply HR, Hm. Qed.

(** The body of a transaction keeps a view, by its structure: the statements
    on other tables keep it by computation. *)
Ltac keep_stmt :=
  let db := fresh "db" in let E := fresh "E" in
  intros db ? ? E; repeat match type of E with context [match ?x with _ => _ end] => destruct x end;
  try discriminate E; injection E as <-; first [done | intros; by subst | by subst].
Ltac keep_tac := repeat first
  [ progress intros
  | assumption
  | solve [auto with vibe]
  | apply commits_bind; [apply keeps_trans| |]
  | apply commits_quiet; [apply keeps_refl|solve [quiet_tac]]
  | apply commits_mapErr
  | apply commits_stmt; solve [keep_stmt]
  | apply commits_fail
  | match goal with |- commits _ (match ?x with _ => _ end) => destruct x end ].

(** A handler keeps a view. *)
Ltac keep_handler := repeat first
  [ progress intros
  | solve [auto with vibe]
  | apply relates_bind_l; [apply keeps_refl|solve [quiet_tac]|]
  | apply relates_bind_r; [|solve [quiet_tac]]
  | apply relates_bind; [apply keeps_trans| |]
  | apply relates_mapErr
  | apply relates_quiet; [apply keeps_refl|solve [quiet_tac]]
  | apply relates_commits; [apply keeps_refl|]
  | match goal with |- relates _ (match ?x with _ => _ end) => destruct x end ].

(** The interactions at the head of a successful computation. *)
Ltac ok_pure E :=
  repeat lazymatch type of E with
  | sbind snow _ _ = (Ok _, _) => apply sbind_Ok in E as (? & ? & [= <- <-] & E)
  | sbind snewID _ _ = (Ok _, _) => apply sbind_Ok in E as (? & ? & [= <- <-] & E)
  | sbind (srand _) _ _ = (Ok _, _) => apply sbind_Ok in E as (? & ? & [= <- <-] & E)
  end.

#[export] Hint Resolve keepsDB_ret keepsDB_fail keepsDB_bind keepsDB_ctxDone keepsDB_now
  keepsDB_newID keepsDB_rand keepsDB_try keepsDB_mapErr : vibe.
#[export] Hint Resolve reads_queryRow reads_mapErr : vibe.
#[export] Hint Resolve establishes_ret establishes_fail establishes_now establishes_newID
  establishes_rand : vibe.

Lemma quiet_withTx {DB A} `{Env} (fn : SM DB A) : quiet fn -> quiet (withTx fn).
Proof.
  intros Hq s. destruct (withTx fn s) as [r s'] eqn:E.
  apply withTx_cases in E as [[Hs _]|(a & s1 & Ha & _ & Hs & _)]; simpl; [done|].
  specialize (Hq (mkSt (sdb s) (S (sn s)) false)). rewrite Ha in Hq. simpl in Hq. by rewrite Hs, Hq.
Qed.

(** ** The interaction counter only grows *)

Section advancing.
Context {DB : Type} `{Env}.

Definition advances {A} (m : SM DB A) : Prop := forall s, (sn s <= sn (m s).2)%nat.

Lemma advances_ret {A} (a : A) : advances (sret a).
Proof. by intros s. Qed.
Lemma advances_fail {A} e : advances (@sfail DB A e).
Proof. by intros s. Qed.
Lemma advances_now : advances snow.
Proof. intros s. simpl. lia. Qed.
Lemma advances_id : advances snewID.
Proof. intros s. simpl. lia. Qed.
Lemma advances_rand k : advances (srand k).
Proof. intros s. simpl. lia. Qed.
Lemma advances_ctxDone : advances ctxDone.
Proof. intros s. unfold ctxDone. destruct (env_ctx _); simpl; lia. Qed.
Lemma advances_lift {A} (f : nat -> res error A) : advances (lift f).
Proof. intros s. simpl. lia. Qed.
Lemma advances_stmt {A} (f : DB -> res error (A * DB)) : advances (stmt f).
Proof.
  intros s. unfold stmt. destruct (saborted s); [simpl; lia|]. destruct (env_fault _); [simpl; lia|].
  destruct (f _) as [[? ?]|]; simpl; lia.
Qed.
Lemma advances_bind {A B} (m : SM DB A) (k : A -> SM DB B) :
  advances m -> (forall a, advances (k a)) -> advances (sbind m k).
Proof.
  intros Hm Hk s. specialize (Hm s). unfold sbind. destruct (m s) as [[a|e] s']; simpl in *; [|done].
  etrans; [exact Hm|apply Hk].
Qed.
Lemma advances_mapErr {A} g (m : SM DB A) : advances m -> advances (smapErr g m).
Proof. intros Hm s. specialize (Hm s). unfold smapErr. by destruct (m s) as [[a|e] s']. Qed.
Lemma advances_try {A} (m : SM DB A) : advances m -> advances (stry m).
Proof. intros Hm s. specialize (Hm s). unfold stry. by destruct (m s) as [[a|e] s']. Qed.
Lemma advances_query {A} (f : DB -> A) : advances (query f).
Proof. apply advances_stmt. Qed.
Lemma advances_queryRow {A} (f : DB -> option A) : advances (queryRow f).
Proof. apply advances_bind; [apply advances_query|]. intros []; [apply advances_ret|apply advances_fail]. Qed.
Lemma advances_withTx {A} (fn : SM DB A) : advances fn -> advances (withTx fn).
Proof.
  intros Hf s. unfold withTx. destruct (env_begin _); [simpl; lia|].
  specialize (Hf (mkSt (sdb s) (S (sn s)) false)). destruct (fn _) as [[a|e] s1]; simpl in *; [|lia].
  destruct (saborted s1); [simpl; lia|]. destruct (env_commit _) as [[? []]|]; simpl; lia.
Qed.
End advancing.

#[export] Hint Resolve advances_ret advances_fail advances_now advances_id advances_rand advances_ctxDone advances_lift
  advances_stmt advances_mapErr advances_try advances_query advances_queryRow advances_withTx : vibe.

Ltac advance_tac := repeat first
  [ progress intros | apply advances_bind | solve [auto with vibe] | apply advances_mapErr | apply advances_try
  | apply advances_withTx
  | match goal with |- advances (match ?x with _ => _ end) => destruct x end
  | match goal with |- advances (let _ := _ in _) => cbv zeta end
  | match goal with |- advances ?m => let h := get_head m in unfold h end ].

(** ** Theorems *)

(** Transactions are atomic: whatever fails, and wherever, the database
    after [withTx] is either the one before or the one its body produced by
    succeeding as a whole; an error that the server did not apply leaves it
    untouched, and success means the body succeeded. *)
Theorem withTx_atomic {DB A} `{Env} (fn : SM DB A) (s : st DB) :
  let '(r, s') := withTx fn s in
  (sdb s' = sdb s \/
   exists a s1, fn (mkSt (sdb s) (S (sn s)) false) = (Ok a, s1) /\ sdb s' = sdb s1) /\
  (forall a, r = Ok a -> exists s1,
     fn (mkSt (sdb s) (S (sn s)) false) = (Ok a, s1) /\ sdb s' = sdb s1 /\ saborted s1 = false) /\
  ((forall n e, env_commit n <> Some (e, true)) -> forall e, r = Err e -> sdb s' = sdb s).
Proof.
  unfold withTx. destruct (env_begin _); [by split_and!; [left|..]|].
  destruct (fn _) as [[a|e] s1] eqn:E; [|by split_and!; [left|..]].
  destruct (saborted s1) eqn:Ea; [by split_and!; [left|..]|].
  destruct (env_commit _) as [[e []]|] eqn:Ec; simpl.
  - split_and!; [right; by exists a, s1|done|]. intros Hl. by destruct (Hl _ _ Ec).
  - by split_and!; [left|..].
  - split_and!; [right; by exists a, s1| |done]. intros a' [= <-]. by exists s1.
Qed.
