(* ===== verification/Transactions.v ===== *)
(** * Transactions and panics

    The transaction helpers with the branch that [Store] leaves out, a body that
    panics: [InTx] of [libs/store/store.go], the [withTx] of the services, and
    the [txRunner] of [user-service/cmd/user-service/main.go], each with its
    deferred function as it is written.  They are one function, which agrees with
    [Store.withTx] on bodies that return. *)

From S2P Require Import Prelude GoNum Errors Store.

Section tx.
Context {DB : Type} `{Env}.

(** How a body, or a transaction, ends. *)
Inductive ending (A : Type) : Type :=
| Returns (r : res error A)
| Panics.
Arguments Returns {A} r.
Arguments Panics {A}.

Definition TM (A : Type) : Type := st DB -> ending A * st DB.

(** A body that returns. *)
Definition returning {A} (m : SM DB A) : TM A := fun s => (Returns (m s).1, (m s).2).

(** [tx.Rollback] of a transaction begun at [s]: its changes are gone. *)
Definition rollback (s s' : st DB) : st DB := mkSt (sdb s) (S (sn s')) (saborted s).

(** [tx.Commit]: its error, and the state after it. *)
Definition commit (s s' : st DB) : option error * st DB :=
  if saborted s' then (Some (EMsg "commit unexpectedly resulted in rollback"), rollback s s')
  else
    match env_commit (sn s') with
    | None => (None, mkSt (sdb s') (S (sn s')) (saborted s))
    | Some (e, applied) => (Some e, mkSt (if (applied : bool) then sdb s' else sdb s) (S (sn s')) (saborted s))
    end.

(** The deferred function of [InTx] and of [withTx]: it re-panics, rolls back on
    an error, and commits otherwise; [err] is the named result. *)
Definition deferred {A} (s : st DB) (e : ending A) (s' : st DB) : ending A * st DB :=
  match e with
  | Panics => (Panics, rollback s s')
  | Returns (Err err) => (Returns (Err err), rollback s s')
  | Returns (Ok a) =>
      let '(err, s'') := commit s s' in
      (Returns (match err with Some err => Err err | None => Ok a end), s'')
  end.

Definition InTx {A} (fn : TM A) : TM A := fun s =>
  match env_begin (sn s) with
  | Some e => (Returns (Err e), step_n s)
  | None =>
      let '(e, s') := fn (mkSt (sdb s) (S (sn s)) false) in
      deferred s e s'
  end.

(** [txRunner]: the deferred function rolls back unless the body has set
    [committed]; the rollback of a transaction that has ended does nothing. *)
Definition txRunner (fn : TM unit) : TM unit := fun s =>
  match env_begin (sn s) with
  | Some e => (Returns (Err e), step_n s)
  | None =>
      let '(e, s') := fn (mkSt (sdb s) (S (sn s)) false) in
      match e with
      | Panics => (Panics, rollback s s')
      | Returns (Err err) => (Returns (Err err), rollback s s')
      | Returns (Ok _) =>
          match commit s s' with
          | (Some err, s'') => (Returns (Err err), s'')
          | (None, s'') => (Returns (Ok tt), s'')
          end
      end
  end.
End tx.
Arguments Returns {A} r.
Arguments Panics {A}.

(** A transaction is all or nothing for every body, one that panics included.
    [InTx], the services' helper and the runner of the user service's consumer
    are the same; on a body that returns they are [withTx]; a panic leaves the
    database as it was and goes on to the caller; otherwise the database is the
    one before, or what the body made of it by succeeding. *)
Theorem transactions_equivalent {DB} `{Env} :
  (forall (fn : @TM DB unit) s, txRunner fn s = InTx fn s) /\
  (forall A (m : SM DB A) s, InTx (returning m) s = (Returns (withTx m s).1, (withTx m s).2)) /\
  (forall A (fn : @TM DB A) s,
    let start := mkSt (sdb s) (S (sn s)) false in
    ((InTx fn s).1 = Panics <-> env_begin (sn s) = None /\ (fn start).1 = Panics) /\
    ((InTx fn s).1 = Panics -> sdb (InTx fn s).2 = sdb s) /\
    (sdb (InTx fn s).2 = sdb s \/
     exists a, (fn start).1 = Returns (Ok a) /\ saborted (fn start).2 = false /\ sdb (InTx fn s).2 = sdb (fn start).2)).
Proof.
  split_and!.
  - intros fn s. unfold txRunner, InTx, deferred. destruct (env_begin _); [done|]. destruct (fn _) as [[[[]|e]|] s']; [|done..].
    by destruct (commit s s') as [[e|] s''].
  - intros A m s. unfold InTx, withTx, deferred, returning, commit, rollback. destruct (env_begin _); [done|].
    destruct (m _) as [[a|e] s']; simpl; [|done]. destruct (saborted s'); [done|]. by destruct (env_commit _) as [[e []]|].
  - intros A fn s start. unfold InTx, deferred. fold start. destruct (env_begin _); [simpl; split_and!; [|done|by left]|].
    { split; [done|]. by intros [[=] _]. }
    destruct (fn start) as [[[a|e]|] s'] eqn:E; simpl; [|split_and!; [by split; [|intros [_ ?]]|done|by left]..].
    unfold commit, rollback. destruct (saborted s') eqn:Ea; simpl; [split_and!; [by split; [|intros [_ ?]]|done|by left]|].
    destruct (env_commit _) as [[e []]|]; simpl; (split_and!; [by split; [|intros [_ ?]]|done|]); [right; by exists a|by left|right; by exists a].
Qed.
