(* ===== verification/Isolation.v ===== *)
(** * Interleaved transactions

    The services open their transactions with [pgx.TxOptions{}]
    ([internal/infra/postgres/pool.go] of each of them), that is at Postgres's
    default isolation, READ COMMITTED.  [Store] runs the body of a transaction
    as one step; this file runs the statements of several transactions in any
    order, as Postgres documents that isolation:

    - a statement sees the rows committed when it starts and the rows its own
      transaction wrote; it never sees the uncommitted rows of another;
    - a row that a transaction wrote, or that it refers to by a foreign key, is
      locked until the transaction ends, and a statement that needs a lock that
      conflicts with one of another transaction waits, then sees what that
      transaction committed;
    - the rows a transaction wrote become the committed ones when it commits
      and are dropped when it rolls back; a failed statement leaves it aborted.

    The body of a transaction is a tree of its interactions ([prog]).  [serial]
    makes it a computation of [Store], so that a tree is tied to the use case
    it translates by an equation, and [alone_serial] says that the two ways of
    running it agree when no other transaction is open.

    The second half is a proof method: a transaction relies on what the others
    leave alone, guarantees as much to them ([keepsOk]), and is checked by
    itself. *)

From S2P Require Import Prelude GoNum Errors GoString Store.

(** ** Row locks *)

(** The modes the statements of the services take, with the table of conflicts
    of the Postgres manual: an insertion or a foreign key takes [KeyShare] on
    the row it refers to, an update [NoKeyUpdate], a deletion and an update of
    a unique column [ForUpdate]. *)
Inductive lockMode : Type := KeyShare | NoKeyUpdate | ForUpdate.

Definition conflicting (a b : lockMode) : bool :=
  match a, b with
  | ForUpdate, _ | _, ForUpdate => true
  | NoKeyUpdate, NoKeyUpdate => true
  | _, _ => false
  end.

Lemma conflicting_sym a b : conflicting a b = conflicting b a.
Proof. by destruct a, b. Qed.

(** A table layout: its rows as keys, what a transaction writes of them, and
    the application of a write. *)
Class Rows (DB K W : Type) : Type := {
  rows_eq :: EqDecision K;
  applyWrite : W -> DB -> DB;
}.

Definition applyAll {DB K W} `{Rows DB K W} (ws : list W) (db : DB) : DB :=
  foldl (fun db w => applyWrite w db) db ws.

Lemma applyAll_app {DB K W} `{Rows DB K W} ws ws' (db : DB) :
  applyAll (ws ++ ws') db = applyAll ws' (applyAll ws db).
Proof. unfold applyAll. apply foldl_app. Qed.

(** ** Bodies of transactions *)

Section prog.
Context {DB K W : Type} `{Rows DB K W}.

(** The locks a statement takes, and once it has them what it answers and the
    rows it writes. *)
Definition outcome (B : Type) : Type := list (K * lockMode) * res error (B * list W).

Inductive prog (A : Type) : Type :=
| PRet (a : A)                                    (* [return nil] *)
| PFail (e : error)                               (* [return err] *)
| PAsk (B : Type) (f : nat -> res error B) (k : res error B -> prog A)
                                                  (* the clock, an id, a port *)
| PSnap (B : Type) (f : nat -> DB -> B) (k : B -> prog A)
                                                  (* what a statement computes before it waits *)
| PStmt (B : Type) (f : DB -> outcome B) (k : res error B -> prog A).
Arguments PRet {A} _.
Arguments PFail {A} _.
Arguments PAsk {A} {B} _ _.
Arguments PSnap {A} {B} _ _.
Arguments PStmt {A} {B} _ _.

Fixpoint tbind {A B} (m : prog A) (k : A -> prog B) : prog B :=
  match m with
  | PRet a => k a
  | PFail e => PFail e
  | PAsk f h => PAsk f (fun r => tbind (h r) k)
  | PSnap f h => PSnap f (fun b => tbind (h b) k)
  | PStmt f h => PStmt f (fun r => tbind (h r) k)
  end.

Fixpoint tmapErr {A} (g : error -> error) (m : prog A) : prog A :=
  match m with
  | PRet a => PRet a
  | PFail e => PFail (g e)
  | PAsk f h => PAsk f (fun r => tmapErr g (h r))
  | PSnap f h => PSnap f (fun b => tmapErr g (h b))
  | PStmt f h => PStmt f (fun r => tmapErr g (h r))
  end.

Fixpoint ttry {A} (m : prog A) : prog (res error A) :=
  match m with
  | PRet a => PRet (Ok a)
  | PFail e => PRet (Err e)
  | PAsk f h => PAsk f (fun r => ttry (h r))
  | PSnap f h => PSnap f (fun b => ttry (h b))
  | PStmt f h => PStmt f (fun r => ttry (h r))
  end.

Definition orFail {B} (r : res error B) : prog B :=
  match r with Ok b => PRet b | Err e => PFail e end.

Definition tstmt {B} (f : DB -> outcome B) : prog B := PStmt f orFail.
(** A statement that computes from what it sees when it starts, and then runs
    as [k] says, for instance waits for a lock with what it computed. *)
Definition tsnap {B C} (f : nat -> DB -> B) (k : B -> prog C) : prog C := PSnap f k.
Definition tquery {B} (f : DB -> B) : prog B := tstmt (fun db => ([], Ok (f db, []))).
Definition tqueryRow {B} (f : DB -> option B) : prog B :=
  tbind (tquery f) (fun o => match o with Some b => PRet b | None => PFail ENoRows end).

Context `{Env}.
Definition tnow : prog time := PAsk (fun n => Ok (env_now n)) orFail.
Definition tnewID : prog string := PAsk (fun n => Ok (env_id n)) orFail.
Definition trand (j : nat) : prog (list Z) := PAsk (fun n => Ok (env_rand n j)) orFail.
Definition tlift {B} (f : nat -> res error B) : prog B := PAsk f orFail.

(** ** A body on its own *)

(** The statement as [Store] has it: the database with the rows written. *)
Definition stmtOf {B} (f : DB -> outcome B) (db : DB) : res error (B * DB) :=
  match (f db).2 with
  | Ok (b, ws) => Ok (b, applyAll ws db)
  | Err e => Err e
  end.

Fixpoint serial {A} (m : prog A) : SM DB A :=
  match m with
  | PRet a => sret a
  | PFail e => sfail e
  | PAsk f h => sbind (stry (lift f)) (fun r => serial (h r))
  | PSnap f h => fun s => serial (h (f (sn s) (sdb s))) s
  | PStmt f h => sbind (stry (stmt (stmtOf f))) (fun r => serial (h r))
  end.
End prog.

Arguments PRet {DB K W A} _.
Arguments PFail {DB K W A} _.
Arguments PAsk {DB K W A B} _ _.
Arguments PSnap {DB K W A B} _ _.
Arguments PStmt {DB K W A B} _ _.
Arguments prog DB K W A : clear implicits.

Declare Scope tx_scope.
Delimit Scope tx_scope with tx.
Notation "x <~ m ;; k" := (tbind m (fun x => k))
  (at level 100, m at next level, right associativity) : tx_scope.
Notation "m ;;~ k" := (tbind m (fun _ => k))
  (at level 100, right associativity) : tx_scope.

Section serial.
Context {DB K W : Type} `{Rows DB K W} `{Env}.
Implicit Types s : st DB.

(** Two computations that answer the same. *)
Definition agree {A} (m m' : SM DB A) : Prop := forall s, m s = m' s.

Lemma agree_refl {A} (m : SM DB A) : agree m m.
Proof. done. Qed.
Lemma agree_trans {A} (m1 m2 m3 : SM DB A) : agree m1 m2 -> agree m2 m3 -> agree m1 m3.
Proof. intros H1 H2 s. by rewrite H1, H2. Qed.
Lemma agree_bind {A B} (m m' : SM DB A) (k k' : A -> SM DB B) :
  agree m m' -> (forall a, agree (k a) (k' a)) -> agree (sbind m k) (sbind m' k').
Proof. intros Hm Hk s. unfold sbind. rewrite Hm. destruct (m' s) as [[a|e] s']; [apply Hk|done]. Qed.
Lemma agree_mapErr {A} g (m m' : SM DB A) : agree m m' -> agree (smapErr g m) (smapErr g m').
Proof. intros Hm s. unfold smapErr. by rewrite Hm. Qed.
Lemma agree_try {A} (m m' : SM DB A) : agree m m' -> agree (stry m) (stry m').
Proof. intros Hm s. unfold stry. by rewrite Hm. Qed.
Lemma agree_stmt {A} (f f' : DB -> res error (A * DB)) :
  (forall db, f db = f' db) -> agree (stmt f) (stmt f').
Proof. intros Hf s. unfold stmt. by rewrite Hf. Qed.
Lemma agree_withTx {A} (m m' : SM DB A) : agree m m' -> agree (withTx m) (withTx m').
Proof. intros Hm s. unfold withTx. by rewrite Hm. Qed.

(** A body runs its pieces one after the other. *)
Lemma serial_bind {A B} (m : prog DB K W A) (k : A -> prog DB K W B) :
  agree (serial (tbind m k)) (sbind (serial m) (fun a => serial (k a))).
Proof.
  induction m as [a|e|C f h IH|C f h IH|C f h IH]; intros s; simpl; [done..| |apply IH|].
  - unfold sbind, stry. destruct (lift f s) as [r s']. rewrite (IH r s'). done.
  - unfold sbind, stry. destruct (stmt (stmtOf f) s) as [r s']. rewrite (IH r s'). done.
Qed.
Lemma serial_mapErr {A} g (m : prog DB K W A) : agree (serial (tmapErr g m)) (smapErr g (serial m)).
Proof.
  induction m as [a|e|C f h IH|C f h IH|C f h IH]; intros s; simpl; [done..| |apply IH|].
  - unfold sbind, stry, smapErr. destruct (lift f s) as [r s']. by rewrite (IH r s').
  - unfold sbind, stry, smapErr. destruct (stmt (stmtOf f) s) as [r s']. by rewrite (IH r s').
Qed.
Lemma serial_try {A} (m : prog DB K W A) : agree (serial (ttry m)) (stry (serial m)).
Proof.
  induction m as [a|e|C f h IH|C f h IH|C f h IH]; intros s; simpl; [done..| |apply IH|].
  - unfold sbind. destruct (stry (lift f) s) as [[r|e] s'] eqn:E; [|by unfold stry in E; destruct (lift f s)].
    rewrite (IH r s'). unfold stry in *. destruct (lift f s). by injection E as -> ->.
  - unfold sbind. destruct (stry (stmt (stmtOf f)) s) as [[r|e] s'] eqn:E;
      [|by unfold stry in E; destruct (stmt _ s)].
    rewrite (IH r s'). unfold stry in *. destruct (stmt _ s). by injection E as -> ->.
Qed.
Lemma serial_stmt {B} (f : DB -> outcome B) : agree (serial (tstmt f)) (stmt (stmtOf f)).
Proof.
  intros s. simpl. unfold sbind, stry. by destruct (stmt (stmtOf f) s) as [[b|e] s'].
Qed.
Lemma stmt_tree {B} g (f : DB -> outcome B) f0 :
  (forall db, stmtOf f db = f0 db) -> agree (serial (tmapErr g (tstmt f))) (smapErr g (stmt f0)).
Proof.
  intros Hf. eapply agree_trans; [apply serial_mapErr|]. apply agree_mapErr.
  eapply agree_trans; [apply serial_stmt|]. by apply agree_stmt.
Qed.
Lemma snap_tree {B C} g (p : nat -> DB -> C) (f : C -> DB -> outcome B) f0 :
  (forall n db, stmtOf (f (p n db)) db = f0 n db) ->
  agree (serial (tsnap p (fun x => tmapErr g (tstmt (f x))))) (fun s => smapErr g (stmt (f0 (sn s))) s).
Proof.
  intros Hf s. cbn [serial tsnap]. rewrite (serial_mapErr g (tstmt (f (p (sn s) (sdb s)))) s).
  unfold smapErr. rewrite serial_stmt. unfold stmt. by rewrite Hf.
Qed.
Lemma serial_lift {B} (f : nat -> res error B) : agree (serial (tlift f)) (lift f).
Proof. intros s. simpl. unfold sbind, stry, lift. by destruct (f (sn s)). Qed.
Lemma serial_query {B} (f : DB -> B) : agree (serial (tquery f)) (query f).
Proof. apply (agree_trans _ _ _ (serial_stmt _)), agree_stmt. done. Qed.
Lemma serial_queryRow {B} (f : DB -> option B) : agree (serial (tqueryRow f)) (queryRow f).
Proof.
  apply (agree_trans _ _ _ (serial_bind _ _)), agree_bind; [apply serial_query|]. by intros [].
Qed.
Lemma serial_now : agree (serial tnow) snow.
Proof. done. Qed.
Lemma serial_id : agree (serial tnewID) snewID.
Proof. done. Qed.
Lemma serial_rand j : agree (serial (trand j)) (srand j).
Proof. done. Qed.
End serial.

#[export] Hint Resolve agree_refl serial_query serial_queryRow serial_now serial_id serial_rand
  serial_lift : agree.

(** A statement writes the rows its counterpart changes. *)
Ltac same_rows := intros db; unfold stmtOf; simpl; repeat case_match; simplify_eq/=; try done.

Lemma alter_insert_eq {K V} `{Countable K} (f : V -> V) k v (m : gmap K V) :
  m !! k = Some v -> alter f k m = <[k := f v]> m.
Proof.
  intros Hk. apply map_eq. intros j. rewrite lookup_alter. case_decide; subst.
  - by rewrite Hk, lookup_insert_eq.
  - by rewrite lookup_insert_ne.
Qed.
Lemma alter_absent {K V} `{Countable K} (f : V -> V) k (m : gmap K V) : m !! k = None -> alter f k m = m.
Proof.
  intros Hk. apply map_eq. intros j. rewrite lookup_alter. case_decide; subst; [|done]. by rewrite Hk.
Qed.

(** A tree against the use case it translates, piece by piece. *)
Ltac agree_tac := repeat first
  [ progress intros
  | solve [auto with agree nocore]
  | match goal with
    | |- agree (serial (tbind _ _)) _ =>
        eapply agree_trans; [apply serial_bind|apply agree_bind]
    | |- agree (serial (tmapErr _ _)) _ =>
        eapply agree_trans; [apply serial_mapErr|apply agree_mapErr]
    | |- agree (serial (ttry _)) _ =>
        eapply agree_trans; [apply serial_try|apply agree_try]
    | |- agree (serial (match ?x with _ => _ end)) _ => destruct x
    end
  | solve [apply agree_refl] ].

(** ** Several open transactions *)

Record txn (DB K W Op A : Type) : Type := mkTxn {
  tOp : Op;                          (* the request *)
  tProg : prog DB K W A;             (* what is left of the body *)
  tWrites : list W;                  (* the rows written, oldest first *)
  tLocks : list (K * lockMode);
  tAborted : bool;
}.
Arguments mkTxn {DB K W Op A} _ _ _ _ _.
Arguments tOp {DB K W Op A} _.
Arguments tProg {DB K W Op A} _.
Arguments tWrites {DB K W Op A} _.
Arguments tLocks {DB K W Op A} _.
Arguments tAborted {DB K W Op A} _.

Record sys (DB K W Op A : Type) : Type := mkSys {
  yDB : DB;                          (* the committed rows *)
  yN : nat;                          (* interactions with the outside so far *)
  yOpen : gmap nat (txn DB K W Op A);
  yDone : gmap nat (Op * res error A); (* the requests answered *)
}.
Arguments mkSys {DB K W Op A} _ _ _ _.
Arguments yDB {DB K W Op A} _.
Arguments yN {DB K W Op A} _.
Arguments yOpen {DB K W Op A} _.
Arguments yDone {DB K W Op A} _.

(** What may happen next: a request begins its transaction, an open
    transaction takes its next step, the statement it waits with fails (a
    deadlock is resolved, the context is cancelled). *)
Inductive event (Op : Type) : Type :=
| Begin (i : nat) (op : Op)
| Next (i : nat)
| Break (i : nat) (e : error).
Arguments Begin {Op} _ _.
Arguments Next {Op} _.
Arguments Break {Op} _ _.

Definition clash {K} `{EqDecision K} (L L' : list (K * lockMode)) : bool :=
  existsb (fun a => existsb (fun b => bool_decide (a.1 = b.1) && conflicting a.2 b.2) L') L.

Lemma clash_false {K} `{EqDecision K} (L L' : list (K * lockMode)) :
  clash L L' = false <->
  forall k a b, (k, a) ∈ L -> (k, b) ∈ L' -> conflicting a b = false.
Proof.
  unfold clash. split.
  - intros Hc k a b Ha Hb. destruct (conflicting a b) eqn:E; [|done]. rewrite <- Hc. symmetry.
    apply existsb_exists. exists (k, a). split; [by apply list_elem_of_In|].
    apply existsb_exists. exists (k, b). split; [by apply list_elem_of_In|].
    simpl. by rewrite bool_decide_true, E.
  - intros Hn. apply not_true_is_false. intros [[k a] [Ha Hb]]%existsb_exists.
    apply existsb_exists in Hb as ([k' b] & Hb & Hk). simpl in Hk. apply andb_prop in Hk as [Hk Hc].
    go_bool. subst k'. apply list_elem_of_In in Ha, Hb. by rewrite (Hn _ _ _ Ha Hb) in Hc.
Qed.

Lemma clash_sym {K} `{EqDecision K} (L L' : list (K * lockMode)) :
  clash L L' = false -> clash L' L = false.
Proof.
  rewrite !clash_false. intros Hc k a b Ha Hb. rewrite conflicting_sym. by apply (Hc k).
Qed.

Lemma clash_app_l {K} `{EqDecision K} (L1 L2 L : list (K * lockMode)) :
  clash (L1 ++ L2) L = false <-> clash L1 L = false /\ clash L2 L = false.
Proof. unfold clash. rewrite existsb_app. by rewrite orb_false_iff. Qed.

Section system.
Context {DB K W Op A : Type} `{Rows DB K W} `{Env} (body : Op -> prog DB K W A).
Notation txn := (txn DB K W Op A).
Notation sys := (sys DB K W Op A).
Implicit Types (s : sys) (t : txn) (i j : nat).

(** Another open transaction holds a conflicting lock. *)
Definition mustWait i (l : list (K * lockMode)) s : bool :=
  existsb (fun jt => negb (bool_decide (jt.1 = i)) && clash (tLocks jt.2) l) (map_to_list (yOpen s)).

Definition put i t s : sys := mkSys (yDB s) (S (yN s)) (<[i := t]> (yOpen s)) (yDone s).
Definition finish i op (db : DB) (r : res error A) s : sys :=
  mkSys db (S (yN s)) (delete i (yOpen s)) (<[i := (op, r)]> (yDone s)).

Definition step_stmt {B} i t (f : DB -> outcome B) (k : res error B -> prog DB K W A) s : sys :=
  if tAborted t
  then put i (mkTxn (tOp t) (k (Err (EMsg "current transaction is aborted"))) (tWrites t) (tLocks t) true) s
  else match env_fault (yN s) with
       | Some e => put i (mkTxn (tOp t) (k (Err e)) (tWrites t) (tLocks t) true) s
       | None =>
           let '(l, r) := f (applyAll (tWrites t) (yDB s)) in
           if mustWait i l s then s
           else match r with
                | Err e => put i (mkTxn (tOp t) (k (Err e)) (tWrites t) (tLocks t) true) s
                | Ok (b, w) => put i (mkTxn (tOp t) (k (Ok b)) (tWrites t ++ w) (tLocks t ++ l) false) s
                end
       end.

Definition step_next i t s : sys :=
  match tProg t with
  | PRet a =>
      if tAborted t then finish i (tOp t) (yDB s) (Err (EMsg "commit unexpectedly resulted in rollback")) s
      else match env_commit (yN s) with
           | None => finish i (tOp t) (applyAll (tWrites t) (yDB s)) (Ok a) s
           | Some (e, applied) =>
               finish i (tOp t) (if (applied : bool) then applyAll (tWrites t) (yDB s) else yDB s) (Err e) s
           end
  | PFail e => finish i (tOp t) (yDB s) (Err e) s
  | PAsk f k => put i (mkTxn (tOp t) (k (f (yN s))) (tWrites t) (tLocks t) (tAborted t)) s
  | PSnap f k =>
      mkSys (yDB s) (yN s)
        (<[i := mkTxn (tOp t) (k (f (yN s) (applyAll (tWrites t) (yDB s)))) (tWrites t) (tLocks t) (tAborted t)]> (yOpen s))
        (yDone s)
  | PStmt f k => step_stmt i t f k s
  end.

(** An event that is not possible changes nothing. *)
Definition sys_step s (ev : event Op) : sys :=
  match ev with
  | Begin i op =>
      if bool_decide (is_Some (yOpen s !! i)) || bool_decide (is_Some (yDone s !! i)) then s
      else match env_begin (yN s) with
           | Some e => finish i op (yDB s) (Err e) s
           | None => put i (mkTxn op (body op) [] [] false) s
           end
  | Next i => match yOpen s !! i with Some t => step_next i t s | None => s end
  | Break i e =>
      match yOpen s !! i with
      | Some t => match tProg t with
                  | PStmt f k => put i (mkTxn (tOp t) (k (Err e)) (tWrites t) (tLocks t) true) s
                  | _ => s
                  end
      | None => s
      end
  end.

Definition sys_run s (evs : list (event Op)) : sys := foldl sys_step s evs.

Definition sys_start (db : DB) (n : nat) : sys := mkSys db n ∅ ∅.

(** *** A transaction that runs alone *)

Lemma mustWait_alone i t l s : yOpen s = {[i := t]} -> mustWait i l s = false.
Proof.
  intros Ho. unfold mustWait. rewrite Ho, map_to_list_singleton. simpl. by rewrite bool_decide_true.
Qed.

(** The open transaction as a state of [Store]. *)
Definition stOf t s : st DB := mkSt (applyAll (tWrites t) (yDB s)) (yN s) (tAborted t).

Lemma step_stmt_alone {B} i t (f : DB -> outcome B) k s :
  yOpen s = {[i := t]} ->
  let '(r, s1) := stmt (stmtOf f) (stOf t s) in
  exists t', step_stmt i t f k s = mkSys (yDB s) (sn s1) {[i := t']} (yDone s) /\
    tProg t' = k r /\ applyAll (tWrites t') (yDB s) = sdb s1 /\ tAborted t' = saborted s1 /\ tOp t' = tOp t.
Proof.
  intros Ho. unfold step_stmt, stmt, stmtOf, stOf, put. simpl. rewrite Ho.
  destruct (tAborted t) eqn:Ea; [rewrite insert_singleton_eq; eexists; by split_and!|].
  destruct (env_fault _); [rewrite insert_singleton_eq; eexists; by split_and!|].
  destruct (f _) as [l [[b w]|e]] eqn:Ef; rewrite (mustWait_alone i t) by done; simpl;
    [|rewrite insert_singleton_eq; eexists; by split_and!].
  rewrite insert_singleton_eq.
  eexists. split_and!; [done|done| |done|done]. simpl. by rewrite applyAll_app.
Qed.

(** Enough steps of the only open transaction bring it to its answer, which is
    the one of the body run as one step. *)
Lemma alone_finish i t s m :
  yOpen s = {[i := t]} -> tProg t = m ->
  let '(r, s1) := serial m (stOf t s) in
  exists k, sys_run s (replicate k (Next i)) =
    match r with
    | Err e => mkSys (yDB s) (S (sn s1)) ∅ (<[i := (tOp t, Err e)]> (yDone s))
    | Ok a =>
        if saborted s1
        then mkSys (yDB s) (S (sn s1)) ∅
               (<[i := (tOp t, Err (EMsg "commit unexpectedly resulted in rollback"))]> (yDone s))
        else match env_commit (sn s1) with
             | None => mkSys (sdb s1) (S (sn s1)) ∅ (<[i := (tOp t, Ok a)]> (yDone s))
             | Some (e, applied) =>
                 mkSys (if (applied : bool) then sdb s1 else yDB s) (S (sn s1)) ∅
                   (<[i := (tOp t, Err e)]> (yDone s))
             end
    end.
Proof.
  revert t s. induction m as [a|e|B f k IH|B f k IH|B f k IH]; intros t s Ho Hp; simpl.
  - exists 1%nat. simpl. rewrite Ho, lookup_singleton_eq. unfold step_next. rewrite Hp.
    unfold finish. rewrite Ho, delete_singleton_eq. destruct (tAborted t); [done|].
    by destruct (env_commit _) as [[e []]|].
  - exists 1%nat. simpl. rewrite Ho, lookup_singleton_eq. unfold step_next. rewrite Hp.
    unfold finish. by rewrite Ho, delete_singleton_eq.
  - unfold sbind, stry, lift. simpl.
    set (t' := mkTxn (tOp t) (k (f (yN s))) (tWrites t) (tLocks t) (tAborted t)).
    specialize (IH (f (yN s)) t' (mkSys (yDB s) (S (yN s)) {[i := t']} (yDone s)) eq_refl eq_refl).
    unfold stOf in IH. simpl in IH.
    destruct (serial _ _) as [r s1]. destruct IH as [n IH]. exists (S n). rewrite <- IH. simpl. f_equal.
    rewrite Ho, lookup_singleton_eq. unfold step_next. rewrite Hp. unfold put.
    by rewrite Ho, insert_singleton_eq.
  - set (b := f (yN s) (applyAll (tWrites t) (yDB s))).
    set (t' := mkTxn (tOp t) (k b) (tWrites t) (tLocks t) (tAborted t)).
    specialize (IH b t' (mkSys (yDB s) (yN s) {[i := t']} (yDone s)) eq_refl eq_refl).
    unfold stOf in *. simpl in *.
    destruct (serial _ _) as [r s1]. destruct IH as [n IH]. exists (S n). rewrite <- IH. simpl. f_equal.
    rewrite Ho, lookup_singleton_eq. unfold step_next. rewrite Hp. by rewrite Ho, insert_singleton_eq.
  - pose proof (step_stmt_alone i t f k s Ho) as Hs. unfold sbind, stry.
    destruct (stmt (stmtOf f) (stOf t s)) as [r s1].
    destruct Hs as (t' & Hs & Hp' & Hw & Ha & Hop).
    specialize (IH r t' (mkSys (yDB s) (sn s1) {[i := t']} (yDone s)) eq_refl Hp').
    unfold stOf in IH. simpl in IH. rewrite Hw, Ha, Hop in IH. destruct s1 as [d n ab]. simpl in *.
    destruct (serial (k r) _) as [r' s2]. destruct IH as [j IH]. exists (S j). rewrite <- IH. simpl. f_equal.
    rewrite Ho, lookup_singleton_eq. unfold step_next. by rewrite Hp.
Qed.

(** Transactions that do not overlap are the transactions of [Store]: a request
    that begins when no other transaction is open, and takes its steps before
    any other begins, leaves the database and the answer of [withTx]. *)
Lemma alone_serial i op db n dn :
  dn !! i = None ->
  let '(r, s1) := withTx (serial (body op)) (mkSt db n false) in
  exists k, sys_run (mkSys db n ∅ dn) (Begin i op :: replicate k (Next i)) =
    mkSys (sdb s1) (sn s1) ∅ (<[i := (op, r)]> dn).
Proof.
  intros Hi. unfold withTx. simpl. rewrite lookup_empty, Hi.
  rewrite !bool_decide_false by by intros []. simpl.
  destruct (env_begin n) as [e|].
  { exists 0%nat. simpl. unfold finish. simpl. by rewrite delete_empty. }
  set (t := mkTxn op (body op) [] [] false).
  pose proof (alone_finish i t (put i t (mkSys db n ∅ dn)) (body op) eq_refl eq_refl) as Hf.
  unfold stOf in Hf. cbn [put yDB yN yDone tWrites tAborted t applyAll foldl] in Hf.
  destruct (serial (body op) _) as [r s1]. destruct Hf as [k Hf].
  destruct r as [a|e]; [|by exists k]. destruct (saborted s1); [by exists k|].
  destruct (env_commit _) as [[e []]|]; by exists k.
Qed.
End system.

(** ** What a step does *)

Section steps.
Context {DB K W Op A : Type} `{Rows DB K W} `{Env} (body : Op -> prog DB K W A).
Notation txn := (txn DB K W Op A).
Notation sys := (sys DB K W Op A).
Implicit Types (s : sys) (t u : txn) (i j : nat).

(** A step of an open transaction that stays open and is not aborted: it got
    an answer, or ran a statement on what it sees. *)
Inductive progress (db : DB) t : txn -> Prop :=
| pr_ask B (f : nat -> res error B) k n :
    tProg t = PAsk f k -> progress db t (mkTxn (tOp t) (k (f n)) (tWrites t) (tLocks t) false)
| pr_snap B (f : nat -> DB -> B) k n :
    tProg t = PSnap f k ->
    progress db t (mkTxn (tOp t) (k (f n (applyAll (tWrites t) db))) (tWrites t) (tLocks t) false)
| pr_stmt B (f : DB -> outcome B) k b w l :
    tProg t = PStmt f k -> f (applyAll (tWrites t) db) = (l, Ok (b, w)) ->
    progress db t (mkTxn (tOp t) (k (Ok b)) (tWrites t ++ w) (tLocks t ++ l) false).

(** What an event does: nothing, or a transaction is new, goes on, has just
    been or was already aborted, ends without effect, or commits. *)
Inductive evolves s : event Op -> sys -> Prop :=
| ev_none ev : evolves s ev s
| ev_begin i op : yOpen s !! i = None -> yDone s !! i = None ->
    evolves s (Begin i op) (put i (mkTxn op (body op) [] [] false) s)
| ev_progress i t t' n ev : yOpen s !! i = Some t -> tAborted t = false -> progress (yDB s) t t' ->
    (forall j u, j <> i -> yOpen s !! j = Some u -> clash (tLocks u) (tLocks t) = false ->
       clash (tLocks u) (tLocks t') = false) ->
    evolves s ev (mkSys (yDB s) n (<[i := t']> (yOpen s)) (yDone s))
| ev_aborted i t p n ev : yOpen s !! i = Some t ->
    evolves s ev (mkSys (yDB s) n (<[i := mkTxn (tOp t) p (tWrites t) (tLocks t) true]> (yOpen s)) (yDone s))
| ev_end i op e ev : evolves s ev (finish i op (yDB s) (Err e) s)
| ev_commit i t a r ev : yOpen s !! i = Some t -> tProg t = PRet a -> tAborted t = false ->
    (r = Ok a \/ exists e, r = Err e) ->
    evolves s ev (finish i (tOp t) (applyAll (tWrites t) (yDB s)) r s).

Lemma mustWait_false i l s :
  mustWait i l s = false ->
  forall j u, j <> i -> yOpen s !! j = Some u -> clash (tLocks u) l = false.
Proof.
  unfold mustWait. intros Hw j u Hj Hu. destruct (clash (tLocks u) l) eqn:E; [|done]. rewrite <- Hw.
  symmetry. apply existsb_exists. exists (j, u). simpl. split.
  - by apply list_elem_of_In, elem_of_map_to_list.
  - by rewrite bool_decide_false, E.
Qed.

Lemma step_stmt_evolves {B} i t (f : DB -> outcome B) k s ev :
  yOpen s !! i = Some t -> tProg t = PStmt f k -> evolves s ev (step_stmt i t f k s).
Proof.
  intros Ht Hp. unfold step_stmt. destruct (tAborted t) eqn:Ea; [by apply ev_aborted|].
  destruct (env_fault _); [by apply ev_aborted|].
  destruct (f _) as [l r] eqn:Ef. destruct (mustWait i l s) eqn:Ew; [apply ev_none|].
  destruct r as [[b w]|e]; [|by apply ev_aborted].
  eapply ev_progress; [done|done|by eapply pr_stmt|]. intros j u Hj Hu Hc. simpl.
  apply clash_sym, clash_app_l. split; apply clash_sym; [done|by eapply mustWait_false].
Qed.

Lemma sys_step_evolves s ev : evolves s ev (sys_step body s ev).
Proof.
  destruct ev as [i op|i|i e]; simpl.
  - case_bool_decide as Ho; [apply ev_none|]. case_bool_decide as Hd; [apply ev_none|]. simpl.
    apply eq_None_not_Some in Ho, Hd. destruct (env_begin _); [apply ev_end|by apply ev_begin].
  - destruct (yOpen s !! i) as [t|] eqn:Et; [|apply ev_none]. unfold step_next.
    destruct (tProg t) as [a|e|B f k|B f k|B f k] eqn:Ep.
    + destruct (tAborted t) eqn:Ea; [apply ev_end|].
      destruct (env_commit _) as [[e []]|];
        [eapply ev_commit; eauto|apply ev_end|eapply ev_commit; eauto].
    + apply ev_end.
    + destruct (tAborted t) eqn:Ea; [by apply ev_aborted|].
      eapply ev_progress; [done|done|by eapply pr_ask|done].
    + destruct (tAborted t) eqn:Ea; [by apply ev_aborted|].
      eapply ev_progress; [done|done|by eapply pr_snap|done].
    + by apply step_stmt_evolves.
  - destruct (yOpen s !! i) as [t|] eqn:Et; [|apply ev_none].
    destruct (tProg t); try apply ev_none. by apply ev_aborted.
Qed.

(** Answers are final, and a number is used once. *)
Lemma sys_step_done s ev i r : yDone s !! i = Some r -> yOpen s !! i = None ->
  yDone (sys_step body s ev) !! i = Some r /\ yOpen (sys_step body s ev) !! i = None.
Proof.
  intros Hd Ho. destruct ev as [j op|j|j e]; simpl.
  - destruct (decide (j = i)) as [->|Hne].
    + rewrite Ho, Hd. rewrite bool_decide_false by by intros []. by rewrite bool_decide_true.
    + destruct (_ || _); [done|]. destruct (env_begin _); simpl;
        rewrite ?lookup_insert_ne, ?lookup_delete_ne by done; done.
  - destruct (yOpen s !! j) as [t|] eqn:Et; [|done]. assert (j <> i) as Hne by congruence.
    unfold step_next, step_stmt. repeat case_match; simpl;
      rewrite ?lookup_insert_ne, ?lookup_delete_ne by done; done.
  - destruct (yOpen s !! j) as [t|] eqn:Et; [|done]. assert (j <> i) as Hne by congruence.
    repeat case_match; simpl; rewrite ?lookup_insert_ne by done; done.
Qed.
End steps.

(** ** What transactions rely on *)

Section method.
Context {DB K W Op A : Type} `{Rows DB K W} `{Env} (body : Op -> prog DB K W A).
Notation txn := (txn DB K W Op A).
Notation sys := (sys DB K W Op A).
Implicit Types (s : sys) (t u : txn) (i j : nat) (db : DB).

(** [Inv] is an invariant of the committed database; [adm] says which requests
    are considered and [compat] which may be open together; [rely op L] is what
    a request [op] that holds the locks [L] needs of the commits of the
    others. *)
Context (Inv : DB -> Prop) (adm : Op -> bool) (compat : Op -> Op -> bool)
  (rely : Op -> list (K * lockMode) -> DB -> DB -> Prop).

(** The rest [p] of a transaction, which wrote [ws], holds [L] and last looked
    at the committed database [db], keeps the invariant and lets the others
    rely on theirs, whatever they commit in between. *)
Fixpoint keepsOk (op : Op) (p : prog DB K W A) (ws : list W) (L : list (K * lockMode)) db : Prop :=
  match p with
  | PRet _ => forall db', Inv db' -> rely op L db db' ->
      Inv (applyAll ws db') /\
      forall op' L', compat op op' = true -> clash L L' = false -> rely op' L' db' (applyAll ws db')
  | PFail _ => True
  | PAsk f k => forall n, keepsOk op (k (f n)) ws L db
  | PSnap f k => forall n db', Inv db' -> rely op L db db' -> keepsOk op (k (f n (applyAll ws db'))) ws L db'
  | PStmt f k => forall db', Inv db' -> rely op L db db' ->
      match f (applyAll ws db') with
      | (l, Ok (b, w)) => keepsOk op (k (Ok b)) (ws ++ w) (L ++ l) db'
      | (_, Err _) => True
      end
  end.

Context (rely_refl : forall op L db, rely op L db db)
  (rely_trans : forall op L a b c, rely op L a b -> rely op L b c -> rely op L a c)
  (compat_sym : forall a b, compat a b = compat b a)
  (body_ok : forall op db, adm op = true -> Inv db -> keepsOk op (body op) [] [] db).

Record sys_ok s : Prop := {
  so_inv : Inv (yDB s);
  so_open : forall i t, yOpen s !! i = Some t -> tAborted t = false ->
    exists db, rely (tOp t) (tLocks t) db (yDB s) /\ keepsOk (tOp t) (tProg t) (tWrites t) (tLocks t) db;
  so_apart : forall i j t u, i <> j -> yOpen s !! i = Some t -> yOpen s !! j = Some u ->
    compat (tOp t) (tOp u) = true /\ clash (tLocks t) (tLocks u) = false;
}.

(** The requests of a schedule that overlap are compatible. *)
Definition admits s (ev : event Op) : bool :=
  match ev with
  | Begin _ op => adm op && forallb (fun jt => compat op (tOp jt.2)) (map_to_list (yOpen s))
  | _ => true
  end.

Fixpoint apart s (evs : list (event Op)) : bool :=
  match evs with
  | [] => true
  | ev :: evs => admits s ev && apart (sys_step body s ev) evs
  end.

Lemma sys_start_ok db n : Inv db -> sys_ok (sys_start db n).
Proof. 
  intros Hi. split; [done|..]; simpl; intros *; rewrite lookup_empty; done. Qed.

(** Replacing one transaction, over the same database. *)
Lemma put_ok i t n s :
  sys_ok s ->
  (tAborted t = false ->
   exists db, rely (tOp t) (tLocks t) db (yDB s) /\ keepsOk (tOp t) (tProg t) (tWrites t) (tLocks t) db) ->
  (forall j u, j <> i -> yOpen s !! j = Some u ->
     compat (tOp t) (tOp u) = true /\ clash (tLocks t) (tLocks u) = false) ->
  sys_ok (mkSys (yDB s) n (<[i := t]> (yOpen s)) (yDone s)).
Proof using compat_sym.
  intros [Hi Ho Ha] Ht Hap. split; simpl; [done| |].
  - intros j u. destruct (decide (j = i)) as [->|Hne].
    + rewrite lookup_insert_eq. by intros [= <-].
    + rewrite lookup_insert_ne by done. apply Ho.
  - intros j k u v Hne. destruct (decide (j = i)) as [->|Hj], (decide (k = i)) as [->|Hk]; [done|..];
      rewrite ?lookup_insert_eq, ?lookup_insert_ne by done.
    + intros [= <-] Hv. by apply (Hap k).
    + intros Hu [= <-]. destruct (Hap j u Hj Hu) as [? ?]. rewrite compat_sym. by split; [|apply clash_sym].
    + intros Hu Hv. by apply (Ha j k).
Qed.

(** The end of one transaction, which changes the database as the others
    allow. *)
Lemma finish_ok i op db r s :
  sys_ok s -> Inv db ->
  (forall j u, j <> i -> yOpen s !! j = Some u -> rely (tOp u) (tLocks u) (yDB s) db) ->
  sys_ok (finish i op db r s).
Proof using rely_trans.
  intros [Hi Ho Ha] Hdb Hr. split; simpl; [done| |].
  - intros j u [Hne Hu]%lookup_delete_Some Hl. destruct (Ho j u Hu Hl) as (db0 & Hr0 & Hk).
    exists db0. split; [|done]. eapply rely_trans; [done|]. by eapply Hr.
  - intros j k u v Hne [_ Hu]%lookup_delete_Some [_ Hv]%lookup_delete_Some. by apply (Ha j k).
Qed.

Lemma progress_ok t t' db0 db :
  rely (tOp t) (tLocks t) db0 db -> Inv db -> keepsOk (tOp t) (tProg t) (tWrites t) (tLocks t) db0 ->
  progress db t t' ->
  exists db1, rely (tOp t') (tLocks t') db1 db /\ keepsOk (tOp t') (tProg t') (tWrites t') (tLocks t') db1.
Proof using rely_refl.
  intros Hr Hi Hk [B f k n Hp|B f k n Hp|B f k b w l Hp Hf]; rewrite Hp in Hk; simpl in Hk.
  - exists db0. split; [done|]. apply Hk.
  - exists db. split; [done|]. by apply Hk.
  - specialize (Hk db Hi Hr). rewrite Hf in Hk. exists db. by split.
Qed.

Lemma sys_step_ok s ev : sys_ok s -> admits s ev = true -> sys_ok (sys_step body s ev).
Proof using body_ok compat_sym rely_refl rely_trans.
  intros Hs Had. pose proof Hs as [Hi Ho Ha].
  destruct (sys_step_evolves body s ev)
    as [ev|i op Hn Hd|i t t' n ev Ht Hl Hp Hc|i t p n ev Ht|i o e ev|i t a r ev Ht Hp Hl Hr]; [done|..].
  - simpl in Had. apply andb_prop in Had as [Hop Had]. rewrite forallb_forall in Had.
    apply put_ok; [done|intros _; simpl; exists (yDB s); by auto|].
    intros j u Hj Hu. simpl. split; [|done].
    apply (Had (j, u)). by apply list_elem_of_In, elem_of_map_to_list.
  - destruct (Ho i t Ht Hl) as (db0 & Hr & Hk).
    assert (tOp t' = tOp t) as Hop by by destruct Hp.
    apply put_ok; [done|intros _; by eapply progress_ok|].
    intros j u Hj Hu. destruct (Ha i j t u) as [? Hcl]; [done..|]. rewrite Hop. split; [done|].
    apply clash_sym. eapply Hc; [done..|by apply clash_sym].
  - apply put_ok; [done..|]. intros j u Hj Hu. simpl. by apply (Ha i j).
  - apply finish_ok; [done..|]. intros. apply rely_refl.
  - destruct (Ho i t Ht Hl) as (db0 & Hre & Hk). rewrite Hp in Hk. simpl in Hk.
    destruct (Hk _ Hi Hre) as [Hinv Hg]. apply finish_ok; [done..|].
    intros j u Hj Hu. destruct (Ha i j t u) as [? ?]; [done..|]. by apply Hg.
Qed.

Lemma sys_run_ok evs s : sys_ok s -> apart s evs = true -> sys_ok (sys_run body s evs).
Proof using body_ok compat_sym rely_refl rely_trans.
  revert s. induction evs as [|ev evs IH]; intros s Hs; simpl; [done|].
  intros [Ha Hr]%andb_prop. apply IH; [|done]. by apply sys_step_ok.
Qed.

(** An onlooker that every request is compatible with relies on every step. *)
Lemma sys_step_rely s ev op :
  sys_ok s -> (forall op', compat op' op = true) -> rely op [] (yDB s) (yDB (sys_step body s ev)).
Proof using body_ok compat_sym rely_refl rely_trans.
  intros Hs Hop. pose proof Hs as [Hi Ho _].
  destruct (sys_step_evolves body s ev)
    as [ev|i o Hn Hd|i t t' n ev Ht Hl Hp Hc|i t p n ev Ht|i o e ev|i t a r ev Ht Hp Hl Hr0]; simpl; try done.
  destruct (Ho i t Ht Hl) as (db0 & Hre & Hk). rewrite Hp in Hk. simpl in Hk.
  destruct (Hk _ Hi Hre) as [_ Hg]. apply Hg; [done|]. apply clash_sym. done.
Qed.

(** [J] holds of every committed database of a run. *)
Fixpoint always (J : DB -> Prop) s (evs : list (event Op)) : Prop :=
  J (yDB s) /\ match evs with [] => True | ev :: evs => always J (sys_step body s ev) evs end.

Lemma always_rely (J : DB -> Prop) evs s op :
  sys_ok s -> apart s evs = true -> (forall op', compat op' op = true) ->
  (forall db, Inv db -> rely op [] (yDB s) db -> J db) -> always J s evs.
Proof using body_ok compat_sym rely_refl rely_trans.
  intros Hs Ha Hop HJ.
  assert (forall s', sys_ok s' -> rely op [] (yDB s) (yDB s') -> apart s' evs = true -> always J s' evs) as Hall;
    [|by apply Hall].
  clear Ha. induction evs as [|ev evs IH]; intros s' Hs' Hr Ha; simpl.
  - split; [|done]. apply HJ; [apply Hs'|done].
  - apply andb_prop in Ha as [Had Ha]. split; [apply HJ; [apply Hs'|done]|].
    apply IH; [by apply sys_step_ok| |done]. eapply rely_trans; [exact Hr|by apply sys_step_rely].
Qed.
End method.

(** ** What a transaction answers *)

Section answers.
Context {DB K W Op A : Type} `{Rows DB K W} `{Env} (body : Op -> prog DB K W A).
Implicit Types (s : sys DB K W Op A) (db : DB).

(** Whatever committed databases that satisfy [J] the statements of [p] see, an
    answer of [p] satisfies [Post]. *)
Fixpoint answersOk (J : DB -> Prop) (Post : A -> Prop) (p : prog DB K W A) (ws : list W) : Prop :=
  match p with
  | PRet a => Post a
  | PFail _ => True
  | PAsk f k => forall n, answersOk J Post (k (f n)) ws
  | PSnap f k => forall n db, J db -> answersOk J Post (k (f n (applyAll ws db))) ws
  | PStmt f k => forall db, J db ->
      match f (applyAll ws db) with
      | (_, Ok (b, w)) => answersOk J Post (k (Ok b)) (ws ++ w)
      | (_, Err _) => True
      end
  end.

Context (J : DB -> Prop) (Post : Op -> A -> Prop)
  (body_answers : forall op, answersOk J (Post op) (body op) []).

(** Transaction [i] is not finished, or was answered as it should. *)
Definition answering i s : Prop :=
  (forall t, yOpen s !! i = Some t -> tAborted t = false ->
     answersOk J (Post (tOp t)) (tProg t) (tWrites t)) /\
  (forall op a, yDone s !! i = Some (op, Ok a) -> Post op a).

Lemma answering_put i j t n s :
  answering i s -> (j = i -> tAborted t = false -> answersOk J (Post (tOp t)) (tProg t) (tWrites t)) ->
  answering i (mkSys (yDB s) n (<[j := t]> (yOpen s)) (yDone s)).
Proof.
  intros [Ho Hd] Ht. split; [|done]. intros u. simpl. destruct (decide (j = i)) as [->|Hne].
  - rewrite lookup_insert_eq. intros [= <-]. by apply Ht.
  - rewrite lookup_insert_ne by done. apply Ho.
Qed.

Lemma answering_finish i j op db r s :
  answering i s -> (j = i -> forall a, r = Ok a -> Post op a) -> answering i (finish j op db r s).
Proof.
  intros [Ho Hd] Hr. split; simpl.
  - intros u [_ Hu]%lookup_delete_Some. by apply Ho.
  - intros op' a. destruct (decide (j = i)) as [->|Hne].
    + rewrite lookup_insert_eq. intros [= <- Ha]. by apply Hr.
    + rewrite lookup_insert_ne by done. apply Hd.
Qed.

Lemma answering_step i s ev : J (yDB s) -> answering i s -> answering i (sys_step body s ev).
Proof using body_answers.
  intros HJ Hs. pose proof Hs as [Ho Hd].
  destruct (sys_step_evolves body s ev)
    as [ev|j op Hn Hdn|j t t' n ev Ht Hl Hp Hc|j t p n ev Ht|j o e ev|j t a r ev Ht Hp Hl Hr]; [done|..].
  - by apply answering_put.
  - apply answering_put; [done|]. intros -> _. specialize (Ho t Ht Hl).
    destruct Hp as [B f k m Hp|B f k m Hp|B f k b w l Hp Hf]; rewrite Hp in Ho; simpl in *; [apply Ho|by apply Ho|].
    specialize (Ho _ HJ). by rewrite Hf in Ho.
  - by apply answering_put.
  - by apply answering_finish.
  - apply answering_finish; [done|]. intros -> b ->. specialize (Ho t Ht Hl). rewrite Hp in Ho.
    by destruct Hr as [[= ->]|[e [=]]].
Qed.

(** A request that begins in a run all of whose committed databases satisfy
    [J] is answered as it should. *)
Lemma answers_run evs i s :
  always body J s evs -> yOpen s !! i = None -> yDone s !! i = None ->
  forall op a, yDone (sys_run body s evs) !! i = Some (op, Ok a) -> Post op a.
Proof using body_answers.
  intros Hal Ho Hd. assert (answering i s) as Hs by (split; intros *; congruence). clear Ho Hd.
  revert s Hal Hs. induction evs as [|ev evs IH]; intros s [HJ Hal] Hs; simpl; [apply Hs|].
  apply (IH (sys_step body s ev)); [done|by apply answering_step].
Qed.
End answers.

(** ** Transactions that depend on nothing but their locks *)

(** When what a transaction relies on is the business of its locks alone, each
    statement can be checked by itself, on the database it sees. *)
Section wellLocked.
Context {DB K W Op A : Type} `{Rows DB K W}.
Context (Inv : DB -> Prop) (rely : list (K * lockMode) -> DB -> DB -> Prop)
  (covered : list (K * lockMode) -> DB -> W -> Prop).
Implicit Types (L l : list (K * lockMode)) (db : DB) (w : W).

(** The rows a statement writes are covered by the locks it takes. *)
Fixpoint coveredBy L (ws : list W) db : Prop :=
  match ws with
  | [] => True
  | w :: ws => covered L db w /\ coveredBy L ws (applyWrite w db)
  end.

Fixpoint wellLocked {C} (p : prog DB K W C) : Prop :=
  match p with
  | PRet _ | PFail _ => True
  | PAsk f k => forall n, wellLocked (k (f n))
  | PSnap f k => forall b, wellLocked (k b)
  | PStmt f k => forall view, Inv view ->
      match f view with
      | (l, Ok (b, w)) => coveredBy l w view /\ wellLocked (k (Ok b))
      | (_, Err _) => True
      end
  end.

Lemma wellLocked_bind {B C} (m : prog DB K W B) (k : B -> prog DB K W C) :
  wellLocked m -> (forall b, wellLocked (k b)) -> wellLocked (tbind m k).
Proof.
  intros Hm Hk. induction m as [a|e|D f h IH|D f h IH|D f h IH]; simpl in *; [done..| | |].
  - intros n. apply IH, Hm.
  - intros b. apply IH, Hm.
  - intros v Hv. specialize (Hm v Hv). destruct (f v) as [l [[b w]|e]]; [|done].
    destruct Hm. split; [done|by apply IH].
Qed.
Lemma wellLocked_mapErr {B} g (m : prog DB K W B) : wellLocked m -> wellLocked (tmapErr g m).
Proof.
  intros Hm. induction m as [a|e|D f h IH|D f h IH|D f h IH]; simpl in *; [done..| | |].
  - intros n. apply IH, Hm.
  - intros b. apply IH, Hm.
  - intros v Hv. specialize (Hm v Hv). destruct (f v) as [l [[b w]|e]]; [|done].
    destruct Hm. split; [done|by apply IH].
Qed.
Lemma wellLocked_try {B} (m : prog DB K W B) : wellLocked m -> wellLocked (ttry m).
Proof.
  intros Hm. induction m as [a|e|D f h IH|D f h IH|D f h IH]; simpl in *; [done..| | |].
  - intros n. apply IH, Hm.
  - intros b. apply IH, Hm.
  - intros v Hv. specialize (Hm v Hv). destruct (f v) as [l [[b w]|e]]; [|done].
    destruct Hm. split; [done|by apply IH].
Qed.
Lemma wellLocked_orFail {B} (r : res error B) : wellLocked (orFail r).
Proof. by destruct r. Qed.
Lemma wellLocked_ask {B} (f : nat -> res error B) : wellLocked (tlift f).
Proof. intros n. apply wellLocked_orFail. Qed.
Lemma wellLocked_stmt {B} (f : DB -> outcome B) :
  (forall view l b ws, Inv view -> f view = (l, Ok (b, ws)) -> coveredBy l ws view) -> wellLocked (tstmt f).
Proof.
  intros Hf v Hv. destruct (f v) as [l [[b w]|e]] eqn:E; [|done]. split; [by eapply Hf|done].
Qed.
Lemma wellLocked_queryRow {B} (f : DB -> option B) : wellLocked (tqueryRow f).
Proof.
  apply wellLocked_bind; [apply wellLocked_stmt; by intros v l b w _ [= <- _ <-]|]. by intros [].
Qed.

Context (rely_refl : forall L db, rely L db db)
  (rely_trans : forall L a b c, rely L a b -> rely L b c -> rely L a c)
  (rely_fewer : forall L L' a b, L ⊆ L' -> rely L' a b -> rely L a b)
  (covered_more : forall L L' db w, L ⊆ L' -> covered L db w -> covered L' db w)
  (covered_stable : forall L db db' w, Inv db -> Inv db' -> rely L db db' -> covered L db w -> covered L db' w)
  (covered_cong : forall L db db' w, covered L db w -> rely L db db' ->
     rely L (applyWrite w db) (applyWrite w db'))
  (covered_inv : forall L db w, Inv db -> covered L db w -> Inv (applyWrite w db))
  (covered_rely : forall L L' db w, covered L db w -> clash L L' = false -> rely L' db (applyWrite w db)).

Lemma coveredBy_app L ws ws' db :
  coveredBy L (ws ++ ws') db <-> coveredBy L ws db /\ coveredBy L ws' (applyAll ws db).
Proof.
  revert db. induction ws as [|w ws IH]; intros db; simpl; [tauto|]. rewrite IH. unfold applyAll. simpl. tauto.
Qed.
Lemma coveredBy_more L L' ws db : L ⊆ L' -> coveredBy L ws db -> coveredBy L' ws db.
Proof using covered_more.
  intros HL. revert db. induction ws as [|w ws IH]; intros db; simpl; [done|].
  intros [? ?]. split; [by eapply covered_more|by apply IH].
Qed.
Lemma coveredBy_inv L ws db : Inv db -> coveredBy L ws db -> Inv (applyAll ws db).
Proof using covered_inv.
  revert db. induction ws as [|w ws IH]; intros db Hi; simpl; [done|].
  intros [? ?]. apply (IH (applyWrite w db)); [by eapply covered_inv|done].
Qed.
Lemma coveredBy_rely L L' ws db : coveredBy L ws db -> clash L L' = false -> rely L' db (applyAll ws db).
Proof using rely_refl rely_trans covered_rely.
  revert db. induction ws as [|w ws IH]; intros db Hc Hcl; simpl; [apply rely_refl|].
  destruct Hc as [Hw Hc]. eapply rely_trans; [by eapply covered_rely|by apply (IH (applyWrite w db))].
Qed.
Lemma coveredBy_stable L ws db db' :
  Inv db -> Inv db' -> rely L db db' -> coveredBy L ws db -> coveredBy L ws db'.
Proof using covered_stable covered_cong covered_inv.
  revert db db'. induction ws as [|w ws IH]; intros db db' Hi Hi' Hr; simpl; [done|].
  intros [Hw Hc]. assert (covered L db' w) by exact (covered_stable L db db' w Hi Hi' Hr Hw).
  split; [done|]. apply (IH (applyWrite w db)); [by eapply covered_inv..|by apply covered_cong|exact Hc].
Qed.

(** Such a transaction can be interleaved with any others of the kind. *)
Lemma wellLocked_keepsOk (compat : Op -> Op -> bool) op (p : prog DB K W A) ws L db :
  wellLocked p -> Inv db -> coveredBy L ws db ->
  keepsOk Inv compat (fun _ => rely) op p ws L db.
Proof using rely_refl rely_trans rely_fewer covered_more covered_stable covered_cong covered_inv covered_rely.
  revert ws L db. induction p as [a|e|B f k IH|B f k IH|B f k IH]; intros ws L db Hp Hi Hc; simpl in *; [| |by auto| |].
  - intros db' Hi' Hr. pose proof (coveredBy_stable _ _ _ _ Hi Hi' Hr Hc) as Hc'.
    split; [by eapply coveredBy_inv|]. intros op' L' _ Hcl. by eapply coveredBy_rely.
  - done.
  - intros n db' Hi' Hr. apply IH; [apply Hp|done|exact (coveredBy_stable _ _ _ _ Hi Hi' Hr Hc)].
  - intros db' Hi' Hr. pose proof (coveredBy_stable _ _ _ _ Hi Hi' Hr Hc) as Hc'.
    specialize (Hp (applyAll ws db') ltac:(by eapply coveredBy_inv)).
    destruct (f _) as [l [[b w]|e]]; [|done]. destruct Hp as [Hw Hp]. apply IH; [done|done|].
    apply coveredBy_app. split; (eapply coveredBy_more; [|done]); set_solver.
Qed.
End wellLocked.
