(* ===== verification/RoomDomain.v ===== *)
(** * The room aggregate

    Model of [apps/room-service/internal/domain/room.go] and
    [permissions.go]: rooms, members, slugs, the role rules, and the bitmask of
    owner-granted permissions. *)

From S2P Require Import Prelude GoNum Errors GoString.

(** ** Data *)

(** The generated enumerations are 32-bit integers; any value can arrive. *)
Definition RoomRole : Type := Z.
Definition ROLE_UNSPECIFIED : RoomRole := 0.
Definition ROLE_GUEST : RoomRole := 1.
Definition ROLE_MEMBER : RoomRole := 2.
Definition ROLE_MODERATOR : RoomRole := 3.
Definition ROLE_OWNER : RoomRole := 4.

Definition SystemRole : Type := Z.
Definition SYSTEM_UNSPECIFIED : SystemRole := 0.
Definition SYSTEM_GUEST : SystemRole := 1.
Definition SYSTEM_USER : SystemRole := 2.
Definition SYSTEM_MODERATOR : SystemRole := 3.
Definition SYSTEM_ADMINISTRATOR : SystemRole := 4.

Definition RoomVisibility : Type := Z.
Definition VisibilityUnspecified : RoomVisibility := 0.
Definition VisibilityPublic : RoomVisibility := 1.
Definition VisibilityUnlisted : RoomVisibility := 2.
Definition VisibilityPrivate : RoomVisibility := 3.

Record Room : Type := mkRoom {
  rID : string;
  rSlug : string;
  rName : string;
  rDescription : string;
  rVisibility : RoomVisibility;
  rOwnerID : string;
  rMaxMembers : Z;
  rMemberCount : Z;
  rCreatedAt : time;
  rUpdatedAt : time;
}.

Record Member : Type := mkMember {
  mRoomID : string;
  mUserID : string;
  mRole : RoomRole;
  mJoinedAt : time;
}.

Definition ErrRoomNameEmpty : error := EMsg "room: name must not be empty".
Definition ErrRoomNameTooLong : error := EMsg "room: name exceeds 100 characters".

Definition defaultMaxMembers : Z := 50.
Definition maxRoomName : Z := 100.
Definition maxSlugLen : Z := 64.

(** ** Slugs *)

(** [slugRe.ReplaceAllString(strings.ToLower(s), "-")]: lower-case letters and
    digits stay, every run of anything else becomes one ['-'].  [dash] is set
    inside such a run. *)
Fixpoint slugBody (fuel : nat) (dash : bool) (l : list Z) : list Z :=
  match fuel with
  | O => []
  | S fuel =>
      match l with
      | [] => []
      | _ =>
          match lowerAlnum l with
          | (Some z, n) => z :: slugBody fuel false (drop n l)
          | (None, n) =>
              if dash then slugBody fuel true (drop n l)
              else 45 :: slugBody fuel true (drop n l)
          end
      end
  end.

Fixpoint trimDashes (l : list Z) : list Z :=
  match l with
  | z :: rest => if z =? 45 then trimDashes rest else l
  | [] => []
  end.

(** [strings.Trim(s, "-")]. *)
Definition trimDash (l : list Z) : list Z := rev (trimDashes (rev (trimDashes l))).

(** ["abcdefghijklmnopqrstuvwxyz0123456789"]. *)
Definition alphabetAt (i : Z) : Z := if i <? 26 then 97 + i else 48 + (i - 26).

Definition randomSlugSuffix (rnd : list Z) : list Z := map (fun b => alphabetAt (b mod 36)) rnd.

(** [rnd] are the six random bytes. *)
Definition GenerateSlug (rnd : list Z) (name : string) : string :=
  let b := bytes (TrimSpace name) in
  let s := slugBody (length b) false b in
  let s := trimDash s in
  let s := if maxSlugLen - 8 <? Z.of_nat (length s)
           then take (Z.to_nat (maxSlugLen - 9)) s else s in
  let suffix := randomSlugSuffix rnd in
  match s with
  | [] => ofBytes suffix
  | _ => ofBytes (s ++ [45] ++ suffix)
  end.

(** ** Invite codes *)

(** The alphabet of [base64.RawURLEncoding]. *)
Definition base64Char (v : Z) : Z :=
  if v <? 26 then 65 + v
  else if v <? 52 then 97 + (v - 26)
  else if v <? 62 then 48 + (v - 52)
  else if v =? 62 then 45 else 95.

(** [base64.RawURLEncoding.EncodeToString]. *)
Fixpoint base64RawURL (l : list Z) : list Z :=
  match l with
  | a :: b :: c :: rest =>
      base64Char (Z.shiftr a 2) ::
      base64Char (Z.lor (Z.shiftl (Z.land a 3) 4) (Z.shiftr b 4)) ::
      base64Char (Z.lor (Z.shiftl (Z.land b 15) 2) (Z.shiftr c 6)) ::
      base64Char (Z.land c 63) :: base64RawURL rest
  | [a; b] =>
      [base64Char (Z.shiftr a 2);
       base64Char (Z.lor (Z.shiftl (Z.land a 3) 4) (Z.shiftr b 4));
       base64Char (Z.shiftl (Z.land b 15) 2)]
  | [a] => [base64Char (Z.shiftr a 2); base64Char (Z.shiftl (Z.land a 3) 4)]
  | [] => []
  end.

(** [rnd] are the sixteen random bytes. *)
Definition GenerateInviteCode (rnd : list Z) : string := ofBytes (base64RawURL rnd).

(** ** Rooms *)

Record NewRoomParams : Type := mkParams {
  pName : string;
  pDescription : string;
  pVisibility : RoomVisibility;
  pMaxMembers : option Z;
}.

Definition NewRoom (rnd : list Z) (now : time) (id ownerID : string) (p : NewRoomParams)
    : res error Room :=
  let name := TrimSpace (pName p) in
  if bool_decide (name = "") then Err ErrRoomNameEmpty
  else if maxRoomName <? slen name then Err ErrRoomNameTooLong
  else
    let vis := if pVisibility p =? VisibilityUnspecified then VisibilityPublic
               else pVisibility p in
    let maxMembers := match pMaxMembers p with
                      | Some n => if 0 <? n then n else defaultMaxMembers
                      | None => defaultMaxMembers
                      end in
    Ok (mkRoom id (GenerateSlug rnd name) name (TrimSpace (pDescription p)) vis ownerID
          maxMembers 0 now now).

Definition IsFull (r : Room) : bool := rMaxMembers r <=? rMemberCount r.
Definition IsVisible (r : Room) : bool := rVisibility r =? VisibilityPublic.
Definition RequiresInvite (r : Room) : bool := rVisibility r =? VisibilityPrivate.

Definition ApplyUpdate (rnd : list Z) (now : time) (name desc : option string)
    (vis : option RoomVisibility) (maxM : option Z) (r : Room) : Room :=
  let '(nm, slug) :=
    match name with
    | Some n =>
        let trimmed := TrimSpace n in
        if bool_decide (trimmed = "") then (rName r, rSlug r)
        else (trimmed, GenerateSlug rnd trimmed)
    | None => (rName r, rSlug r)
    end in
  let d := match desc with Some d => TrimSpace d | None => rDescription r end in
  let v := match vis with
           | Some v => if v =? VisibilityUnspecified then rVisibility r else v
           | None => rVisibility r
           end in
  let m := match maxM with Some n => if 0 <? n then n else rMaxMembers r | None => rMaxMembers r end in
  mkRoom (rID r) slug nm d v (rOwnerID r) m (rMemberCount r) (rCreatedAt r) now.

(** ** Roles *)

Definition CanKick (byRole targetRole : RoomRole) : bool :=
  if targetRole =? ROLE_OWNER then false
  else if byRole =? ROLE_OWNER then true
  else if byRole =? ROLE_MODERATOR then targetRole <? ROLE_MODERATOR
  else false.

Definition CanPromote (byRole newRole : RoomRole) : bool :=
  if negb (byRole =? ROLE_OWNER) then false
  else if (newRole =? ROLE_OWNER) || (newRole =? ROLE_UNSPECIFIED) then false
  else true.

(** ** Permissions *)

(** A [uint16] bitmask. *)
Definition Permissions : Type := Z.
Definition PermSeek : Permissions := 1.
Definition PermPausePlay : Permissions := 2.
Definition PermSwitchQueue : Permissions := 4.
Definition PermAddQueue : Permissions := 8.
Definition PermRemoveQueue : Permissions := 16.

Definition RoomPermission : Type := Z.
Definition PERM_SEEK : RoomPermission := 1.
Definition PERM_PAUSE_PLAY : RoomPermission := 2.
Definition PERM_SWITCH_QUEUE : RoomPermission := 3.
Definition PERM_ADD_QUEUE : RoomPermission := 4.
Definition PERM_REMOVE_QUEUE : RoomPermission := 5.

Definition permByProto : gmap Z Permissions :=
  <[PERM_SEEK := PermSeek]> (<[PERM_PAUSE_PLAY := PermPausePlay]>
  (<[PERM_SWITCH_QUEUE := PermSwitchQueue]> (<[PERM_ADD_QUEUE := PermAddQueue]>
  (<[PERM_REMOVE_QUEUE := PermRemoveQueue]> ∅)))).

Definition PermissionsFromProto (perms : list RoomPermission) : Permissions :=
  fold_left (fun out p => Z.lor out (default 0 (permByProto !! p))) perms 0.

Definition permBit (p : Permissions) (v : RoomPermission) : bool :=
  match permByProto !! v with
  | Some bit => negb (Z.land p bit =? 0)
  | None => false
  end.

Definition ToProto (p : Permissions) : list RoomPermission :=
  filter (fun v => permBit p v = true) [1; 2; 3; 4; 5].

Definition PermHas (p want : Permissions) : bool := Z.land p want =? want.

(** ** Facts about slugs *)

Definition slugChar (z : Z) : Prop := isAlnum z = true \/ z = 45.

Lemma slugBody_chars fuel dash l : Forall slugChar (slugBody fuel dash l).
Proof.
  revert dash l. induction fuel as [|fuel IH]; intros dash l; simpl; [constructor|].
  destruct l as [|b l]; [constructor|].
  destruct (lowerAlnum (b :: l)) as [[z|] n] eqn:E.
  - constructor; [|apply IH]. left. by eapply lowerAlnum_alnum.
  - destruct dash; [apply IH|]. constructor; [by right|apply IH].
Qed.

Lemma trimDashes_Forall P l : Forall P l -> Forall P (trimDashes l).
Proof. induction 1; simpl; [constructor|]. case_match; [done|by constructor]. Qed.

Lemma trimDash_Forall P l : Forall P l -> Forall P (trimDash l).
Proof.
  intros Hl. unfold trimDash. apply Forall_rev, trimDashes_Forall, Forall_rev.
  by apply trimDashes_Forall.
Qed.

Lemma randomSlugSuffix_chars rnd :
  Forall (fun z => isAlnum z = true) (randomSlugSuffix rnd).
Proof.
  unfold randomSlugSuffix. apply Forall_map, Forall_true. intros b.
  pose proof (Z.mod_pos_bound b 36 ltac:(lia)). unfold alphabetAt, isAlnum.
  apply orb_true_iff. destruct (Z.ltb_spec (b mod 36) 26); [left|right];
    apply andb_true_iff; rewrite !Z.leb_le; lia.
Qed.

Lemma slugChar_byte z : slugChar z -> isByte z.
Proof.
  unfold isByte. intros [H| ->]; [|lia]. unfold isAlnum in H.
  apply orb_prop in H as [H|H]; go_bool; lia.
Qed.

(** ** Theorems *)

(** A generated slug fits its column and is URL-safe: between 6 and 64
    bytes, all of them lower-case letters, digits or dashes, ending in the six
    random characters, whatever bytes the name holds. *)
Theorem GenerateSlug_valid rnd name :
  length rnd = 6%nat ->
  let slug := bytes (GenerateSlug rnd name) in
  (6 <= length slug <= 64)%nat /\ Forall slugChar slug /\
  exists prefix, slug = prefix ++ randomSlugSuffix rnd.
Proof.
  intros Hr slug. unfold slug, GenerateSlug.
  set (b := bytes (TrimSpace name)). set (body := trimDash (slugBody (length b) false b)).
  assert (Forall slugChar body) as Hbody by apply trimDash_Forall, slugBody_chars.
  set (s := if _ <? _ then _ else _).
  assert (Forall slugChar s /\ (length s <= 56)%nat) as [Hs Hlen].
  { unfold s. change (maxSlugLen - 8) with 56. change (Z.to_nat (maxSlugLen - 9)) with 55%nat.
    destruct (Z.ltb_spec 56 (Z.of_nat (length body))).
    - split; [by apply Forall_take|rewrite length_take; lia].
    - split; [done|lia]. }
  assert (Forall slugChar (randomSlugSuffix rnd)) as Hsuf.
  { eapply Forall_impl; [apply randomSlugSuffix_chars|]. by left. }
  assert (length (randomSlugSuffix rnd) = 6%nat) as H6
    by (unfold randomSlugSuffix; by rewrite length_map).
  assert (forall l, Forall slugChar l -> bytes (ofBytes l) = l) as Hb.
  { intros l Hl. apply bytes_ofBytes. eapply Forall_impl; [done|]. apply slugChar_byte. }
  destruct s as [|z s'].
  { rewrite Hb by done. split_and!; [lia|lia|done|by exists []]. }
  assert (Forall slugChar ((z :: s') ++ [45] ++ randomSlugSuffix rnd)) as Hall.
  { apply Forall_app. split; [done|]. constructor; [by right|done]. }
  rewrite Hb by done. rewrite !length_app, H6. simpl length in *. split_and!; [lia|lia|done|].
  exists ((z :: s') ++ [45]). by rewrite <- app_assoc.
Qed.

Lemma GenerateSlug_valid_witness :
  GenerateSlug [0; 1; 2; 30; 40; 255] "  My Cool Room! " = "my-cool-room-abc4ed" /\
  Forall slugChar (bytes (GenerateSlug [0; 1; 2; 30; 40; 255] "  My Cool Room! ")).
Proof.
  split; [reflexivity|].
  apply (GenerateSlug_valid [0; 1; 2; 30; 40; 255] "  My Cool Room! "). reflexivity.
Defined.

(** A new room is valid: its name is trimmed, non-empty and at most 100
    bytes, it is public unless asked otherwise, it can hold at least one
    member, and it starts empty; a name that is blank or too long is refused. *)
Theorem NewRoom_valid rnd now id owner p :
  match NewRoom rnd now id owner p with
  | Ok r => rName r = TrimSpace (pName p) /\ rName r <> "" /\ slen (rName r) <= 100 /\
            rVisibility r <> VisibilityUnspecified /\ 0 < rMaxMembers r /\
            rMemberCount r = 0 /\ rOwnerID r = owner /\ rID r = id
  | Err e => (TrimSpace (pName p) = "" /\ e = ErrRoomNameEmpty) \/
             (100 < slen (TrimSpace (pName p)) /\ e = ErrRoomNameTooLong)
  end.
Proof.
  unfold NewRoom. case_bool_decide; [by left|]. unfold maxRoomName.
  destruct (Z.ltb_spec 100 (slen (TrimSpace (pName p)))); [by right|].
  cbn [rName rVisibility rMaxMembers rMemberCount rOwnerID rID]. split_and!; try done.
  - destruct (Z.eqb_spec (pVisibility p) VisibilityUnspecified); done.
  - unfold defaultMaxMembers. destruct (pMaxMembers p) as [n|]; [|lia].
    destruct (Z.ltb_spec 0 n); lia.
Qed.

(** The role rules: the owner can never be kicked, a moderator only kicks
    roles below moderator, nobody else kicks; only the owner changes roles, and
    never to owner. *)
Theorem role_rules byRole target :
  (CanKick byRole target = true <->
   target <> ROLE_OWNER /\
   (byRole = ROLE_OWNER \/ (byRole = ROLE_MODERATOR /\ target < ROLE_MODERATOR))) /\
  (CanPromote byRole target = true <->
   byRole = ROLE_OWNER /\ target <> ROLE_OWNER /\ target <> ROLE_UNSPECIFIED).
Proof.
  unfold CanKick, CanPromote, ROLE_OWNER, ROLE_MODERATOR, ROLE_UNSPECIFIED.
  destruct (Z.eqb_spec target 4), (Z.eqb_spec byRole 4), (Z.eqb_spec byRole 3),
    (Z.eqb_spec target 0), (Z.ltb_spec target 3); simpl; split; split; try done; try lia.
Qed.

(** ** The permission bitmask *)

Definition protoBit (v : RoomPermission) : Z := default 0 (permByProto !! v).

Lemma permByProto_lookup v :
  permByProto !! v = if (1 <=? v) && (v <=? 5) then Some (2 ^ (v - 1)) else None.
Proof.
  destruct ((1 <=? v) && (v <=? 5)) eqn:E.
  - go_bool. assert (v = 1 \/ v = 2 \/ v = 3 \/ v = 4 \/ v = 5) as Hv by lia.
    by destruct Hv as [->|[->|[->|[->| ->]]]].
  - unfold permByProto, PERM_SEEK, PERM_PAUSE_PLAY, PERM_SWITCH_QUEUE, PERM_ADD_QUEUE,
      PERM_REMOVE_QUEUE.
    apply andb_false_iff in E. rewrite !Z.leb_gt in E.
    by rewrite !lookup_insert_ne by lia.
Qed.

(** The bit of a known permission is [v - 1]. *)
Lemma protoBit_testbit v i :
  0 <= i -> Z.testbit (protoBit v) i = (1 <=? v) && (v <=? 5) && (v - 1 =? i).
Proof.
  intros Hi. unfold protoBit. rewrite permByProto_lookup.
  destruct ((1 <=? v) && (v <=? 5)) eqn:E; simpl; [|by rewrite Z.bits_0].
  go_bool. by rewrite Z.pow2_bits_eqb by lia.
Qed.

Lemma permBit_testbit p v :
  permBit p v = (1 <=? v) && (v <=? 5) && Z.testbit p (v - 1).
Proof.
  unfold permBit. rewrite permByProto_lookup.
  destruct ((1 <=? v) && (v <=? 5)) eqn:E; [|done]. go_bool. cbn [andb].
  destruct (Z.testbit p (v - 1)) eqn:Eb.
  - apply negb_true_iff, Z.eqb_neq. intros Hz. apply (f_equal (fun z => Z.testbit z (v - 1))) in Hz.
    rewrite Z.land_spec, Z.pow2_bits_true, Eb, Z.bits_0 in Hz by lia. done.
  - apply negb_false_iff, Z.eqb_eq. apply Z.bits_inj'. intros i Hi.
    rewrite Z.land_spec, Z.pow2_bits_eqb, Z.bits_0 by lia.
    destruct (Z.eqb_spec (v - 1) i) as [<-|]; [by rewrite Eb|by rewrite andb_false_r].
Qed.

Lemma fromProto_testbit perms i :
  0 <= i -> Z.testbit (PermissionsFromProto perms) i =
            existsb (fun v => (1 <=? v) && (v <=? 5) && (v - 1 =? i)) perms.
Proof.
  intros Hi. unfold PermissionsFromProto.
  assert (forall acc, Z.testbit (fold_left (fun out p => Z.lor out (protoBit p)) perms acc) i =
    Z.testbit acc i || existsb (fun v => (1 <=? v) && (v <=? 5) && (v - 1 =? i)) perms) as Hg.
  { induction perms as [|v perms IH]; intros acc; simpl; [by rewrite orb_false_r|].
    by rewrite IH, Z.lor_spec, protoBit_testbit, orb_assoc. }
  specialize (Hg 0). by rewrite Z.bits_0 in Hg.
Qed.

Lemma elem_of_ToProto p v : v ∈ ToProto p <-> 1 <= v <= 5 /\ Z.testbit p (v - 1) = true.
Proof.
  unfold ToProto. rewrite list_elem_of_filter, permBit_testbit. split.
  - intros [Hb _]. go_bool. split; [lia|done].
  - intros [Hv Hb]. split.
    + rewrite Hb, andb_true_r. apply andb_true_iff. rewrite !Z.leb_le. lia.
    + assert (v = 1 \/ v = 2 \/ v = 3 \/ v = 4 \/ v = 5) as Hc by lia.
      destruct Hc as [->|[->|[->|[->| ->]]]]; set_solver.
Qed.

Lemma elem_of_grant req v :
  v ∈ ToProto (PermissionsFromProto req) <-> v ∈ req /\ 1 <= v <= 5.
Proof.
  rewrite elem_of_ToProto. split.
  - intros [Hv Hb]. split; [|done]. rewrite fromProto_testbit in Hb by lia.
    apply existsb_exists in Hb as (u & Hu & Hb). go_bool.
    assert (u = v) as <- by lia. by apply list_elem_of_In.
  - intros [Hin Hv]. split; [done|]. rewrite fromProto_testbit by lia.
    apply existsb_exists. exists v. split; [by apply list_elem_of_In|].
    rewrite !andb_true_iff, !Z.leb_le, Z.eqb_eq. lia.
Qed.

(** Grants survive the encoding: the permissions read back from a stored
    bitmask are exactly the known ones that were granted (unknown values and
    repetitions disappear), and every bitmask of known permissions is read back
    to itself. *)
Theorem permissions_roundtrip :
  (forall perms v, v ∈ ToProto (PermissionsFromProto perms) <-> v ∈ perms /\ 1 <= v <= 5) /\
  (forall p, 0 <= p < 32 -> PermissionsFromProto (ToProto p) = p).
Proof.
  split.
  - apply elem_of_grant.
  - intros p Hp. apply Z.bits_inj'. intros i Hi. rewrite fromProto_testbit by done.
    destruct (Z.testbit p i) eqn:Eb.
    + assert (i < 5) as Hi5.
      { destruct (Z_lt_ge_dec i 5); [done|]. rewrite Z.bits_above_log2 in Eb; [done|lia|].
        destruct (Z.eq_dec p 0) as [->|]; [simpl; lia|].
        assert (Z.log2 p < 5) by (apply Z.log2_lt_pow2; lia). lia. }
      apply existsb_exists. exists (i + 1). split.
      * apply list_elem_of_In, elem_of_ToProto. replace (i + 1 - 1) with i by lia. by split; [lia|].
      * rewrite !andb_true_iff, !Z.leb_le, Z.eqb_eq. lia.
    + apply not_true_is_false. intros (u & Hu & Hb)%existsb_exists. go_bool.
      apply list_elem_of_In, elem_of_ToProto in Hu as [_ Hu].
      replace (u - 1) with i in Hu by lia. congruence.
Qed.
