(* ===== verification/Outbox.v ===== *)
(** * The transactional outbox

    Model of the outbox writer and relay the services share, from
    [apps/room-service/internal/infra/postgres/outbox_writer.go] and
    [infra/events/relay.go], with the event type of [libs/outbox/outbox.go]:
    staging rows in a transaction and draining unpublished rows to Kafka.  The
    statement skips rows that another transaction has locked; the Redis lock that
    elects the draining instance is in [RedisLock], the loop in [Delivery].

    The relay publishes from inside a transaction whose rollback does not undo
    a publication, so the trace of published messages is kept outside the
    rows. *)

From stdpp Require Import pretty.
From S2P Require Import Prelude GoNum Errors Store.

Open Scope sm_scope.

(** The JSON values of the event payloads; [JTime] is a time formatted with
    [time.RFC3339]. *)
Inductive jval : Type :=
| JStr (s : string)
| JInt (z : Z)
| JTime (t : time).

Definition Payload : Type := gmap string jval.

Section outbox.
Context {P : Type}.

(** [vboutbox.Event]; the payload is the serialised body. *)
Record OutEvent : Type := mkOutEvent {
  oeID : string;
  oeAggregateID : string;
  oeTopic : string;
  oeKey : string;
  oePayload : P;
  oeHeaders : gmap string string;
  oeOccurredAt : time;
  oeVersion : string;
}.

(** A row of the table. *)
Record OutRow : Type := mkOutRow {
  orEvent : OutEvent;
  orPublished : bool;
}.

(** What the row holds of an event: the key defaults to the aggregate. *)
Definition storedEvent (e : OutEvent) : OutEvent :=
  mkOutEvent (oeID e) (oeAggregateID e) (oeTopic e)
    (if bool_decide (oeKey e = "") then oeAggregateID e else oeKey e)
    (oePayload e) (oeHeaders e) (pgTime (oeOccurredAt e)) (oeVersion e).

(** The [INSERT] of one event; the id is the primary key. *)
Definition insertEvent (rows : list OutRow) (e : OutEvent) : res error (list OutRow) :=
  if bool_decide (oeID e ∈ map (fun r => oeID (orEvent r)) rows)
  then Err (EUniqueViolation "outbox_pkey")
  else Ok (rows ++ [mkOutRow (storedEvent e) false]).

(** The loop of [Append] from event [i] on, over the outbox of the service's
    database. *)
Fixpoint appendLoop {DB} `{Env} (get : DB -> list OutRow) (set : list OutRow -> DB -> DB)
    (i : nat) (events : list OutEvent) : SM DB unit :=
  match events with
  | [] => sret tt
  | e :: rest =>
      if bool_decide (oeTopic e = "")
      then sfail (EMsg ("outbox: event " +:+ pretty i +:+ " missing topic"))
      else
        smapErr (EWrap ("outbox: insert event " +:+ pretty i)) (stmt (fun db =>
          match insertEvent (get db) e with
          | Ok rows => Ok (tt, set rows db)
          | Err err => Err err
          end)) ;;;
        appendLoop get set (S i) rest
  end.

Definition Append {DB} `{Env} (get : DB -> list OutRow) (set : list OutRow -> DB -> DB)
    (events : list OutEvent) : SM DB unit := appendLoop get set 0 events.

(** ** Publishing *)

(** [vbkafka.Message], as far as the producer sets it. *)
Record OutMessage : Type := mkOutMessage {
  omTopic : string;
  omKey : string;
  omValue : P;
  omHeaders : gmap string string;
  omTimestamp : time;
}.

Definition eventHeaders (e : OutEvent) : gmap string string :=
  oeHeaders e ∪
  <["schema-version" := oeVersion e]> (<["event-id" := oeID e]>
    (<["aggregate-id" := oeAggregateID e]> ∅)).

Definition toMessage (wallClock : time) (e : OutEvent) : OutMessage :=
  mkOutMessage (oeTopic e)
    (if bool_decide (oeKey e = "") then oeAggregateID e else oeKey e)
    (oePayload e) (eventHeaders e)
    (if time_IsZero (oeOccurredAt e) then wallClock else oeOccurredAt e).

(** ** Draining *)

Definition occurredLe (a b : OutRow) : Prop := oeOccurredAt (orEvent a) <= oeOccurredAt (orEvent b).
#[global] Instance occurredLe_dec a b : Decision (occurredLe a b).
Proof. unfold occurredLe. apply _. Defined.

(** [WHERE published = FALSE ORDER BY occurred_at LIMIT n FOR UPDATE SKIP
    LOCKED]; [locked] are the rows held by another transaction. *)
Definition FetchUnpublished (locked : string -> bool) (limit : nat) (rows : list OutRow)
    : list OutRow :=
  take limit (merge_sort occurredLe
    (filter (fun r => orPublished r = false /\ locked (oeID (orEvent r)) = false) rows)).

Definition MarkPublished (id : string) (rows : list OutRow) : list OutRow :=
  map (fun r => if bool_decide (oeID (orEvent r) = id) then mkOutRow (orEvent r) true else r) rows.

(** What Kafka and Postgres answer while draining: the outcome of a
    publication says whether the broker has the message even when an error is
    reported. *)
Class RelayEnv : Type := {
  re_begin : nat -> option error;
  re_fetch : nat -> option error;
  re_publish : nat -> option (error * bool);
  re_mark : nat -> option error;
  re_commit : nat -> option (error * bool);
  re_now : nat -> time;
}.

Context `{RelayEnv}.

(** The loop over the pending events: the rows as the transaction sees them,
    and the messages the broker has received. *)
Fixpoint publishLoop (n : nat) (pending : list OutRow) (rows : list OutRow)
    (trace : list OutMessage) : res error (list OutRow) * list OutMessage * nat :=
  match pending with
  | [] => (Ok rows, trace, n)
  | pe :: rest =>
      let msg := toMessage (re_now n) (orEvent pe) in
      match re_publish n with
      | Some (e, delivered) =>
          (Err (EWrap ("relay: publish " +:+ oeID (orEvent pe)) e), if (delivered : bool) then trace ++ [msg] else trace, S n)
      | None =>
          match re_mark n with
          | Some e => (Err (EWrap ("relay: mark " +:+ oeID (orEvent pe)) e), trace ++ [msg], S n)
          | None =>
              publishLoop (S n) rest (MarkPublished (oeID (orEvent pe)) rows) (trace ++ [msg])
          end
      end
  end.

(** One drain: the committed rows and the trace afterwards. *)
Definition drainOnce (locked : string -> bool) (batchSize : nat) (n : nat)
    (rows : list OutRow) (trace : list OutMessage)
    : res error nat * list OutRow * list OutMessage * nat :=
  match re_begin n with
  | Some e => (Err e, rows, trace, S n)
  | None =>
      match re_fetch n with
      | Some e => (Err e, rows, trace, S n)
      | None =>
          match FetchUnpublished locked batchSize rows with
          | [] => (Ok 0%nat, rows, trace, S n)
          | pending =>
              match publishLoop (S n) pending rows trace with
              | (Err e, trace', n') => (Err e, rows, trace', S n')
              | (Ok rows', trace', n') =>
                  match re_commit n' with
                  | None => (Ok (length pending), rows', trace', S n')
                  | Some (e, applied) =>
                      (Err e, if (applied : bool) then rows' else rows, trace', S n')
                  end
              end
          end
      end
  end.

(** ** Facts *)

Definition published_ids (rows : list OutRow) : list string :=
  map (fun r => oeID (orEvent r)) (filter (fun r => orPublished r = true) rows).

(** The message of a row, whenever it was sent. *)
Definition sent (trace : list OutMessage) (e : OutEvent) : Prop :=
  exists t, toMessage t e ∈ trace.

(** Every published row has been sent. *)
Definition marks_sent (rows : list OutRow) (trace : list OutMessage) : Prop :=
  forall r, r ∈ rows -> orPublished r = true -> sent trace (orEvent r).

Definition ids_unique (rows : list OutRow) : Prop :=
  NoDup (map (fun r => oeID (orEvent r)) rows).

Lemma MarkPublished_events id rows :
  map orEvent (MarkPublished id rows) = map orEvent rows.
Proof.
  unfold MarkPublished. rewrite map_map. apply map_ext. intros r. by case_bool_decide.
Qed.

Lemma ids_of_events rows :
  map (fun r => oeID (orEvent r)) rows = map oeID (map orEvent rows).
Proof. by rewrite map_map. Qed.

Lemma event_by_id rows e1 e2 :
  ids_unique rows -> e1 ∈ map orEvent rows -> e2 ∈ map orEvent rows -> oeID e1 = oeID e2 -> e1 = e2.
Proof.
  unfold ids_unique. rewrite ids_of_events. intros Hnd.
  induction (map orEvent rows) as [|e l IH]; [by intros ?%elem_of_nil|].
  apply NoDup_cons in Hnd as [Hnin Hnd]. intros H1 H2 Heq.
  apply elem_of_cons in H1 as [->|H1]; apply elem_of_cons in H2 as [->|H2]; [done|..].
  - exfalso. apply Hnin. rewrite Heq. by apply (list_elem_of_fmap_2 oeID).
  - exfalso. apply Hnin. rewrite <- Heq. by apply (list_elem_of_fmap_2 oeID).
  - by apply IH.
Qed.

Lemma sent_mono t1 t2 e : sent t1 e -> sent (t1 ++ t2) e.
Proof. intros [t Ht]. exists t. apply elem_of_app. by left. Qed.

Lemma marks_sent_mono rows t1 t2 : marks_sent rows t1 -> marks_sent rows (t1 ++ t2).
Proof. intros Hm r Hr Hp. apply sent_mono. by apply Hm. Qed.

Lemma marks_sent_mark rows trace pe t :
  ids_unique rows -> orEvent pe ∈ map orEvent rows -> marks_sent rows trace ->
  marks_sent (MarkPublished (oeID (orEvent pe)) rows) (trace ++ [toMessage t (orEvent pe)]).
Proof.
  intros Hu Hin Hm r Hr Hp. unfold MarkPublished in Hr.
  apply list_elem_of_fmap in Hr as (r0 & -> & Hr0). case_bool_decide as Hid.
  - simpl. exists t. rewrite (event_by_id rows (orEvent r0) (orEvent pe)); [set_solver|done| |done|done].
    by apply (list_elem_of_fmap_2 orEvent).
  - apply sent_mono. by apply Hm.
Qed.

Lemma publishLoop_spec n pending rows trace :
  ids_unique rows -> (forall pe, pe ∈ pending -> orEvent pe ∈ map orEvent rows) ->
  marks_sent rows trace ->
  match publishLoop n pending rows trace with
  | (r, trace', _) =>
      (exists more, trace' = trace ++ more) /\
      (forall rows', r = Ok rows' ->
         map orEvent rows' = map orEvent rows /\ marks_sent rows' trace' /\
         rows' = fold_left (fun rs pe => MarkPublished (oeID (orEvent pe)) rs) pending rows)
  end.
Proof.
  revert n rows trace. induction pending as [|pe pending IH]; intros n rows trace Hu Hin Hm;
    cbn [publishLoop].
  { split; [exists []; by rewrite app_nil_r|]. by intros rows' [= <-]. }
  destruct (re_publish n) as [[e []]|].
  { split; [by eexists|done]. }
  { split; [exists []; by rewrite app_nil_r|done]. }
  destruct (re_mark n) as [e|]; [split; [by eexists|done]|].
  set (rows1 := MarkPublished _ rows). set (trace1 := trace ++ _).
  assert (map orEvent rows1 = map orEvent rows) as Hev by apply MarkPublished_events.
  specialize (IH (S n) rows1 trace1).
  destruct (publishLoop (S n) pending rows1 trace1) as [[r trace'] n'].
  destruct IH as [[more Hmore] IH].
  - unfold ids_unique. by rewrite ids_of_events, Hev, <- ids_of_events.
  - intros pe' Hpe'. rewrite Hev. apply Hin. by right.
  - apply marks_sent_mark; [done|apply Hin; by left|done].
  - split; [eexists; by rewrite Hmore; unfold trace1; rewrite <- app_assoc|].
    intros rows' Hr. destruct (IH rows' Hr) as (He & Hs & Hf). by rewrite He, Hev.
Qed.
End outbox.

Arguments OutEvent : clear implicits.
Arguments OutRow : clear implicits.
Arguments OutMessage : clear implicits.

(** No drain changes the events. *)
Lemma publishLoop_events {P} `{RelayEnv} n (pending rows : list (OutRow P)) trace rows' :
  (publishLoop n pending rows trace).1.1 = Ok rows' -> map orEvent rows' = map orEvent rows.
Proof.
  revert n rows trace. induction pending as [|pe pending IH]; intros n rows trace; cbn [publishLoop]; [by intros [= <-]|].
  destruct (re_publish n) as [[]|]; [done|]. destruct (re_mark n); [done|]. intros ->%IH. apply MarkPublished_events.
Qed.
Lemma drainOnce_events {P} `{RelayEnv} locked batch n (rows : list (OutRow P)) trace :
  map orEvent (drainOnce locked batch n rows trace).1.1.2 = map orEvent rows.
Proof.
  unfold drainOnce. destruct (re_begin n); [done|]. destruct (re_fetch n); [done|].
  destruct (FetchUnpublished _ _ _) as [|pe pending]; [done|].
  pose proof (publishLoop_events (S n) (pe :: pending) rows trace) as He.
  destruct (publishLoop _ _ _ _) as [[[rows'|e] trace'] n']; [|done].
  destruct (re_commit n') as [[e []]|]; simpl; by rewrite ?(He rows').
Qed.

(** What a drain keeps, whatever fails. *)
Lemma drainOnce_safe {P} `{RelayEnv} locked batch n (rows : list (OutRow P)) trace :
  ids_unique rows -> marks_sent rows trace ->
  match drainOnce locked batch n rows trace with
  | (r, rows', trace', _) =>
      map orEvent rows' = map orEvent rows /\ marks_sent rows' trace' /\
      exists more, trace' = trace ++ more
  end.
Proof.
  intros Hu Hm. unfold drainOnce.
  assert (exists more, trace = trace ++ more) as Hsame by (exists []; by rewrite app_nil_r).
  destruct (re_begin n); [done|]. destruct (re_fetch n); [done|].
  destruct (FetchUnpublished locked batch rows) as [|p ps] eqn:Ef; [done|].
  pose proof (publishLoop_spec (S n) (p :: ps) rows trace Hu) as Hl.
  destruct (publishLoop _ _ _ _) as [[r trace'] n'].
  destruct Hl as [[more ->] Hok]; [|done|].
  { intros pe Hpe. rewrite <- Ef in Hpe. unfold FetchUnpublished in Hpe.
    apply elem_of_take in Hpe as (i & Hi & _). apply list_elem_of_lookup_2 in Hi.
    rewrite merge_sort_Permutation, list_elem_of_filter in Hi. destruct Hi as [_ Hi].
    by apply (list_elem_of_fmap_2 orEvent). }
  destruct r as [rows'|e]; [|by split_and!; [|apply marks_sent_mono|eexists]].
  destruct (Hok rows' eq_refl) as (He & Hs & _).
  destruct (re_commit n') as [[e []]|].
  - by split_and!; [|..|eexists].
  - by split_and!; [|apply marks_sent_mono|eexists].
  - by split_and!; [|..|eexists].
Qed.

(** ** Theorems *)

(** The relay loses nothing: whatever fails while draining (begin, fetch,
    publish, mark, commit), the rows and their events stay, messages are only
    added to the trace, and every row that is marked published has been
    delivered to the broker; a row is at worst delivered again. *)
Theorem drainOnce_no_loss {P} `{RelayEnv} locked batch n (rows : list (OutRow P)) trace :
  ids_unique rows -> marks_sent rows trace ->
  match drainOnce locked batch n rows trace with
  | (r, rows', trace', _) =>
      map orEvent rows' = map orEvent rows /\ marks_sent rows' trace' /\
      exists more, trace' = trace ++ more
  end.
Proof. apply drainOnce_safe. Qed.

Definition demoEvent (id : string) (t : time) : OutEvent nat :=
  mkOutEvent id "room1" "room.created.v1" "" 0%nat ∅ t "v1".
Definition demoRows : list (OutRow nat) :=
  [mkOutRow (demoEvent "e1" 20) false; mkOutRow (demoEvent "e2" 10) false].

(** A broker that refuses the second message. *)
Definition secondFails : RelayEnv := {|
  re_begin _ := None; re_fetch _ := None; re_mark _ := None; re_commit _ := None;
  re_publish n := if bool_decide (n = 2%nat) then Some (EMsg "broker down", true) else None;
  re_now _ := 0;
|}.

Lemma drainOnce_no_loss_witness :
  match @drainOnce nat secondFails (fun _ => false) 10 0 demoRows [] with
  | (r, rows', trace', _) => map orEvent rows' = map orEvent demoRows /\ length trace' = 2%nat
  end.
Proof.
  pose proof (@drainOnce_no_loss nat secondFails (fun _ => false) 10 0 demoRows []) as Ht.
  destruct (@drainOnce nat secondFails (fun _ => false) 10 0 demoRows [])
    as [[[r rows'] trace'] n'] eqn:E.
  split.
  - apply Ht.
    + apply (bool_decide_unpack _). by vm_compute.
    + intros r' Hr'. unfold demoRows in Hr'.
      apply elem_of_cons in Hr' as [->|Hr']; [done|].
      apply elem_of_cons in Hr' as [->|Hr']; [done|]. by apply elem_of_nil in Hr'.
  - vm_compute in E. by injection E as _ _ <- _.
Defined.
