(* ===== verification/Web.v ===== *)
(** * The HTTP and RPC boundary

    Model of [libs/web/subject.go] and the CORS part of [libs/web/web.go], of
    the interceptor chain of [libs/rpc/rpc.go], and of [subjectFromHeader] as
    the services define it: who the caller is, which origins a browser may call
    from, and what a handler's outcome becomes on the wire. *)

From S2P Require Import Prelude GoNum Errors GoString RoomDomain.

(** ** [strconv.Atoi] *)

Definition isDigit (z : Z) : bool := (48 <=? z) && (z <=? 57).

Definition digitsVal (l : list Z) : Z := fold_left (fun acc d => acc * 10 + (d - 48)) l 0.

(** [None] is a syntax or a range error of a 64-bit [int]. *)
Definition Atoi (s : string) : option Z :=
  let '(neg, ds) := match bytes s with
                    | 45 :: rest => (true, rest)
                    | 43 :: rest => (false, rest)
                    | l => (false, l)
                    end in
  match ds with
  | [] => None
  | _ => if forallb isDigit ds then
           let v := digitsVal ds in
           if (neg : bool) then if v <=? 2 ^ 63 then Some (- v) else None
           else if v <? 2 ^ 63 then Some v else None
         else None
  end.

(** ** The caller *)

(** [commonv1.SystemRole_value] and [SystemRole_name] of the generated code. *)
Definition SystemRole_value : gmap string Z :=
  list_to_map [("SYSTEM_ROLE_UNSPECIFIED", 0); ("SYSTEM_ROLE_GUEST", 1); ("SYSTEM_ROLE_USER", 2);
               ("SYSTEM_ROLE_MODERATOR", 3); ("SYSTEM_ROLE_ADMINISTRATOR", 4)].

Definition SystemRole_name (v : Z) : bool := (0 <=? v) && (v <=? 4).

Definition ParseSystemRole (s : string) : SystemRole :=
  if bool_decide (s = "") then SYSTEM_UNSPECIFIED
  else
    match SystemRole_value !! s with
    | Some v => v
    | None =>
        let short := default SYSTEM_UNSPECIFIED (SystemRole_value !! ("SYSTEM_ROLE_" +:+ s)%string) in
        match Atoi s with
        | Some v => if SystemRole_name (int32 v) then int32 v else short
        | None => short
        end
    end.

(** [http.Header], one value per (canonical) name. *)
Notation Header := (gmap string string).
Definition hGet (h : Header) (k : string) : string := default "" (h !! k).

Record requestSubject : Type := mkSubject {
  sbUserID : string;
  sbSystemRole : SystemRole;
}.

Definition subjectFromHeader (h : Header) : requestSubject :=
  mkSubject (hGet h "X-Vibesync-User-Id") (ParseSystemRole (hGet h "X-Vibesync-System-Role")).

(** ** CORS *)

Definition corsAllowHeaders : string :=
  "Authorization, Content-Type, Connect-Protocol-Version, Connect-Timeout-Ms, Connect-Accept-Encoding, Connect-Content-Encoding, X-Request-ID, X-Vibesync-User-Id, X-Vibesync-System-Role, Grpc-Timeout, Grpc-Encoding".

Definition corsHeaders (origin : string) (h : Header) : Header :=
  <["Access-Control-Max-Age" := "86400"]>
  (<["Access-Control-Allow-Headers" := corsAllowHeaders]>
  (<["Access-Control-Allow-Methods" := "GET, POST, PUT, DELETE, OPTIONS"]>
  (<["Access-Control-Allow-Credentials" := "true"]>
  (<["Access-Control-Allow-Origin" := origin]> h)))).

(** What a middleware does with a request: pass it on, or answer 204. *)
Inductive cors_outcome : Type := CorsNext | CorsNoContent.

(** The response headers so far and the outcome. *)
Definition corsMiddleware (allowOrigins : list string) (method : string) (req resp : Header)
    : Header * cors_outcome :=
  let origin := hGet req "Origin" in
  if bool_decide (origin = "") || negb (bool_decide (origin ∈ allowOrigins)) then (resp, CorsNext)
  else if bool_decide (method = "OPTIONS") then (corsHeaders origin resp, CorsNoContent)
  else (corsHeaders origin resp, CorsNext).

Definition WrapCORS (allowOrigins : list string) (method : string) (req resp : Header)
    : Header * cors_outcome :=
  let origin := hGet req "Origin" in
  let resp := if negb (bool_decide (origin = "")) && bool_decide (origin ∈ allowOrigins)
              then corsHeaders origin resp else resp in
  if bool_decide (method = "OPTIONS") && negb (bool_decide (origin = "")) then (resp, CorsNoContent)
  else (resp, CorsNext).

(** ** The interceptors *)

(** How a handler ends: with [(resp, err)], or by a panic. *)
Inductive outcome (A : Type) : Type :=
| Returned (resp : option A) (err : option error)
| Panicked.
Arguments Returned {A} _ _.
Arguments Panicked {A}.

(** [errorTranslateInterceptor.WrapUnary]; a panic passes through. *)
Definition errorTranslate {A} (o : outcome A) : outcome A :=
  match o with
  | Returned resp err => Returned resp (option_map ToConnect err)
  | Panicked => Panicked
  end.

(** [recoveryInterceptor.WrapUnary]: the deferred [recover] stops the panic and
    the function returns the zero values of its unnamed results. *)
Definition recovery {A} (o : outcome A) : outcome A :=
  match o with
  | Returned resp err => Returned resp err
  | Panicked => Returned None None
  end.

(** The chain of [rpc.New] around a handler. *)
Definition rpcChain {A} (o : outcome A) : outcome A := recovery (errorTranslate o).

(** How a streaming handler ends, and the same interceptors around it. *)
Inductive stream_end : Type :=
| StreamReturned (err : option error)
| StreamPanicked.
Definition errorTranslateStream (o : stream_end) : stream_end :=
  match o with
  | StreamReturned err => StreamReturned (option_map ToConnect err)
  | StreamPanicked => StreamPanicked
  end.
Definition recoveryStream (o : stream_end) : stream_end :=
  match o with
  | StreamReturned err => StreamReturned err
  | StreamPanicked => StreamReturned None
  end.
Definition rpcStreamChain (o : stream_end) : stream_end := recoveryStream (errorTranslateStream o).

(** ** Theorems *)

Lemma SystemRole_value_range s v : SystemRole_value !! s = Some v -> 0 <= v <= 4.
Proof.
  intros Hs. apply elem_of_list_to_map_2 in Hs.
  repeat (apply elem_of_cons in Hs as [[= -> ->]|Hs]; [lia|]). by apply elem_of_nil in Hs.
Qed.

Lemma short_range s :
  0 <= default SYSTEM_UNSPECIFIED (SystemRole_value !! s) <= 4.
Proof.
  destruct (SystemRole_value !! s) eqn:E; [by eapply SystemRole_value_range|].
  simpl. unfold SYSTEM_UNSPECIFIED. lia.
Qed.

(** Caller roles are parsed to a defined role, and rights are only given to
    one of the accepted spellings: a caller has a role other than UNSPECIFIED
    only if the header is the full enum name, the short name, or a decimal
    number whose low 32 bits are the role; an absent header has no rights. *)
Theorem ParseSystemRole_closed s :
  0 <= ParseSystemRole s <= 4 /\
  (ParseSystemRole s <> SYSTEM_UNSPECIFIED ->
   SystemRole_value !! s = Some (ParseSystemRole s) \/
   SystemRole_value !! ("SYSTEM_ROLE_" +:+ s)%string = Some (ParseSystemRole s) \/
   exists v, Atoi s = Some v /\ int32 v = ParseSystemRole s) /\
  sbSystemRole (subjectFromHeader ∅) = SYSTEM_UNSPECIFIED.
Proof.
  unfold ParseSystemRole. case_bool_decide; [split_and!; [done|done|done|done]|].
  pose proof (short_range ("SYSTEM_ROLE_" +:+ s)) as Hr.
  destruct (SystemRole_value !! s) as [v|] eqn:Ev.
  { pose proof (SystemRole_value_range _ _ Ev). split_and!; [lia|lia|by left|done]. }
  assert (default SYSTEM_UNSPECIFIED (SystemRole_value !! ("SYSTEM_ROLE_" +:+ s)%string)
            <> SYSTEM_UNSPECIFIED ->
          SystemRole_value !! ("SYSTEM_ROLE_" +:+ s)%string =
          Some (default SYSTEM_UNSPECIFIED (SystemRole_value !! ("SYSTEM_ROLE_" +:+ s)%string))) as Hs.
  { by destruct (SystemRole_value !! _). }
  destruct (Atoi s) as [v|]; [|split_and!; [lia|lia|auto|done]].
  destruct (SystemRole_name (int32 v)) eqn:En; [|split_and!; [lia|lia|auto|done]].
  unfold SystemRole_name in En. go_bool. split_and!; [lia|lia| |done].
  intros _. right; right. by exists v.
Qed.

(** The number is truncated to 32 bits before it is looked up, so numbers that
    are no wire value of the enumeration are accepted, against the comment on
    the function. *)
Example ParseSystemRole_truncates : ParseSystemRole "4294967300" = SYSTEM_ADMINISTRATOR.
Proof. by vm_compute. Qed.

(** CORS is a strict allowlist: for both wrappers, response headers are
    unchanged unless the request's origin is listed, and then the allowed
    origin is that origin and never a wildcard; the two agree on every request
    except a preflight from an origin that is not listed, which one answers
    and the other passes on. *)
Theorem cors_allowlist allow method req resp :
  let origin := hGet req "Origin" in
  (forall f, f = corsMiddleware \/ f = WrapCORS ->
     if bool_decide (origin <> "" /\ origin ∈ allow)
     then (f allow method req resp).1 !! "Access-Control-Allow-Origin" = Some origin
     else (f allow method req resp).1 = resp) /\
  (corsMiddleware allow method req resp = WrapCORS allow method req resp <->
   ~ (method = "OPTIONS" /\ origin <> "" /\ origin ∉ allow)).
Proof.
  intros origin.
  assert (forall h, corsHeaders origin h !! "Access-Control-Allow-Origin" = Some origin) as Hc.
  { intros h. unfold corsHeaders. by simplify_map_eq. }
  unfold corsMiddleware, WrapCORS. fold origin. split.
  - intros f [-> | ->]; repeat case_bool_decide; simpl; try done; naive_solver.
  - repeat case_bool_decide; simpl; split; naive_solver.
Qed.

(** What the client of an RPC sees: a response as it is, an error as the
    Connect code of its kind; a panic of the handler never escapes the chain,
    but it comes out as a nil response without an error, and ends a stream as if
    it were complete. *)
Theorem rpcChain_outcomes {A} (resp : option A) (e : error) :
  rpcChain (Returned resp None) = Returned resp None /\
  rpcChain (Returned resp (Some e)) = Returned resp (Some (ToConnect e)) /\
  (exists msg, ToConnect e = EConnect (wireCode e) msg) /\
  rpcChain (@Panicked A) = Returned None None /\
  rpcStreamChain (StreamReturned (Some e)) = StreamReturned (Some (ToConnect e)) /\
  rpcStreamChain StreamPanicked = StreamReturned None.
Proof. split_and!; [done|done|by eexists|done..]. Qed.
