(* ===== verification/WebServer.v ===== *)
(** * The HTTP servers

    Model of the rest of [libs/web/web.go]: the Gin engine of [New] with its
    chain of middleware (recovery, request id, access log, CORS, rate limit), the
    health endpoints, and the readiness flag; of [Server] in [libs/rpc/rpc.go];
    and of the mux that [internal/infra/server/http.go] of every service puts
    in front of the engine and the Connect handler.

    Gin runs the handlers of a request in the order of [Use]: a middleware gets
    the rest of the chain as [next] (its call of [c.Next]); one that aborts does
    not call it.  Gin's own recovery is a parameter. *)

From S2P Require Import Prelude GoNum Errors GoString GoTime Web.

Open Scope Z_scope.

(** ** Requests *)

Record request : Type := mkRequest {
  rqMethod : string;
  rqPath : string;
  rqHeaders : Header;
}.

Inductive log_level : Type := LevelInfo | LevelWarn | LevelError.

(** One line of the access log. *)
Record access : Type := mkAccess {
  acLevel : log_level;
  acMethod : string;
  acPath : string;
  acStatus : Z;
  acLatencyMs : Z;
  acBytes : Z;
  acRequestID : option string;
}.

(** [gin.Context]: the request with what was put into its context, the response
    so far, what was logged, and the time. *)
Record gctx : Type := mkGctx {
  gcReq : request;
  gcKey : option string;         (* [c.Get(requestIDKey)] *)
  gcCtxRid : option string;      (* the value of [ctxRequestIDKey] *)
  gcStatus : Z;
  gcHeaders : Header;
  gcBody : option string;
  gcLog : list access;
  gcClock : time;
}.

Definition set_rid (rid : string) (c : gctx) : gctx :=
  mkGctx (gcReq c) (Some rid) (Some rid) (gcStatus c) (gcHeaders c) (gcBody c) (gcLog c) (gcClock c).
Definition set_header (k v : string) (c : gctx) : gctx :=
  mkGctx (gcReq c) (gcKey c) (gcCtxRid c) (gcStatus c) (<[k := v]> (gcHeaders c)) (gcBody c) (gcLog c) (gcClock c).
Definition set_headers (h : Header) (c : gctx) : gctx :=
  mkGctx (gcReq c) (gcKey c) (gcCtxRid c) (gcStatus c) h (gcBody c) (gcLog c) (gcClock c).
(** [c.Status] with the body that follows, if any. *)
Definition respond (status : Z) (body : option string) (c : gctx) : gctx :=
  mkGctx (gcReq c) (gcKey c) (gcCtxRid c) status (gcHeaders c) body (gcLog c) (gcClock c).
Definition log_access (a : access) (c : gctx) : gctx :=
  mkGctx (gcReq c) (gcKey c) (gcCtxRid c) (gcStatus c) (gcHeaders c) (gcBody c) (gcLog c ++ [a]) (gcClock c).

(** A handler returns, or panics where it is. *)
Inductive hres : Type :=
| HDone (c : gctx)
| HPanic (c : gctx).

Notation HandlerFunc := (gctx -> hres).

Definition hthen (r : hres) (k : gctx -> hres) : hres :=
  match r with HDone c => k c | HPanic c => HPanic c end.

(** ** Request ids *)

Definition hexDigit (z : Z) : Z := if z <? 10 then 48 + z else 87 + z.
Definition hexEncode (l : list Z) : list Z := concat (map (fun b => [hexDigit (b / 16); hexDigit (b mod 16)]) l).

(** [time.Now().UTC().Format("20060102T150405.000000000Z")], for years of four
    digits. *)
Definition digits9 (z : Z) : list Z :=
  digits4 (z / 100000) ++ digits4 (z / 10 mod 10000) ++ [48 + z mod 10].
Definition formatStamp (t : time) : string :=
  let s := t / Second in
  let '(y, m, d) := daysToDate (s / 86400) in
  let r := s mod 86400 in
  ofBytes (digits4 y ++ digits2 m ++ digits2 d ++ [84] ++
           digits2 (r / 3600) ++ digits2 (r / 60 mod 60) ++ digits2 (r mod 60) ++ [46] ++
           digits9 (t mod Second) ++ [90]).

(** [entropy] is what [rand.Read] gives for the 16 bytes. *)
Definition newRequestID (entropy : option (list Z)) (now : time) : string :=
  match entropy with
  | Some b => ofBytes (hexEncode b)
  | None => formatStamp now
  end.

Definition requestIDMiddleware (entropy : option (list Z)) (next : HandlerFunc) : HandlerFunc := fun c =>
  let rid := hGet (rqHeaders (gcReq c)) "X-Request-ID" in
  let rid := if bool_decide (rid = "") then newRequestID entropy (gcClock c) else rid in
  next (set_header "X-Request-ID" rid (set_rid rid c)).

Definition RequestIDFrom (c : gctx) : string := default "" (gcCtxRid c).

(** ** The access log *)

Definition levelOf (status : Z) : log_level :=
  if 500 <=? status then LevelError else if 400 <=? status then LevelWarn else LevelInfo.

Definition accessLogMiddleware (next : HandlerFunc) : HandlerFunc := fun c0 =>
  hthen (next c0) (fun c =>
    HDone (log_access (mkAccess (levelOf (gcStatus c)) (rqMethod (gcReq c)) (rqPath (gcReq c)) (gcStatus c)
                         (Z.quot (gcClock c - gcClock c0) Millisecond)
                         (match gcBody c with Some b => slen b | None => -1 end) (gcKey c)) c)).

(** ** CORS and rate limits *)

(** [corsMiddleware] of [Web] inside the chain. *)
Definition corsHandler (allowOrigins : list string) (next : HandlerFunc) : HandlerFunc := fun c =>
  let '(headers, o) := corsMiddleware allowOrigins (rqMethod (gcReq c)) (rqHeaders (gcReq c)) (gcHeaders c) in
  match o with
  | CorsNext => next (set_headers headers c)
  | CorsNoContent => HDone (respond 204 None (set_headers headers c))
  end.

Definition rateLimitMiddleware (_ : Z) (next : HandlerFunc) : HandlerFunc := fun c => next c.

(** ** Health *)

(** [atomicBool]: its word. *)
Definition atomicBool : Type := Z.
Definition atomic_get (a : atomicBool) : bool := a =? 1.
Definition atomic_set (b : bool) (_ : atomicBool) : atomicBool := if b then 1 else 0.
Definition SetReady (ready : bool) (readiness : atomicBool) : atomicBool := atomic_set ready readiness.

Definition quote (s : string) : string := ofBytes [34] +:+ s +:+ ofBytes [34].
Definition jsonStatus (s : string) : string := "{" +:+ quote "status" +:+ ":" +:+ quote s +:+ "}".

Definition healthz : HandlerFunc := fun c => HDone (respond 200 (Some (jsonStatus "ok")) c).
Definition readyz (readiness : atomicBool) : HandlerFunc := fun c =>
  if negb (atomic_get readiness) then HDone (respond 503 None c)
  else HDone (respond 200 (Some (jsonStatus "ready")) c).

(** ** The engine *)

Record web_options : Type := mkWebOptions {
  woCORSAllowOrigins : list string;
  woRateLimitPerSecond : Z;
}.

(** [gin.Recovery]: what it makes of the context of a panic. *)
Class GinRecovery : Type := recovered : gctx -> gctx.

(** "Recovery returns a middleware that recovers from any panics and writes a
    500 if there was one": it touches neither the headers nor the access log. *)
Class GinRecoveryLaws `{GinRecovery} : Prop := {
  recovered_status : forall c, gcStatus (recovered c) = 500;
  recovered_headers : forall c, gcHeaders (recovered c) = gcHeaders c;
  recovered_log : forall c, gcLog (recovered c) = gcLog c;
}.

Definition notFoundBody : string := "404 page not found".

Section engine.
Context `{GinRecovery}.

Definition ginRecovery (next : HandlerFunc) : HandlerFunc := fun c =>
  match next c with
  | HDone c' => HDone c'
  | HPanic c' => HDone (recovered c')
  end.

(** The routes of [New] and those the caller adds, by method and path.  A
    request without a route goes through the same middleware. *)
Definition route (routes : gmap (string * string) HandlerFunc) (readiness : atomicBool) : HandlerFunc := fun c =>
  let key := (rqMethod (gcReq c), rqPath (gcReq c)) in
  if bool_decide (key = ("GET", "/healthz")) then healthz c
  else if bool_decide (key = ("GET", "/readyz")) then readyz readiness c
  else match routes !! key with
       | Some h => h c
       | None => HDone (respond 404 (Some notFoundBody) c)
       end.

Definition New (opts : web_options) (routes : gmap (string * string) HandlerFunc) (readiness : atomicBool)
    (entropy : option (list Z)) : HandlerFunc :=
  ginRecovery (requestIDMiddleware entropy (accessLogMiddleware
    ((if (0 <? length (woCORSAllowOrigins opts))%nat then corsHandler (woCORSAllowOrigins opts) else (fun next => next))
      ((if 0 <? woRateLimitPerSecond opts then rateLimitMiddleware (woRateLimitPerSecond opts) else (fun next => next))
        (route routes readiness))))).

(** A request as it arrives. *)
Definition incoming (req : request) (now : time) : gctx := mkGctx req None None 200 ∅ None [] now.
End engine.

(** ** The mux of a service *)

Definition wrapCORSHandler (h : HandlerFunc) (allowOrigins : list string) : HandlerFunc := fun c =>
  let '(headers, o) := WrapCORS allowOrigins (rqMethod (gcReq c)) (rqHeaders (gcReq c)) (gcHeaders c) in
  match o with
  | CorsNext => h (set_headers headers c)
  | CorsNoContent => HDone (respond 204 None (set_headers headers c))
  end.

(** [http.ServeMux] prefers the longer of the two patterns [connectPath], which
    ends in a slash, and ["/"]. *)
Definition serviceMux (connectPath : string) (connectHandler : HandlerFunc) (allowOrigins : list string)
    (engine : HandlerFunc) : HandlerFunc := fun c =>
  if String.prefix connectPath (rqPath (gcReq c)) then wrapCORSHandler connectHandler allowOrigins c
  else engine c.

(** ** Request ids: facts *)

Definition hexValue (z : Z) : Z := if z <? 58 then z - 48 else z - 87.
Fixpoint hexDecode (l : list Z) : list Z :=
  match l with
  | a :: b :: rest => hexValue a * 16 + hexValue b :: hexDecode rest
  | _ => []
  end.

Definition isHexLower (z : Z) : Prop := 48 <= z <= 57 \/ 97 <= z <= 102.

Lemma hexDigit_spec z : 0 <= z < 16 -> isHexLower (hexDigit z) /\ hexValue (hexDigit z) = z.
Proof. intros Hz. unfold isHexLower, hexDigit, hexValue.
  destruct (Z.ltb_spec z 10); [destruct (Z.ltb_spec (48 + z) 58)|destruct (Z.ltb_spec (87 + z) 58)]; lia.
Qed.

Lemma hexEncode_spec l : Forall isByte l ->
  hexDecode (hexEncode l) = l /\ Forall isHexLower (hexEncode l) /\ length (hexEncode l) = (2 * length l)%nat.
Proof.
  induction 1 as [|b l Hb _ (Hd & Hf & Hl)]; [done|]. unfold isByte in Hb.
  assert (0 <= b / 16 < 16) as Hhi by (split; [apply Z.div_pos|apply Z.div_lt_upper_bound]; lia).
  assert (0 <= b mod 16 < 16) as Hlo by (apply Z.mod_pos_bound; lia).
  apply hexDigit_spec in Hhi as [Hh1 Hh2], Hlo as [Hl1 Hl2]. unfold hexEncode in *. simpl.
  split_and!; [rewrite Hh2, Hl2, Hd; f_equal; pose proof (Z.div_mod b 16); lia|apply Forall_cons_2; [exact Hh1|apply Forall_cons_2; [exact Hl1|exact Hf]]|lia].
Qed.

Lemma isHexLower_isByte l : Forall isHexLower l -> Forall isByte l.
Proof. intros Hf. eapply Forall_impl; [exact Hf|]. unfold isHexLower, isByte. intros z. lia. Qed.

Lemma newRequestID_hex b now : Forall isByte b ->
  bytes (newRequestID (Some b) now) = hexEncode b /\ String.length (newRequestID (Some b) now) = (2 * length b)%nat.
Proof.
  intros Hb. destruct (hexEncode_spec b Hb) as (_ & Hh & Hl). simpl. rewrite length_ofBytes, bytes_ofBytes; [done|].
  by apply isHexLower_isByte.
Qed.

(** ** Serving a request *)

(** A route handler writes its response and leaves alone what belongs to the
    middleware. *)
Definition keeps_middleware (c c' : gctx) : Prop :=
  gcReq c' = gcReq c /\ gcKey c' = gcKey c /\ gcCtxRid c' = gcCtxRid c /\ gcLog c' = gcLog c /\
  gcHeaders c' !! "X-Request-ID" = gcHeaders c !! "X-Request-ID" /\
  gcHeaders c' !! "Access-Control-Allow-Origin" = gcHeaders c !! "Access-Control-Allow-Origin".
Definition well_behaved (h : HandlerFunc) : Prop :=
  forall c, match h c with HDone c' | HPanic c' => keeps_middleware c c' end.

Lemma route_well_behaved routes readiness :
  map_Forall (fun _ h => well_behaved h) routes -> well_behaved (route routes readiness).
Proof.
  intros Hr c. unfold route. case_bool_decide; [done|]. case_bool_decide.
  { unfold readyz. by destruct (negb _). }
  destruct (routes !! _) as [h|] eqn:E; [|done]. exact (Hr _ _ E c).
Qed.

(** The two optional middlewares around any handler. *)
Definition listed (opts : web_options) (req : request) : bool :=
  bool_decide (hGet (rqHeaders req) "Origin" <> "" /\ hGet (rqHeaders req) "Origin" ∈ woCORSAllowOrigins opts).
Definition corsChain (opts : web_options) (h : HandlerFunc) : HandlerFunc :=
  (if (0 <? length (woCORSAllowOrigins opts))%nat then corsHandler (woCORSAllowOrigins opts) else (fun next => next))
    ((if 0 <? woRateLimitPerSecond opts then rateLimitMiddleware (woRateLimitPerSecond opts) else (fun next => next)) h).

Lemma corsChain_eq opts h c :
  corsChain opts h c =
  if listed opts (gcReq c)
  then let c1 := set_headers (corsHeaders (hGet (rqHeaders (gcReq c)) "Origin") (gcHeaders c)) c in
       if bool_decide (rqMethod (gcReq c) = "OPTIONS") then HDone (respond 204 None c1) else h c1
  else h c.
Proof.
  unfold corsChain, listed.
  assert (forall c, (if 0 <? woRateLimitPerSecond opts then rateLimitMiddleware (woRateLimitPerSecond opts) else (fun next => next)) h c = h c)
    as Hl by (intros c1; by case_match).
  assert (set_headers (gcHeaders c) c = c) as Hid by by destruct c.
  destruct (woCORSAllowOrigins opts) as [|o os] eqn:Eo.
  - simpl. rewrite Hl, bool_decide_false; [done|]. intros [_ Hin]. by apply elem_of_nil in Hin.
  - cbn [length Nat.ltb Nat.leb]. unfold corsHandler, corsMiddleware.
    rewrite (bool_decide_decide (_ /\ _)). destruct (decide _) as [[Hne Hin]|Hn].
    + rewrite (bool_decide_false _ Hne), (bool_decide_true _ Hin). simpl. case_bool_decide; [done|]. by rewrite Hl.
    + case_bool_decide; simpl; [by rewrite Hid, Hl|]. rewrite bool_decide_false by tauto. simpl. by rewrite Hid, Hl.
Qed.

Lemma corsHeaders_keeps o h : corsHeaders o h !! "X-Request-ID" = h !! "X-Request-ID" /\
  corsHeaders o h !! "Access-Control-Allow-Origin" = Some o.
Proof. unfold corsHeaders. by simplify_map_eq. Qed.

(** The id of a request: the caller's, or a new one. *)
Definition ridOf (entropy : option (list Z)) (req : request) (now : time) : string :=
  let rid := hGet (rqHeaders req) "X-Request-ID" in
  if bool_decide (rid = "") then newRequestID entropy now else rid.

Definition accessLine (rid : string) (req : request) (start : time) (c : gctx) : access :=
  mkAccess (levelOf (gcStatus c)) (rqMethod req) (rqPath req) (gcStatus c) (Z.quot (gcClock c - start) Millisecond)
    (match gcBody c with Some b => slen b | None => -1 end) (Some rid).

(** Every request is answered, whatever its handler does.  The response carries
    the request's id, which the handler sees in its context, and the caller's
    origin if and only if it is listed; a preflight from a listed origin is
    answered 204 without running the handler; otherwise the status and the body
    are the handler's, and there is one line in the access log, with that status
    (an error from 500 on, a warning from 400 on) and that id; a handler that
    panics is answered 500, and leaves no line in the access log. *)
Theorem web_serves `{GinRecoveryLaws} opts routes readiness entropy req now :
  map_Forall (fun _ h => well_behaved h) routes ->
  let rid := ridOf entropy req now in
  let preflight := listed opts req && bool_decide (rqMethod req = "OPTIONS") in
  exists c, New opts routes readiness entropy (incoming req now) = HDone c /\
    gcHeaders c !! "X-Request-ID" = Some rid /\
    gcHeaders c !! "Access-Control-Allow-Origin" = (if listed opts req then Some (hGet (rqHeaders req) "Origin") else None) /\
    if preflight then gcStatus c = 204 /\ gcBody c = None /\ gcLog c = [accessLine rid req now c]
    else exists c1, gcReq c1 = req /\ RequestIDFrom c1 = rid /\
      match route routes readiness c1 with
      | HDone c2 => gcStatus c = gcStatus c2 /\ gcBody c = gcBody c2 /\ gcLog c = [accessLine rid req now c]
      | HPanic _ => gcStatus c = 500 /\ gcLog c = []
      end.
Proof.
  intros Hr rid preflight. pose proof (route_well_behaved _ readiness Hr) as Hwb.
  set (c0 := set_header "X-Request-ID" rid (set_rid rid (incoming req now))).
  assert (New opts routes readiness entropy (incoming req now) =
    ginRecovery (fun _ => accessLogMiddleware (corsChain opts (route routes readiness)) c0) (incoming req now)) as -> by done.
  set (c1 := if listed opts req then set_headers (corsHeaders (hGet (rqHeaders req) "Origin") (gcHeaders c0)) c0 else c0).
  assert (gcReq c1 = req /\ gcKey c1 = Some rid /\ gcCtxRid c1 = Some rid /\ gcLog c1 = [] /\
    gcHeaders c1 !! "X-Request-ID" = Some rid /\
    gcHeaders c1 !! "Access-Control-Allow-Origin" = (if listed opts req then Some (hGet (rqHeaders req) "Origin") else None))
    as (Hq & Hk & Hc & Hl & Hx & Ha).
  { unfold c1. destruct (listed opts req); [|done]. split_and!; [done..| |].
    - cbn [set_headers gcHeaders]. rewrite (proj1 (corsHeaders_keeps _ _)). done.
    - cbn [set_headers gcHeaders]. by rewrite (proj2 (corsHeaders_keeps _ _)). }
  assert (corsChain opts (route routes readiness) c0 =
    if preflight then HDone (respond 204 None c1) else route routes readiness c1) as Echain.
  { rewrite corsChain_eq. change (gcReq c0) with req. unfold preflight, c1. by destruct (listed opts req). }
  unfold ginRecovery, accessLogMiddleware. rewrite Echain.
  destruct preflight.
  { eexists. split; [reflexivity|]. cbn [log_access respond gcHeaders gcStatus gcBody gcLog].
    split_and!; [exact Hx|exact Ha|done|done|]. unfold accessLine. cbn. rewrite Hq, Hk, Hl. done. }
  specialize (Hwb c1). destruct (route routes readiness c1) as [c2|c2] eqn:Er; cbn [hthen];
    destruct Hwb as (Wq & Wk & Wc & Wl & Wx & Wa); rewrite ?Wq, ?Wk in *.
  - eexists. split; [reflexivity|]. cbn [log_access gcHeaders gcStatus gcBody gcLog].
    split_and!; [by rewrite Wx|by rewrite Wa|]. exists c1. unfold RequestIDFrom. rewrite Hc, Er.
    split_and!; [done..|]. unfold accessLine. cbn. by rewrite Wl, Hl, Hq, Hk.
  - eexists. split; [reflexivity|]. rewrite recovered_headers, recovered_log, recovered_status.
    split_and!; [by rewrite Wx|by rewrite Wa|]. exists c1. unfold RequestIDFrom. rewrite Hc, Er.
    split_and!; [done..|by rewrite Wl].
Qed.

(** Two requests that bring no id get the same one only from the same random
    bytes; a new id has two lower-case hexadecimal digits for each byte. *)
Lemma request_ids_fresh b1 b2 now1 now2 : Forall isByte b1 -> Forall isByte b2 ->
  newRequestID (Some b1) now1 = newRequestID (Some b2) now2 -> b1 = b2.
Proof.
  intros H1 H2 Heq. rewrite <- (proj1 (hexEncode_spec b1 H1)), <- (proj1 (hexEncode_spec b2 H2)).
  rewrite <- (proj1 (newRequestID_hex b1 now1 H1)), <- (proj1 (newRequestID_hex b2 now2 H2)). by rewrite Heq.
Qed.

(** Until [SetReady true] the readiness endpoint keeps the load balancer away,
    and the health endpoint answers. *)
Lemma ready_after_SetReady routes readiness c :
  (rqMethod (gcReq c) = "GET" -> rqPath (gcReq c) = "/readyz" ->
   route routes (SetReady false readiness) c = HDone (respond 503 None c) /\
   route routes (SetReady true readiness) c = HDone (respond 200 (Some (jsonStatus "ready")) c)) /\
  (rqMethod (gcReq c) = "GET" -> rqPath (gcReq c) = "/healthz" ->
   route routes readiness c = HDone (respond 200 (Some (jsonStatus "ok")) c)).
Proof. unfold route. split; intros -> ->; by rewrite ?bool_decide_true by done. Qed.

(** ** A small server *)

Definition demoRecovery : GinRecovery := fun c => respond 500 None c.
Lemma demoRecoveryLaws : @GinRecoveryLaws demoRecovery.
Proof. by split. Qed.

Definition demoRoutes : gmap (string * string) HandlerFunc :=
  {[ ("GET", "/boom") := (fun c => HPanic c); ("GET", "/teapot") := (fun c => HDone (respond 418 (Some "short") c)) ]}.
Lemma demoRoutes_behave : map_Forall (fun _ h => well_behaved h) demoRoutes.
Proof.
  intros k h Hk. unfold demoRoutes in Hk. apply lookup_insert_Some in Hk as [[_ <-]|[_ Hk]]; [intros c; done|].
  apply lookup_singleton_Some in Hk as [_ <-]. intros c. done.
Qed.

Definition demoOpts : web_options := mkWebOptions ["https://app.example"] 10.
Definition demoReq (path : string) : request :=
  mkRequest "GET" path {["Origin" := "https://app.example"; "X-Request-ID" := "r1"]}.

Lemma web_serves_witness :
  exists c, @New demoRecovery demoOpts demoRoutes 1 None (incoming (demoReq "/teapot") 7) = HDone c /\
    gcHeaders c !! "X-Request-ID" = Some "r1" /\ gcStatus c = 418 /\
    gcLog c = [mkAccess LevelWarn "GET" "/teapot" 418 0 5 (Some "r1")].
Proof.
  destruct (@web_serves demoRecovery demoRecoveryLaws demoOpts demoRoutes 1 None (demoReq "/teapot") 7 demoRoutes_behave)
    as (c & Hc & Hx & _). exists c. split; [exact Hc|]. split; [exact Hx|].
  assert (c = match @New demoRecovery demoOpts demoRoutes 1 None (incoming (demoReq "/teapot") 7) with HDone c => c | HPanic c => c end)
    as -> by (rewrite Hc; reflexivity).
  split; vm_compute; reflexivity.
Defined.

(** The recovery is outside the access log, so the request that panics is the
    one the log does not show. *)
Example panics_not_logged :
  exists c, @New demoRecovery demoOpts demoRoutes 1 None (incoming (demoReq "/boom") 7) = HDone c /\ gcStatus c = 500 /\ gcLog c = [].
Proof. eexists. split; [reflexivity|]. split; reflexivity. Qed.

Example fallback_id : newRequestID None (1700000000 * Second + 5) = "20231114T221320.000000005Z".
Proof. by vm_compute. Qed.
