(* ===== verification/Rbac.v ===== *)
(** * Role-based access

    Model of [libs/rbac/rbac.go]: the evaluator and the default policy table. *)

From S2P Require Import Prelude GoNum RoomDomain.

(** The actions are strings; any other string is an unknown action. *)
Definition ActionCreateRoom : string := "room.create".
Definition ActionDeleteRoom : string := "room.delete".
Definition ActionInviteUser : string := "room.invite".
Definition ActionKickUser : string := "room.kick".
Definition ActionPromoteUser : string := "room.promote".
Definition ActionCommandSync : string := "sync.command".
Definition ActionManageMedia : string := "media.manage".
Definition ActionUploadMedia : string := "media.upload".
Definition ActionRotateKeys : string := "auth.rotate_keys".
Definition ActionViewUsers : string := "user.view_all".

Record Subject : Type := mkRbacSubject {
  subUserID : string;
  subSystemRole : SystemRole;
  subRoomRole : RoomRole;
  subRoomID : string;
}.

Record Resource : Type := mkResource {
  resKind : string;
  resRoomID : string;
  resID : string;
}.

(** [Policy]. *)
Class Policy : Type := policyAllow : Subject -> string -> Resource -> bool.

Definition oneOf (a : string) (l : list string) : bool := bool_decide (a ∈ l).

#[global] Instance DefaultPolicy : Policy := fun s a _ =>
  if SYSTEM_ADMINISTRATOR <=? subSystemRole s then true
  else if oneOf a [ActionCreateRoom; ActionUploadMedia] then SYSTEM_USER <=? subSystemRole s
  else if oneOf a [ActionCommandSync] then
    (ROLE_MODERATOR <=? subRoomRole s) || (subRoomRole s =? ROLE_OWNER)
  else if oneOf a [ActionDeleteRoom; ActionKickUser; ActionPromoteUser; ActionInviteUser;
                   ActionManageMedia] then
    (ROLE_OWNER <=? subRoomRole s) ||
    ((subRoomRole s =? ROLE_MODERATOR) && negb (bool_decide (a = ActionDeleteRoom)))
  else if oneOf a [ActionRotateKeys; ActionViewUsers] then
    SYSTEM_ADMINISTRATOR <=? subSystemRole s
  else false.

(** [Evaluator.Allow]. *)
Definition evaluatorAllow `{Policy} (s : Subject) (a : string) (r : Resource) : bool :=
  if (subSystemRole s =? SYSTEM_UNSPECIFIED) && (subRoomRole s =? ROLE_UNSPECIFIED) then false
  else policyAllow s a r.

(** ** Theorems *)

(** What the policy table grants below administrator. *)
Definition granted (s : Subject) (a : string) : Prop :=
  (a ∈ [ActionCreateRoom; ActionUploadMedia] /\ SYSTEM_USER <= subSystemRole s) \/
  (a ∈ [ActionCommandSync; ActionKickUser; ActionPromoteUser; ActionInviteUser;
        ActionManageMedia] /\ ROLE_MODERATOR <= subRoomRole s) \/
  (a = ActionDeleteRoom /\ ROLE_OWNER <= subRoomRole s).

Ltac rbac_unfold :=
  unfold SYSTEM_ADMINISTRATOR, SYSTEM_USER, SYSTEM_UNSPECIFIED, ROLE_MODERATOR, ROLE_OWNER,
    ROLE_UNSPECIFIED in *.

Ltac rbac_cases :=
  set_unfold;
  repeat match goal with
  | |- context [?x =? ?y] => destruct (Z.eqb_spec x y)
  | |- context [?x <=? ?y] => destruct (Z.leb_spec x y)
  end; simpl; split; intros; try discriminate; try reflexivity;
  repeat match goal with
  | H : _ \/ _ |- _ => destruct H
  | H : _ /\ _ |- _ => destruct H
  end; try discriminate; try lia; naive_solver lia.

Lemma allow_granted s a r :
  evaluatorAllow s a r = true <-> SYSTEM_ADMINISTRATOR <= subSystemRole s \/ granted s a.
Proof.
  unfold evaluatorAllow, policyAllow, DefaultPolicy, granted, oneOf. rbac_unfold.
  destruct (decide (a ∈ [ActionCreateRoom; ActionDeleteRoom; ActionInviteUser; ActionKickUser;
    ActionPromoteUser; ActionCommandSync; ActionManageMedia; ActionUploadMedia;
    ActionRotateKeys; ActionViewUsers])) as [Ha|Ha].
  - repeat (apply elem_of_cons in Ha as [->|Ha];
      [repeat match goal with |- context [bool_decide ?P] =>
         let b := eval vm_compute in (bool_decide P) in change (bool_decide P) with b end;
       rbac_cases|]).
    by apply elem_of_nil in Ha.
  - repeat rewrite bool_decide_false by set_solver. rbac_cases.
Qed.

(** The access policy is exactly its table, and roles only ever add rights:
    administrators may do everything, a subject without any role nothing;
    creating rooms and uploading needs a user, room management and playback a
    moderator, deleting a room its owner, everything else an administrator; a
    subject allowed an action stays allowed with higher roles. *)
Theorem rbac_policy s a r :
  (evaluatorAllow s a r = true <-> SYSTEM_ADMINISTRATOR <= subSystemRole s \/ granted s a) /\
  (forall s', subSystemRole s <= subSystemRole s' -> subRoomRole s <= subRoomRole s' ->
     evaluatorAllow s a r = true -> evaluatorAllow s' a r = true).
Proof.
  split; [apply allow_granted|]. intros s' Hs Hr. rewrite !allow_granted. unfold granted.
  intros [H|[[Ha H]|[[Ha H]|[Ha H]]]]; [left; lia|right..].
  - left. split; [done|lia].
  - right; left. split; [done|lia].
  - right; right. split; [done|lia].
Qed.
