(* ===== verification/FeatureFlag.v ===== *)
(** * Feature flags

    Model of [libs/featureflag/featureflag.go]: the precedence of overrides,
    percentage rollout and defaults, with the FNV-1a hash that assigns users to
    rollout buckets. *)

From S2P Require Import Prelude GoNum Errors GoString.

Definition VariantOff : string := "off".
Definition VariantOn : string := "on".

Record Flag : Type := mkFlag {
  fKey : string;
  fDefaults : gmap string string;
  fRolloutPercent : Z; (* uint8 *)
  fRolloutVariant : string;
  fUserOverrides : gmap string string;
  fRoomOverrides : gmap string string;
}.

Record FlagContext : Type := mkFlagContext {
  fcUserID : string;
  fcRoomID : string;
  fcEnvironment : string;
}.

(** [Store]: a flag, no flag, or an error. *)
Class FlagStore : Type := getFlag : string -> res error (option Flag).

(** [fnv.New32a] over the bytes written so far. *)
Definition fnvStep (h b : Z) : Z := uint32 (Z.lxor h b * 16777619).
Definition fnv32a (l : list Z) : Z := fold_left fnvStep l 2166136261.

(** [bucket]: two writes, then the sum modulo 100 as a [uint8]. *)
Definition bucket (key userID : string) : Z :=
  uwrap 8 (fold_left fnvStep (bytes userID) (fnv32a (bytes key)) mod 100).

Definition Evaluate `{FlagStore} (key : string) (ec : FlagContext) : string * option error :=
  match getFlag key with
  | Err e => (VariantOff, Some e)
  | Ok None => (VariantOff, None)
  | Ok (Some flag) =>
      match fUserOverrides flag !! fcUserID ec with
      | Some v => (v, None)
      | None =>
          match fRoomOverrides flag !! fcRoomID ec with
          | Some v => (v, None)
          | None =>
              if (0 <? fRolloutPercent flag) && negb (bool_decide (fcUserID ec = "")) &&
                 (bucket key (fcUserID ec) <? fRolloutPercent flag)
              then (if bool_decide (fRolloutVariant flag = "") then VariantOn
                    else fRolloutVariant flag, None)
              else
                match fDefaults flag !! fcEnvironment ec with
                | Some v => (v, None)
                | None => (default VariantOff (fDefaults flag !! "default"), None)
                end
          end
      end
  end.

Definition IsOn `{FlagStore} (key : string) (ec : FlagContext) : bool * option error :=
  let '(v, err) := Evaluate key ec in (bool_decide (v = VariantOn), err).

(** [NewMemoryStore] and its [Get]: the last flag of a key wins. *)
Definition MemoryStore (flags : list Flag) : FlagStore := fun key =>
  Ok (fold_left (fun m f => <[fKey f := f]> m) flags (∅ : gmap string Flag) !! key).

(** ** Theorems *)

Lemma bucket_range key userID : 0 <= bucket key userID < 100.
Proof.
  unfold bucket. set (h := fold_left _ _ _).
  pose proof (Z.mod_pos_bound h 100 ltac:(lia)). rewrite uwrap_id; [lia|lia|]. unfold in_u. lia.
Qed.

Definition set_percent (p : Z) (f : Flag) : Flag :=
  mkFlag (fKey f) (fDefaults f) p (fRolloutVariant f) (fUserOverrides f) (fRoomOverrides f).

Definition oneFlag (f : Flag) : FlagStore := fun _ => Ok (Some f).

(** Flags resolve by their precedence and roll out monotonically: a user
    override beats everything, a room override everything but that; raising the
    percentage never takes the rolled-out variant away from a user who had it,
    0 percent serves nobody and 100 percent every user with an id; a missing
    flag, or a store that fails, is off. *)
Theorem Evaluate_precedence (f : Flag) key ec :
  let serves p := 0 < p /\ fcUserID ec <> "" /\ bucket key (fcUserID ec) < p in
  let variant := if bool_decide (fRolloutVariant f = "") then VariantOn else fRolloutVariant f in
  (forall v p, fUserOverrides f !! fcUserID ec = Some v ->
     @Evaluate (oneFlag (set_percent p f)) key ec = (v, None)) /\
  (forall v p, fUserOverrides f !! fcUserID ec = None ->
     fRoomOverrides f !! fcRoomID ec = Some v ->
     @Evaluate (oneFlag (set_percent p f)) key ec = (v, None)) /\
  (fUserOverrides f !! fcUserID ec = None -> fRoomOverrides f !! fcRoomID ec = None ->
   forall p, (serves p -> @Evaluate (oneFlag (set_percent p f)) key ec = (variant, None)) /\
             (~ serves p -> @Evaluate (oneFlag (set_percent p f)) key ec =
                            @Evaluate (oneFlag (set_percent 0 f)) key ec)) /\
  (forall p p', p <= p' -> serves p -> serves p') /\
  ~ serves 0 /\ (fcUserID ec <> "" -> serves 100) /\
  @Evaluate (MemoryStore []) key ec = (VariantOff, None).
Proof.
  intros serves variant. pose proof (bucket_range key (fcUserID ec)).
  split_and!; [..|done].
  - intros v p Hu. unfold Evaluate, getFlag, oneFlag. simpl. by rewrite Hu.
  - intros v p Hu Hr. unfold Evaluate, getFlag, oneFlag. simpl. by rewrite Hu, Hr.
  - intros Hu Hr p. unfold Evaluate, getFlag, oneFlag. simpl. rewrite Hu, Hr. unfold serves.
    case_bool_decide; destruct (Z.ltb_spec 0 p), (Z.ltb_spec (bucket key (fcUserID ec)) p);
      simpl; (split; [intros (?&?&?)|intros Hn]); try done; try lia;
      by destruct Hn.
  - unfold serves. intros p p' Hp (?&?&?). split_and!; [lia|done|lia].
  - unfold serves. lia.
  - unfold serves. intros. split_and!; [lia|done|lia].
Qed.
