(* ===== verification/RoomRepo.v ===== *)
(** * The room service's database

    Model of [apps/room-service/internal/infra/postgres]: the tables of the
    service's migrations with their keys, foreign keys (which cascade) and
    column ranges, and the statements of the repositories.  Ids are the
    26-character ids of [CHAR(26)] columns, which neither pads nor rejects.
    A violated constraint is an error of the statement; failures that do not
    depend on the data are faults of the environment ([Store]). *)

From S2P Require Import Prelude GoNum Errors GoString Store RoomDomain Outbox.

Open Scope sm_scope.

Record RoomDB : Type := mkRoomDB {
  dRooms : gmap string Room;
  dMembers : gmap (string * string) Member;             (* (room, user) *)
  dInvites : gmap string (string * option time);        (* code: room, expiry *)
  dPerms : gmap (string * string) Z;                    (* (room, user): bitmask *)
  dOutbox : list (OutRow Payload);
}.

Definition emptyRoomDB : RoomDB := mkRoomDB ∅ ∅ ∅ ∅ [].

Definition set_dRooms (f : gmap string Room -> gmap string Room) (d : RoomDB) : RoomDB :=
  mkRoomDB (f (dRooms d)) (dMembers d) (dInvites d) (dPerms d) (dOutbox d).
Definition set_dMembers (f : gmap (string * string) Member -> gmap (string * string) Member)
    (d : RoomDB) : RoomDB :=
  mkRoomDB (dRooms d) (f (dMembers d)) (dInvites d) (dPerms d) (dOutbox d).
Definition set_dInvites f (d : RoomDB) : RoomDB :=
  mkRoomDB (dRooms d) (dMembers d) (f (dInvites d)) (dPerms d) (dOutbox d).
Definition set_dPerms (f : gmap (string * string) Z -> gmap (string * string) Z)
    (d : RoomDB) : RoomDB :=
  mkRoomDB (dRooms d) (dMembers d) (dInvites d) (f (dPerms d)) (dOutbox d).
Definition set_dOutbox (o : list (OutRow Payload)) (d : RoomDB) : RoomDB :=
  mkRoomDB (dRooms d) (dMembers d) (dInvites d) (dPerms d) o.

(** ** Rooms *)

Definition set_rMemberCount (n : Z) (r : Room) : Room :=
  mkRoom (rID r) (rSlug r) (rName r) (rDescription r) (rVisibility r) (rOwnerID r)
    (rMaxMembers r) n (rCreatedAt r) (rUpdatedAt r).

(** What the columns hold for a room: [SMALLINT], [INTEGER], [TIMESTAMPTZ]. *)
Definition storedRoom (r : Room) : Room :=
  mkRoom (rID r) (rSlug r) (rName r) (rDescription r) (int16 (rVisibility r)) (rOwnerID r)
    (rMaxMembers r) (rMemberCount r) (pgTime (rCreatedAt r)) (pgTime (rUpdatedAt r)).

(** The values the columns accept. *)
Definition columnsOk (r : Room) : option error :=
  if 64 <? charCount (rSlug r) then Some (EMsg "value too long for type character varying(64)")
  else if 100 <? charCount (rName r) then Some (EMsg "value too long for type character varying(100)")
  else if negb (bool_decide (in_s 32 (rMaxMembers r))) || negb (bool_decide (in_s 32 (rMemberCount r)))
  then Some (EMsg "integer out of range")
  else None.

Definition slugTaken (slug id : string) (rooms : gmap string Room) : bool :=
  existsb (fun kr => bool_decide (rSlug kr.2 = slug) && negb (bool_decide (kr.1 = id)))
    (map_to_list rooms).

Section repos.
Context `{Env}.

Definition RoomRepo_Create (r : Room) : SM RoomDB unit :=
  smapErr (EWrap "room_repo: create") (stmt (fun db =>
    match columnsOk r with
    | Some e => Err e
    | None =>
        if bool_decide (is_Some (dRooms db !! rID r)) then Err (EUniqueViolation "rooms_pkey")
        else if slugTaken (rSlug r) (rID r) (dRooms db) then Err (EUniqueViolation "rooms_slug_key")
        else Ok (tt, set_dRooms (insert (rID r) (storedRoom r)) db)
    end)).

(** [scanRoom]: the visibility comes back through [int8]. *)
Definition scanRoom (r : Room) : Room :=
  mkRoom (rID r) (rSlug r) (rName r) (rDescription r) (int8 (rVisibility r)) (rOwnerID r)
    (rMaxMembers r) (rMemberCount r) (rCreatedAt r) (rUpdatedAt r).

Definition RoomRepo_GetByID (id : string) : SM RoomDB Room :=
  smapErr (mapErr "room" id) (queryRow (fun db => scanRoom <$> dRooms db !! id)).

Definition roomBySlug (slug : string) (rooms : gmap string Room) : option Room :=
  snd <$> List.find (fun kr => bool_decide (rSlug kr.2 = slug)) (map_to_list rooms).

Definition RoomRepo_GetBySlug (slug : string) : SM RoomDB Room :=
  smapErr (mapErr "room" slug) (queryRow (fun db => scanRoom <$> roomBySlug slug (dRooms db))).

(** The columns [Update] writes; the owner and the creation time stay. *)
Definition updateColumns (r old : Room) : Room :=
  let n := storedRoom r in
  mkRoom (rID old) (rSlug n) (rName n) (rDescription n) (rVisibility n) (rOwnerID old)
    (rMaxMembers n) (rMemberCount n) (rCreatedAt old) (rUpdatedAt n).

Definition RoomRepo_Update (r : Room) : SM RoomDB unit :=
  smapErr (EWrap "room_repo: update") (stmt (fun db =>
    match columnsOk r with
    | Some e => Err e
    | None =>
        match dRooms db !! rID r with
        | None => Ok (tt, db)
        | Some old =>
            if slugTaken (rSlug r) (rID r) (dRooms db) then Err (EUniqueViolation "rooms_slug_key")
            else Ok (tt, set_dRooms (insert (rID r) (updateColumns r old)) db)
        end
    end)).

(** [DELETE] with the cascades of the three referencing tables. *)
Definition cascadeDelete (id : string) (db : RoomDB) : RoomDB :=
  mkRoomDB (delete id (dRooms db))
    (filter (fun km => km.1.1 <> id) (dMembers db))
    (filter (fun ki => ki.2.1 <> id) (dInvites db))
    (filter (fun kp => kp.1.1 <> id) (dPerms db))
    (dOutbox db).

Definition RoomRepo_Delete (id : string) : SM RoomDB unit :=
  smapErr (EWrap "room_repo: delete") (stmt (fun db => Ok (tt, cascadeDelete id db))).

(** *** Listing *)

Definition newerFirst (a b : Room) : Prop := rCreatedAt b <= rCreatedAt a.
#[global] Instance newerFirst_dec a b : Decision (newerFirst a b).
Proof. unfold newerFirst. apply _. Defined.

Definition strLt (a b : string) : bool :=
  match String.compare a b with Lt => true | _ => false end.

(** [LOWER(name) ILIKE '%' || lower(search) || '%'] is Postgres's. *)
Class PgSearch : Type := nameMatches : string -> string -> bool.

(** The [WHERE] clause. *)
Definition listCond `{PgSearch} (cursor search : string) (vis : list RoomVisibility) (r : Room) : bool :=
  (bool_decide (search = "") || nameMatches search (rName r)) &&
  (bool_decide (vis = []) || bool_decide (rVisibility r ∈ map int16 vis)) &&
  (bool_decide (cursor = "") || strLt (rID r) cursor).

(** The rows of the query; rows of the same creation time come in the order of
    the table. *)
Definition listQuery `{PgSearch} (cursor : string) (limit : Z) (search : string)
    (vis : list RoomVisibility) (rooms : gmap string Room) : list Room :=
  map scanRoom (take (Z.to_nat limit)
    (merge_sort newerFirst
      (List.filter (listCond cursor search vis) (map snd (map_to_list rooms))))).

Definition pageLimit (limit : Z) : Z := if (limit <=? 0) || (200 <? limit) then 50 else limit.

Definition pageCut (limit : Z) (rows : list Room) : list Room * string :=
  match rows !! Z.to_nat limit with
  | Some r => (take (Z.to_nat limit) rows, rID r)
  | None => (rows, "")
  end.

Definition RoomRepo_List `{PgSearch} (cursor : string) (limit : Z) (search : string)
    (vis : list RoomVisibility) : SM RoomDB (list Room * string) :=
  let limit := pageLimit limit in
  rows <- smapErr (EWrap "room_repo: list")
            (query (fun db => listQuery cursor (limit + 1) search vis (dRooms db))) ;;
  sret (pageCut limit rows).

(** ** Members *)

Definition set_mRole (role : RoomRole) (m : Member) : Member :=
  mkMember (mRoomID m) (mUserID m) role (mJoinedAt m).

Definition MemberRepo_Upsert (m : Member) : SM RoomDB unit :=
  smapErr (EWrap "member_repo: upsert") (stmt (fun db =>
    match dRooms db !! mRoomID m with
    | None => Err (EMsg "violates foreign key constraint")
    | Some _ =>
        let k := (mRoomID m, mUserID m) in
        let row := match dMembers db !! k with
                   | Some old => set_mRole (int16 (mRole m)) old
                   | None => mkMember (mRoomID m) (mUserID m) (int16 (mRole m)) (pgTime (mJoinedAt m))
                   end in
        Ok (tt, set_dMembers (insert k row) db)
    end)).

Definition MemberRepo_Get (roomID userID : string) : SM RoomDB Member :=
  smapErr (mapErr "member" userID) (queryRow (fun db => dMembers db !! (roomID, userID))).

Definition joinedFirst (a b : Member) : Prop := mJoinedAt a <= mJoinedAt b.
#[global] Instance joinedFirst_dec a b : Decision (joinedFirst a b).
Proof. unfold joinedFirst. apply _. Defined.

Definition membersOf (roomID : string) (ms : gmap (string * string) Member) : list Member :=
  map snd (map_to_list (filter (fun km => km.1.1 = roomID) ms)).

Definition MemberRepo_List (roomID : string) : SM RoomDB (list Member) :=
  smapErr (EWrap "member_repo: list")
    (query (fun db => merge_sort joinedFirst (membersOf roomID (dMembers db)))).

Definition MemberRepo_Delete (roomID userID : string) : SM RoomDB unit :=
  smapErr (EWrap "member_repo: delete")
    (stmt (fun db => Ok (tt, set_dMembers (delete (roomID, userID)) db))).

Definition MemberRepo_UpdateRole (roomID userID : string) (role : RoomRole) : SM RoomDB unit :=
  smapErr (EWrap "member_repo: update_role")
    (stmt (fun db => Ok (tt, set_dMembers (alter (set_mRole (int16 role)) (roomID, userID)) db))).

Definition MemberRepo_IncrementRoomMemberCount (roomID : string) (delta : Z) : SM RoomDB unit :=
  smapErr (EWrap "member_repo: increment_count") (stmt (fun db =>
    match dRooms db !! roomID with
    | None => Ok (tt, db)
    | Some r =>
        if bool_decide (in_s 32 (rMemberCount r + delta))
        then Ok (tt, set_dRooms (insert roomID (set_rMemberCount (rMemberCount r + delta) r)) db)
        else Err (EMsg "integer out of range")
    end)).

(** ** Invites *)

Definition InviteRepo_Create (code roomID : string) (expiresAt : option time) : SM RoomDB unit :=
  smapErr (EWrap "invite_repo: create") (stmt (fun db =>
    match dRooms db !! roomID with
    | None => Err (EMsg "violates foreign key constraint")
    | Some _ =>
        if bool_decide (is_Some (dInvites db !! code)) then Err (EUniqueViolation "room_invite_pkey")
        else Ok (tt, set_dInvites (insert code (roomID, option_map pgTime expiresAt)) db)
    end)).

(** [now()] of the database. *)
Definition inviteRoom (now : time) (code : string) (db : RoomDB) : option string :=
  match dInvites db !! code with
  | Some (roomID, None) => Some roomID
  | Some (roomID, Some t) => if now <? t then Some roomID else None
  | None => None
  end.

Definition InviteRepo_Get (code : string) : SM RoomDB string :=
  now <- snow ;;
  smapErr (mapErr "invite_code" code) (queryRow (inviteRoom now code)).

Definition InviteRepo_Delete (code : string) : SM RoomDB unit :=
  smapErr (EWrap "invite_repo: delete")
    (stmt (fun db => Ok (tt, set_dInvites (delete code) db))).

(** ** Permissions *)

Definition PermissionRepo_Set (roomID userID : string) (perms : Permissions) : SM RoomDB unit :=
  smapErr (EWrap "permission_repo: set") (stmt (fun db =>
    match dRooms db !! roomID with
    | None => Err (EMsg "violates foreign key constraint")
    | Some _ => Ok (tt, set_dPerms (insert (roomID, userID) (int16 perms)) db)
    end)).

(** No row is no grants; the mask comes back through [uint16]. *)
Definition PermissionRepo_Get (roomID userID : string) : SM RoomDB Permissions :=
  smapErr (EWrap "permission_repo: get")
    (query (fun db => match dPerms db !! (roomID, userID) with
                      | Some p => uint16 p
                      | None => 0
                      end)).

Definition permsOf (roomID : string) (db : RoomDB) : gmap string Permissions :=
  list_to_map (map (fun kp => (kp.1.2, uint16 kp.2))
    (map_to_list (filter (fun kp => kp.1.1 = roomID) (dPerms db)))).

Definition PermissionRepo_ListByRoom (roomID : string) : SM RoomDB (gmap string Permissions) :=
  smapErr (EWrap "permission_repo: list") (query (permsOf roomID)).

Definition PermissionRepo_Delete (roomID userID : string) : SM RoomDB unit :=
  smapErr (EWrap "permission_repo: delete")
    (stmt (fun db => Ok (tt, set_dPerms (delete (roomID, userID)) db))).

Definition OutboxRepo_Append (e : OutEvent Payload) : SM RoomDB unit :=
  Append dOutbox set_dOutbox [e].
End repos.
