(* ===== verification/RoomService.v ===== *)
(** * The room service

    Model of the use cases of [apps/room-service/internal/app]
    ([lifecycle.go], [membership.go], [permissions.go]): every RPC handler with
    its checks, its transaction and the events it stages.  A handler is a
    computation over the database of [RoomRepo]; a request is its headers and
    its message, and a message field that is absent is its zero value, as the
    generated getters return it. *)

From S2P Require Import Prelude GoNum Errors GoString Store RoomDomain Outbox Web RoomRepo.

Open Scope sm_scope.

(** ** Messages *)

Record ProtoRoom : Type := mkProtoRoom {
  prId : string;
  prSlug : string;
  prName : string;
  prDescription : string;
  prVisibility : Z;
  prOwnerId : string;
  prMaxMembers : Z;
  prMemberCount : Z;
  prCreatedAt : time;
  prUpdatedAt : time;
}.

Definition roomToProto (r : Room) : ProtoRoom :=
  mkProtoRoom (rID r) (rSlug r) (rName r) (rDescription r) (rVisibility r) (rOwnerID r)
    (uint32 (rMaxMembers r)) (uint32 (rMemberCount r)) (rCreatedAt r) (rUpdatedAt r).

Record ProtoMember : Type := mkProtoMember {
  pmUserId : string;
  pmRole : RoomRole;
  pmJoinedAt : time;
  pmPermissions : list RoomPermission;
}.

Record CreateRoomRequest : Type := mkCreateRoom {
  crName : string;
  crDescription : option string;
  crVisibility : Z;          (* int32 *)
  crMaxMembers : option Z;   (* uint32 *)
}.

Inductive RoomLookup : Type := ById (id : string) | BySlug (slug : string) | NoLookup.

Record ListRoomsRequest : Type := mkListRooms {
  lrPage : option (string * Z); (* cursor, limit *)
  lrSearch : string;
}.

Record UpdateRoomRequest : Type := mkUpdateRoom {
  urId : string;
  urName : option string;
  urDescription : option string;
  urVisibility : option Z;
  urMaxMembers : option Z;
}.

Definition roomRes (roomID : string) : string := ("room:" +:+ roomID)%string.
Definition userRes (userID : string) : string := ("user:" +:+ userID)%string.

Section service.
Context `{Env}.

(** [vboutbox.Event] with the fields the service sets. *)
Definition roomEvent (id roomID topic : string) (payload : Payload) (at_ : time) : OutEvent Payload :=
  mkOutEvent id roomID topic roomID payload ∅ at_ "v1".

(** ** Authorization helpers *)

Definition readTx {A} (fn : SM RoomDB A) : SM RoomDB A := withTx fn.

Definition checkMembership (roomID userID : string) : SM RoomDB Member :=
  readTx (MemberRepo_Get roomID userID).

(** [if err != nil { if isNotFound(err) { return e }; return err }]. *)
Definition orNotFound {A} (e : error) (m : SM RoomDB A) : SM RoomDB A :=
  smapErr (fun err => if isNotFound err then e else err) m.

Definition requireRoomRole (roomID : string) (subject : requestSubject) (minRole : RoomRole)
    : SM RoomDB unit :=
  if SYSTEM_ADMINISTRATOR <=? sbSystemRole subject then sret tt
  else
    member <- orNotFound (EVb (PermissionDenied "manage_room" (roomRes roomID)))
                (MemberRepo_Get roomID (sbUserID subject)) ;;
    if mRole member <? minRole
    then sfail (EVb (PermissionDenied "manage_room" (roomRes roomID)))
    else sret tt.

(** ** Lifecycle *)

(** The transaction of [CreateRoom]. *)
Definition createTx (subject : requestSubject) (room : Room) : SM RoomDB unit :=
  RoomRepo_Create room ;;;
  joined <- snow ;;
  MemberRepo_Upsert (mkMember (rID room) (sbUserID subject) ROLE_OWNER joined) ;;;
  MemberRepo_IncrementRoomMemberCount (rID room) 1 ;;;
  (if RequiresInvite room || (rVisibility room =? VisibilityUnlisted) then
     code <- srand 16 ;;
     InviteRepo_Create (GenerateInviteCode code) (rID room) None
   else sret tt) ;;;
  eid <- snewID ;; at_ <- snow ;;
  OutboxRepo_Append (roomEvent eid (rID room) "room.created.v1"
    (<["room_id" := JStr (rID room)]> (<["slug" := JStr (rSlug room)]>
     (<["name" := JStr (rName room)]> (<["owner_id" := JStr (rOwnerID room)]>
      (<["visibility" := JInt (rVisibility room)]> ∅))))) at_).

Definition CreateRoom (h : Header) (req : CreateRoomRequest) : SM RoomDB ProtoRoom :=
  ctxDone ;;;
  let subject := subjectFromHeader h in
  if sbSystemRole subject <? SYSTEM_USER then sfail (EVb (PermissionDenied "room.create" "rooms"))
  else
    now <- snow ;; id <- snewID ;; rnd <- srand 6 ;;
    match NewRoom rnd now id (sbUserID subject)
            (mkParams (crName req) (default "" (crDescription req)) (int8 (crVisibility req))
               (crMaxMembers req)) with
    | Err e => sfail (EVb (WithCause e
                 (InvalidArgumentFor "vibesync.room" "INVALID_ROOM" (errText e))))
    | Ok room =>
        smapErr (fun e => EVb (WithCause e (Internal "CREATE_ROOM_FAILED" (errText e))))
          (withTx (createTx subject room)) ;;;
        sret (roomToProto (set_rMemberCount 1 room))
    end.

Definition GetRoom (h : Header) (lookup : RoomLookup) : SM RoomDB ProtoRoom :=
  ctxDone ;;;
  room <- smapErr (fun e => if isNotFound e then EVb (NotFound "room" "")
                            else EVb (WithCause e (Internal "GET_ROOM_FAILED" (errText e))))
            (readTx (match lookup with
                     | ById id => RoomRepo_GetByID id
                     | BySlug slug => RoomRepo_GetBySlug slug
                     | NoLookup => sfail (EVb (InvalidArgumentFor "vibesync.room" "MISSING_LOOKUP"
                                                 "id or slug required"))
                     end)) ;;
  let subject := subjectFromHeader h in
  (if rVisibility room =? VisibilityPrivate then
     smapErr (fun _ => EVb (PermissionDenied "get_room" (roomRes (rID room))))
       (checkMembership (rID room) (sbUserID subject)) ;;;
     sret tt
   else sret tt) ;;;
  sret (roomToProto room).

Record ListRoomsResponse : Type := mkListResp {
  lsRooms : list ProtoRoom;
  lsNextCursor : string;
  lsTotal : Z;
}.

Definition ListRooms `{PgSearch} (h : Header) (req : ListRoomsRequest) : SM RoomDB ListRoomsResponse :=
  ctxDone ;;;
  let '(cursor, limit) := match lrPage req with
                          | Some (c, l) => (c, if 0 <? l then l else 50)
                          | None => ("", 50)
                          end in
  let subject := subjectFromHeader h in
  let visibilities := if SYSTEM_ADMINISTRATOR <=? sbSystemRole subject
                      then [VisibilityPublic; VisibilityUnlisted; VisibilityPrivate]
                      else [VisibilityPublic] in
  page <- smapErr (fun e => EVb (WithCause e (Internal "LIST_ROOMS_FAILED" (errText e))))
            (readTx (RoomRepo_List cursor limit (lrSearch req) visibilities)) ;;
  sret (mkListResp (map roomToProto page.1) page.2 (Z.of_nat (length page.1))).

(** The invite check of a private room; [err != nil || inviteRoomID != roomID]. *)
Definition checkInvite (roomID code : string) : SM RoomDB unit :=
  if bool_decide (code = "") then sfail (EVb (PermissionDenied "room.join" (roomRes roomID)))
  else
    inviteRoomID <- smapErr (fun _ => EVb (PermissionDenied "room.join" (roomRes roomID)))
                      (InviteRepo_Get code) ;;
    if bool_decide (inviteRoomID = roomID) then sret tt
    else sfail (EVb (PermissionDenied "room.join" (roomRes roomID))).

(** The transaction of [JoinRoom]: the room as the response shows it and the
    assigned role. *)
Definition joinTx (subject : requestSubject) (roomID code : string) (now : time)
    : SM RoomDB (Room * RoomRole) :=
  room <- RoomRepo_GetByID roomID ;;
  (if RequiresInvite room then checkInvite roomID code else sret tt) ;;;
  if IsFull room
  then sfail (EVb (ResourceExhausted "vibesync.room" "ROOM_FULL" "room is at capacity"))
  else
    existing <- stry (MemberRepo_Get roomID (sbUserID subject)) ;;
    match existing with
    | Ok m => sret (room, mRole m)
    | Err err =>
        if negb (isNotFound err) then sfail err
        else
          MemberRepo_Upsert (mkMember roomID (sbUserID subject) ROLE_MEMBER now) ;;;
          MemberRepo_IncrementRoomMemberCount roomID 1 ;;;
          eid <- snewID ;;
          OutboxRepo_Append (roomEvent eid roomID "room.joined.v1"
            (<["room_id" := JStr roomID]> (<["user_id" := JStr (sbUserID subject)]>
             (<["role" := JInt ROLE_MEMBER]> (<["joined_at" := JTime now]> ∅)))) now) ;;;
          sret (set_rMemberCount (rMemberCount room + 1) room, ROLE_MEMBER)
    end.

Definition JoinRoom (h : Header) (roomID code : string) : SM RoomDB (ProtoRoom * RoomRole) :=
  ctxDone ;;;
  let subject := subjectFromHeader h in
  if sbSystemRole subject <? SYSTEM_USER then sfail (EVb (PermissionDenied "room.join" "rooms"))
  else if bool_decide (roomID = "")
  then sfail (EVb (InvalidArgumentFor "vibesync.room" "MISSING_ROOM_ID" "room_id required"))
  else
    now <- snow ;;
    rr <- withTx (joinTx subject roomID code now) ;;
    sret (roomToProto rr.1, rr.2).

Definition updateTx (subject : requestSubject) (req : UpdateRoomRequest) : SM RoomDB Room :=
  room <- RoomRepo_GetByID (urId req) ;;
  requireRoomRole (urId req) subject ROLE_OWNER ;;;
  now <- snow ;; rnd <- srand 6 ;;
  let room := ApplyUpdate rnd now (urName req) (urDescription req)
                (option_map int8 (urVisibility req)) (urMaxMembers req) room in
  RoomRepo_Update room ;;;
  sret room.

Definition UpdateRoom (h : Header) (req : UpdateRoomRequest) : SM RoomDB ProtoRoom :=
  ctxDone ;;;
  room <- withTx (updateTx (subjectFromHeader h) req) ;;
  sret (roomToProto room).

Definition deleteTx (subject : requestSubject) (roomID : string) : SM RoomDB unit :=
  requireRoomRole roomID subject ROLE_OWNER ;;;
  RoomRepo_Delete roomID ;;;
  deleted <- snow ;; eid <- snewID ;; at_ <- snow ;;
  OutboxRepo_Append (roomEvent eid roomID "room.deleted.v1"
    (<["room_id" := JStr roomID]> (<["deleted_at" := JTime deleted]> ∅)) at_).

Definition DeleteRoom (h : Header) (roomID : string) : SM RoomDB unit :=
  ctxDone ;;;
  withTx (deleteTx (subjectFromHeader h) roomID).

(** ** Membership *)

Definition leaveTx (subject : requestSubject) (roomID : string) : SM RoomDB unit :=
  room <- RoomRepo_GetByID roomID ;;
  if bool_decide (rOwnerID room = sbUserID subject)
  then sfail (EVb (FailedPrecondition "vibesync.room" "OWNER_CANNOT_LEAVE"
                     "room owner must delete or transfer the room before leaving"))
  else
    existing <- stry (MemberRepo_Get roomID (sbUserID subject)) ;;
    match existing with
    | Err err => if isNotFound err then sret tt else sfail err
    | Ok _ =>
        MemberRepo_Delete roomID (sbUserID subject) ;;;
        PermissionRepo_Delete roomID (sbUserID subject) ;;;
        MemberRepo_IncrementRoomMemberCount roomID (-1)
    end.

(** The [left] flag of the response is never set. *)
Definition LeaveRoom (h : Header) (roomID : string) : SM RoomDB bool :=
  ctxDone ;;;
  let left := false in
  withTx (leaveTx (subjectFromHeader h) roomID) ;;;
  sret left.

Definition GetMembers (h : Header) (roomID : string) : SM RoomDB (list ProtoMember) :=
  ctxDone ;;;
  let subject := subjectFromHeader h in
  rows <- readTx (
    (if sbSystemRole subject <? SYSTEM_ADMINISTRATOR then
       orNotFound (EVb (PermissionDenied "get_members" (roomRes roomID)))
         (MemberRepo_Get roomID (sbUserID subject)) ;;; sret tt
     else sret tt) ;;;
    members <- MemberRepo_List roomID ;;
    memberPerms <- PermissionRepo_ListByRoom roomID ;;
    sret (members, memberPerms)) ;;
  sret (map (fun m => mkProtoMember (mUserID m) (mRole m) (mJoinedAt m)
                        (ToProto (default 0 (rows.2 !! mUserID m)))) rows.1).

Definition kickTx (subject : requestSubject) (roomID targetID : string) : SM RoomDB bool :=
    byMember <- orNotFound (EVb (PermissionDenied "kick_member" (roomRes roomID)))
                  (MemberRepo_Get roomID (sbUserID subject)) ;;
    target <- orNotFound (EVb (NotFound "member" targetID)) (MemberRepo_Get roomID targetID) ;;
    if negb (CanKick (mRole byMember) (mRole target))
    then sfail (EVb (PermissionDenied "kick_member" (userRes targetID)))
    else
      MemberRepo_Delete roomID targetID ;;;
      PermissionRepo_Delete roomID targetID ;;;
      MemberRepo_IncrementRoomMemberCount roomID (-1) ;;;
      sret true.

Definition KickMember (h : Header) (roomID targetID : string) : SM RoomDB bool :=
  ctxDone ;;;
  withTx (kickTx (subjectFromHeader h) roomID targetID).

Definition updateRoleTx (subject : requestSubject) (roomID targetID : string) (newRole : RoomRole)
    : SM RoomDB Member :=
    byMember <- orNotFound (EVb (PermissionDenied "update_member_role" (roomRes roomID)))
                  (MemberRepo_Get roomID (sbUserID subject)) ;;
    if negb (CanPromote (mRole byMember) newRole)
    then sfail (EVb (PermissionDenied "update_member_role" (userRes targetID)))
    else
      target <- orNotFound (EVb (NotFound "member" targetID)) (MemberRepo_Get roomID targetID) ;;
      let target := set_mRole newRole target in
      MemberRepo_UpdateRole roomID targetID newRole ;;;
      sret target.

Definition UpdateMemberRole (h : Header) (roomID targetID : string) (newRole : RoomRole)
    : SM RoomDB ProtoMember :=
  ctxDone ;;;
  updated <- withTx (updateRoleTx (subjectFromHeader h) roomID targetID newRole) ;;
  sret (mkProtoMember (mUserID updated) (mRole updated) (mJoinedAt updated) []).

(** ** Permissions *)

Definition grantTx (subject : requestSubject) (roomID targetID : string) (perms : Permissions)
    : SM RoomDB unit :=
    room <- RoomRepo_GetByID roomID ;;
    if negb (bool_decide (rOwnerID room = sbUserID subject))
    then sfail (EVb (PermissionDenied "grant_permissions" (roomRes roomID)))
    else if bool_decide (targetID = sbUserID subject)
    then sfail (EVb (InvalidArgumentFor "vibesync.room" "GRANT_SELF"
                       "the owner already holds every permission"))
    else
      orNotFound (EVb (NotFound "member" targetID)) (MemberRepo_Get roomID targetID) ;;;
      PermissionRepo_Set roomID targetID perms.

Definition GrantPermissions (h : Header) (roomID targetID : string) (req : list RoomPermission)
    : SM RoomDB (list RoomPermission) :=
  ctxDone ;;;
  let perms := PermissionsFromProto req in
  withTx (grantTx (subjectFromHeader h) roomID targetID perms) ;;;
  sret (ToProto perms).

(** The answer: the grants and whether the user is the owner. *)
Definition GetMemberPermissions (roomID userID : string) : SM RoomDB (list RoomPermission * bool) :=
  ctxDone ;;;
  answer <- readTx (
    room <- stry (RoomRepo_GetByID roomID) ;;
    match room with
    | Err err => if isNotFound err then sret None else sfail err
    | Ok room =>
        perms <- PermissionRepo_Get roomID userID ;;
        sret (Some (perms, bool_decide (rOwnerID room = userID)))
    end) ;;
  match answer with
  | None => sfail (EVb (NotFound "room" roomID))
  | Some (perms, isOwner) => sret (ToProto perms, isOwner)
  end.

(** ** The service as a whole *)

Inductive room_op : Type :=
| OpCreateRoom (h : Header) (req : CreateRoomRequest)
| OpGetRoom (h : Header) (lookup : RoomLookup)
| OpListRooms (h : Header) (req : ListRoomsRequest)
| OpJoinRoom (h : Header) (roomID code : string)
| OpUpdateRoom (h : Header) (req : UpdateRoomRequest)
| OpDeleteRoom (h : Header) (roomID : string)
| OpLeaveRoom (h : Header) (roomID : string)
| OpGetMembers (h : Header) (roomID : string)
| OpKickMember (h : Header) (roomID targetID : string)
| OpUpdateMemberRole (h : Header) (roomID targetID : string) (newRole : RoomRole)
| OpGrantPermissions (h : Header) (roomID targetID : string) (req : list RoomPermission)
| OpGetMemberPermissions (roomID userID : string).

Definition discard {A} (m : SM RoomDB A) : SM RoomDB unit := m ;;; sret tt.

(** The handler of an operation. *)
Definition room_exec `{PgSearch} (o : room_op) : SM RoomDB unit :=
  match o with
  | OpCreateRoom h req => discard (CreateRoom h req)
  | OpGetRoom h l => discard (GetRoom h l)
  | OpListRooms h req => discard (ListRooms h req)
  | OpJoinRoom h r c => discard (JoinRoom h r c)
  | OpUpdateRoom h req => discard (UpdateRoom h req)
  | OpDeleteRoom h r => DeleteRoom h r
  | OpLeaveRoom h r => discard (LeaveRoom h r)
  | OpGetMembers h r => discard (GetMembers h r)
  | OpKickMember h r t => discard (KickMember h r t)
  | OpUpdateMemberRole h r t n => discard (UpdateMemberRole h r t n)
  | OpGrantPermissions h r t p => discard (GrantPermissions h r t p)
  | OpGetMemberPermissions r u => discard (GetMemberPermissions r u)
  end.

(** Requests one after the other; an error ends a request, not the service. *)
Fixpoint room_run `{PgSearch} (ops : list room_op) (s : st RoomDB) : st RoomDB :=
  match ops with
  | [] => s
  | o :: ops => room_run ops (room_exec o s).2
  end.
End service.
