(* ===== verification/RoomServiceInv.v ===== *)
(** * The room service keeps its database consistent

    The invariant of the tables of [RoomRepo], what each statement does to it,
    and that every handler of [RoomService] keeps it. *)

From S2P Require Import Prelude GoNum Errors GoString Store RoomDomain Outbox Web RoomRepo.
From S2P Require Import RoomService.

Open Scope sm_scope.

(** ** The invariant *)

Definition memberCount (id : string) (db : RoomDB) : Z :=
  Z.of_nat (size (filter (fun km => km.1.1 = id) (dMembers db))).

(** Inside a transaction the count of room [id] can be [d] members behind, and
    the grants of the member [ex] can outlive the membership. *)
Record inv_at (id : string) (d : Z) (ex : option (string * string)) (db : RoomDB) : Prop := {
  ri_key : forall k r, dRooms db !! k = Some r -> rID r = k;
  ri_count : forall k r, dRooms db !! k = Some r ->
    rMemberCount r + (if bool_decide (k = id) then d else 0) = memberCount k db;
  ri_slug : forall k1 k2 r1 r2, dRooms db !! k1 = Some r1 -> dRooms db !! k2 = Some r2 ->
    rSlug r1 = rSlug r2 -> k1 = k2;
  ri_member : forall k m, dMembers db !! k = Some m ->
    k = (mRoomID m, mUserID m) /\ is_Some (dRooms db !! k.1);
  ri_perm : forall k p, dPerms db !! k = Some p -> Some k <> ex -> is_Some (dMembers db !! k);
  ri_permroom : forall k p, dPerms db !! k = Some p -> is_Some (dRooms db !! k.1);
  ri_invite : forall c i, dInvites db !! c = Some i -> is_Some (dRooms db !! i.1);
}.

(** Between requests: every room's [member_count] is the number of its members,
    slugs are unique, and members, grants and invites belong to existing rooms
    and members. *)
Definition room_inv (db : RoomDB) : Prop := inv_at "" 0 None db.

Lemma room_inv_at id db : room_inv db <-> inv_at id 0 None db.
Proof.
  split; intros []; split; try done; intros k r Hk; rewrite <- (ri_count0 k r Hk);
    by repeat case_bool_decide.
Qed.

Lemma room_inv_empty : room_inv emptyRoomDB.
Proof. by split. Qed.

(** ** Counting members *)

Lemma memberCount_members id db db' :
  dMembers db = dMembers db' -> memberCount id db = memberCount id db'.
Proof. unfold memberCount. by intros ->. Qed.

Lemma memberCount_insert_new id k m db :
  dMembers db !! k = None ->
  memberCount id (set_dMembers (insert k m) db) =
  memberCount id db + (if bool_decide (k.1 = id) then 1 else 0).
Proof.
  intros Hk. unfold memberCount, set_dMembers. simpl. case_bool_decide as Hid.
  - rewrite map_filter_insert_True by done.
    rewrite map_size_insert_None; [lia|]. by apply map_lookup_filter_None_2; left.
  - rewrite map_filter_insert_False by done.
    rewrite delete_id by done. lia.
Qed.

Lemma memberCount_insert_old id k m m' db :
  dMembers db !! k = Some m' ->
  memberCount id (set_dMembers (insert k m) db) = memberCount id db.
Proof.
  intros Hk. unfold memberCount, set_dMembers. simpl. destruct (decide (k.1 = id)) as [Hid|Hid].
  - rewrite map_filter_insert_True by done.
    rewrite map_size_insert_Some; [done|]. eexists. by apply map_lookup_filter_Some_2.
  - rewrite map_filter_insert_False by done. rewrite map_filter_delete.
    rewrite delete_id; [done|]. apply map_lookup_filter_None_2. right. intros ? ?. done.
Qed.

Lemma memberCount_delete id k m db :
  dMembers db !! k = Some m ->
  memberCount id (set_dMembers (delete k) db) =
  memberCount id db - (if bool_decide (k.1 = id) then 1 else 0).
Proof.
  intros Hk. unfold memberCount, set_dMembers. simpl. rewrite map_filter_delete.
  case_bool_decide as Hid.
  - assert (filter (fun km => km.1.1 = id) (dMembers db) !! k = Some m) as Hf
      by by apply map_lookup_filter_Some_2.
    rewrite map_size_delete_Some by by eexists.
    assert (size (filter (fun km => km.1.1 = id) (dMembers db)) <> 0%nat).
    { intros Hz. apply map_size_empty_inv in Hz. by rewrite Hz in Hf. }
    lia.
  - rewrite delete_id; [lia|]. apply map_lookup_filter_None_2. by right.
Qed.

Lemma memberCount_zero id db :
  (forall k m, dMembers db !! k = Some m -> k.1 <> id) -> memberCount id db = 0.
Proof.
  intros Hk. unfold memberCount.
  assert (filter (fun km => km.1.1 = id) (dMembers db) = ∅) as ->; [|done].
  apply map_empty. intros k. apply map_lookup_filter_None_2. right. intros m Hm. by eapply Hk.
Qed.

Lemma memberCount_alter id k f db :
  memberCount id (set_dMembers (alter f k) db) = memberCount id db.
Proof.
  destruct (dMembers db !! k) as [m|] eqn:E.
  - rewrite <- (memberCount_insert_old id k (f m) m db E). unfold memberCount, set_dMembers. simpl.
    do 2 f_equal. f_equal. apply map_eq. intros j.
    destruct (decide (j = k)) as [->|Hj].
    + by rewrite lookup_alter, lookup_insert_eq, E, decide_True.
    + by rewrite lookup_alter_ne, lookup_insert_ne.
  - unfold memberCount, set_dMembers. simpl. do 2 f_equal. f_equal. apply map_eq. intros j.
    destruct (decide (j = k)) as [->|Hj].
    + by rewrite lookup_alter, E, decide_True.
    + by rewrite lookup_alter_ne.
Qed.

Lemma memberCount_cascade id id' db :
  id <> id' -> memberCount id' (cascadeDelete id db) = memberCount id' db.
Proof.
  intros Hne. unfold memberCount, cascadeDelete. simpl. do 2 f_equal.
  rewrite map_filter_filter. apply map_filter_ext. intros k m Hm. split; [by intros [??]|].
  intros ->. split; [done|]. by intros ->.
Qed.

(** ** What the statements do to the invariant *)

Section statements.
Context `{Env}.
Implicit Types (db : RoomDB).

(** Replacing the row of a room, keeping its members. *)
Lemma inv_at_room id d d' ex db r r' :
  inv_at id d ex db -> dRooms db !! id = Some r -> rID r' = rID r ->
  rMemberCount r' + d' = rMemberCount r + d ->
  (forall k r0, k <> id -> dRooms db !! k = Some r0 -> rSlug r0 <> rSlug r') ->
  inv_at id d' ex (set_dRooms (insert id r') db).
Proof.
  intros [Hk Hc Hs Hm Hp Hpr Hi] Hr Hid Hn Hslug.
  assert (forall k, is_Some (dRooms db !! k) ->
            is_Some (dRooms (set_dRooms (insert id r') db) !! k)) as Hsome.
  { intros k [x Hx]. simpl. destruct (decide (k = id)) as [->|].
    - rewrite lookup_insert_eq. by eexists.
    - rewrite lookup_insert_ne by done. by eexists. }
  split; simpl.
  - intros k r0. destruct (decide (k = id)) as [->|Hne].
    + rewrite lookup_insert_eq. intros [= <-]. rewrite Hid. by apply Hk.
    + rewrite lookup_insert_ne by done. apply Hk.
  - intros k r0. rewrite (memberCount_members k (set_dRooms _ db) db) by done.
    destruct (decide (k = id)) as [->|Hne].
    + rewrite lookup_insert_eq. intros [= <-]. specialize (Hc id r Hr).
      rewrite bool_decide_true in * by done. lia.
    + rewrite lookup_insert_ne by done. intros Hr0. specialize (Hc k r0 Hr0).
      by rewrite bool_decide_false in * by done.
  - intros k1 k2 r1 r2.
    destruct (decide (k1 = id)) as [->|H1], (decide (k2 = id)) as [->|H2]; [done|..];
      rewrite ?lookup_insert_eq, ?lookup_insert_ne by done.
    + intros [= <-] H2' Heq. by destruct (Hslug k2 r2 H2 H2').
    + intros H1' [= <-] Heq. by destruct (Hslug k1 r1 H1 H1').
    + apply Hs.
  - intros k m Hkm. destruct (Hm k m Hkm) as [? ?]. split; [done|by apply Hsome].
  - done.
  - intros k p Hkp. apply Hsome. by eapply Hpr.
  - intros c i Hci. apply Hsome. by eapply Hi.
Qed.

Lemma slugTaken_false slug id rooms k r :
  slugTaken slug id rooms = false -> k <> id -> rooms !! k = Some r -> rSlug r <> slug.
Proof.
  unfold slugTaken. intros Ht Hne Hr Heq.
  assert (existsb (fun kr => bool_decide (rSlug kr.2 = slug) && negb (bool_decide (kr.1 = id)))
            (map_to_list rooms) = true); [|congruence].
  apply existsb_exists. exists (k, r). split.
  - apply list_elem_of_In. by apply elem_of_map_to_list.
  - simpl. by rewrite bool_decide_true, bool_decide_false by done.
Qed.

(** A room that does not exist has no members. *)
Lemma no_members id d ex db k u :
  inv_at id d ex db -> dRooms db !! k = None -> dMembers db !! (k, u) = None.
Proof.
  intros Hinv Hk. destruct (dMembers db !! (k, u)) as [m|] eqn:E; [|done].
  destruct (ri_member _ _ _ _ Hinv _ _ E) as [_ [x Hx]]. simpl in Hx. congruence.
Qed.

Lemma RoomRepo_Create_inv r u :
  rMemberCount r = 0 ->
  establishes room_inv (fun db => inv_at (rID r) 0 None db /\ dMembers db !! (rID r, u) = None /\
                                  is_Some (dRooms db !! rID r))
    (RoomRepo_Create r).
Proof.
  intros H0. apply establishes_mapErr, establishes_stmt. intros db a db' Hinv.
  destruct (columnsOk r); [done|]. case_bool_decide as Hex; [done|].
  destruct (slugTaken _ _ _) eqn:Es; [done|]. intros [= <- <-].
  apply eq_None_not_Some in Hex.
  assert (dMembers db !! (rID r, u) = None) as Hnone by by eapply no_members.
  assert (memberCount (rID r) db = 0) as Hzero.
  { apply memberCount_zero. intros [k1 k2] m Hm. simpl. intros ->.
    by rewrite (no_members _ _ _ db (rID r) k2 Hinv Hex) in Hm. }
  split_and!; [|done|simpl; rewrite lookup_insert_eq; by eexists].
  assert (forall k, is_Some (dRooms db !! k) ->
            is_Some (dRooms (set_dRooms (insert (rID r) (storedRoom r)) db) !! k)) as Hsome.
  { intros k [x Hx]. simpl. rewrite lookup_insert_ne by congruence. by eexists. }
  destruct Hinv as [Hk Hc Hs Hm Hp Hpr Hi]. split; simpl.
  - intros k r0. destruct (decide (k = rID r)) as [->|Hne].
    + rewrite lookup_insert_eq. by intros [= <-].
    + rewrite lookup_insert_ne by done. apply Hk.
  - intros k r0. rewrite (memberCount_members k (set_dRooms _ db) db) by done.
    destruct (decide (k = rID r)) as [->|Hne].
    + rewrite lookup_insert_eq. intros [= <-]. simpl. case_bool_decide; lia.
    + rewrite lookup_insert_ne by done. intros Hr0. specialize (Hc k r0 Hr0).
      by repeat case_bool_decide.
  - intros k1 k2 r1 r2.
    destruct (decide (k1 = rID r)) as [->|H1], (decide (k2 = rID r)) as [->|H2]; [done|..];
      rewrite ?lookup_insert_eq, ?lookup_insert_ne by done.
    + intros [= <-] H2' Heq. by destruct (slugTaken_false _ _ _ _ _ Es H2 H2').
    + intros H1' [= <-] Heq. by destruct (slugTaken_false _ _ _ _ _ Es H1 H1').
    + apply Hs.
  - intros k m Hkm. destruct (Hm k m Hkm) as [? ?]. split; [done|by apply Hsome].
  - done.
  - intros k p Hkp. apply Hsome. by eapply Hpr.
  - intros c i Hci. apply Hsome. by eapply Hi.
Qed.

Lemma RoomRepo_Update_inv r :
  establishes (fun db => room_inv db /\ exists old, dRooms db !! rID r = Some old /\
                                                    rMemberCount r = rMemberCount old)
    room_inv (RoomRepo_Update r).
Proof.
  apply establishes_mapErr, establishes_stmt. intros db a db' [Hinv (old & Hold & Hc)].
  destruct (columnsOk r); [done|]. rewrite Hold. destruct (slugTaken _ _ _) eqn:Es; [done|].
  intros [= <- <-]. apply (room_inv_at (rID r)). apply (room_inv_at (rID r)) in Hinv.
  apply (inv_at_room _ 0 0 None db old); try done.
  - simpl. lia.
  - intros k r0 Hne Hr0. by eapply slugTaken_false.
Qed.

Lemma RoomRepo_Delete_inv id : establishes room_inv room_inv (RoomRepo_Delete id).
Proof.
  apply establishes_mapErr, establishes_stmt. intros db a db' Hinv [= <- <-].
  destruct Hinv as [Hk Hc Hs Hm Hp Hpr Hi].
  assert (forall k, k <> id -> is_Some (dRooms db !! k) ->
            is_Some (dRooms (cascadeDelete id db) !! k)) as Hsome.
  { intros k Hne [x Hx]. simpl. rewrite lookup_delete_ne by done. by eexists. }
  split; simpl.
  - intros k r [_ Hr]%lookup_delete_Some. by apply Hk.
  - intros k r [Hne Hr]%lookup_delete_Some. rewrite memberCount_cascade by done. by apply Hc.
  - intros k1 k2 r1 r2 [_ H1]%lookup_delete_Some [_ H2]%lookup_delete_Some. by apply Hs.
  - intros k m [Hkm Hne]%map_lookup_filter_Some. destruct (Hm k m Hkm).
    split; [done|by apply Hsome].
  - intros k p [Hkp Hne]%map_lookup_filter_Some _. destruct (Hp k p Hkp) as [m Hmk]; [done|].
    exists m. by apply map_lookup_filter_Some_2.
  - intros k p [Hkp Hne]%map_lookup_filter_Some. apply Hsome; [done|by eapply Hpr].
  - intros c i [Hci Hne]%map_lookup_filter_Some. apply Hsome; [done|by eapply Hi].
Qed.

Lemma MemberRepo_Upsert_inv id u role t :
  establishes (fun db => inv_at id 0 None db /\ dMembers db !! (id, u) = None)
    (inv_at id 1 None) (MemberRepo_Upsert (mkMember id u role t)).
Proof.
  apply establishes_mapErr, establishes_stmt. intros db a db' [Hinv Hnone]. simpl.
  destruct (dRooms db !! id) as [r|] eqn:Er; [|done]. rewrite Hnone. intros [= <- <-].
  destruct Hinv as [Hk Hc Hs Hm Hp Hpr Hi]. split; try done.
  - intros k r0 Hr0. rewrite memberCount_insert_new by done. specialize (Hc k r0 Hr0). simpl.
    repeat case_bool_decide; subst; try done; lia.
  - intros k m. simpl. destruct (decide (k = (id, u))) as [->|Hne].
    + rewrite lookup_insert_eq. intros [= <-]. split; [done|]. simpl. by eexists.
    + rewrite lookup_insert_ne by done. apply Hm.
  - intros k p Hkp _. simpl. destruct (decide (k = (id, u))) as [->|Hne].
    + rewrite lookup_insert_eq. by eexists.
    + rewrite lookup_insert_ne by done. by eapply Hp.
Qed.

Lemma MemberRepo_Delete_inv id u :
  establishes (fun db => inv_at id 0 None db /\ is_Some (dMembers db !! (id, u)))
    (inv_at id (-1) (Some (id, u))) (MemberRepo_Delete id u).
Proof.
  apply establishes_mapErr, establishes_stmt. intros db a db' [Hinv [m Hsome]] [= <- <-].
  destruct Hinv as [Hk Hc Hs Hm Hp Hpr Hi]. split; try done.
  - intros k r0 Hr0. rewrite (memberCount_delete k (id, u) m) by done. specialize (Hc k r0 Hr0).
    simpl. repeat case_bool_decide; subst; try done; lia.
  - intros k m0. simpl. intros [_ Hk0]%lookup_delete_Some. by apply Hm.
  - intros k p Hkp Hne. simpl. rewrite lookup_delete_ne by congruence. by eapply Hp.
Qed.

Lemma PermissionRepo_Delete_inv id d u :
  establishes (inv_at id d (Some (id, u))) (inv_at id d None) (PermissionRepo_Delete id u).
Proof.
  apply establishes_mapErr, establishes_stmt. intros db a db' Hinv [= <- <-].
  destruct Hinv as [Hk Hc Hs Hm Hp Hpr Hi]. split; try done.
  - intros k p. simpl. intros [Hne Hk0]%lookup_delete_Some _. eapply Hp; [done|congruence].
  - intros k p. simpl. intros [Hne Hk0]%lookup_delete_Some. by eapply Hpr.
Qed.

Lemma MemberRepo_Increment_inv id d ex delta :
  establishes (inv_at id d ex) (inv_at id (d - delta) ex)
    (MemberRepo_IncrementRoomMemberCount id delta).
Proof.
  apply establishes_mapErr, establishes_stmt. intros db a db' Hinv.
  destruct (dRooms db !! id) as [r|] eqn:Er.
  - case_bool_decide; [|done]. intros [= <- <-]. apply (inv_at_room _ d _ ex db r); try done.
    + simpl. lia.
    + intros k r0 Hne Hr0 Heq. apply Hne. by eapply (ri_slug _ _ _ _ Hinv).
  - intros [= <- <-]. destruct Hinv as [Hk Hc Hs Hm Hp Hpr Hi]. split; try done.
    intros k r0 Hr0. rewrite <- (Hc k r0 Hr0). by repeat case_bool_decide; simplify_eq.
Qed.

Lemma MemberRepo_UpdateRole_inv id u role :
  establishes room_inv room_inv (MemberRepo_UpdateRole id u role).
Proof.
  apply establishes_mapErr, establishes_stmt. intros db a db' Hinv [= <- <-].
  destruct Hinv as [Hk Hc Hs Hm Hp Hpr Hi]. split; try done.
  - intros k r0 Hr0. rewrite memberCount_alter. by apply Hc.
  - intros k m. simpl. rewrite lookup_alter_Some. intros [(<- & m0 & Hm0 & ->)|[Hne Hk0]].
    + destruct (Hm _ _ Hm0). by split.
    + by apply Hm.
  - intros k p Hkp Hne. simpl. destruct (Hp k p Hkp Hne) as [m Hm0].
    destruct (decide (k = (id, u))) as [->|?].
    + eexists. rewrite lookup_alter_Some. left. split; [done|]. by exists m.
    + rewrite lookup_alter_ne by done. by eexists.
Qed.

Lemma InviteRepo_Create_inv id d ex code t :
  establishes (inv_at id d ex) (inv_at id d ex) (InviteRepo_Create code id t).
Proof.
  apply establishes_mapErr, establishes_stmt. intros db a db' Hinv.
  destruct (dRooms db !! id) as [r|] eqn:Er; [|done]. case_bool_decide; [done|].
  intros [= <- <-]. destruct Hinv as [Hk Hc Hs Hm Hp Hpr Hi]. split; try done.
  intros c i. simpl. destruct (decide (c = code)) as [->|Hne].
  - rewrite lookup_insert_eq. intros [= <-]. simpl. by eexists.
  - rewrite lookup_insert_ne by done. apply Hi.
Qed.

Lemma PermissionRepo_Set_inv id u p :
  establishes (fun db => room_inv db /\ is_Some (dMembers db !! (id, u))) room_inv
    (PermissionRepo_Set id u p).
Proof.
  apply establishes_mapErr, establishes_stmt. intros db a db' [Hinv Hsome].
  destruct (dRooms db !! id) as [r|] eqn:Er; [|done]. intros [= <- <-].
  destruct Hinv as [Hk Hc Hs Hm Hp Hpr Hi]. split; try done.
  - intros k p0. simpl. destruct (decide (k = (id, u))) as [->|Hne]; [done|].
    rewrite lookup_insert_ne by done. apply Hp.
  - intros k p0. simpl. destruct (decide (k = (id, u))) as [->|Hne].
    + intros _. simpl. by eexists.
    + rewrite lookup_insert_ne by done. apply Hpr.
Qed.

Lemma OutboxRepo_Append_inv id d ex e :
  establishes (inv_at id d ex) (inv_at id d ex) (OutboxRepo_Append e).
Proof.
  unfold OutboxRepo_Append, Append. simpl. case_bool_decide; [apply establishes_fail|].
  eapply establishes_bind; [|intros _; apply establishes_ret].
  apply establishes_mapErr, establishes_stmt. intros db a db' Hinv. destruct (insertEvent _ _) as [rows|]; [|done].
  intros [= <- <-]. by destruct Hinv.
Qed.
End statements.

#[export] Hint Resolve RoomRepo_Delete_inv MemberRepo_Delete_inv PermissionRepo_Delete_inv
  MemberRepo_Increment_inv MemberRepo_UpdateRole_inv InviteRepo_Create_inv
  PermissionRepo_Set_inv OutboxRepo_Append_inv MemberRepo_Upsert_inv RoomRepo_Create_inv
  RoomRepo_Update_inv : vibe.

(** ** Transactions *)

(** One step of a transaction that only reads or draws a value. *)
Ltac est_pure :=
  repeat match goal with
  | |- establishes ?P _ (sbind snow _) =>
      apply (establishes_bind P P); [apply establishes_now|intros ?]
  | |- establishes ?P _ (sbind snewID _) =>
      apply (establishes_bind P P); [apply establishes_newID|intros ?]
  | |- establishes ?P _ (sbind (srand _) _) =>
      apply (establishes_bind P P); [apply establishes_rand|intros ?]
  | |- establishes _ _ (sfail _) => apply establishes_fail
  end.

Section transactions.
Context `{Env}.

Lemma reads_room id : reads (fun db => scanRoom <$> dRooms db !! id) (RoomRepo_GetByID id).
Proof. apply reads_mapErr, reads_queryRow. Qed.
Lemma reads_member r u : reads (fun db => dMembers db !! (r, u)) (MemberRepo_Get r u).
Proof. apply reads_mapErr, reads_queryRow. Qed.
Lemma reads_member_or e r u :
  reads (fun db => dMembers db !! (r, u)) (orNotFound e (MemberRepo_Get r u)).
Proof. apply reads_mapErr, reads_member. Qed.

(** The role check only lets administrators and members of the role through. *)
Lemma requireRoomRole_est P roomID subject minRole :
  establishes P (fun db => P db /\ (SYSTEM_ADMINISTRATOR <= sbSystemRole subject \/
    exists m, dMembers db !! (roomID, sbUserID subject) = Some m /\ minRole <= mRole m))
    (requireRoomRole roomID subject minRole).
Proof.
  unfold requireRoomRole. destruct (Z.leb_spec SYSTEM_ADMINISTRATOR (sbSystemRole subject)).
  { eapply establishes_pre; [apply establishes_ret|]. intros db Hp. by split; [|left]. }
  eapply establishes_reads; [apply reads_member_or|]. intros m. simpl.
  destruct (Z.ltb_spec (mRole m) minRole); [apply establishes_fail|].
  eapply establishes_pre; [apply establishes_ret|]. intros db [Hp Hm]. split; [done|].
  right. by exists m.
Qed.

Lemma checkInvite_est P roomID code : establishes P P (checkInvite roomID code).
Proof.
  unfold checkInvite. case_bool_decide; [apply establishes_fail|].
  apply (establishes_bind P P).
  - apply establishes_mapErr. unfold InviteRepo_Get. est_pure.
    eapply establishes_read, reads_mapErr, reads_queryRow.
  - intros r. case_bool_decide; [apply establishes_ret|apply establishes_fail].
Qed.

Lemma createTx_inv subject room :
  rMemberCount room = 0 -> establishes room_inv room_inv (createTx subject room).
Proof.
  intros H0. unfold createTx.
  eapply establishes_bind; [by apply (RoomRepo_Create_inv room (sbUserID subject))|intros _].
  est_pure. eapply (establishes_bind _ (inv_at (rID room) 1 None)).
  { eapply establishes_pre; [apply MemberRepo_Upsert_inv|]. by intros db (?&?&?). }
  intros _. eapply (establishes_bind _ (inv_at (rID room) (1 - 1) None));
    [apply MemberRepo_Increment_inv|intros _].
  eapply (establishes_bind _ (inv_at (rID room) (1 - 1) None)).
  { case_match; [|apply establishes_ret]. est_pure. apply InviteRepo_Create_inv. }
  intros _. est_pure. eapply establishes_weaken; [apply OutboxRepo_Append_inv|done|].
  intros db. apply room_inv_at.
Qed.

Lemma joinTx_inv subject roomID code now :
  establishes room_inv room_inv (joinTx subject roomID code now).
Proof.
  unfold joinTx. eapply establishes_reads; [apply reads_room|]. intros room.
  eapply establishes_bind.
  { case_match; [apply checkInvite_est|apply establishes_ret]. }
  intros _. case_match; [apply establishes_fail|].
  eapply establishes_try_reads; [apply reads_member|..].
  - intros m. eapply establishes_pre; [apply establishes_ret|]. by intros db [[? ?] ?].
  - intros e. case_match; [apply establishes_fail|].
    eapply (establishes_bind _ (inv_at roomID 1 None)).
    { eapply establishes_pre; [apply MemberRepo_Upsert_inv|]. intros db [[Hi _] Hm].
      split; [by apply (room_inv_at roomID)|done]. }
    intros _. eapply (establishes_bind _ (inv_at roomID (1 - 1) None));
      [apply MemberRepo_Increment_inv|intros _].
    est_pure. eapply establishes_bind; [apply OutboxRepo_Append_inv|intros _].
    eapply establishes_weaken; [apply (establishes_ret (inv_at roomID (1 - 1) None))|done|].
    intros db. apply room_inv_at.
Qed.

Lemma updateTx_inv subject req : establishes room_inv room_inv (updateTx subject req).
Proof.
  unfold updateTx. eapply establishes_reads; [apply reads_room|]. intros room.
  eapply establishes_bind; [apply requireRoomRole_est|intros _]. est_pure.
  eapply (establishes_bind _ room_inv); [|intros _; apply establishes_ret].
  eapply establishes_pre; [apply RoomRepo_Update_inv|].
  intros db [[Hinv Hr] _]. split; [done|].
  destruct (dRooms db !! urId req) as [old|] eqn:Eo; [|done]. simpl in Hr. injection Hr as <-.
  exists old. pose proof (ri_key _ _ _ _ Hinv _ _ Eo) as Hk. unfold ApplyUpdate.
  destruct (match urName req with Some _ => _ | None => _ end) as [nm slug].
  cbn [rID rMemberCount scanRoom]. by rewrite Hk.
Qed.

Lemma deleteTx_inv subject roomID : establishes room_inv room_inv (deleteTx subject roomID).
Proof.
  unfold deleteTx. eapply establishes_bind; [apply requireRoomRole_est|intros _].
  eapply (establishes_bind _ room_inv).
  { eapply establishes_pre; [apply RoomRepo_Delete_inv|]. by intros db [? ?]. }
  intros _. est_pure. apply OutboxRepo_Append_inv.
Qed.

(** Removing a member, its grants, and one from the count. *)
Lemma removeMember_inv roomID userID :
  establishes (fun db => room_inv db /\ is_Some (dMembers db !! (roomID, userID))) room_inv
    (MemberRepo_Delete roomID userID ;;;
     PermissionRepo_Delete roomID userID ;;;
     MemberRepo_IncrementRoomMemberCount roomID (-1)).
Proof.
  eapply (establishes_bind _ (inv_at roomID (-1) (Some (roomID, userID)))).
  { eapply establishes_pre; [apply MemberRepo_Delete_inv|]. intros db [Hi Hm].
    split; [by apply (room_inv_at roomID)|done]. }
  intros _. eapply (establishes_bind _ (inv_at roomID (-1) None));
    [apply PermissionRepo_Delete_inv|intros _].
  eapply establishes_weaken; [apply (MemberRepo_Increment_inv roomID (-1) None (-1))|done|].
  intros db. apply room_inv_at.
Qed.

Lemma leaveTx_inv subject roomID : establishes room_inv room_inv (leaveTx subject roomID).
Proof.
  unfold leaveTx. eapply establishes_reads; [apply reads_room|]. intros room.
  case_bool_decide; [apply establishes_fail|].
  eapply establishes_try_reads; [apply reads_member|..].
  - intros m. eapply establishes_pre; [apply removeMember_inv|].
    intros db [[Hi _] Hm]. split; [done|by eexists].
  - intros e. case_match; [|apply establishes_fail].
    eapply establishes_pre; [apply establishes_ret|]. by intros db [[? ?] ?].
Qed.

Lemma kickTx_inv subject roomID targetID :
  establishes room_inv room_inv (kickTx subject roomID targetID).
Proof.
  unfold kickTx. eapply establishes_reads; [apply reads_member_or|]. intros by_.
  eapply establishes_reads; [apply reads_member_or|]. intros target.
  case_match; [apply establishes_fail|].
  eapply (establishes_bind _ (inv_at roomID (-1) (Some (roomID, targetID)))).
  { eapply establishes_pre; [apply MemberRepo_Delete_inv|]. intros db [[Hi _] Hm].
    split; [by apply (room_inv_at roomID)|by eexists]. }
  intros _. eapply (establishes_bind _ (inv_at roomID (-1) None));
    [apply PermissionRepo_Delete_inv|intros _].
  eapply (establishes_bind _ (inv_at roomID (-1 - -1) None)); [apply MemberRepo_Increment_inv|].
  intros _. eapply establishes_weaken; [apply (establishes_ret (inv_at roomID (-1 - -1) None))|done|].
  intros db. apply room_inv_at.
Qed.

Lemma updateRoleTx_inv subject roomID targetID role :
  establishes room_inv room_inv (updateRoleTx subject roomID targetID role).
Proof.
  unfold updateRoleTx. eapply establishes_reads; [apply reads_member_or|]. intros by_.
  case_match; [apply establishes_fail|].
  eapply establishes_reads; [apply reads_member_or|]. intros target.
  eapply (establishes_bind _ room_inv); [|intros _; apply establishes_ret].
  eapply establishes_pre; [apply MemberRepo_UpdateRole_inv|]. by intros db [[? ?] ?].
Qed.

Lemma grantTx_inv subject roomID targetID perms :
  establishes room_inv room_inv (grantTx subject roomID targetID perms).
Proof.
  unfold grantTx. eapply establishes_reads; [apply reads_room|]. intros room.
  apply establishes_if; [apply establishes_fail|]. apply establishes_if; [apply establishes_fail|].
  eapply establishes_reads; [apply reads_member_or|]. intros target.
  eapply establishes_pre; [apply PermissionRepo_Set_inv|].
  intros db [[Hi _] Hm]. split; [done|by eexists].
Qed.
End transactions.

(** ** Handlers *)

(** Read-only transactions. *)
Definition readonly {DB A} (m : SM DB A) : Prop := forall P, establishes P P m.

Section handlers.
Context `{Env} `{PgSearch}.

Lemma readonly_bind {A B} (m : SM RoomDB A) (k : A -> SM RoomDB B) :
  readonly m -> (forall a, readonly (k a)) -> readonly (sbind m k).
Proof. intros Hm Hk P. eapply establishes_bind; [apply Hm|intros a; apply Hk]. Qed.
Lemma readonly_ret {A} (a : A) : readonly (@sret RoomDB A a).
Proof. intros P. apply establishes_ret. Qed.
Lemma readonly_fail {A} e : readonly (@sfail RoomDB A e).
Proof. intros P. apply establishes_fail. Qed.
Lemma readonly_reads {A} (f : RoomDB -> option A) m : reads f m -> readonly m.
Proof. intros Hr P. by eapply establishes_read. Qed.
Lemma readonly_query {A} g (f : RoomDB -> A) : readonly (smapErr g (query f)).
Proof. intros P. apply establishes_mapErr, establishes_stmt. by intros db a db' Hp [= _ <-]. Qed.
Lemma readonly_mapErr {A} g (m : SM RoomDB A) : readonly m -> readonly (smapErr g m).
Proof. intros Hm P. by apply establishes_mapErr. Qed.
Lemma readonly_try {A} (f : RoomDB -> option A) m : reads f m -> readonly (stry m).
Proof.
  intros [Hst Hr] P. split; [by apply sticky_try|]. intros s a s' Hs E _. unfold stry in E.
  destruct (Hr s) as [Hdb _]. destruct (m s) as [r s1]. injection E as <- <-. simpl in *.
  by rewrite Hdb.
Qed.

Ltac ro := repeat first
  [ apply readonly_bind | apply readonly_ret | apply readonly_fail | apply readonly_query
  | eapply readonly_reads; first [apply reads_room | apply reads_member | apply reads_member_or]
  | eapply readonly_try; first [apply reads_room | apply reads_member]
  | intros ? | case_match | progress simpl ].

Ltac keeps :=
  repeat first
  [ apply keepsDB_bind | apply keepsDB_ret | apply keepsDB_fail | apply keepsDB_ctxDone
  | apply keepsDB_now | apply keepsDB_newID | apply keepsDB_rand | apply keepsDB_mapErr
  | apply keepsDB_withTx | match goal with |- forall _, _ => intros ? end | progress cbv zeta
  | match goal with |- keepsDB _ (match ?x with _ => _ end) => destruct x eqn:? end ].

Lemma room_exec_inv o : keepsDB room_inv (room_exec o).
Proof.
  destruct o; unfold room_exec, discard, CreateRoom, GetRoom, ListRooms, JoinRoom, UpdateRoom,
    DeleteRoom, LeaveRoom, GetMembers, KickMember, UpdateMemberRole, GrantPermissions,
    GetMemberPermissions, checkMembership, readTx.
  - keeps. apply createTx_inv. unfold NewRoom in *. by repeat (case_bool_decide || case_match); simplify_eq.
  - keeps.
    + destruct lookup; [eapply establishes_read, reads_room| |apply establishes_fail].
      eapply establishes_read, reads_mapErr, reads_queryRow.
    + eapply establishes_read, reads_member.
  - keeps; apply (readonly_bind _ _ (readonly_query _ _)); intros; apply readonly_ret.
  - keeps. apply joinTx_inv.
  - keeps. apply updateTx_inv.
  - keeps. apply deleteTx_inv.
  - keeps. apply leaveTx_inv.
  - keeps. apply readonly_bind; intros; ro.
  - keeps. apply kickTx_inv.
  - keeps. apply updateRoleTx_inv.
  - keeps. apply grantTx_inv.
  - keeps. apply readonly_bind; intros; ro.
Qed.

Lemma room_run_inv ops s : room_inv (sdb s) -> room_inv (sdb (room_run ops s)).
Proof.
  revert s. induction ops as [|o ops IH]; intros s Hs; simpl; [done|].
  apply IH. by apply room_exec_inv.
Qed.
End handlers.
