(* ===== verification/RoomServiceTheorems.v ===== *)
(** * Theorems about the room service

    Who may change what, what joining does on each branch, that grants read
    back as they were given, and the places where the code differs from its
    comments. *)

From S2P Require Import Prelude GoNum Errors GoString Store RoomDomain Outbox Web RoomRepo.
From S2P Require Import RoomService RoomServiceInv.

Open Scope sm_scope.

(** ** Strongest postconditions *)

Section sp.
Context {DB : Type} `{Env}.

Lemma stmt_sp {A} (P : DB -> Prop) g (f : DB -> res error (A * DB)) :
  establishes P (fun db' => exists db a, P db /\ f db = Ok (a, db')) (smapErr g (stmt f)).
Proof. apply establishes_mapErr, establishes_stmt. intros db a db' Hp Hf. by exists db, a. Qed.

Lemma stmt_sp_last {A} (P Q : DB -> Prop) g (f : DB -> res error (A * DB)) :
  (forall db a db', P db -> f db = Ok (a, db') -> Q db') -> establishes P Q (smapErr g (stmt f)).
Proof. intros Hf. by apply establishes_mapErr, establishes_stmt. Qed.

Lemma ret_sp_last {A} (P Q : DB -> Prop) (a : A) :
  (forall db, P db -> Q db) -> establishes P Q (sret a).
Proof. intros Hpq. eapply establishes_pre; [apply establishes_ret|done]. Qed.

(** Read-only transactions. *)
Lemma quiet_readTx {A} (fn : SM DB A) : readonly fn -> quiet (withTx fn).
Proof.
  intros Hf s. unfold withTx. destruct (env_begin _); [done|].
  destruct (fn _) as [[a|e] s'] eqn:E; [|done].
  destruct (saborted s') eqn:Ea; [done|].
  destruct (Hf (eq (sdb s))) as [_ Hq].
  specialize (Hq (mkSt (sdb s) (S (sn s)) false) a s' eq_refl E Ea).
  by destruct (env_commit _) as [[e []]|].
Qed.
End sp.

(** ** Who may change what *)

(** An administrator, or a member with the owner role. *)
Definition manages (sub : requestSubject) (r : string) (db : RoomDB) : Prop :=
  SYSTEM_ADMINISTRATOR <= sbSystemRole sub \/
  exists m, dMembers db !! (r, sbUserID sub) = Some m /\ ROLE_OWNER <= mRole m.

Definition settings (r : Room) : string * string * string * Z * Z :=
  (rSlug r, rName r, rDescription r, rVisibility r, rMaxMembers r).

(** A place is free, and for a private room the caller presents the code of one of
    its invites. *)
Definition joinable (presented : option string) (r : string) (room : Room) (db : RoomDB) : Prop :=
  rMemberCount room < rMaxMembers room /\
  (RequiresInvite (scanRoom room) = true ->
   exists code t, presented = Some code /\ code <> "" /\ dInvites db !! code = Some (r, t)).

(** What a request of [sub], presenting an invite code or none, may do. *)
Record authorized (sub : requestSubject) (presented : option string) (db db' : RoomDB) : Prop := {
  au_create : forall r room, dRooms db !! r = None -> dRooms db' !! r = Some room ->
    SYSTEM_USER <= sbSystemRole sub;
  au_delete : forall r room, dRooms db !! r = Some room -> dRooms db' !! r = None ->
    manages sub r db;
  au_settings : forall r room room', dRooms db !! r = Some room -> dRooms db' !! r = Some room' ->
    rOwnerID room' = rOwnerID room /\ (settings room' <> settings room -> manages sub r db);
  au_add : forall r v m, dMembers db !! (r, v) = None -> dMembers db' !! (r, v) = Some m ->
    v = sbUserID sub /\ SYSTEM_USER <= sbSystemRole sub /\
    match dRooms db !! r with
    | Some room => mRole m = ROLE_MEMBER /\ joinable presented r room db
    | None => mRole m = ROLE_OWNER
    end;
  au_remove : forall r v m, dMembers db !! (r, v) = Some m -> dMembers db' !! (r, v) = None ->
    is_Some (dRooms db' !! r) ->
    v = sbUserID sub \/
    exists mu, dMembers db !! (r, sbUserID sub) = Some mu /\ CanKick (mRole mu) (mRole m) = true;
  au_role : forall r v m m', dMembers db !! (r, v) = Some m -> dMembers db' !! (r, v) = Some m' ->
    mRole m' <> mRole m ->
    exists mu, dMembers db !! (r, sbUserID sub) = Some mu /\ mRole mu = ROLE_OWNER;
  au_grant : forall r v p, dPerms db' !! (r, v) = Some p -> dPerms db !! (r, v) <> Some p ->
    v <> sbUserID sub /\ exists room, dRooms db !! r = Some room /\ rOwnerID room = sbUserID sub;
}.

Lemma authorized_refl sub code db : authorized sub code db db.
Proof.
  split; try (intros; congruence).
  intros r room room' H1 H2. rewrite H1 in H2. by injection H2 as <-.
Qed.

(** The new database has only lost the member [(r, v)] and its grants. *)
Definition member_removed (r v : string) (db db' : RoomDB) : Prop :=
  dMembers db' = delete (r, v) (dMembers db) /\ dPerms db' = delete (r, v) (dPerms db) /\
  forall k, settings <$> dRooms db' !! k = settings <$> dRooms db !! k /\
            rOwnerID <$> dRooms db' !! k = rOwnerID <$> dRooms db !! k.

Lemma fmap_None_2 {A B} (f g : A -> B) (x y : option A) :
  f <$> x = g <$> y -> x = None -> y = None.
Proof. by destruct x, y. Qed.

Lemma member_removed_authorized sub code r v db db' :
  member_removed r v db db' ->
  (v = sbUserID sub \/
   exists mu m, dMembers db !! (r, sbUserID sub) = Some mu /\ dMembers db !! (r, v) = Some m /\
                CanKick (mRole mu) (mRole m) = true) ->
  authorized sub code db db'.
Proof.
  intros (Hm & Hp & Hr) Hv. split.
  - intros k room Hk Hk'. destruct (Hr k) as [Hs _]. by rewrite Hk, Hk' in Hs.
  - intros k room Hk Hn. destruct (Hr k) as [Hs _]. rewrite Hk, Hn in Hs. done.
  - intros k room room' H1 H2. destruct (Hr k) as [Hs Ho]. rewrite H1, H2 in Hs, Ho.
    apply (inj Some) in Hs, Ho. by split.
  - intros k w m Hn. rewrite Hm. intros [_ Hs]%lookup_delete_Some. congruence.
  - intros k w m Hs. rewrite Hm. intros Hd _. rewrite lookup_delete_None in Hd.
    destruct Hd as [[= -> ->]|Hd]; [|congruence].
    destruct Hv as [->|(mu & m0 & Hmu & Hm0 & Hc)]; [by left|right]. exists mu.
    rewrite Hs in Hm0. by injection Hm0 as <-.
  - intros k w m m' Hs. rewrite Hm. intros [_ Hs']%lookup_delete_Some. congruence.
  - intros k w p. rewrite Hp. intros [_ Hs']%lookup_delete_Some. congruence.
Qed.

Section authorization.
Context `{Env}.

Lemma increment_rooms id delta db a db' :
  match dRooms db !! id with
  | None => Ok (tt, db)
  | Some r =>
      if bool_decide (in_s 32 (rMemberCount r + delta))
      then Ok (tt, set_dRooms (insert id (set_rMemberCount (rMemberCount r + delta) r)) db)
      else Err (EMsg "integer out of range")
  end = Ok (a, db') ->
  dMembers db' = dMembers db /\ dPerms db' = dPerms db /\ dInvites db' = dInvites db /\
  forall k, settings <$> dRooms db' !! k = settings <$> dRooms db !! k /\
            rOwnerID <$> dRooms db' !! k = rOwnerID <$> dRooms db !! k.
Proof.
  destruct (dRooms db !! id) as [r|] eqn:Er; [|by intros [= _ <-]].
  case_bool_decide; [|done]. intros [= _ <-]. split_and!; try done. intros k. simpl.
  destruct (decide (k = id)) as [->|Hne].
  - by rewrite lookup_insert_eq, Er.
  - by rewrite lookup_insert_ne.
Qed.

Lemma leaveTx_auth sub presented r db0 :
  establishes (eq db0) (authorized sub presented db0) (leaveTx sub r).
Proof.
  unfold leaveTx. eapply establishes_reads; [apply reads_room|]. intros room. simpl.
  apply establishes_if; [apply establishes_fail|].
  eapply establishes_try_reads; [apply reads_member|..].
  - intros m. eapply establishes_bind; [apply stmt_sp|intros _].
    eapply establishes_bind; [apply stmt_sp|intros _]. apply stmt_sp_last. simpl.
    intros db a db' (db2 & [] & (db1 & [] & ((<- & _) & Hm) & [= <-]) & [= <-]) Hf.
    apply increment_rooms in Hf as (H1 & H2 & _ & H3).
    apply (member_removed_authorized _ _ r (sbUserID sub)); [exact (conj H1 (conj H2 H3))|by left].
  - intros e. apply establishes_if; [|apply establishes_fail].
    apply ret_sp_last. intros db [[<- _] _].
    apply authorized_refl.
Qed.

Lemma kickTx_auth sub presented r t db0 :
  establishes (eq db0) (authorized sub presented db0) (kickTx sub r t).
Proof.
  unfold kickTx. eapply establishes_reads; [apply reads_member_or|]. intros mu. simpl.
  eapply establishes_reads; [apply reads_member_or|]. intros m. simpl.
  destruct (CanKick (mRole mu) (mRole m)) eqn:Ec; simpl; [|apply establishes_fail].
  eapply establishes_bind; [apply stmt_sp|intros _].
  eapply establishes_bind; [apply stmt_sp|intros _].
  eapply establishes_bind; [apply stmt_sp|intros _].
  apply ret_sp_last. simpl.
  intros db' (db3 & a & (db2 & [] & (db1 & [] & ((<- & Hmu) & Hm) & [= <-]) & [= <-]) & Hf).
  apply increment_rooms in Hf as (H1 & H2 & _ & H3).
  apply (member_removed_authorized _ _ r t); [exact (conj H1 (conj H2 H3))|]. right. by exists mu, m.
Qed.

Lemma updateRoleTx_auth sub presented r t role db0 :
  establishes (eq db0) (authorized sub presented db0) (updateRoleTx sub r t role).
Proof.
  unfold updateRoleTx. eapply establishes_reads; [apply reads_member_or|]. intros mu. simpl.
  destruct (CanPromote (mRole mu) role) eqn:Ec; simpl; [|apply establishes_fail].
  eapply establishes_reads; [apply reads_member_or|]. intros m. simpl.
  eapply establishes_bind; [apply stmt_sp|intros _].
  apply ret_sp_last. simpl.
  intros db' (db1 & a & ((<- & Hmu) & Hm) & [= _ <-]).
  unfold CanPromote in Ec. destruct (Z.eqb_spec (mRole mu) ROLE_OWNER) as [Ho|]; [|done].
  split; simpl; try (intros; congruence).
  - intros k room room' H1 H2. rewrite H1 in H2. by injection H2 as <-.
  - intros k w m0 Hn. destruct (decide ((k, w) = (r, t))) as [[= -> ->]|Hne]; [congruence|].
    rewrite lookup_alter_ne by done. congruence.
  - intros k w m0 Hs. destruct (decide ((k, w) = (r, t))) as [[= -> ->]|Hne].
    + rewrite lookup_alter_None. congruence.
    + rewrite lookup_alter_ne by done. congruence.
  - intros k w m0 m' Hs. destruct (decide ((k, w) = (r, t))) as [[= -> ->]|Hne].
    + intros _ _. by exists mu.
    + rewrite lookup_alter_ne by done. congruence.
Qed.

Lemma grantTx_auth sub presented r t perms db0 :
  establishes (eq db0) (authorized sub presented db0) (grantTx sub r t perms).
Proof.
  unfold grantTx. eapply establishes_reads; [apply reads_room|]. intros room. simpl.
  destruct (bool_decide (rOwnerID room = _)) eqn:Eo; simpl; [|apply establishes_fail].
  destruct (bool_decide (t = _)) eqn:Et; simpl; [apply establishes_fail|].
  apply bool_decide_eq_true in Eo. apply bool_decide_eq_false in Et.
  eapply establishes_reads; [apply reads_member_or|]. intros m. simpl. apply stmt_sp_last.
  intros db a db' ((<- & Hroom) & Hm). destruct (dRooms db0 !! r) as [room0|] eqn:Er; [|done].
  simpl in Hroom. injection Hroom as <-. intros [= _ <-].
  split; simpl; try (intros; congruence).
  - intros k rm rm' H1 H2. rewrite H1 in H2. by injection H2 as <-.
  - intros k w p. destruct (decide ((k, w) = (r, t))) as [[= -> ->]|Hne].
    + intros _ _. split; [done|]. by exists room0.
    + rewrite lookup_insert_ne by done. congruence.
Qed.

(** Statements that leave rooms, members and grants alone. *)
Definition same_tables (db db' : RoomDB) : Prop :=
  dRooms db' = dRooms db /\ dMembers db' = dMembers db /\ dPerms db' = dPerms db.

Lemma append_sp P e :
  establishes P (fun db' => exists db, P db /\ same_tables db db') (OutboxRepo_Append e).
Proof.
  unfold OutboxRepo_Append, Append. simpl. apply establishes_if; [apply establishes_fail|].
  eapply establishes_bind; [|intros _; apply establishes_ret].
  apply establishes_mapErr, establishes_stmt. intros db a db' Hp. destruct (insertEvent _ _); [|done].
  intros [= _ <-]. by exists db.
Qed.

Lemma invite_sp P code r t :
  establishes P (fun db' => exists db, P db /\ same_tables db db') (InviteRepo_Create code r t).
Proof.
  apply stmt_sp_last. intros db a db' Hp. destruct (dRooms db !! r); [|done].
  case_bool_decide; [done|]. intros [= _ <-]. by exists db.
Qed.

Lemma same_tables_authorized sub code db0 db db' :
  same_tables db db' -> authorized sub code db0 db -> authorized sub code db0 db'.
Proof. intros (Hr & Hm & Hp) []. split; rewrite ?Hr, ?Hm, ?Hp; done. Qed.

Lemma checkInvite_sp P r code :
  establishes P (fun db => P db /\ exists c t, Some code = Some c /\ c <> "" /\ dInvites db !! c = Some (r, t))
    (checkInvite r code).
Proof.
  split; [apply (checkInvite_est P)|]. intros s [] s' Hp E Ha. split.
  { destruct (checkInvite_est P r code) as [_ Hq]. by eapply Hq. }
  unfold checkInvite in E. case_bool_decide as Hne; [done|]. unfold sbind, smapErr in E.
  destruct (InviteRepo_Get code s) as [[x|e] s1] eqn:Eg; [|done].
  case_bool_decide as Hx; [|done]. subst x. injection E as <-.
  unfold InviteRepo_Get, sbind in Eg. simpl in Eg.
  match type of Eg with smapErr _ (queryRow ?f) ?s0 = _ =>
    pose proof (reads_mapErr f (mapErr "invite_code" code) _ (reads_queryRow f)) as [_ Hr];
    specialize (Hr s0) end.
  rewrite Eg in Hr. simpl in Hr. destruct Hr as [Hdb Hr]. rewrite Hdb. simpl.
  unfold inviteRoom in Hr. simpl in Hr.
  destruct (dInvites (sdb s) !! code) as [[r0 t]|] eqn:Ei; [|done]. exists code, t. split_and!; [done..|].
  destruct t; [case_match; [|done]|]; by simplify_eq.
Qed.

(** A new member [(r, v)] with a role, the rooms' settings unchanged. *)
Lemma createTx_auth sub presented room db0 : SYSTEM_USER <= sbSystemRole sub ->
  establishes (eq db0) (fun db' => room_inv db0 -> authorized sub presented db0 db') (createTx sub room).
Proof.
  intros Hrole. unfold createTx. eapply establishes_bind; [apply stmt_sp|intros _]. est_pure.
  eapply establishes_bind; [apply stmt_sp|intros _].
  eapply establishes_bind; [apply stmt_sp|intros _]. simpl.
  apply (establishes_bind _ (fun db' => room_inv db0 -> authorized sub presented db0 db')).
  2: { intros _. est_pure. eapply establishes_weaken; [apply append_sp|intros db Hdb; exact Hdb|].
       intros db' (db & Hq & Hs) Hi. eapply same_tables_authorized; [done|by apply Hq]. }
  match goal with |- establishes ?P ?Q _ =>
    apply (establishes_weaken P P (fun db' => exists db, P db /\ same_tables db db') Q) end.
  { apply establishes_if; [est_pure; apply invite_sp|]. apply ret_sp_last. intros db Hdb. by exists db. }
  { done. }
  intros db' (db4 & (db3 & a3 & (db2 & a2 & (db1 & a1 & <- & Hc) & Hu) & Hf) & Hsame) Hinv.
  eapply same_tables_authorized; [done|]. clear Hsame db'.
  apply increment_rooms in Hf as (H1 & H2 & _ & H3).
  destruct (columnsOk room); [done|]. case_bool_decide as Hex; [done|].
  destruct (slugTaken _ _ _); [done|]. injection Hc as _ <-. apply eq_None_not_Some in Hex.
  simpl in Hu. rewrite lookup_insert_eq in Hu.
  rewrite (no_members _ _ _ _ _ (sbUserID sub) Hinv Hex) in Hu. injection Hu as _ <-.
  simpl in H1, H2, H3.
  assert (forall k, k <> rID room -> dRooms db4 !! k = None -> dRooms db0 !! k = None) as Hn.
  { intros k Hk Hk0. destruct (H3 k) as [Hs _]. rewrite lookup_insert_ne, Hk0 in Hs by done.
    by destruct (dRooms db0 !! k). }
  split.
  - done.
  - intros k rm Hk Hk'. destruct (decide (k = rID room)) as [->|Hne]; [congruence|].
    rewrite (Hn k Hne Hk') in Hk. done.
  - intros k rm rm' Hk Hk'. assert (k <> rID room) as Hne by congruence.
    destruct (H3 k) as [Hs Ho]. rewrite lookup_insert_ne, Hk, Hk' in Hs, Ho by done.
    apply (inj Some) in Hs, Ho. by split.
  - intros k v m Hm. rewrite H1. destruct (decide ((k, v) = (rID room, sbUserID sub))) as [[= -> ->]|Hne].
    + rewrite lookup_insert_eq. intros [= <-]. split_and!; [done..|]. by rewrite Hex.
    + rewrite lookup_insert_ne by done. congruence.
  - intros k v m Hm. rewrite H1. intros [? ?]%lookup_insert_None. congruence.
  - intros k v m m' Hm. rewrite H1. destruct (decide ((k, v) = (rID room, sbUserID sub))) as [[= -> ->]|Hne].
    + by rewrite (no_members _ _ _ _ _ (sbUserID sub) Hinv Hex) in Hm.
    + rewrite lookup_insert_ne by done. congruence.
  - intros k v p. rewrite H2. congruence.
Qed.

Lemma joinTx_auth sub r code now db0 : SYSTEM_USER <= sbSystemRole sub ->
  establishes (eq db0) (authorized sub (Some code) db0) (joinTx sub r code now).
Proof.
  intros Hrole. unfold joinTx. eapply establishes_reads; [apply reads_room|]. intros room. simpl.
  apply (establishes_bind _ (fun db => (db0 = db /\ scanRoom <$> dRooms db !! r = Some room) /\
    (RequiresInvite room = true ->
     exists c t, Some code = Some c /\ c <> "" /\ dInvites db !! c = Some (r, t)))).
  { destruct (RequiresInvite room).
    - eapply establishes_weaken; [apply checkInvite_sp|intros db Hdb; exact Hdb|]. intros db [? ?]. by split.
    - apply ret_sp_last. done. }
  intros _. destruct (IsFull room) eqn:Ef; [apply establishes_fail|].
  eapply establishes_try_reads; [apply reads_member|..].
  { intros m. apply ret_sp_last. intros db [[[<- _] _] _]. apply authorized_refl. }
  intros e. apply establishes_if; [apply establishes_fail|].
  eapply establishes_bind; [apply stmt_sp|intros _].
  eapply establishes_bind; [apply stmt_sp|intros _]. est_pure.
  eapply establishes_bind; [apply append_sp|intros _]. apply ret_sp_last. simpl.
  intros db' (db4 & (db3 & a3 & (db2 & a2 & (((<- & Hroom) & Hinv) & Hm) & Hu) & Hf) & Hsame).
  eapply same_tables_authorized; [done|]. clear Hsame db'.
  apply increment_rooms in Hf as (H1 & H2 & _ & H3).
  destruct (dRooms db0 !! r) as [room0|] eqn:Er; [|done]. simpl in Hroom. injection Hroom as <-.
  rewrite Hm in Hu. injection Hu as _ <-. simpl in H1, H2, H3.
  split.
  - done.
  - intros k rm Hk Hk'. destruct (H3 k) as [Hs _]. by rewrite Hk, Hk' in Hs.
  - intros k rm rm' Hk Hk'. destruct (H3 k) as [Hs Ho]. rewrite Hk, Hk' in Hs, Ho.
    apply (inj Some) in Hs, Ho. by split.
  - intros k v m Hn. rewrite H1. destruct (decide ((k, v) = (r, sbUserID sub))) as [[= -> ->]|Hne].
    + rewrite lookup_insert_eq. intros [= <-]. split_and!; [done..|]. rewrite Er. split; [done|].
      split; [|exact Hinv]. unfold IsFull in Ef. simpl in Ef. by apply Z.leb_gt in Ef.
    + rewrite lookup_insert_ne by done. congruence.
  - intros k v m Hk. rewrite H1. intros [? ?]%lookup_insert_None. congruence.
  - intros k v m m' Hk. rewrite H1. destruct (decide ((k, v) = (r, sbUserID sub))) as [[= -> ->]|Hne].
    + congruence.
    + rewrite lookup_insert_ne by done. congruence.
  - intros k v p. rewrite H2. congruence.
Qed.

Lemma updateTx_auth sub presented req db0 :
  establishes (eq db0) (fun db' => room_inv db0 -> authorized sub presented db0 db') (updateTx sub req).
Proof.
  unfold updateTx. eapply establishes_reads; [apply reads_room|]. intros room.
  eapply establishes_bind; [apply requireRoomRole_est|intros _]. est_pure. cbv zeta.
  eapply establishes_bind; [apply stmt_sp|intros _]. apply ret_sp_last.
  intros db' (db & x & ((<- & Hroom) & Hman) & Hf) Hinv.
  set (upd := ApplyUpdate _ _ _ _ _ _ _) in Hf.
  destruct (dRooms db0 !! urId req) as [old|] eqn:Eo; [|done]. simpl in Hroom. injection Hroom as <-.
  assert (rID upd = urId req) as Hid.
  { pose proof (ri_key _ _ _ _ Hinv _ _ Eo) as Hk. unfold upd, ApplyUpdate.
    by destruct (match urName req with Some _ => _ | None => _ end) as [nm slug]. }
  rewrite Hid, Eo in Hf. destruct (columnsOk upd); [done|]. destruct (slugTaken _ _ _); [done|].
  injection Hf as _ <-. split; simpl; try (intros; congruence).
  - intros k rm Hk. destruct (decide (k = urId req)) as [->|Hne]; [congruence|].
    rewrite lookup_insert_ne by done. congruence.
  - intros k rm Hk. destruct (decide (k = urId req)) as [->|Hne].
    + by rewrite lookup_insert_eq.
    + rewrite lookup_insert_ne by done. congruence.
  - intros k rm rm' Hk. destruct (decide (k = urId req)) as [->|Hne].
    + rewrite lookup_insert_eq. intros [= <-]. simpl. split; [congruence|]. intros _. exact Hman.
    + rewrite lookup_insert_ne by done. intros Hk'. rewrite Hk in Hk'. by injection Hk' as <-.
Qed.

Lemma deleteTx_auth sub presented r db0 :
  establishes (eq db0) (authorized sub presented db0) (deleteTx sub r).
Proof.
  unfold deleteTx. eapply establishes_bind; [apply requireRoomRole_est|intros _].
  eapply establishes_bind; [apply stmt_sp|intros _]. est_pure.
  eapply establishes_weaken; [apply append_sp|intros db Hdb; exact Hdb|].
  intros db' (db2 & (db1 & x & (<- & Hman) & [= _ <-]) & Hsame).
  eapply same_tables_authorized; [done|]. split; simpl.
  - intros k rm Hk [_ Hk']%lookup_delete_Some. congruence.
  - intros k rm Hk. rewrite lookup_delete_None. intros [->|]; [exact Hman|congruence].
  - intros k rm rm' Hk [_ Hk']%lookup_delete_Some. rewrite Hk in Hk'. by injection Hk' as <-.
  - intros k v m Hn [Hk' _]%map_lookup_filter_Some. congruence.
  - intros k v m Hk Hn [x' Hx]. apply lookup_delete_Some in Hx as [Hne _].
    apply map_lookup_filter_None in Hn as [Hn|Hn]; [congruence|].
    exfalso. apply (Hn m Hk). simpl. congruence.
  - intros k v m m' Hk [Hk' _]%map_lookup_filter_Some. congruence.
  - intros k v p [Hk' _]%map_lookup_filter_Some. congruence.
Qed.
End authorization.

(** The caller of an operation, as its headers name it. *)
Definition op_subject (o : room_op) : option requestSubject :=
  match o with
  | OpCreateRoom h _ | OpGetRoom h _ | OpListRooms h _ | OpJoinRoom h _ _ | OpUpdateRoom h _
  | OpDeleteRoom h _ | OpLeaveRoom h _ | OpGetMembers h _ | OpKickMember h _ _
  | OpUpdateMemberRole h _ _ _ | OpGrantPermissions h _ _ _ => Some (subjectFromHeader h)
  | OpGetMemberPermissions _ _ => None
  end.

(** The invite code a request carries. *)
Definition op_code (o : room_op) : option string :=
  match o with OpJoinRoom _ _ code => Some code | _ => None end.

Definition auth_step (sub : requestSubject) (presented : option string) (db db' : RoomDB) : Prop :=
  room_inv db -> authorized sub presented db db'.

Lemma authorized_refl_if sub code db : auth_step sub code db db.
Proof. intros _. apply authorized_refl. Qed.

Ltac quiets := repeat first
  [ apply quiet_bind | apply quiet_ret | apply quiet_fail | apply quiet_now | apply quiet_id
  | apply quiet_rand | apply quiet_ctxDone | apply quiet_mapErr
  | match goal with |- forall _, _ => intros ? end | progress cbv zeta
  | match goal with |- quiet (match ?x with _ => _ end) => destruct x eqn:? end ].

Ltac relate_tx lem :=
  repeat first
  [ apply relates_bind_l; [apply authorized_refl_if|solve [quiets]|]
  | apply relates_bind_r; [|solve [quiets]]
  | apply relates_mapErr
  | apply relates_quiet; [apply authorized_refl_if|solve [quiets]]
  | apply relates_withTx; [apply authorized_refl_if|]
  | match goal with |- forall _, _ => intros ? end | progress cbv zeta
  | match goal with |- relates _ (match ?x with _ => _ end) => destruct x eqn:? end ];
  first [apply lem; lia | eapply establishes_weaken; [apply lem; lia|intros ? Hx; exact Hx|intros ? Hx _; exact Hx]].

Lemma room_exec_auth `{Env} `{PgSearch} o sub :
  op_subject o = Some sub -> relates (auth_step sub (op_code o)) (room_exec o).
Proof.
  destruct o; intros [= <-]; unfold room_exec, discard, CreateRoom, GetRoom, ListRooms, JoinRoom,
    UpdateRoom, DeleteRoom, LeaveRoom, GetMembers, KickMember, UpdateMemberRole,
    GrantPermissions, checkMembership, readTx.
  - relate_tx @createTx_auth.
  - apply relates_quiet; [apply authorized_refl_if|]. quiets; apply quiet_readTx.
    + destruct lookup; [eapply readonly_reads, reads_room| |apply readonly_fail].
      eapply readonly_reads, reads_mapErr, reads_queryRow.
    + eapply readonly_reads, reads_member.
  - apply relates_quiet; [apply authorized_refl_if|]. quiets; apply quiet_readTx;
      (apply readonly_bind; [apply readonly_query|intros; apply readonly_ret]).
  - relate_tx @joinTx_auth.
  - relate_tx @updateTx_auth.
  - relate_tx @deleteTx_auth.
  - relate_tx @leaveTx_auth.
  - apply relates_quiet; [apply authorized_refl_if|]. quiets; apply quiet_readTx.
    repeat first [apply readonly_bind | apply readonly_ret | apply readonly_query
      | eapply readonly_reads, reads_member_or | intros ? | case_match].
  - relate_tx @kickTx_auth.
  - relate_tx @updateRoleTx_auth.
  - relate_tx @grantTx_auth.
Qed.

(** *** The invite is not expired *)

(** Whoever enters a private room with a code that expires does so before that
    time: a reading of the clock no earlier than the request precedes it. *)
Definition unexpired `{Env} (o : room_op) (s s' : st RoomDB) : Prop :=
  forall h r code room v m t, o = OpJoinRoom h r code ->
    dRooms (sdb s) !! r = Some room -> RequiresInvite (scanRoom room) = true ->
    dMembers (sdb s) !! (r, v) = None -> dMembers (sdb s') !! (r, v) = Some m ->
    dInvites (sdb s) !! code = Some (r, Some t) ->
    exists n, (sn s <= n)%nat /\ env_now n < t.

Section unexpired.
Context `{Env}.

(** A transaction changes the database only when its body ends well. *)
Lemma withTx_changed {DB A} (fn : SM DB A) (s : st DB) :
  sdb (withTx fn s).2 = sdb s \/
  exists a s', fn (mkSt (sdb s) (S (sn s)) false) = (Ok a, s') /\ saborted s' = false.
Proof.
  unfold withTx. destruct (env_begin _); [by left|]. destruct (fn _) as [[a|e] s'] eqn:E; [|by left].
  destruct (saborted s') eqn:Ea; [by left|]. right. by exists a, s'.
Qed.

Lemma getRoom_sn id s : sn (RoomRepo_GetByID id s).2 = S (sn s).
Proof.
  unfold RoomRepo_GetByID, smapErr, queryRow, sbind, query, stmt, step_n.
  destruct (saborted s); [done|]. destruct (env_fault _); [done|]. by destruct (dRooms _ !! _).
Qed.

Lemma checkInvite_time r code s s' t :
  checkInvite r code s = (Ok tt, s') -> dInvites (sdb s) !! code = Some (r, Some t) -> env_now (sn s) < t.
Proof.
  unfold checkInvite. case_bool_decide; [done|]. unfold sbind at 1, smapErr.
  destruct (InviteRepo_Get code s) as [[x|e] s1] eqn:Eg; [|done]. intros _ Hi. revert Eg.
  unfold InviteRepo_Get, sbind. simpl. intros Eg.
  match type of Eg with smapErr _ (queryRow ?f) ?s0 = _ =>
    pose proof (reads_mapErr f (mapErr "invite_code" code) _ (reads_queryRow f)) as [_ Hr];
    specialize (Hr s0) end.
  rewrite Eg in Hr. destruct Hr as [_ Hr]. simpl in Hr. unfold inviteRoom in Hr. rewrite Hi in Hr.
  by destruct (Z.ltb_spec (env_now (sn s)) t).
Qed.

Lemma joinTx_time sub r code now s a s' room t :
  joinTx sub r code now s = (Ok a, s') ->
  dRooms (sdb s) !! r = Some room -> RequiresInvite (scanRoom room) = true ->
  dInvites (sdb s) !! code = Some (r, Some t) -> env_now (S (sn s)) < t.
Proof.
  intros Ej Hroom Hreq Hi. unfold joinTx, sbind at 1 in Ej. pose proof (getRoom_sn r s) as Hn.
  destruct (reads_room r) as [_ Hr]. specialize (Hr s).
  destruct (RoomRepo_GetByID r s) as [[x|e] s1]; [|done]. simpl in Hn, Hr. destruct Hr as [Hdb Hx].
  rewrite Hroom in Hx. injection Hx as <-. rewrite Hreq in Ej. unfold sbind at 1 in Ej.
  destruct (checkInvite r code s1) as [[[]|e] s2] eqn:Ec; [|done].
  rewrite <- Hn. eapply checkInvite_time; [exact Ec|]. by rewrite Hdb.
Qed.

Lemma join_unexpired `{PgSearch} o s : unexpired o s (room_exec o s).2.
Proof.
  intros h r code room v m t -> Hroom Hreq Hnone Hm Hi. revert Hm. simpl.
  unfold discard, JoinRoom, sbind at 1 2, ctxDone. destruct (env_ctx _); [by simpl; rewrite Hnone|].
  cbv zeta. destruct (sbSystemRole _ <? SYSTEM_USER); [by simpl; rewrite Hnone|]. case_bool_decide; [by simpl; rewrite Hnone|].
  unfold sbind at 1, snow. unfold sbind at 1.
  set (tx := joinTx _ _ _ _). set (s1 := step_n (step_n s)).
  destruct (withTx_changed tx s1) as [Hsame|(a & s' & Ej & _)].
  - destruct (withTx tx s1) as [[x|e] s2]; simpl in *; rewrite Hsame; unfold s1; simpl; congruence.
  - intros _. eexists. split; [|exact (joinTx_time _ _ _ _ _ _ _ _ _ Ej Hroom Hreq Hi)]. simpl. lia.
Qed.
End unexpired.

(** ** Running in a calm world *)

Section calm.
Context `{Env} `{!Calm _}.

Lemma calm_getRoom r db n :
  RoomRepo_GetByID r (mkSt db n false) =
  match dRooms db !! r with
  | Some room => (Ok (scanRoom room), mkSt db (S n) false)
  | None => (Err (ENotFound "room" r), mkSt db (S n) false)
  end.
Proof.
  unfold RoomRepo_GetByID, smapErr. rewrite calm_queryRow. by destruct (dRooms db !! r).
Qed.

Lemma calm_getMember r u db n :
  MemberRepo_Get r u (mkSt db n false) =
  match dMembers db !! (r, u) with
  | Some m => (Ok m, mkSt db (S n) false)
  | None => (Err (ENotFound "member" u), mkSt db (S n) false)
  end.
Proof.
  unfold MemberRepo_Get, smapErr. rewrite calm_queryRow. by destruct (dMembers db !! (r, u)).
Qed.

Lemma calm_getMember_or e r u db n :
  orNotFound e (MemberRepo_Get r u) (mkSt db n false) =
  match dMembers db !! (r, u) with
  | Some m => (Ok m, mkSt db (S n) false)
  | None => (Err e, mkSt db (S n) false)
  end.
Proof. unfold orNotFound, smapErr at 1. rewrite calm_getMember. by destruct (dMembers db !! (r, u)). Qed.

Lemma calm_append e db n :
  oeTopic e <> "" -> oeID e ∉ map (fun row => oeID (orEvent row)) (dOutbox db) ->
  OutboxRepo_Append e (mkSt db n false) =
  (Ok tt, mkSt (set_dOutbox (dOutbox db ++ [mkOutRow (storedEvent e) false]) db) (S n) false).
Proof.
  intros Ht Hid. unfold OutboxRepo_Append, Append. simpl. rewrite bool_decide_false by done.
  unfold sbind, smapErr. rewrite calm_stmt. unfold insertEvent. by rewrite bool_decide_false.
Qed.

Lemma calm_getPerms r u db n :
  PermissionRepo_Get r u (mkSt db n false) =
  (Ok (match dPerms db !! (r, u) with Some p => uint16 p | None => 0 end), mkSt db (S n) false).
Proof. unfold PermissionRepo_Get, smapErr, query. by rewrite calm_stmt. Qed.
End calm.

(** ** Joining *)

(** The room as the response of a join shows it, the role, and the database. *)
Definition joined (db : RoomDB) (room : Room) (r u : string) (now : time) (eid : string) : RoomDB :=
  set_dOutbox (dOutbox db ++ [mkOutRow (storedEvent (roomEvent eid r "room.joined.v1"
      (<["room_id" := JStr r]> (<["user_id" := JStr u]>
       (<["role" := JInt ROLE_MEMBER]> (<["joined_at" := JTime now]> ∅)))) now)) false])
    (set_dRooms (insert r (set_rMemberCount (rMemberCount room + 1) room))
      (set_dMembers (insert (r, u) (mkMember r u ROLE_MEMBER (pgTime now))) db)).

(** The specification of a join of [u] to [r] with an invite code. *)
Definition join_spec (db : RoomDB) (r u code : string) (now dbnow : time) (eid : string)
    : res error (Room * RoomRole) * RoomDB :=
  match dRooms db !! r with
  | None => (Err (ENotFound "room" r), db)
  | Some room =>
      if RequiresInvite (scanRoom room) &&
         negb (bool_decide (code <> "" /\ inviteRoom dbnow code db = Some r))
      then (Err (EVb (PermissionDenied "room.join" (roomRes r))), db)
      else if IsFull room
      then (Err (EVb (ResourceExhausted "vibesync.room" "ROOM_FULL" "room is at capacity")), db)
      else
        match dMembers db !! (r, u) with
        | Some m => (Ok (scanRoom room, mRole m), db)
        | None => (Ok (set_rMemberCount (rMemberCount room + 1) (scanRoom room), ROLE_MEMBER),
                   joined db room r u now eid)
        end
  end.

Section join.
Context `{Env} `{!Calm _}.

Lemma calm_checkInvite r code db n :
  exists n', checkInvite r code (mkSt db n false) =
    (if bool_decide (code <> "" /\ inviteRoom (env_now n) code db = Some r) then Ok tt
     else Err (EVb (PermissionDenied "room.join" (roomRes r))), mkSt db n' false).
Proof.
  unfold checkInvite. case_bool_decide as Hc.
  { exists n. by rewrite bool_decide_false by naive_solver. }
  exists (S (S n)). unfold InviteRepo_Get, sbind, smapErr. simpl.
  rewrite (calm_queryRow (inviteRoom (env_now n) code) db (S n)).
  destruct (inviteRoom (env_now n) code db) as [x|] eqn:Ei.
  - case_bool_decide as Hx; [subst|]; [by rewrite bool_decide_true by done|].
    rewrite bool_decide_false by naive_solver. done.
  - by rewrite bool_decide_false by naive_solver.
Qed.

Lemma calm_addMember {A} (x : A) r u now db n room :
  dRooms db !! r = Some room -> dMembers db !! (r, u) = None -> 0 <= rMemberCount room < MaxInt32 ->
  env_id (S (S n)) ∉ map (fun row => oeID (orEvent row)) (dOutbox db) -> r <> "" ->
  (MemberRepo_Upsert (mkMember r u ROLE_MEMBER now) ;;;
   MemberRepo_IncrementRoomMemberCount r 1 ;;;
   eid <- snewID ;;
   OutboxRepo_Append (roomEvent eid r "room.joined.v1"
     (<["room_id" := JStr r]> (<["user_id" := JStr u]>
      (<["role" := JInt ROLE_MEMBER]> (<["joined_at" := JTime now]> ∅)))) now) ;;;
   sret x) (mkSt db n false) =
  (Ok x, mkSt (joined db room r u now (env_id (S (S n)))) (S (S (S (S n)))) false).
Proof.
  intros Hr Hm Hc Hid Hne. unfold MemberRepo_Upsert. unfold sbind at 1, smapErr at 1.
  rewrite calm_stmt. simpl. rewrite Hr, Hm. unfold MemberRepo_IncrementRoomMemberCount.
  unfold sbind at 1, smapErr. rewrite calm_stmt. simpl.
  rewrite Hr, bool_decide_true by (unfold in_s, MaxInt32 in *; lia).
  unfold sbind, snewID, step_n. simpl. by rewrite calm_append.
Qed.

Lemma calm_joinTx sub r code now db n b :
  (forall room, dRooms db !! r = Some room -> 0 <= rMemberCount room /\ rMaxMembers room <= MaxInt32) ->
  (forall k, env_id k ∉ map (fun row => oeID (orEvent row)) (dOutbox db)) -> r <> "" ->
  exists n' dbnow k, withTx (joinTx sub r code now) (mkSt db n b) =
    ((join_spec db r (sbUserID sub) code now dbnow (env_id k)).1,
     mkSt (join_spec db r (sbUserID sub) code now dbnow (env_id k)).2 n' b).
Proof.
  intros Hcols Hid Hne. rewrite calm_withTx. unfold joinTx, join_spec.
  unfold sbind at 1. rewrite calm_getRoom.
  destruct (dRooms db !! r) as [room|] eqn:Er; [|by exists (S (S (S n))), 0, 0%nat].
  destruct (Hcols room eq_refl) as [H0 Hmax].
  destruct (calm_checkInvite r code db (S (S n))) as [n1 Hci].
  assert (exists n2, (if RequiresInvite (scanRoom room) then checkInvite r code else sret tt)
            (mkSt db (S (S n)) false) =
            (if RequiresInvite (scanRoom room) &&
                negb (bool_decide (code <> "" /\ inviteRoom (env_now (S (S n))) code db = Some r))
             then Err (EVb (PermissionDenied "room.join" (roomRes r))) else Ok tt,
             mkSt db n2 false)) as [n2 H2].
  { destruct (RequiresInvite (scanRoom room)); [|by exists (S (S n))]. exists n1. rewrite Hci.
    by case_bool_decide. }
  unfold sbind at 1. rewrite H2. clear H2 Hci.
  destruct (RequiresInvite _ && _) eqn:Einv.
  { exists (S n2), (env_now (S (S n))), 0%nat. by rewrite Einv. }
  change (IsFull (scanRoom room)) with (IsFull room). destruct (IsFull room) eqn:Ef.
  { exists (S n2), (env_now (S (S n))), 0%nat. by rewrite Einv. }
  unfold sbind at 1, stry at 1. rewrite calm_getMember.
  destruct (dMembers db !! (r, sbUserID sub)) as [m|] eqn:Em.
  { exists (S (S n2)), (env_now (S (S n))), 0%nat. by rewrite Einv. }
  cbn [isNotFound negb]. unfold IsFull in Ef. apply Z.leb_gt in Ef.
  exists (S (S (S (S (S (S n2)))))), (env_now (S (S n))), (S (S (S n2))). rewrite Einv.
  by rewrite (calm_addMember _ r (sbUserID sub) now db (S n2) room) by (done || lia || apply Hid).
Qed.
End join.

(** ** Grants *)

Lemma fromProto_range perms : 0 <= PermissionsFromProto perms < 32.
Proof.
  assert (0 <= PermissionsFromProto perms) as Hn.
  { unfold PermissionsFromProto. assert (forall acc, 0 <= acc ->
      0 <= fold_left (fun out p => Z.lor out (default 0 (permByProto !! p))) perms acc) as Hg;
      [|by apply Hg].
    induction perms as [|v perms IH]; intros acc Ha; simpl; [done|]. apply IH.
    apply Z.lor_nonneg. split; [done|]. rewrite permByProto_lookup.
    destruct (_ && _) eqn:E; simpl; [|done]. go_bool. apply Z.pow_nonneg. lia. }
  split; [done|]. destruct (Z.eq_dec (PermissionsFromProto perms) 0) as [->|Hz]; [done|].
  change 32 with (2 ^ 5). apply Z.log2_lt_pow2; [lia|]. apply Z.nle_gt. intros H5.
  pose proof (Z.bit_log2 (PermissionsFromProto perms) ltac:(lia)) as Hb.
  rewrite fromProto_testbit in Hb by lia. apply existsb_exists in Hb as (v & _ & Hb). go_bool. lia.
Qed.

(** ** Theorems *)

Definition roomStart (n : nat) : st RoomDB := mkSt emptyRoomDB n false.

(** C2. The room database stays consistent when requests are served one after the
    other: after any such requests, with any failures of the context, a statement
    or a commit, every room's [member_count] is the number of its member rows, slugs are unique, members
    and invites belong to existing rooms, and only members hold grants. *)
Theorem room_consistent `{Env} `{PgSearch} ops n :
  let db := sdb (room_run ops (roomStart n)) in
  (forall id r, dRooms db !! id = Some r ->
     rID r = id /\ rMemberCount r = Z.of_nat (length (membersOf id (dMembers db)))) /\
  (forall id1 id2 r1 r2, dRooms db !! id1 = Some r1 -> dRooms db !! id2 = Some r2 ->
     rSlug r1 = rSlug r2 -> id1 = id2) /\
  (forall id u m, dMembers db !! (id, u) = Some m ->
     is_Some (dRooms db !! id) /\ mRoomID m = id /\ mUserID m = u) /\
  (forall code r t, dInvites db !! code = Some (r, t) -> is_Some (dRooms db !! r)) /\
  (forall k p, dPerms db !! k = Some p -> is_Some (dMembers db !! k)).
Proof.
  intros db. assert (room_inv db) as [Hk Hc Hs Hm Hp Hpr Hi] by apply room_run_inv, room_inv_empty.
  split_and!; [|exact Hs|..].
  - intros id r Hr. split; [by apply Hk|]. specialize (Hc id r Hr). unfold membersOf.
    rewrite length_map, length_map_to_list.
    unfold memberCount in Hc. case_bool_decide; lia.
  - intros id u m Hmem. destruct (Hm _ _ Hmem) as [[= -> ->] He]. by simpl in *.
  - intros code r t Hc'. by apply (Hi _ _ Hc').
  - intros k p Hp'. by apply (Hp _ _ Hp').
Qed.

(** C3. Rooms are changed only by those who may.  In every database that requests
    served one after the other reach, whatever request a caller makes and
    whatever fails: a room appears only for a caller with at least the USER
    system role; a room disappears or has its settings changed only by an
    administrator or a member with the owner role, and its owner is never
    changed; a member row appears only for the caller, who has at least the USER
    system role, as OWNER of a new room or as MEMBER of a room with a free place,
    and into a private room only with a code the caller presents, of an invite
    of that room that has not expired; another member disappears only if the
    caller's role may kick theirs; roles change only by an OWNER; grants are
    given only by the room's owner, to others. *)
Theorem room_authorization `{Env} `{PgSearch} ops n o sub :
  op_subject o = Some sub ->
  let s := room_run ops (roomStart n) in
  authorized sub (op_code o) (sdb s) (sdb (room_exec o s).2) /\ unexpired o s (room_exec o s).2.
Proof.
  intros Ho s. split; [|apply join_unexpired].
  apply (room_exec_auth o sub Ho s). apply room_run_inv, room_inv_empty.
Qed.

(** *** A small world *)

Definition unary (n : nat) : string := String.concat "" (repeat "I" n).
Definition demoEnv : Env := calmEnv (fun n => Z.of_nat n * 1000000) unary.
Definition anyName : PgSearch := fun _ _ => true.
Definition user (name : string) : Header :=
  <["X-Vibesync-User-Id" := name]> (<["X-Vibesync-System-Role" := "USER"]> ∅).
Definition demoCreate : room_op :=
  OpCreateRoom (user "alice") (mkCreateRoom "Movie night" None VisibilityPublic (Some 2)).
Definition demoRun (ops : list room_op) : st RoomDB := @room_run demoEnv anyName ops (roomStart 0).
(** The id of the room [demoCreate] makes as the first request. *)
Definition demoRoomID : string := unary 2.

(** A private room; its first invite code is made of the random bytes of
    [demoEnv]. *)
Definition privateCreate : room_op :=
  OpCreateRoom (user "alice") (mkCreateRoom "Movie night" None VisibilityPrivate (Some 2)).
Definition demoCode : string := default "" (head (map fst (map_to_list (dInvites (sdb (demoRun [privateCreate])))))).

Lemma room_authorization_witness :
  (authorized (subjectFromHeader (user "bob")) (Some demoCode)
    (sdb (demoRun [privateCreate]))
    (sdb (@room_exec demoEnv anyName (OpJoinRoom (user "bob") demoRoomID demoCode) (demoRun [privateCreate])).2) /\
   @unexpired demoEnv (OpJoinRoom (user "bob") demoRoomID demoCode) (demoRun [privateCreate])
     (@room_exec demoEnv anyName (OpJoinRoom (user "bob") demoRoomID demoCode) (demoRun [privateCreate])).2) /\
  mRole <$> dMembers (sdb (@room_exec demoEnv anyName (OpJoinRoom (user "bob") demoRoomID demoCode)
    (demoRun [privateCreate])).2) !! (demoRoomID, "bob") = Some ROLE_MEMBER /\
  dMembers (sdb (@room_exec demoEnv anyName (OpJoinRoom (user "bob") demoRoomID "guess")
    (demoRun [privateCreate])).2) !! (demoRoomID, "bob") = None.
Proof.
  split.
  - apply (@room_authorization demoEnv anyName [privateCreate] 0 (OpJoinRoom (user "bob") demoRoomID demoCode)
      (subjectFromHeader (user "bob")) eq_refl).
  - by vm_compute.
Defined.

(** Joining does what it should on every branch: an unknown room is not
    found; a private room without a valid invite for it is denied; a full room
    is refused; a member keeps its role and nothing changes; anyone else
    becomes a MEMBER, the count goes up by one and one joined event is
    staged, all in one transaction. *)
Theorem JoinRoom_correct `{Env} `{!Calm _} h r code db n b :
  SYSTEM_USER <= sbSystemRole (subjectFromHeader h) -> r <> "" ->
  (forall room, dRooms db !! r = Some room -> 0 <= rMemberCount room /\ rMaxMembers room <= MaxInt32) ->
  (forall k, env_id k ∉ map (fun row => oeID (orEvent row)) (dOutbox db)) ->
  exists n' now dbnow k,
    let '(res, db') := join_spec db r (sbUserID (subjectFromHeader h)) code now dbnow (env_id k) in
    JoinRoom h r code (mkSt db n b) =
    (match res with Ok (room, role) => Ok (roomToProto room, role) | Err e => Err e end,
     mkSt db' n' b).
Proof.
  intros Hrole Hne Hcols Hid. unfold JoinRoom. unfold sbind at 1. rewrite calm_ctxDone.
  cbv zeta. rewrite (proj2 (Z.ltb_ge _ _) Hrole), bool_decide_false by done.
  unfold sbind at 1, snow, step_n. cbn [sn sdb saborted].
  destruct (calm_joinTx (subjectFromHeader h) r code (env_now (S n)) db (S (S n)) b Hcols Hid Hne)
    as (n' & dbnow & k & Htx).
  exists n', (env_now (S n)), dbnow, k. unfold sbind. rewrite Htx.
  destruct (join_spec _ _ _ _ _ _ _) as [[[room role]|e] db']; done.
Qed.

(** The same world later, with another source of ids. *)
Definition laterEnv : Env := calmEnv (fun _ => 5) (fun _ => "E").

Lemma JoinRoom_correct_witness :
  exists n' now dbnow,
    (@JoinRoom laterEnv (user "bob") demoRoomID "" (mkSt (sdb (demoRun [demoCreate])) 0 false)).2 =
    mkSt (join_spec (sdb (demoRun [demoCreate])) demoRoomID "bob" "" now dbnow "E").2 n' false.
Proof.
  pose proof (@JoinRoom_correct laterEnv _
    (user "bob") demoRoomID "" (sdb (demoRun [demoCreate])) 0 false) as Ht.
  destruct Ht as (n' & now & dbnow & k & Ht).
  - by vm_compute.
  - by vm_compute.
  - intros room E. vm_compute in E. injection E as <-. by vm_compute.
  - intros k Hin. vm_compute in Hin. apply elem_of_cons in Hin as [Hin|Hin]; [done|].
    by apply elem_of_nil in Hin.
  - exists n', now, dbnow. cbn [env_id laterEnv calmEnv] in Ht.
    change (sbUserID (subjectFromHeader (user "bob"))) with "bob" in Ht.
    destruct (join_spec _ _ _ _ _ _ _) as [res db']. by rewrite Ht.
Defined.

(** Grants read back as they were given: when the owner's grant to a member
    succeeds, asking for that member's permissions answers exactly the known
    permissions of the request, and no owner flag. *)
Theorem grant_roundtrip `{Env} `{!Calm _} h r t req out db n b s1 :
  GrantPermissions h r t req (mkSt db n b) = (Ok out, s1) ->
  (forall v, v ∈ out <-> v ∈ req /\ 1 <= v <= 5) /\
  (GetMemberPermissions r t s1).1 = Ok (out, false).
Proof.
  unfold GrantPermissions. unfold sbind at 1. rewrite calm_ctxDone. cbv zeta.
  set (p := PermissionsFromProto req). unfold sbind at 1. unfold step_n. rewrite calm_withTx.
  cbn [sn sdb saborted]. unfold grantTx. unfold sbind at 1. rewrite calm_getRoom.
  destruct (dRooms db !! r) as [room|] eqn:Er; [|done].
  destruct (bool_decide (rOwnerID (scanRoom room) = _)) eqn:Eo; [|done].
  destruct (bool_decide (t = _)) eqn:Et; [done|].
  apply bool_decide_eq_true in Eo. apply bool_decide_eq_false in Et. simpl in Eo, Et.
  unfold sbind at 1. cbn [negb]. cbv iota beta. rewrite calm_getMember_or.
  destruct (dMembers db !! (r, t)) as [m|] eqn:Em; [|done].
  unfold PermissionRepo_Set, smapErr. rewrite calm_stmt, Er. simpl. intros [= <- <-].
  assert (0 <= p < 32) as Hp by apply fromProto_range.
  split; [intros v; unfold p; apply elem_of_grant|].
  unfold GetMemberPermissions. unfold sbind at 1. rewrite calm_ctxDone. unfold step_n, readTx.
  cbn [sn sdb saborted]. unfold sbind at 1. rewrite calm_withTx. unfold sbind at 1, stry at 1.
  rewrite calm_getRoom. cbn [dRooms set_dPerms]. rewrite Er.
  unfold sbind at 1. rewrite calm_getPerms. cbn [dPerms set_dPerms].
  rewrite lookup_insert_eq. simpl. rewrite bool_decide_false by (simpl; congruence).
  do 3 f_equal. unfold uint16, int16. rewrite swrap_id, uwrap_id; unfold in_u, in_s; lia.
Qed.

Lemma grant_roundtrip_witness :
  (@GetMemberPermissions demoEnv demoRoomID "bob"
     (@GrantPermissions demoEnv (user "alice") demoRoomID "bob" [PERM_SEEK; 77; PERM_ADD_QUEUE]
        (mkSt (sdb (demoRun [demoCreate; OpJoinRoom (user "bob") demoRoomID ""])) 90 false)).2).1 =
  Ok ([PERM_SEEK; PERM_ADD_QUEUE], false).
Proof.
  eapply (@grant_roundtrip demoEnv _ (user "alice") demoRoomID "bob" [PERM_SEEK; 77; PERM_ADD_QUEUE]
    [PERM_SEEK; PERM_ADD_QUEUE]
    (sdb (demoRun [demoCreate; OpJoinRoom (user "bob") demoRoomID ""])) 90 false).
  by vm_compute.
Defined.

(** ** Where the code differs from its comments *)

(** A successful [LeaveRoom] never says that the caller left, although the
    membership is gone. *)
Theorem LeaveRoom_never_reports `{Env} h r s left s' :
  LeaveRoom h r s = (Ok left, s') -> left = false.
Proof.
  unfold LeaveRoom, sbind. destruct (ctxDone s) as [[]?]; [|done].
  destruct (withTx _ _) as [[]?]; [|done]. by intros [= <-].
Qed.

(** Joining is meant to be idempotent, but the capacity is checked first: a
    member of a full room is told that the room is full. *)
Example rejoin_full_room_refused :
  (@JoinRoom demoEnv (user "bob") demoRoomID ""
     (demoRun [demoCreate; OpJoinRoom (user "bob") demoRoomID ""])).1 =
  Err (EVb (ResourceExhausted "vibesync.room" "ROOM_FULL" "room is at capacity")).
Proof. by vm_compute. Qed.

(** The owner of a room can give away the owner role of their own membership,
    and then be kicked out of the room they own. *)
Example owner_demoted_and_kicked :
  let db := sdb (demoRun [demoCreate; OpJoinRoom (user "bob") demoRoomID "";
                          OpUpdateMemberRole (user "alice") demoRoomID "bob" ROLE_MODERATOR;
                          OpUpdateMemberRole (user "alice") demoRoomID "alice" ROLE_MEMBER;
                          OpKickMember (user "bob") demoRoomID "alice"]) in
  rOwnerID <$> dRooms db !! demoRoomID = Some "alice" /\
  dMembers db !! (demoRoomID, "alice") = None.
Proof. by vm_compute. Qed.

(** The role is checked as 32 bits and stored as 16: a role that is not OWNER
    for the check is stored as OWNER. *)
Example promote_to_owner_by_truncation :
  CanPromote ROLE_OWNER 65540 = true /\
  mRole <$> dMembers (sdb (demoRun [demoCreate; OpJoinRoom (user "bob") demoRoomID "";
     OpUpdateMemberRole (user "alice") demoRoomID "bob" 65540])) !! (demoRoomID, "bob") =
  Some ROLE_OWNER.
Proof. by vm_compute. Qed.

(** Walking the pages of a listing to the end. *)
Fixpoint walkPages `{PgSearch} (fuel : nat) (cursor : string) (limit : Z)
    (rooms : gmap string Room) : list string :=
  match fuel with
  | O => []
  | S fuel =>
      let '(rows, next) := pageCut limit
        (listQuery cursor (limit + 1) "" [VisibilityPublic] rooms) in
      map rID rows ++ (if bool_decide (next = "") then [] else walkPages fuel next limit rooms)
  end.

Definition threeRooms : gmap string Room :=
  let room id t := mkRoom id id id "" VisibilityPublic "alice" 50 1 t t in
  <["A" := room "A" 1]> (<["B" := room "B" 2]> (<["C" := room "C" 3]> ∅)).

(** The cursor is the id of the first row of the next page and the query asks
    for ids below it: the pages miss that room, here ["B"]. *)
Example pages_skip_a_room :
  @walkPages anyName 10 "" 1 threeRooms = ["C"; "A"] /\
  @walkPages anyName 10 "" 3 threeRooms = ["C"; "B"; "A"].
Proof. by vm_compute. Qed.
