(* ===== verification/RoomIsolation.v ===== *)
(** * Concurrent requests to the room service

    The transactions of [RoomService] as trees of statements ([Isolation]): the
    rows each statement of [RoomRepo] writes and locks, the bodies of the eight
    transactions that change the database, and that each tree is the
    computation of [RoomService] when it runs alone. *)

From S2P Require Import Prelude GoNum Errors GoString Store Isolation.
From S2P Require Import RoomDomain Outbox Web RoomRepo RoomService.

Open Scope tx_scope.

(** ** Rows *)

Inductive roomKey : Type :=
| KRoom (id : string)
| KSlug (slug : string)               (* an entry of the unique index *)
| KMember (k : string * string)
| KPerm (k : string * string)
| KInvite (code : string)
| KOutbox (id : string).

#[global] Instance roomKey_eq : EqDecision roomKey.
Proof. solve_decision. Defined.

(** A row with its new contents, [None] when it is deleted. *)
Inductive roomWrite : Type :=
| WRoom (id : string) (r : option Room)
| WMember (k : string * string) (m : option Member)
| WPerm (k : string * string) (p : option Z)
| WInvite (code : string) (i : option (string * option time))
| WOutbox (row : OutRow Payload).

Definition upd {K V} `{Countable K} (k : K) (v : option V) : gmap K V -> gmap K V :=
  match v with Some x => insert k x | None => delete k end.

Definition applyRoomWrite (w : roomWrite) : RoomDB -> RoomDB :=
  match w with
  | WRoom id r => set_dRooms (upd id r)
  | WMember k m => set_dMembers (upd k m)
  | WPerm k p => set_dPerms (upd k p)
  | WInvite c i => set_dInvites (upd c i)
  | WOutbox row => fun db => set_dOutbox (dOutbox db ++ [row]) db
  end.

#[global] Instance roomRows : Rows RoomDB roomKey roomWrite :=
  {| applyWrite := applyRoomWrite |}.

Notation rprog := (prog RoomDB roomKey roomWrite).

(** The lock of a foreign key on a room that is there. *)
Definition refRoom (id : string) : list (roomKey * lockMode) := [(KRoom id, KeyShare)].

(** ** Statements *)

Definition tGetByID (id : string) : rprog Room :=
  tmapErr (mapErr "room" id) (tqueryRow (fun db => scanRoom <$> dRooms db !! id)).

Definition tGetMember (roomID userID : string) : rprog Member :=
  tmapErr (mapErr "member" userID) (tqueryRow (fun db => dMembers db !! (roomID, userID))).

Definition tCreateRoom (r : Room) : rprog unit :=
  tmapErr (EWrap "room_repo: create") (tstmt (fun db =>
    ([(KRoom (rID r), ForUpdate); (KSlug (rSlug r), ForUpdate)],
     match columnsOk r with
     | Some e => Err e
     | None =>
         if bool_decide (is_Some (dRooms db !! rID r)) then Err (EUniqueViolation "rooms_pkey")
         else if slugTaken (rSlug r) (rID r) (dRooms db) then Err (EUniqueViolation "rooms_slug_key")
         else Ok (tt, [WRoom (rID r) (Some (storedRoom r))])
     end))).

(** An update that changes the slug changes a column of a unique index. *)
Definition updateLocks (r old : Room) : list (roomKey * lockMode) :=
  if bool_decide (rSlug r = rSlug old) then [(KRoom (rID r), NoKeyUpdate)]
  else [(KRoom (rID r), ForUpdate); (KSlug (rSlug r), ForUpdate); (KSlug (rSlug old), ForUpdate)].

Definition tUpdateRoom (r : Room) : rprog unit :=
  tmapErr (EWrap "room_repo: update") (tstmt (fun db =>
    (match dRooms db !! rID r with Some old => updateLocks r old | None => [] end,
     match columnsOk r with
     | Some e => Err e
     | None =>
         match dRooms db !! rID r with
         | None => Ok (tt, [])
         | Some old =>
             if slugTaken (rSlug r) (rID r) (dRooms db) then Err (EUniqueViolation "rooms_slug_key")
             else Ok (tt, [WRoom (rID r) (Some (updateColumns r old))])
         end
     end))).

(** The rows of a room in the three tables that refer to it. *)
Definition cascadeWrites (id : string) (db : RoomDB) : list roomWrite :=
  map (fun k => WMember k None) (map fst (map_to_list (filter (fun km => km.1.1 = id) (dMembers db)))) ++
  map (fun c => WInvite c None) (map fst (map_to_list (filter (fun ki => ki.2.1 = id) (dInvites db)))) ++
  map (fun k => WPerm k None) (map fst (map_to_list (filter (fun kp => kp.1.1 = id) (dPerms db)))).

Definition keyOf (w : roomWrite) : roomKey :=
  match w with
  | WRoom id _ => KRoom id
  | WMember k _ => KMember k
  | WPerm k _ => KPerm k
  | WInvite c _ => KInvite c
  | WOutbox row => KOutbox (oeID (orEvent row))
  end.

Definition tDeleteRoom (id : string) : rprog unit :=
  tmapErr (EWrap "room_repo: delete") (tstmt (fun db =>
    let ws := (if bool_decide (is_Some (dRooms db !! id)) then [WRoom id None] else []) ++
              cascadeWrites id db in
    (map (fun w => (keyOf w, ForUpdate)) ws, Ok (tt, ws)))).

Definition tUpsertMember (m : Member) : rprog unit :=
  tmapErr (EWrap "member_repo: upsert") (tstmt (fun db =>
    let k := (mRoomID m, mUserID m) in
    match dRooms db !! mRoomID m with
    | None => ([], Err (EMsg "violates foreign key constraint"))
    | Some _ =>
        match dMembers db !! k with
        | Some old => ([(KMember k, NoKeyUpdate)], Ok (tt, [WMember k (Some (set_mRole (int16 (mRole m)) old))]))
        | None => ((KMember k, ForUpdate) :: refRoom (mRoomID m),
                   Ok (tt, [WMember k (Some (mkMember (mRoomID m) (mUserID m) (int16 (mRole m))
                                               (pgTime (mJoinedAt m))))]))
        end
    end)).

Definition tDeleteMember (roomID userID : string) : rprog unit :=
  tmapErr (EWrap "member_repo: delete") (tstmt (fun db =>
    let k := (roomID, userID) in
    match dMembers db !! k with
    | Some _ => ([(KMember k, ForUpdate)], Ok (tt, [WMember k None]))
    | None => ([], Ok (tt, []))
    end)).

Definition tUpdateRole (roomID userID : string) (role : RoomRole) : rprog unit :=
  tmapErr (EWrap "member_repo: update_role") (tstmt (fun db =>
    let k := (roomID, userID) in
    match dMembers db !! k with
    | Some m => ([(KMember k, NoKeyUpdate)], Ok (tt, [WMember k (Some (set_mRole (int16 role) m))]))
    | None => ([], Ok (tt, []))
    end)).

Definition tIncrement (roomID : string) (delta : Z) : rprog unit :=
  tmapErr (EWrap "member_repo: increment_count") (tstmt (fun db =>
    match dRooms db !! roomID with
    | None => ([], Ok (tt, []))
    | Some r =>
        ([(KRoom roomID, NoKeyUpdate)],
         if bool_decide (in_s 32 (rMemberCount r + delta))
         then Ok (tt, [WRoom roomID (Some (set_rMemberCount (rMemberCount r + delta) r))])
         else Err (EMsg "integer out of range"))
    end)).

Definition tCreateInvite (code roomID : string) (expiresAt : option time) : rprog unit :=
  tmapErr (EWrap "invite_repo: create") (tstmt (fun db =>
    match dRooms db !! roomID with
    | None => ([], Err (EMsg "violates foreign key constraint"))
    | Some _ =>
        ((KInvite code, ForUpdate) :: refRoom roomID,
         if bool_decide (is_Some (dInvites db !! code)) then Err (EUniqueViolation "room_invite_pkey")
         else Ok (tt, [WInvite code (Some (roomID, option_map pgTime expiresAt))]))
    end)).

Definition tSetPermission (roomID userID : string) (perms : Permissions) : rprog unit :=
  tmapErr (EWrap "permission_repo: set") (tstmt (fun db =>
    let k := (roomID, userID) in
    match dRooms db !! roomID with
    | None => ([], Err (EMsg "violates foreign key constraint"))
    | Some _ => ((KPerm k, ForUpdate) :: refRoom roomID, Ok (tt, [WPerm k (Some (int16 perms))]))
    end)).

Definition tDeletePermission (roomID userID : string) : rprog unit :=
  tmapErr (EWrap "permission_repo: delete") (tstmt (fun db =>
    let k := (roomID, userID) in
    match dPerms db !! k with
    | Some _ => ([(KPerm k, ForUpdate)], Ok (tt, [WPerm k None]))
    | None => ([], Ok (tt, []))
    end)).

Definition tAppend (e : OutEvent Payload) : rprog unit :=
  if bool_decide (oeTopic e = "") then PFail (EMsg "outbox: event 0 missing topic")
  else
    tmapErr (EWrap "outbox: insert event 0") (tstmt (fun db =>
      ([(KOutbox (oeID e), ForUpdate)],
       if bool_decide (oeID e ∈ map (fun r => oeID (orEvent r)) (dOutbox db))
       then Err (EUniqueViolation "outbox_pkey")
       else Ok (tt, [WOutbox (mkOutRow (storedEvent e) false)])))).

Section bodies.
Context `{Env}.

Definition tGetInvite (code : string) : rprog string :=
  now <~ tnow ;;
  tmapErr (mapErr "invite_code" code) (tqueryRow (inviteRoom now code)).

(** ** Bodies *)

Definition tOrNotFound {A} (e : error) (m : rprog A) : rprog A :=
  tmapErr (fun err => if isNotFound err then e else err) m.

Definition requireRoomRoleBody (roomID : string) (subject : requestSubject) (minRole : RoomRole)
    : rprog unit :=
  if SYSTEM_ADMINISTRATOR <=? sbSystemRole subject then PRet tt
  else
    member <~ tOrNotFound (EVb (PermissionDenied "manage_room" (roomRes roomID)))
                (tGetMember roomID (sbUserID subject)) ;;
    if mRole member <? minRole
    then PFail (EVb (PermissionDenied "manage_room" (roomRes roomID)))
    else PRet tt.

Definition createBody (subject : requestSubject) (room : Room) : rprog unit :=
  tCreateRoom room ;;~
  joined <~ tnow ;;
  tUpsertMember (mkMember (rID room) (sbUserID subject) ROLE_OWNER joined) ;;~
  tIncrement (rID room) 1 ;;~
  (if RequiresInvite room || (rVisibility room =? VisibilityUnlisted) then
     code <~ trand 16 ;;
     tCreateInvite (GenerateInviteCode code) (rID room) None
   else PRet tt) ;;~
  eid <~ tnewID ;; at_ <~ tnow ;;
  tAppend (roomEvent eid (rID room) "room.created.v1"
    (<["room_id" := JStr (rID room)]> (<["slug" := JStr (rSlug room)]>
     (<["name" := JStr (rName room)]> (<["owner_id" := JStr (rOwnerID room)]>
      (<["visibility" := JInt (rVisibility room)]> ∅))))) at_).

Definition checkInviteBody (roomID code : string) : rprog unit :=
  if bool_decide (code = "") then PFail (EVb (PermissionDenied "room.join" (roomRes roomID)))
  else
    inviteRoomID <~ tmapErr (fun _ => EVb (PermissionDenied "room.join" (roomRes roomID)))
                      (tGetInvite code) ;;
    if bool_decide (inviteRoomID = roomID) then PRet tt
    else PFail (EVb (PermissionDenied "room.join" (roomRes roomID))).

(** The end of [joinBody]: the member is new. *)
Definition addMemberBody (subject : requestSubject) (roomID : string) (now : time) (room : Room)
    : rprog (Room * RoomRole) :=
  tUpsertMember (mkMember roomID (sbUserID subject) ROLE_MEMBER now) ;;~
  tIncrement roomID 1 ;;~
  eid <~ tnewID ;;
  tAppend (roomEvent eid roomID "room.joined.v1"
    (<["room_id" := JStr roomID]> (<["user_id" := JStr (sbUserID subject)]>
     (<["role" := JInt ROLE_MEMBER]> (<["joined_at" := JTime now]> ∅)))) now) ;;~
  PRet (set_rMemberCount (rMemberCount room + 1) room, ROLE_MEMBER).

Definition joinBody (subject : requestSubject) (roomID code : string) (now : time)
    : rprog (Room * RoomRole) :=
  room <~ tGetByID roomID ;;
  (if RequiresInvite room then checkInviteBody roomID code else PRet tt) ;;~
  if IsFull room
  then PFail (EVb (ResourceExhausted "vibesync.room" "ROOM_FULL" "room is at capacity"))
  else
    existing <~ ttry (tGetMember roomID (sbUserID subject)) ;;
    match existing with
    | Ok m => PRet (room, mRole m)
    | Err err =>
        if negb (isNotFound err) then PFail err else addMemberBody subject roomID now room
    end.

Definition updateBody (subject : requestSubject) (req : UpdateRoomRequest) : rprog Room :=
  room <~ tGetByID (urId req) ;;
  requireRoomRoleBody (urId req) subject ROLE_OWNER ;;~
  now <~ tnow ;; rnd <~ trand 6 ;;
  let room := ApplyUpdate rnd now (urName req) (urDescription req)
                (option_map int8 (urVisibility req)) (urMaxMembers req) room in
  tUpdateRoom room ;;~
  PRet room.

Definition deleteBody (subject : requestSubject) (roomID : string) : rprog unit :=
  requireRoomRoleBody roomID subject ROLE_OWNER ;;~
  tDeleteRoom roomID ;;~
  deleted <~ tnow ;; eid <~ tnewID ;; at_ <~ tnow ;;
  tAppend (roomEvent eid roomID "room.deleted.v1"
    (<["room_id" := JStr roomID]> (<["deleted_at" := JTime deleted]> ∅)) at_).

(** The statements [LeaveRoom] and [KickMember] share. *)
Definition removeBody {A} (roomID userID : string) (a : A) : rprog A :=
  tDeleteMember roomID userID ;;~
  tDeletePermission roomID userID ;;~
  tIncrement roomID (-1) ;;~
  PRet a.

Definition leaveBody (subject : requestSubject) (roomID : string) : rprog unit :=
  room <~ tGetByID roomID ;;
  if bool_decide (rOwnerID room = sbUserID subject)
  then PFail (EVb (FailedPrecondition "vibesync.room" "OWNER_CANNOT_LEAVE"
                     "room owner must delete or transfer the room before leaving"))
  else
    existing <~ ttry (tGetMember roomID (sbUserID subject)) ;;
    match existing with
    | Err err => if isNotFound err then PRet tt else PFail err
    | Ok _ => removeBody roomID (sbUserID subject) tt
    end.

Definition kickBody (subject : requestSubject) (roomID targetID : string) : rprog bool :=
  byMember <~ tOrNotFound (EVb (PermissionDenied "kick_member" (roomRes roomID)))
                (tGetMember roomID (sbUserID subject)) ;;
  target <~ tOrNotFound (EVb (NotFound "member" targetID)) (tGetMember roomID targetID) ;;
  if negb (CanKick (mRole byMember) (mRole target))
  then PFail (EVb (PermissionDenied "kick_member" (userRes targetID)))
  else removeBody roomID targetID true.

Definition updateRoleBody (subject : requestSubject) (roomID targetID : string) (newRole : RoomRole)
    : rprog Member :=
  byMember <~ tOrNotFound (EVb (PermissionDenied "update_member_role" (roomRes roomID)))
                (tGetMember roomID (sbUserID subject)) ;;
  if negb (CanPromote (mRole byMember) newRole)
  then PFail (EVb (PermissionDenied "update_member_role" (userRes targetID)))
  else
    target <~ tOrNotFound (EVb (NotFound "member" targetID)) (tGetMember roomID targetID) ;;
    let target := set_mRole newRole target in
    tUpdateRole roomID targetID newRole ;;~
    PRet target.

Definition grantBody (subject : requestSubject) (roomID targetID : string) (perms : Permissions)
    : rprog unit :=
  room <~ tGetByID roomID ;;
  if negb (bool_decide (rOwnerID room = sbUserID subject))
  then PFail (EVb (PermissionDenied "grant_permissions" (roomRes roomID)))
  else if bool_decide (targetID = sbUserID subject)
  then PFail (EVb (InvalidArgumentFor "vibesync.room" "GRANT_SELF"
                     "the owner already holds every permission"))
  else
    tOrNotFound (EVb (NotFound "member" targetID)) (tGetMember roomID targetID) ;;~
    tSetPermission roomID targetID perms.
End bodies.

(** ** Each tree is the transaction of the service *)

Section agreement.
Context `{Env}.

Lemma tGetByID_agrees id : agree (serial (tGetByID id)) (RoomRepo_GetByID id).
Proof. unfold tGetByID, RoomRepo_GetByID. agree_tac. Qed.
Lemma tGetMember_agrees id u : agree (serial (tGetMember id u)) (MemberRepo_Get id u).
Proof. unfold tGetMember, MemberRepo_Get. agree_tac. Qed.
Lemma tGetInvite_agrees c : agree (serial (tGetInvite c)) (InviteRepo_Get c).
Proof. unfold tGetInvite, InviteRepo_Get. agree_tac. Qed.

Lemma tCreateRoom_agrees r : agree (serial (tCreateRoom r)) (RoomRepo_Create r).
Proof. apply stmt_tree. same_rows. Qed.
Lemma tUpdateRoom_agrees r : agree (serial (tUpdateRoom r)) (RoomRepo_Update r).
Proof. apply stmt_tree. same_rows. Qed.
Lemma tUpsertMember_agrees m : agree (serial (tUpsertMember m)) (MemberRepo_Upsert m).
Proof. apply stmt_tree. same_rows. Qed.
Lemma tIncrement_agrees id d : agree (serial (tIncrement id d)) (MemberRepo_IncrementRoomMemberCount id d).
Proof. apply stmt_tree. same_rows. Qed.
Lemma tCreateInvite_agrees c id t : agree (serial (tCreateInvite c id t)) (InviteRepo_Create c id t).
Proof. apply stmt_tree. same_rows. Qed.
Lemma tSetPermission_agrees id u p : agree (serial (tSetPermission id u p)) (PermissionRepo_Set id u p).
Proof. apply stmt_tree. same_rows. Qed.
Lemma tAppend_agrees e : agree (serial (tAppend e)) (OutboxRepo_Append e).
Proof.
  unfold tAppend, OutboxRepo_Append, Append. cbn [appendLoop]. case_bool_decide; [done|].
  intros s. rewrite (stmt_tree _ _ (fun db => match insertEvent (dOutbox db) e with
    | Ok rows => Ok (tt, set_dOutbox rows db) | Err err => Err err end)).
  - unfold sbind, sret. by destruct (smapErr _ _ s) as [[[]|] ?].
  - unfold insertEvent. same_rows.
Qed.
Lemma tDeleteMember_agrees id u : agree (serial (tDeleteMember id u)) (MemberRepo_Delete id u).
Proof.
  apply stmt_tree. same_rows. unfold applyAll, set_dMembers. simpl. rewrite delete_id by done.
  by destruct db.
Qed.
Lemma tDeletePermission_agrees id u : agree (serial (tDeletePermission id u)) (PermissionRepo_Delete id u).
Proof.
  apply stmt_tree. same_rows. unfold applyAll, set_dPerms. simpl. rewrite delete_id by done.
  by destruct db.
Qed.
Lemma tUpdateRole_agrees id u role :
  agree (serial (tUpdateRole id u role)) (MemberRepo_UpdateRole id u role).
Proof.
  apply stmt_tree. same_rows; unfold applyAll, set_dMembers; simpl.
  - by erewrite alter_insert_eq by done.
  - rewrite alter_absent by done. by destruct db.
Qed.

(** The deletions of a cascade, one row after the other. *)
Lemma lookup_foldl_delete {K V} `{Countable K} (l : list K) (m : gmap K V) k :
  foldl (fun m k => delete k m) m l !! k = if decide (k ∈ l) then None else m !! k.
Proof.
  revert m. induction l as [|j l IH]; intros m; cbn [foldl].
  - by rewrite decide_False by by intros ?%elem_of_nil.
  - rewrite IH. destruct (decide (k ∈ l)) as [Hin|Hin]; [by rewrite decide_True by by right|].
    destruct (decide (j = k)) as [->|Hne].
    + rewrite lookup_delete_eq, decide_True; [done|by left].
    + rewrite lookup_delete_ne by done. rewrite decide_False; [done|]. by intros [->|?]%elem_of_cons.
Qed.

Lemma foldl_delete {K V} `{Countable K} (P : K * V -> Prop) `{!forall x, Decision (P x)} (m : gmap K V) :
  foldl (fun m k => delete k m) m (map fst (map_to_list (filter P m))) = filter (fun kv => ~ P kv) m.
Proof.
  apply map_eq. intros k. rewrite lookup_foldl_delete, map_lookup_filter.
  destruct (decide (k ∈ _)) as [Hin|Hin].
  - apply list_elem_of_fmap in Hin as ([j v] & -> & Hin). apply elem_of_map_to_list in Hin.
    apply map_lookup_filter_Some in Hin as [Hm HP]. simpl in *. rewrite Hm. simpl. by rewrite option_guard_False by tauto.
  - destruct (m !! k) as [v|] eqn:Em; [|done]. simpl. rewrite option_guard_True; [done|].
    intros HP. apply Hin. apply list_elem_of_fmap. exists (k, v). split; [done|].
    apply elem_of_map_to_list. by apply map_lookup_filter_Some.
Qed.

Lemma cascade_members (l : list (string * string)) db :
  applyAll (map (fun k => WMember k None) l) db =
  set_dMembers (fun m => foldl (fun m k => delete k m) m l) db.
Proof. revert db. induction l as [|k l IH]; intros db; [by destruct db|]. simpl. unfold applyAll in *. simpl. by rewrite IH. Qed.
Lemma cascade_invites (l : list string) db :
  applyAll (map (fun k => WInvite k None) l) db =
  set_dInvites (fun m => foldl (fun m k => delete k m) m l) db.
Proof. revert db. induction l as [|k l IH]; intros db; [by destruct db|]. simpl. unfold applyAll in *. simpl. by rewrite IH. Qed.
Lemma cascade_perms (l : list (string * string)) db :
  applyAll (map (fun k => WPerm k None) l) db =
  set_dPerms (fun m => foldl (fun m k => delete k m) m l) db.
Proof. revert db. induction l as [|k l IH]; intros db; [by destruct db|]. simpl. unfold applyAll in *. simpl. by rewrite IH. Qed.

Lemma applyAll_cascade id db :
  applyAll (cascadeWrites id db) db =
  mkRoomDB (dRooms db) (filter (fun km => km.1.1 <> id) (dMembers db))
    (filter (fun ki => ki.2.1 <> id) (dInvites db)) (filter (fun kp => kp.1.1 <> id) (dPerms db)) (dOutbox db).
Proof.
  unfold cascadeWrites. rewrite !applyAll_app.
  rewrite cascade_members, cascade_invites, cascade_perms.
  unfold set_dMembers, set_dInvites, set_dPerms. simpl. by rewrite !foldl_delete.
Qed.

Lemma tDeleteRoom_agrees id : agree (serial (tDeleteRoom id)) (RoomRepo_Delete id).
Proof.
  apply stmt_tree. intros db. unfold stmtOf. simpl. do 2 f_equal. rewrite applyAll_app.
  unfold cascadeDelete. case_bool_decide as Hr.
  - change (cascadeWrites id db) with (cascadeWrites id (applyAll [WRoom id None] db)).
    by rewrite applyAll_cascade.
  - apply eq_None_not_Some in Hr. rewrite delete_id by done. apply applyAll_cascade.
Qed.
End agreement.

#[export] Hint Resolve tGetByID_agrees tGetMember_agrees tGetInvite_agrees tCreateRoom_agrees
  tUpdateRoom_agrees tUpsertMember_agrees tIncrement_agrees tCreateInvite_agrees tSetPermission_agrees
  tAppend_agrees tDeleteMember_agrees tDeletePermission_agrees tUpdateRole_agrees tDeleteRoom_agrees : agree.

Section transactions.
Context `{Env}.

Lemma requireRoomRole_agrees id sub r :
  agree (serial (requireRoomRoleBody id sub r)) (requireRoomRole id sub r).
Proof. unfold requireRoomRoleBody, requireRoomRole, tOrNotFound, orNotFound. agree_tac. Qed.
Lemma checkInvite_agrees id c : agree (serial (checkInviteBody id c)) (checkInvite id c).
Proof. unfold checkInviteBody, checkInvite. agree_tac. Qed.

Lemma createBody_agrees sub room : agree (serial (createBody sub room)) (createTx sub room).
Proof. unfold createBody, createTx. agree_tac. Qed.
Lemma joinBody_agrees sub id c now : agree (serial (joinBody sub id c now)) (joinTx sub id c now).
Proof. unfold joinBody, joinTx, addMemberBody. pose proof checkInvite_agrees. agree_tac. Qed.
Lemma updateBody_agrees sub req : agree (serial (updateBody sub req)) (updateTx sub req).
Proof. unfold updateBody, updateTx. pose proof requireRoomRole_agrees. agree_tac. Qed.
Lemma deleteBody_agrees sub id : agree (serial (deleteBody sub id)) (deleteTx sub id).
Proof. unfold deleteBody, deleteTx. pose proof requireRoomRole_agrees. agree_tac. Qed.
Lemma leaveBody_agrees sub id : agree (serial (leaveBody sub id)) (leaveTx sub id).
Proof.
  unfold leaveBody, leaveTx, removeBody. agree_tac.
  intros s. rewrite serial_bind. unfold sbind. rewrite tIncrement_agrees.
  by destruct (MemberRepo_IncrementRoomMemberCount _ _ s) as [[[]|] ?].
Qed.
Lemma kickBody_agrees sub id t : agree (serial (kickBody sub id t)) (kickTx sub id t).
Proof. unfold kickBody, kickTx, tOrNotFound, orNotFound, removeBody. agree_tac. Qed.
Lemma updateRoleBody_agrees sub id t r : agree (serial (updateRoleBody sub id t r)) (updateRoleTx sub id t r).
Proof. unfold updateRoleBody, updateRoleTx, tOrNotFound, orNotFound. agree_tac. Qed.
Lemma grantBody_agrees sub id t p : agree (serial (grantBody sub id t p)) (grantTx sub id t p).
Proof. unfold grantBody, grantTx, tOrNotFound, orNotFound. agree_tac. Qed.
End transactions.
