(* ===== verification/RoomIsolationTheorems.v ===== *)
(** * Concurrent requests keep the room service's database consistent

    The requests of the room service that change its database, interleaved
    statement by statement ([RoomIsolation]): which requests may overlap, what
    they rely on, and that the tables stay consistent.  The last section shows
    the overlaps that are not harmless. *)

From S2P Require Import Prelude GoNum Errors GoString Store Isolation.
From S2P Require Import RoomDomain Outbox Web RoomRepo RoomService RoomServiceInv RoomIsolation.

Open Scope tx_scope.

(** ** Requests *)

Inductive room_tx : Type :=
| TxCreate (sub : requestSubject) (rnd : list Z) (now : time) (id : string) (p : NewRoomParams)
| TxJoin (sub : requestSubject) (roomID code : string) (now : time)
| TxUpdate (sub : requestSubject) (req : UpdateRoomRequest)
| TxDelete (sub : requestSubject) (roomID : string)
| TxLeave (sub : requestSubject) (roomID : string)
| TxKick (sub : requestSubject) (roomID targetID : string)
| TxRole (sub : requestSubject) (roomID targetID : string) (role : RoomRole)
| TxGrant (sub : requestSubject) (roomID targetID : string) (perms : Permissions).

Inductive tx_answer : Type :=
| ADone
| AJoined (room : Room) (role : RoomRole)
| ARoom (room : Room)
| AKicked (kicked : bool)
| AMember (m : Member).

Definition answer {A} (f : A -> tx_answer) (m : rprog A) : rprog tx_answer :=
  tbind m (fun a => PRet (f a)).

(** The transaction of a request; a room that [NewRoom] rejects is refused
    before any statement. *)
Definition tx_body `{Env} (op : room_tx) : rprog tx_answer :=
  match op with
  | TxCreate sub rnd now id p =>
      match NewRoom rnd now id (sbUserID sub) p with
      | Err e => PFail e
      | Ok room => answer (fun _ => ADone) (createBody sub room)
      end
  | TxJoin sub r c now => answer (fun x => AJoined x.1 x.2) (joinBody sub r c now)
  | TxUpdate sub req => answer ARoom (updateBody sub req)
  | TxDelete sub r => answer (fun _ => ADone) (deleteBody sub r)
  | TxLeave sub r => answer (fun _ => ADone) (leaveBody sub r)
  | TxKick sub r t => answer AKicked (kickBody sub r t)
  | TxRole sub r t role => answer AMember (updateRoleBody sub r t role)
  | TxGrant sub r t p => answer (fun _ => ADone) (grantBody sub r t p)
  end.

(** ** Which requests may overlap *)

(** A request is about one member of a room, about the whole row of a room, or
    about its end. *)
Inductive scope : Type :=
| SMember (k : string * string)
| SWhole (room : string)
| SEnd (room : string).

Definition scopeOf (op : room_tx) : scope :=
  match op with
  | TxCreate _ _ _ id _ => SWhole id
  | TxUpdate _ req => SWhole (urId req)
  | TxDelete _ r => SEnd r
  | TxJoin sub r _ _ | TxLeave sub r => SMember (r, sbUserID sub)
  | TxKick _ r t | TxRole _ r t _ | TxGrant _ r t _ => SMember (r, t)
  end.

Definition scopeRoom (s : scope) : string :=
  match s with SMember k => k.1 | SWhole r | SEnd r => r end.

(** Two requests about the same member do not overlap, and the creation or the
    update of a room overlaps with nothing else about that room; everything
    else may: the requests of different members of a room, and its deletion. *)
Definition separate (a b : scope) : bool :=
  match a, b with
  | SMember k, SMember k' => negb (bool_decide (k = k'))
  | SWhole r, s | s, SWhole r => negb (bool_decide (r = scopeRoom s))
  | _, _ => true
  end.

Definition tx_compat (a b : room_tx) : bool := separate (scopeOf a) (scopeOf b).

Lemma tx_compat_sym a b : tx_compat a b = tx_compat b a.
Proof.
  unfold tx_compat. destruct (scopeOf a) as [k|r|r], (scopeOf b) as [k'|r'|r']; simpl; try done.
  all: f_equal; apply bool_decide_ext; split; congruence.
Qed.

(** ** What a request relies on *)

Definition holds (L : list (roomKey * lockMode)) (k : roomKey) : Prop :=
  exists m, (k, m) ∈ L /\ m <> KeyShare.

Record room_rely (s : scope) (L : list (roomKey * lockMode)) (db db' : RoomDB) : Prop := {
  rl_member : forall k, s = SMember k ->
    (dMembers db' !! k = dMembers db !! k /\ dPerms db' !! k = dPerms db !! k) \/ dRooms db' !! k.1 = None;
  rl_gone : forall k, s = SMember k -> dRooms db !! k.1 = None -> dRooms db' !! k.1 = None;
  rl_whole : forall r, s = SWhole r -> dRooms db' !! r = dRooms db !! r;
  rl_ref : forall r m, (KRoom r, m) ∈ L -> is_Some (dRooms db !! r) -> is_Some (dRooms db' !! r);
  rl_row : forall r, holds L (KRoom r) -> dRooms db' !! r = dRooms db !! r;
  rl_row_member : forall k, holds L (KMember k) -> dMembers db' !! k = dMembers db !! k;
  rl_end : forall r, (KRoom r, ForUpdate) ∈ L ->
    (forall k, k.1 = r -> is_Some (dMembers db' !! k) -> is_Some (dMembers db !! k)) /\
    (forall k, k.1 = r -> is_Some (dPerms db' !! k) -> is_Some (dPerms db !! k)) /\
    (forall c i, dInvites db' !! c = Some i -> i.1 = r -> dInvites db !! c = Some i);
  rl_slug : forall sl k r, (KSlug sl, ForUpdate) ∈ L -> dRooms db' !! k = Some r -> rSlug r = sl ->
    exists r0, dRooms db !! k = Some r0 /\ rSlug r0 = sl;
}.

Definition tx_rely (op : room_tx) := room_rely (scopeOf op).

Lemma room_rely_refl s L db : room_rely s L db db.
Proof. split; try done; try by left. intros sl k r _ Hr Hs. by exists r. Qed.

Lemma room_rely_trans s L a b c : room_rely s L a b -> room_rely s L b c -> room_rely s L a c.
Proof.
  intros H1 H2. split.
  - intros k Hs. destruct (rl_member _ _ _ _ H2 k Hs) as [[Hm Hp]|]; [|by right].
    destruct (rl_member _ _ _ _ H1 k Hs) as [[Hm' Hp']|Hn].
    + left. by rewrite Hm, Hp.
    + right. by apply (rl_gone _ _ _ _ H2).
  - intros k Hs Hn. apply (rl_gone _ _ _ _ H2); [done|]. by apply (rl_gone _ _ _ _ H1).
  - intros r Hs. rewrite (rl_whole _ _ _ _ H2 r Hs). by apply (rl_whole _ _ _ _ H1).
  - intros r m Hm Hs. eapply (rl_ref _ _ _ _ H2); [done|]. by eapply (rl_ref _ _ _ _ H1).
  - intros r Hr. rewrite (rl_row _ _ _ _ H2 r Hr). by apply (rl_row _ _ _ _ H1).
  - intros k Hk. rewrite (rl_row_member _ _ _ _ H2 k Hk). by apply (rl_row_member _ _ _ _ H1).
  - intros r Hr. destruct (rl_end _ _ _ _ H1 r Hr) as (M1 & P1 & I1).
    destruct (rl_end _ _ _ _ H2 r Hr) as (M2 & P2 & I2). split_and!; eauto.
  - intros sl k r Hs Hr Hsl. destruct (rl_slug _ _ _ _ H2 sl k r Hs Hr Hsl) as (r1 & Hr1 & Hsl1).
    by apply (rl_slug _ _ _ _ H1 sl k r1).
Qed.

(** ** What a request lets the others rely on *)

(** A write of a request with scope [s] that holds [L] is covered by its locks
    and its scope. *)
Definition covered (s : scope) (L : list (roomKey * lockMode)) (db : RoomDB) (w : roomWrite) : Prop :=
  match w with
  | WRoom x (Some r') =>
      holds L (KRoom x) /\ scopeRoom s = x /\
      ((exists r, dRooms db !! x = Some r /\ (rSlug r' = rSlug r \/ (KSlug (rSlug r'), ForUpdate) ∈ L)) \/
       (s = SWhole x /\ (KSlug (rSlug r'), ForUpdate) ∈ L))
  | WRoom x None => (KRoom x, ForUpdate) ∈ L /\ scopeRoom s = x
  | WMember k (Some _) =>
      holds L (KMember k) /\ (s = SMember k \/ s = SWhole k.1) /\
      ((exists m, (KRoom k.1, m) ∈ L) \/ is_Some (dMembers db !! k))
  | WMember k None => holds L (KMember k) /\ (s = SMember k \/ dRooms db !! k.1 = None)
  | WPerm k (Some _) => s = SMember k /\ exists m, (KRoom k.1, m) ∈ L
  | WPerm k None => s = SMember k \/ dRooms db !! k.1 = None
  | WInvite c (Some i) => exists m, (KRoom i.1, m) ∈ L
  | WInvite c None => True
  | WOutbox _ => True
  end.

(** Two transactions do not both hold a row. *)
Lemma holds_excl L L' k m : clash L L' = false -> holds L k -> (k, m) ∈ L' -> m = KeyShare.
Proof.
  intros Hc (a & Ha & Hn) Hm. rewrite clash_false in Hc. specialize (Hc k a m Ha Hm). by destruct a, m.
Qed.
Lemma forUpdate_excl (L L' : list (roomKey * lockMode)) k m : clash L L' = false -> (k, ForUpdate) ∈ L -> (k, m) ∈ L' -> False.
Proof. intros Hc Ha Hm. rewrite clash_false in Hc. by specialize (Hc k ForUpdate m Ha Hm). Qed.
Lemma any_excl (L L' : list (roomKey * lockMode)) k m : clash L L' = false -> (k, m) ∈ L -> (k, ForUpdate) ∈ L' -> False.
Proof. intros Hc Ha Hm. eapply (forUpdate_excl L' L); [by apply clash_sym|done..]. Qed.

Lemma separate_whole s r : separate s (SWhole r) = true -> scopeRoom s <> r.
Proof. destruct s; simpl; intros Hs; go_bool; congruence. Qed.
Lemma separate_member s k : separate s (SMember k) = true -> s <> SMember k /\ s <> SWhole k.1.
Proof. destruct s; simpl; intros Hs; go_bool; split; congruence. Qed.

Lemma lookup_upd {K V} `{Countable K} (m : gmap K V) k j v :
  upd k v m !! j = if decide (k = j) then v else m !! j.
Proof.
  destruct v; simpl; case_decide; subst; by rewrite ?lookup_insert_eq, ?lookup_insert_ne, ?lookup_delete_eq,
    ?lookup_delete_ne by done.
Qed.

(** Writes of the row of a room. *)
Lemma covered_room s L db x o s' L' :
  covered s L db (WRoom x o) -> separate s s' = true -> clash L L' = false ->
  room_rely s' L' db (applyRoomWrite (WRoom x o) db).
Proof.
  intros Hc Hsep Hcl.
  assert (holds L (KRoom x) /\ scopeRoom s = x) as [Hx Hsx].
  { destruct o as [r'|]; [by destruct Hc as (? & ? & _)|]. destruct Hc as [? ?]. split; [|done]. by exists ForUpdate. }
  split; simpl.
  - intros k ->. by left.
  - intros k -> Hn. rewrite lookup_upd. case_decide as Hk; [|done]. destruct o as [r'|]; [|done].
    destruct Hc as (_ & _ & [(r & Hr & _)|[-> _]]); [congruence|].
    apply separate_member in Hsep as [_ Hne]. congruence.
  - intros r ->. apply separate_whole in Hsep. rewrite lookup_upd, decide_False; [done|congruence].
  - intros r m Hm Hr. rewrite lookup_upd. case_decide; [|done]. subst r. destruct o as [r'|]; [by eexists|].
    destruct Hc as [Hc _]. by destruct (forUpdate_excl _ _ _ _ Hcl Hc Hm).
  - intros r (m & Hm & Hk). rewrite lookup_upd. case_decide; [|done]. subst r.
    by destruct Hk, (holds_excl _ _ _ _ Hcl Hx Hm).
  - done.
  - intros r _. by split_and!.
  - intros sl k r Hsl. rewrite lookup_upd. case_decide; [|intros Hr Hs; by exists r]. subst k. intros -> Hs.
    destruct Hc as (_ & _ & [(r0 & Hr0 & [He|Hl])|[_ Hl]]).
    + exists r0. split; [done|congruence].
    + subst sl. by destruct (forUpdate_excl _ _ _ _ Hcl Hl Hsl).
    + subst sl. by destruct (forUpdate_excl _ _ _ _ Hcl Hl Hsl).
Qed.

Lemma covered_member s L db k o s' L' :
  covered s L db (WMember k o) -> separate s s' = true -> clash L L' = false ->
  room_rely s' L' db (applyRoomWrite (WMember k o) db).
Proof.
  intros Hc Hsep Hcl.
  assert (holds L (KMember k)) as Hk by by destruct o; destruct Hc.
  split; simpl; try done.
  - intros j ->. apply separate_member in Hsep as [Hm Hw]. rewrite lookup_upd. case_decide; [|by left].
    subst j. destruct o; [by destruct Hc as (_ & [?|?] & _)|]. destruct Hc as [_ [?|?]]; [done|by right].
  - intros j (m & Hm & Hn). rewrite lookup_upd. case_decide; [|done]. subst j.
    by destruct Hn, (holds_excl _ _ _ _ Hcl Hk Hm).
  - intros r Hr. split_and!; [|done|done]. intros j Hj. rewrite lookup_upd. case_decide; [|done]. subst j.
    destruct o as [m|]; [|by intros []]. destruct Hc as (_ & _ & [[a Ha]|?]); [|done].
    subst r. by destruct (any_excl _ _ _ _ Hcl Ha Hr).
  - intros sl j r _ Hr Hs. by exists r.
Qed.

Lemma covered_rely s L db w s' L' :
  covered s L db w -> separate s s' = true -> clash L L' = false ->
  room_rely s' L' db (applyRoomWrite w db).
Proof.
  intros Hc Hsep Hcl. destruct w as [x o|k o|k o|c o|row];
    [by eapply covered_room|by eapply covered_member|..]; split; simpl; try done.
  all: try (intros sl j r _ Hr Hs; by exists r).
  all: try (intros j ->; by left).
  - intros j ->. apply separate_member in Hsep as [Hm Hw]. rewrite lookup_upd. case_decide; [|by left].
    subst j. destruct o; [by destruct Hc|]. destruct Hc; [done|by right].
  - intros r Hr. split_and!; [done| |done]. intros j Hj. rewrite lookup_upd. case_decide; [|done]. subst j.
    destruct o as [p|]; [|by intros []]. destruct Hc as (_ & m & Hm).
    subst r. by destruct (any_excl _ _ _ _ Hcl Hm Hr).
  - intros r Hr. split_and!; [done..|]. intros d i. rewrite lookup_upd. case_decide; [|done].
    intros -> Hi. destruct Hc as [m Hm]. subst r. by destruct (any_excl _ _ _ _ Hcl Hm Hr).
Qed.

Lemma covered_all_rely s L ws db s' L' :
  coveredBy (covered s) L ws db -> separate s s' = true -> clash L L' = false ->
  room_rely s' L' db (applyAll ws db).
Proof.
  revert db. induction ws as [|w ws IH]; intros db Hc Hsep Hcl; [apply room_rely_refl|].
  destruct Hc as [Hw Hc]. eapply room_rely_trans; [by eapply covered_rely|]. by apply IH.
Qed.

(** ** What a commit does to the tables *)

(** The lemmas of [RoomServiceInv] on statements, as facts about databases. *)
Definition anyEnv : Env := calmEnv (fun _ => 0) (fun _ => "").

Lemma stmt_inv {A} (P Q : RoomDB -> Prop) g (f : RoomDB -> res error (A * RoomDB)) :
  @establishes RoomDB A P Q (smapErr g (@stmt RoomDB anyEnv A f)) ->
  forall db a db', P db -> f db = Ok (a, db') -> Q db'.
Proof.
  intros [_ He] db a db' HP Hf. eapply (He (mkSt db 0 false) a (mkSt db' 1 false)); [done| |done].
  unfold smapErr, stmt. simpl. by rewrite Hf.
Qed.

Lemma inv_at_outbox id d ex o db : inv_at id d ex db -> inv_at id d ex (set_dOutbox o db).
Proof. by intros []. Qed.

Lemma inv_insert_member id u m db :
  inv_at id 0 None db -> dMembers db !! (id, u) = None -> is_Some (dRooms db !! id) ->
  inv_at id 1 None (set_dMembers (insert (id, u) (mkMember id u (int16 (mRole m)) (pgTime (mJoinedAt m)))) db).
Proof.
  intros Hi Hn [r Hr].
  eapply (stmt_inv _ _ _ _ (MemberRepo_Upsert_inv id u (mRole m) (mJoinedAt m)) db tt _ (conj Hi Hn)).
  simpl. by rewrite Hr, Hn.
Qed.

Lemma inv_count id d r delta db :
  inv_at id d None db -> dRooms db !! id = Some r ->
  inv_at id (d - delta) None (set_dRooms (insert id (set_rMemberCount (rMemberCount r + delta) r)) db).
Proof.
  intros Hi Hr. apply (inv_at_room id d _ None db r); try done; [simpl; lia|].
  intros k r0 Hne Hr0 Heq. apply Hne. by eapply (ri_slug _ _ _ _ Hi).
Qed.

Lemma inv_delete_member id u db :
  inv_at id 0 None db -> is_Some (dMembers db !! (id, u)) ->
  inv_at id (-1) None (set_dPerms (delete (id, u)) (set_dMembers (delete (id, u)) db)).
Proof.
  intros Hi Hm.
  pose proof (stmt_inv _ _ _ _ (MemberRepo_Delete_inv id u) db tt _ (conj Hi Hm) eq_refl) as Hd.
  by apply (stmt_inv _ _ _ _ (PermissionRepo_Delete_inv id (-1) u) _ tt _ Hd).
Qed.

Section commits.
Context `{Env}.
Notation ok := (keepsOk room_inv tx_compat tx_rely).
Implicit Types (op : room_tx) (ws : list roomWrite) (L : list (roomKey * lockMode)) (db : RoomDB).

(** A commit is fine when its writes keep the invariant and are covered. *)
Lemma ok_ret op (a : tx_answer) ws L db :
  (forall db', room_inv db' -> tx_rely op L db db' ->
     room_inv (applyAll ws db') /\ coveredBy (covered (scopeOf op)) L ws db') ->
  ok op (PRet a) ws L db.
Proof.
  intros Hc db' Hi Hr. destruct (Hc db' Hi Hr) as [Hinv Hcov]. split; [done|].
  intros op' L' Hop Hcl. by eapply covered_all_rely.
Qed.

(** A transaction that has not written anything may always end. *)
Lemma ok_idle op (a : tx_answer) L db : ok op (PRet a) [] L db.
Proof. apply ok_ret. by intros db' Hi _. Qed.

(** Reading one row. *)
Lemma ok_row {B} op (f : RoomDB -> option B) g (k : B -> rprog tx_answer) ws L db :
  (forall db' b, room_inv db' -> tx_rely op L db db' -> f (applyAll ws db') = Some b ->
     ok op (k b) ws L db') ->
  ok op (tbind (tmapErr g (tqueryRow f)) k) ws L db.
Proof.
  intros Hk db' Hi Hr. simpl. rewrite !app_nil_r. destruct (f (applyAll ws db')) eqn:E; [|done].
  by apply Hk.
Qed.

(** A statement that writes. *)
Lemma ok_stmt {B} op (f : RoomDB -> Isolation.outcome B) g (k : B -> rprog tx_answer) ws L db :
  (forall db' b w l, room_inv db' -> tx_rely op L db db' -> f (applyAll ws db') = (l, Ok (b, w)) ->
     ok op (k b) (ws ++ w) (L ++ l) db') ->
  ok op (tbind (tmapErr g (tstmt f)) k) ws L db.
Proof.
  intros Hk db' Hi Hr. simpl. destruct (f _) as [l [[b w]|e]] eqn:E; [|done]. simpl. by eapply Hk.
Qed.

(** Reading one row, with the error of the caller. *)
Lemma ok_row_or {B} op (f : RoomDB -> option B) g g' (k : B -> rprog tx_answer) ws L db :
  (forall db' b, room_inv db' -> tx_rely op L db db' -> f (applyAll ws db') = Some b ->
     ok op (k b) ws L db') ->
  ok op (tbind (tmapErr g (tmapErr g' (tqueryRow f))) k) ws L db.
Proof.
  intros Hk db' Hi Hr. simpl. rewrite !app_nil_r. destruct (f (applyAll ws db')) eqn:E; [|done].
  by apply Hk.
Qed.

(** Reading one row or learning that there is none. *)
Lemma ok_try_row {B} op (f : RoomDB -> option B) g (k : res error B -> rprog tx_answer) ws L db :
  (forall db' b, room_inv db' -> tx_rely op L db db' -> f (applyAll ws db') = Some b ->
     ok op (k (Ok b)) ws L db') ->
  (forall db' e, room_inv db' -> tx_rely op L db db' -> f (applyAll ws db') = None ->
     ok op (k (Err e)) ws L db') ->
  ok op (tbind (ttry (tmapErr g (tqueryRow f))) k) ws L db.
Proof.
  intros Hs Hn db' Hi Hr. simpl. rewrite !app_nil_r. destruct (f (applyAll ws db')) eqn:E; simpl.
  - by apply Hs.
  - by apply Hn.
Qed.

Lemma ok_assoc {B C} op (m : rprog B) (h : B -> rprog C) (k : C -> rprog tx_answer) ws L db :
  ok op (tbind m (fun b => tbind (h b) k)) ws L db -> ok op (tbind (tbind m h) k) ws L db.
Proof.
  revert ws L db. induction m as [a|e|D f j IH|D f j IH|D f j IH]; intros ws L db; simpl; [done..| | |].
  - intros Hk n. by apply IH.
  - intros Hk n db' Hi Hr. by apply IH, Hk.
  - intros Hk db' Hi Hr. specialize (Hk db' Hi Hr). destruct (f _) as [l [[b w]|e]]; [|done]. by apply IH.
Qed.

Lemma ok_now op (k : time -> rprog tx_answer) ws L db :
  (forall t, ok op (k t) ws L db) -> ok op (tbind tnow k) ws L db.
Proof. intros Hk n. apply Hk. Qed.
Lemma ok_id op (k : string -> rprog tx_answer) ws L db :
  (forall id, ok op (k id) ws L db) -> ok op (tbind tnewID k) ws L db.
Proof. intros Hk n. apply Hk. Qed.
Lemma ok_rand j op (k : list Z -> rprog tx_answer) ws L db :
  (forall b, ok op (k b) ws L db) -> ok op (tbind (trand j) k) ws L db.
Proof. intros Hk n. apply Hk. Qed.

Lemma ok_append op e (k : unit -> rprog tx_answer) ws L db :
  (forall db' row, room_inv db' -> tx_rely op L db db' ->
     ok op (k tt) (ws ++ [WOutbox row]) (L ++ [(KOutbox (oeID e), ForUpdate)]) db') ->
  ok op (tbind (tAppend e) k) ws L db.
Proof.
  intros Hk. unfold tAppend. case_bool_decide; [done|]. apply ok_stmt. intros db' b w l Hi Hr Hf.
  case_bool_decide; [done|]. simplify_eq. by apply Hk.
Qed.

(** The permission checks only read. *)
Lemma ok_requireRole op id sub role (k : unit -> rprog tx_answer) ws L db :
  room_inv db -> (forall db', room_inv db' -> tx_rely op L db db' -> ok op (k tt) ws L db') ->
  ok op (tbind (requireRoomRoleBody id sub role) k) ws L db.
Proof.
  intros Hi Hk. unfold requireRoomRoleBody, tOrNotFound. destruct (_ <=? _).
  - apply Hk; [done|apply room_rely_refl].
  - apply ok_assoc, ok_row_or. intros db' m Hi' Hr _. destruct (_ <? _); [done|]. by apply Hk.
Qed.

Lemma ok_checkInvite op id c (k : unit -> rprog tx_answer) ws L db :
  (forall db', room_inv db' -> tx_rely op L db db' -> ok op (k tt) ws L db') ->
  ok op (tbind (checkInviteBody id c) k) ws L db.
Proof.
  intros Hk. unfold checkInviteBody, tGetInvite. case_bool_decide; [done|]. apply ok_assoc. simpl.
  intros n db' Hi Hr. rewrite !app_nil_r. destruct (inviteRoom _ _ _); [|done]. simpl.
  case_bool_decide; [|done]. by apply Hk.
Qed.
End commits.

Ltac ok_tac := repeat first
  [ apply ok_assoc | apply ok_now; intros ? | apply ok_id; intros ? | apply ok_rand; intros ? ].

(** ** Each request keeps the tables consistent *)

Section requests.
Context `{Env}.
Notation ok := (keepsOk room_inv tx_compat tx_rely).
Implicit Types (op : room_tx) (db : RoomDB).

Lemma holds_here L k m : (k, m) ∈ L -> m <> KeyShare -> holds L k.
Proof. by exists m. Qed.

(** While a request about a member refers to its room, nobody else changes the
    member. *)
Lemma member_stays op k L db db' m :
  scopeOf op = SMember k -> tx_rely op L db db' -> (KRoom k.1, m) ∈ L -> is_Some (dRooms db !! k.1) ->
  is_Some (dRooms db' !! k.1) /\ dMembers db' !! k = dMembers db !! k /\ dPerms db' !! k = dPerms db !! k.
Proof.
  intros Hs Hr Hl Hd. pose proof (rl_ref _ _ _ _ Hr _ _ Hl Hd) as Hd'. split; [done|].
  destruct (rl_member _ _ _ _ Hr k Hs) as [?|Hn]; [done|]. rewrite Hn in Hd'. by destruct Hd'.
Qed.

(** Fewer locks are less to rely on. *)
Lemma rely_fewer op L L' db db' : L ⊆ L' -> tx_rely op L' db db' -> tx_rely op L db db'.
Proof.
  intros HL [H1 H2 H3 H4 H5 H6 H7 H8]. split; try done.
  - intros r m Hm. by eapply H4, HL.
  - intros r (m & Hm & Hn). apply H5. exists m. by split; [apply HL|].
  - intros k (m & Hm & Hn). apply H6. exists m. by split; [apply HL|].
  - intros r Hr. by apply H7, HL.
  - intros sl k r Hl. by apply H8, HL.
Qed.

Lemma rely_then op L L' a b c : L ⊆ L' -> tx_rely op L a b -> tx_rely op L' b c -> tx_rely op L a c.
Proof. intros HL H1 H2. eapply room_rely_trans; [exact H1|]. by eapply rely_fewer. Qed.

(** A new member, from the point where the row of the member is known to be
    absent. *)
Lemma addMember_ok op sub id now room f db :
  scopeOf op = SMember (id, sbUserID sub) -> room_inv db -> dMembers db !! (id, sbUserID sub) = None ->
  ok op (answer f (addMemberBody sub id now room)) [] [] db.
Proof.
  intros Hs Hi Hn. unfold answer, addMemberBody.
  apply ok_assoc, ok_stmt. intros db1 [] w l Hi1 Hr1 Hf. cbn [applyAll foldl mRoomID mUserID] in Hf.
  destruct (dRooms db1 !! id) as [r1|] eqn:Er1; [|done].
  assert (dMembers db1 !! (id, sbUserID sub) = None) as Hn1.
  { destruct (rl_member _ _ _ _ Hr1 _ Hs) as [[-> _]|Hg]; [done|]. simpl in Hg. congruence. }
  rewrite Hn1 in Hf. injection Hf as <- <-. simpl app.
  apply ok_assoc, ok_stmt. intros db2 [] w l Hi2 Hr2 Hf.
  destruct (member_stays op (id, sbUserID sub) _ _ _ KeyShare Hs Hr2) as ([r2 Er2] & Hn2 & _); [set_solver|simpl; rewrite Er1; by eexists|].
  rewrite Hn1 in Hn2. cbn in Er2, Hf. rewrite Er2 in Hf. case_bool_decide; [|done]. injection Hf as <- <-. simpl app.
  ok_tac. apply ok_append. intros db3 row Hi3 Hr3. simpl app.
  apply ok_ret. intros db4 Hi4 Hr4.
  pose proof (fun HL => rely_then _ _ _ _ _ _ HL Hr3 Hr4) as Hr. specialize (Hr ltac:(set_solver)).
  destruct (member_stays op (id, sbUserID sub) _ _ _ KeyShare Hs Hr) as (_ & Hn4 & _);
    [set_solver|simpl; rewrite Er2; by eexists|]. rewrite Hn2 in Hn4.
  assert (dRooms db4 !! id = Some r2) as Er4.
  { rewrite <- Er2. apply (rl_row _ _ _ _ Hr). eapply (holds_here _ _ NoKeyUpdate); [set_solver|done]. }
  split.
  - apply (inv_at_outbox "" 0 None), (room_inv_at id). apply (room_inv_at id) in Hi4.
    apply (inv_count id 1 r2 1); [|done].
    apply (inv_insert_member id (sbUserID sub) (mkMember id "" ROLE_MEMBER now)); [done..|by rewrite Er4].
  - rewrite Hs. cbn [coveredBy covered applyWrite roomRows]. split_and!; try done.
    + eapply (holds_here _ _ ForUpdate); [set_solver|done].
    + by left.
    + left. exists KeyShare. set_solver.
    + eapply (holds_here _ _ NoKeyUpdate); [set_solver|done].
    + left. exists r2. by split; [|left].
Qed.

Lemma join_ok sub id c now db : room_inv db -> ok (TxJoin sub id c now) (tx_body (TxJoin sub id c now)) [] [] db.
Proof.
  intros Hi. unfold tx_body, answer, joinBody. apply ok_assoc, ok_row. intros db1 room Hi1 Hr1 _.
  set (op := TxJoin sub id c now) in *.
  assert (forall db2, room_inv db2 -> ok op (tbind (if IsFull room
      then PFail (EVb (ResourceExhausted "vibesync.room" "ROOM_FULL" "room is at capacity"))
      else tbind (ttry (tGetMember id (sbUserID sub))) (fun existing =>
        match existing with
        | Ok m => PRet (room, mRole m)
        | Err err => if negb (isNotFound err) then PFail err else addMemberBody sub id now room
        end)) (fun x => PRet (AJoined x.1 x.2))) [] [] db2) as Hrest.
  { intros db2 Hi2. destruct (IsFull room); [done|]. apply ok_assoc, ok_try_row.
    - intros db3 m Hi3 Hr3 _. apply ok_idle.
    - intros db3 e Hi3 Hr3 Hn. destruct (negb _); [done|]. by apply addMember_ok. }
  apply ok_assoc. destruct (RequiresInvite room); [|by apply Hrest].
  apply ok_checkInvite. intros db2 Hi2 _. by apply Hrest.
Qed.

(** A room that is gone stays gone for the requests about its members, and has
    no rows. *)
Lemma gone_stays op k L db db' :
  scopeOf op = SMember k -> tx_rely op L db db' -> room_inv db' -> dRooms db !! k.1 = None ->
  dRooms db' !! k.1 = None /\ dMembers db' !! k = None /\ dPerms db' !! k = None.
Proof.
  intros Hs Hr Hi Hn. pose proof (rl_gone _ _ _ _ Hr k Hs Hn) as Hn'. split_and!; [done|..].
  - destruct (dMembers db' !! k) as [m|] eqn:E; [|done]. destruct (ri_member _ _ _ _ Hi k m E) as [_ [? ?]]. congruence.
  - destruct (dPerms db' !! k) as [p|] eqn:E; [|done]. destruct (ri_permroom _ _ _ _ Hi k p E) as [? ?]. congruence.
Qed.

(** A member whose row is locked stays, and so does its room. *)
Lemma locked_member_stays op k L db db' m :
  holds L (KMember k) -> tx_rely op L db db' -> room_inv db' -> dMembers db !! k = Some m ->
  dMembers db' !! k = Some m /\ is_Some (dRooms db' !! k.1).
Proof.
  intros Hh Hr Hi Hm. pose proof (rl_row_member _ _ _ _ Hr k Hh) as He. rewrite Hm in He. split; [done|].
  by destruct (ri_member _ _ _ _ Hi k m He).
Qed.

(** The rest of a removal when the member has gone with its room. *)
Lemma remove_gone_ok {A} op id u (a : A) (f : A -> tx_answer) db :
  scopeOf op = SMember (id, u) -> dRooms db !! id = None ->
  ok op (tbind (tDeletePermission id u ;;~ tIncrement id (-1) ;;~ PRet a) (fun x => PRet (f x))) [] [] db.
Proof.
  intros Hs Hn. apply ok_assoc, ok_stmt. intros db2 [] w l Hi2 Hr2 Hf. cbn [applyAll foldl] in Hf.
  destruct (gone_stays op _ _ _ _ Hs Hr2 Hi2 Hn) as (Hn2 & _ & Hp2). rewrite Hp2 in Hf. injection Hf as <- <-.
  apply ok_assoc, ok_stmt. intros db3 [] w l Hi3 Hr3 Hf. cbn [applyAll foldl app] in Hf.
  destruct (gone_stays op _ _ _ _ Hs Hr3 Hi3 Hn2) as (Hn3 & _ & _). simpl in Hn3. rewrite Hn3 in Hf.
  injection Hf as <- <-. apply ok_idle.
Qed.

(** The end of a removal: the row of the member is locked, the grants are
    deleted or were not there. *)
Lemma remove_count_ok {A} op id u (a : A) (f : A -> tx_answer) m wp lp db :
  scopeOf op = SMember (id, u) -> dMembers db !! (id, u) = Some m ->
  (wp = [WPerm (id, u) None] \/ wp = [] /\ dPerms db !! (id, u) = None) ->
  ok op (tbind (tIncrement id (-1) ;;~ PRet a) (fun x => PRet (f x)))
    (WMember (id, u) None :: wp) ((KMember (id, u), ForUpdate) :: lp) db.
Proof.
  intros Hs Hm Hwp. assert (holds ((KMember (id, u), ForUpdate) :: lp) (KMember (id, u))) as Hh
    by (eapply (holds_here _ _ ForUpdate); [by left|done]).
  apply ok_assoc, ok_stmt. intros db1 [] w l Hi1 Hr1 Hf.
  destruct (locked_member_stays _ _ _ _ _ _ Hh Hr1 Hi1 Hm) as [Hm1 [r Er]]. simpl in Er.
  assert (dRooms (applyAll (WMember (id, u) None :: wp) db1) !! id = Some r) as Er'
    by (destruct Hwp as [->|[-> _]]; exact Er).
  rewrite Er' in Hf. case_bool_decide; [|done]. injection Hf as <- <-. simpl tbind.
  apply ok_ret. intros db2 Hi2 Hr2.
  assert (holds (((KMember (id, u), ForUpdate) :: lp) ++ [(KRoom id, NoKeyUpdate)]) (KMember (id, u))) as Hh2
    by (eapply (holds_here _ _ ForUpdate); [by left|done]).
  assert (holds (((KMember (id, u), ForUpdate) :: lp) ++ [(KRoom id, NoKeyUpdate)]) (KRoom id)) as Hr2'
    by (eapply (holds_here _ _ NoKeyUpdate); [set_solver|done]).
  destruct (locked_member_stays _ _ _ _ _ _ Hh2 Hr2 Hi2 Hm1) as [Hm2 _].
  pose proof (rl_row _ _ _ _ Hr2 id Hr2') as Er2. rewrite Er in Er2.
  assert (wp = [WPerm (id, u) None] \/ wp = [] /\ dPerms db2 !! (id, u) = None) as Hwp2.
  { destruct Hwp as [?|[? Hp]]; [by left|]. right. split; [done|]. rewrite <- Hp.
    pose proof (rely_then op _ _ _ _ _ (list_subseteq_app_l _ _ _ (reflexivity _)) Hr1 Hr2) as Hr.
    destruct (rl_member _ _ _ _ Hr _ Hs) as [[_ ?]|Hg]; [done|]. simpl in Hg. congruence. }
  split.
  - apply (room_inv_at id) in Hi2.
    assert (applyAll ((WMember (id, u) None :: wp) ++ [WRoom id (Some (set_rMemberCount (rMemberCount r + -1) r))]) db2 =
      set_dRooms (insert id (set_rMemberCount (rMemberCount r + -1) r))
        (set_dPerms (delete (id, u)) (set_dMembers (delete (id, u)) db2))) as ->.
    { destruct Hwp2 as [->|[-> Hp]]; [done|]. unfold set_dPerms. cbn [dPerms set_dMembers dRooms dMembers dInvites dOutbox].
      by rewrite (delete_id (dPerms db2)). }
    apply (room_inv_at id), (inv_count id (-1) r (-1)); [|done]. apply inv_delete_member; [done|]. by rewrite Hm2.
  - rewrite Hs. destruct Hwp2 as [->|[-> _]]; cbn [app coveredBy covered applyWrite roomRows]; split_and!; try done; try by left.
    all: left; exists r; by split; [|left].
Qed.

(** The removal of a member, from the point where the row is known to be
    there. *)
Lemma remove_ok {A} op id u (a : A) f db :
  scopeOf op = SMember (id, u) -> is_Some (dMembers db !! (id, u)) ->
  ok op (answer f (removeBody id u a)) [] [] db.
Proof.
  intros Hs Hd. unfold answer, removeBody.
  apply ok_assoc, ok_stmt. intros db1 [] w l Hi1 Hr1 Hf. cbn [applyAll foldl] in Hf.
  destruct (dMembers db1 !! (id, u)) as [m|] eqn:Em; injection Hf as <- <-; simpl app.
  - apply ok_assoc, ok_stmt. intros db2 [] w l Hi2 Hr2 Hf. cbn in Hf.
    assert (holds [(KMember (id, u), ForUpdate)] (KMember (id, u))) as Hh
      by (eapply (holds_here _ _ ForUpdate); [by left|done]).
    destruct (locked_member_stays _ _ _ _ _ m Hh Hr2 Hi2 Em) as [Hm2 _].
    destruct (dPerms db2 !! (id, u)) as [p|] eqn:Ep; injection Hf as <- <-; simpl app.
    + by apply (remove_count_ok _ _ _ _ _ m); [..|left].
    + by apply (remove_count_ok _ _ _ _ _ m); [..|right].
  - apply remove_gone_ok; [done|]. destruct (rl_member _ _ _ _ Hr1 _ Hs) as [[He _]|]; [|done].
    rewrite Em in He. rewrite <- He in Hd. by destruct Hd.
Qed.

Lemma leave_ok sub id db : room_inv db -> ok (TxLeave sub id) (tx_body (TxLeave sub id)) [] [] db.
Proof.
  intros Hi. unfold tx_body, answer, leaveBody. apply ok_assoc, ok_row. intros db1 room Hi1 Hr1 _.
  case_bool_decide; [done|]. apply ok_assoc, ok_try_row.
  - intros db2 m Hi2 Hr2 Hm. apply remove_ok; [done|]. cbn in Hm. by rewrite Hm.
  - intros db2 e Hi2 Hr2 _. destruct (isNotFound e); [apply ok_idle|done].
Qed.

Lemma kick_ok sub id t db : room_inv db -> ok (TxKick sub id t) (tx_body (TxKick sub id t)) [] [] db.
Proof.
  intros Hi. unfold tx_body, answer, kickBody, tOrNotFound. apply ok_assoc, ok_row_or. intros db1 by_ Hi1 Hr1 _.
  apply ok_assoc, ok_row_or. intros db2 m Hi2 Hr2 Hm. destruct (negb _); [done|].
  apply remove_ok; [done|]. cbn in Hm. by rewrite Hm.
Qed.

Lemma role_ok sub id t role db :
  room_inv db -> ok (TxRole sub id t role) (tx_body (TxRole sub id t role)) [] [] db.
Proof.
  intros Hi. unfold tx_body, answer, updateRoleBody, tOrNotFound. apply ok_assoc, ok_row_or. intros db1 by_ Hi1 Hr1 _.
  destruct (negb _); [done|]. apply ok_assoc, ok_row_or. intros db2 m0 Hi2 Hr2 _.
  apply ok_assoc, ok_stmt. intros db3 [] w l Hi3 Hr3 Hf. cbn [applyAll foldl] in Hf.
  destruct (dMembers db3 !! (id, t)) as [m|] eqn:Em; injection Hf as <- <-; [|apply ok_idle].
  cbn [tbind app]. apply ok_ret. intros db4 Hi4 Hr4.
  assert (holds [(KMember (id, t), NoKeyUpdate)] (KMember (id, t))) as Hh
    by (eapply (holds_here _ _ NoKeyUpdate); [by left|done]).
  destruct (locked_member_stays _ _ _ _ _ _ Hh Hr4 Hi4 Em) as [Hm4 _].
  split; [|cbn; rewrite Hm4; split_and!; [done|by left|right; by eexists|done]].
  pose proof (stmt_inv _ _ _ _ (MemberRepo_UpdateRole_inv id t role) db4 tt _ Hi4 eq_refl) as Hu.
  unfold set_dMembers in Hu. by rewrite (alter_insert_eq _ _ _ _ Hm4) in Hu.
Qed.

Lemma grant_ok sub id t p db :
  room_inv db -> ok (TxGrant sub id t p) (tx_body (TxGrant sub id t p)) [] [] db.
Proof.
  intros Hi. set (op := TxGrant sub id t p). assert (scopeOf op = SMember (id, t)) as Hs by done.
  unfold tx_body, op at 2, answer, grantBody, tOrNotFound. apply ok_assoc, ok_row. intros db1 room Hi1 Hr1 _.
  destruct (negb _); [done|]. case_bool_decide; [done|].
  apply ok_assoc, ok_row_or. intros db2 m Hi2 Hr2 Hm. cbn in Hm.
  apply ok_stmt. intros db3 [] w l Hi3 Hr3 Hf. cbn [applyAll foldl] in Hf.
  destruct (dRooms db3 !! id) as [r|] eqn:Er; [|done]. injection Hf as <- <-.
  assert (dMembers db3 !! (id, t) = Some m) as Hm3.
  { destruct (rl_member _ _ _ _ Hr3 _ Hs) as [[-> _]|Hg]; [done|]. simpl in Hg. congruence. }
  apply ok_ret. intros db4 Hi4 Hr4.
  destruct (member_stays op (id, t) _ _ _ KeyShare Hs Hr4) as ([r4 Er4] & Hm4 & _);
    [set_solver|simpl; rewrite Er; by eexists|]. rewrite Hm3 in Hm4. simpl in Er4. split.
  - eapply (stmt_inv _ _ _ _ (PermissionRepo_Set_inv id t p) db4 tt); [split; [done|by rewrite Hm4]|].
    simpl. by rewrite Er4.
  - cbn. split; [|done]. split; [done|]. exists KeyShare. set_solver.
Qed.

(** *** The end of a room *)

Lemma filter_empty {K V} `{Countable K} (P : K * V -> Prop) `{!forall x, Decision (P x)} (m : gmap K V) :
  (forall k v, m !! k = Some v -> ~ P (k, v)) -> filter P m = ∅.
Proof. intros Hp. apply map_empty. intros k. apply map_lookup_filter_None_2. right. by intros v Hv; apply Hp. Qed.

Lemma cascade_none id db : room_inv db -> dRooms db !! id = None -> cascadeWrites id db = [].
Proof.
  intros [Hk Hc Hs Hm Hp Hpr Hi] Hn. unfold cascadeWrites.
  rewrite !filter_empty; [done|..].
  - intros [c u] v Hv. simpl. intros ->. destruct (Hpr _ _ Hv) as [? ?]. simpl in *. congruence.
  - intros c v Hv. simpl. intros <-. destruct (Hi _ _ Hv) as [? ?]. congruence.
  - intros [c u] v Hv. simpl. intros ->. destruct (Hm _ _ Hv) as [_ [? ?]]. simpl in *. congruence.
Qed.

Lemma inv_fewer_invites I db :
  room_inv db -> (forall c i, I !! c = Some i -> dInvites db !! c = Some i) -> room_inv (set_dInvites (fun _ => I) db).
Proof. intros [Hk Hc Hs Hm Hp Hpr Hi] HI. split; try done. intros c i Hci. eapply Hi. by apply HI. Qed.

Lemma elem_of_keys {K V} `{Countable K} (P : K * V -> Prop) `{!forall x, Decision (P x)} (m : gmap K V) k :
  k ∈ map fst (map_to_list (filter P m)) <-> exists v, m !! k = Some v /\ P (k, v).
Proof.
  rewrite list_elem_of_fmap. split.
  - intros ([j v] & -> & Hin). apply elem_of_map_to_list, map_lookup_filter_Some in Hin as [? ?]. by exists v.
  - intros (v & Hv & HP). exists (k, v). split; [done|]. apply elem_of_map_to_list. by apply map_lookup_filter_Some.
Qed.

(** Deleting the rows that were there when the room was locked deletes the rows
    that are there at the commit. *)
Lemma cascade_same (id : string) {V} (m m' : gmap (string * string) V) :
  (forall k, k.1 = id -> is_Some (m' !! k) -> is_Some (m !! k)) ->
  foldl (fun m k => delete k m) m' (map fst (map_to_list (filter (fun kv => kv.1.1 = id) m))) =
  filter (fun kv => kv.1.1 <> id) m'.
Proof.
  intros Hs. apply map_eq. intros k. rewrite lookup_foldl_delete, map_lookup_filter.
  destruct (decide _) as [Hin|Hin].
  - apply elem_of_keys in Hin as (v & _ & HP). simpl in HP. destruct (m' !! k) as [x|]; [|done].
    simpl. by rewrite option_guard_False by tauto.
  - destruct (m' !! k) as [x|] eqn:E; [|done]. simpl. rewrite option_guard_True; [done|].
    intros HP. apply Hin, elem_of_keys. destruct (Hs k HP) as [v Hv]; [by rewrite E|]. by exists v.
Qed.

Lemma cascade_inv id db db' :
  room_inv db' ->
  (forall k, k.1 = id -> is_Some (dMembers db' !! k) -> is_Some (dMembers db !! k)) ->
  (forall k, k.1 = id -> is_Some (dPerms db' !! k) -> is_Some (dPerms db !! k)) ->
  (forall c i, dInvites db' !! c = Some i -> i.1 = id -> dInvites db !! c = Some i) ->
  room_inv (applyAll (WRoom id None :: cascadeWrites id db) db').
Proof.
  intros Hi HM HP HI.
  assert (room_inv (cascadeDelete id db')) as Hc
    by exact (stmt_inv _ _ _ _ (RoomRepo_Delete_inv id) db' tt _ Hi eq_refl).
  change (applyAll (WRoom id None :: cascadeWrites id db) db') with
    (applyAll (cascadeWrites id db) (applyRoomWrite (WRoom id None) db')).
  unfold cascadeWrites. rewrite !applyAll_app, cascade_members, cascade_invites, cascade_perms.
  unfold set_dMembers, set_dInvites, set_dPerms. simpl.
  rewrite (cascade_same id (dMembers db)) by done.
  rewrite (cascade_same id (dPerms db)) by done.
  apply (inv_fewer_invites _ _ Hc). intros c i. rewrite lookup_foldl_delete.
  destruct (decide _) as [|Hn]; [done|]. intros Hci. simpl. apply map_lookup_filter_Some. split; [done|].
  simpl. intros Hid. apply Hn, elem_of_keys. exists i. by split; [apply HI|].
Qed.

(** Deletions of rows of a room that is gone are covered by their locks. *)
Lemma cascade_covered s L id db db' :
  dRooms db' !! id = None -> (forall w, w ∈ cascadeWrites id db -> (keyOf w, ForUpdate) ∈ L) ->
  coveredBy (covered s) L (cascadeWrites id db) db'.
Proof.
  intros Hn Hl. assert (forall ws, (forall w, w ∈ ws -> (keyOf w, ForUpdate) ∈ L /\
    ((exists k, w = WMember k None /\ k.1 = id) \/ (exists k, w = WPerm k None /\ k.1 = id) \/ exists c, w = WInvite c None)) ->
    forall db', dRooms db' !! id = None -> coveredBy (covered s) L ws db') as Hws.
  { induction ws as [|w ws IH]; intros Hw db0 H0; [done|]. simpl.
    destruct (Hw w) as [Hlw Hc]; [by left|]. split.
    - destruct Hc as [(k & -> & Hk)|[(k & -> & Hk)|(c & ->)]]; simpl; [|right; by rewrite Hk|done].
      split; [by exists ForUpdate|]. right. by rewrite Hk.
    - apply IH; [intros w' Hw'; apply Hw; by right|].
      by destruct Hc as [(k & -> & Hk)|[(k & -> & Hk)|(c & ->)]]. }
  apply Hws; [|done]. intros w Hw. split; [by apply Hl|]. unfold cascadeWrites in Hw.
  rewrite !elem_of_app in Hw. destruct Hw as [Hw|[Hw|Hw]]; apply list_elem_of_fmap in Hw as (k & -> & Hk);
    apply elem_of_keys in Hk as (v & _ & Hk); eauto 8.
Qed.

Lemma delete_ok sub id db : room_inv db -> ok (TxDelete sub id) (tx_body (TxDelete sub id)) [] [] db.
Proof.
  intros Hi. unfold tx_body, answer, deleteBody. apply ok_assoc, ok_requireRole; [done|]. intros db1 Hi1 _.
  apply ok_assoc, ok_stmt. intros db2 [] w l Hi2 Hr2 Hf. cbn [applyAll foldl] in Hf.
  ok_tac. apply ok_append. intros db3 row Hi3 Hr3. simpl app in *. apply ok_ret. intros db4 Hi4 Hr4.
  case_bool_decide as Hd.
  2:{ apply eq_None_not_Some in Hd. rewrite (cascade_none id db2 Hi2 Hd) in Hf. injection Hf as <- <-.
      split; [|done]. by apply (inv_at_outbox "" 0 None). }
  simpl app in Hf. injection Hf as <- <-.
  pose proof (rely_then _ _ _ _ _ _ (list_subseteq_app_l _ _ _ (reflexivity _)) Hr3 Hr4) as Hr.
  destruct (rl_end _ _ _ _ Hr id) as (HM & HP & HI); [by left|].
  rewrite applyAll_app. split.
  - apply (inv_at_outbox "" 0 None). by apply cascade_inv.
  - apply coveredBy_app. split; [|done]. split; [split; [by left|done]|].
    apply cascade_covered; [apply lookup_delete_eq|]. intros w Hw. right. apply elem_of_app. left.
    apply list_elem_of_fmap. by exists w.
Qed.

(** *** The row of a room *)

(** A request about the whole room keeps its row for itself, and a slug that
    it locked stays as it found it. *)
Lemma free_slug_stays op L db db' sl :
  tx_rely op L db db' -> (KSlug sl, ForUpdate) ∈ L ->
  (forall k r, k <> scopeRoom (scopeOf op) -> dRooms db !! k = Some r -> rSlug r <> sl) ->
  (forall k r, k <> scopeRoom (scopeOf op) -> dRooms db' !! k = Some r -> rSlug r <> sl).
Proof.
  intros Hr Hl Hf k r Hk Hr' Hs. destruct (rl_slug _ _ _ _ Hr sl k r Hl Hr' Hs) as (r0 & H0 & Hs0).
  by apply (Hf k r0).
Qed.

Lemma ApplyUpdate_keeps rnd now n d v m r :
  rID (ApplyUpdate rnd now n d v m r) = rID r /\ rMemberCount (ApplyUpdate rnd now n d v m r) = rMemberCount r.
Proof. unfold ApplyUpdate. by repeat case_match. Qed.

Lemma update_ok sub req db : room_inv db -> ok (TxUpdate sub req) (tx_body (TxUpdate sub req)) [] [] db.
Proof.
  intros Hi. set (op := TxUpdate sub req). set (id := urId req).
  assert (scopeOf op = SWhole id) as Hs by done.
  unfold tx_body, op at 2, answer, updateBody. apply ok_assoc, ok_row. intros db1 room Hi1 Hr1 Hroom.
  cbn [applyAll foldl] in Hroom. apply fmap_Some in Hroom as (old & Hold & ->). fold id in Hold.
  apply ok_assoc, ok_requireRole; [done|]. intros db2 Hi2 Hr2. ok_tac. cbv zeta.
  destruct (ApplyUpdate_keeps b t (urName req) (urDescription req) (option_map int8 (urVisibility req))
    (urMaxMembers req) (scanRoom old)) as [Hid Hcnt].
  set (room := ApplyUpdate _ _ _ _ _ _ _) in *. clearbody room. cbn in Hid, Hcnt.
  assert (rID room = id) as Hroom by (rewrite Hid; by apply (ri_key _ _ _ _ Hi1)).
  apply ok_stmt. intros db3 [] w l Hi3 Hr3 Hf. cbn [applyAll foldl] in Hf. rewrite Hroom in Hf.
  pose proof (rl_whole _ _ _ _ (room_rely_trans _ _ _ _ _ Hr2 Hr3) id Hs) as Hw3. rewrite Hw3, Hold in Hf.
  destruct (columnsOk room); [done|]. destruct (slugTaken _ _ _) eqn:Et; [done|]. injection Hf as <- <-.
  cbn [tbind app]. apply ok_ret. intros db4 Hi4 Hr4.
  pose proof (rl_whole _ _ _ _ Hr4 id Hs) as Hw4. rewrite Hw3, Hold in Hw4.
  unfold updateLocks. rewrite Hroom. split.
  - apply (room_inv_at id). apply (room_inv_at id) in Hi4. apply (inv_at_room id 0 0 None db4 old); try done.
    + simpl. lia.
    + intros k r0 Hk Hr0. unfold updateColumns. simpl.
      destruct (decide (rSlug room = rSlug old)) as [He|Hne].
      * rewrite He. intros Heq. apply Hk. by eapply (ri_slug _ _ _ _ Hi4).
      * unfold updateLocks in Hr4. rewrite bool_decide_false in Hr4 by done.
        apply (free_slug_stays op _ _ _ (rSlug room) Hr4) with (k := k); [set_solver| |done|done].
        intros j r Hj Hrj. by eapply slugTaken_false.
  - rewrite Hs. cbn. split; [|done]. case_bool_decide as He.
    + split_and!; [eapply (holds_here _ _ NoKeyUpdate); [by left|done]|done|]. left. exists old. by split; [|left].
    + split_and!; [eapply (holds_here _ _ ForUpdate); [by left|done]|done|]. left. exists old. split; [done|]. right. set_solver.
Qed.

(** *** A new room *)

(** The id and the slug of a new room are free. *)
Definition free (room : Room) (db : RoomDB) : Prop :=
  dRooms db !! rID room = None /\
  forall k r, k <> rID room -> dRooms db !! k = Some r -> rSlug r <> rSlug room.

Lemma free_stays op room L db db' :
  scopeOf op = SWhole (rID room) -> (KSlug (rSlug room), ForUpdate) ∈ L ->
  tx_rely op L db db' -> free room db -> free room db'.
Proof.
  intros Hs Hl Hr [Hn Hf]. split; [by rewrite (rl_whole _ _ _ _ Hr _ Hs)|].
  intros k r Hk. apply (free_slug_stays op _ _ _ _ Hr Hl); rewrite Hs; [apply Hf|done].
Qed.

Lemma free_slug room db : free room db -> slugTaken (rSlug room) (rID room) (dRooms db) = false.
Proof.
  intros [_ Hf]. apply not_true_is_false. unfold slugTaken. intros ([k r] & Hin & Hb)%existsb_exists.
  apply list_elem_of_In, elem_of_map_to_list in Hin. simpl in Hb. go_bool. by apply (Hf k r).
Qed.

Lemma inv_add_invite id d db c t :
  inv_at id d None db -> is_Some (dRooms db !! id) -> inv_at id d None (set_dInvites (insert c (id, t)) db).
Proof.
  intros [Hk Hc Hs Hm Hp Hpr Hi] Hr. split; try done. intros c' i. simpl.
  destruct (decide (c' = c)) as [->|Hne]; [rewrite lookup_insert_eq; by intros [= <-]|].
  rewrite lookup_insert_ne by done. apply Hi.
Qed.

Definition createdWrites (room : Room) (u : string) (m : Member) (wi : list roomWrite) (row : OutRow Payload)
    : list roomWrite :=
  WRoom (rID room) (Some (storedRoom room)) ::
  WMember (rID room, u) (Some (mkMember (rID room) u (int16 (mRole m)) (pgTime (mJoinedAt m)))) ::
  WRoom (rID room) (Some (set_rMemberCount (rMemberCount room + 1) (storedRoom room))) :: wi ++ [WOutbox row].

Lemma created_inv room u m wi row db :
  room_inv db -> rMemberCount room = 0 -> columnsOk room = None -> free room db ->
  (wi = [] \/ exists c t, wi = [WInvite c (Some (rID room, t))]) ->
  room_inv (applyAll (createdWrites room u m wi row) db).
Proof.
  intros Hi H0 Hc Hf Hwi.
  assert (inv_at (rID room) 0 None (set_dRooms (insert (rID room) (storedRoom room)) db) /\
          dMembers db !! (rID room, u) = None) as [Hi1 Hn].
  { destruct (stmt_inv _ _ _ _ (RoomRepo_Create_inv room u H0) db tt
      (set_dRooms (insert (rID room) (storedRoom room)) db) Hi) as (? & ? & _); [|done].
    rewrite Hc, (free_slug room db Hf). destruct Hf as [-> _]. by rewrite bool_decide_false by by intros []. }
  unfold createdWrites. rewrite !app_comm_cons, applyAll_app.
  apply (inv_at_outbox "" 0 None), (room_inv_at (rID room)).
  set (db1 := set_dRooms _ db) in Hi1.
  assert (is_Some (dRooms db1 !! rID room)) as Hr1 by (simpl; rewrite lookup_insert_eq; by eexists).
  pose proof (inv_insert_member (rID room) u m db1 Hi1 Hn Hr1) as Hi2.
  pose proof (inv_count (rID room) 1 (storedRoom room) 1 _ Hi2 (lookup_insert_eq _ _ _)) as Hi3.
  destruct Hwi as [->|(c & t & ->)]; [exact Hi3|].
  apply (inv_add_invite _ _ _ c t Hi3). simpl. rewrite lookup_insert_eq. by eexists.
Qed.

Lemma created_covered op room u m wi row L db :
  scopeOf op = SWhole (rID room) -> (KSlug (rSlug room), ForUpdate) ∈ L -> (KRoom (rID room), ForUpdate) ∈ L ->
  holds L (KMember (rID room, u)) ->
  (wi = [] \/ exists c t, wi = [WInvite c (Some (rID room, t))]) ->
  coveredBy (covered (scopeOf op)) L (createdWrites room u m wi row) db.
Proof.
  intros Hs Hsl Hr Hm Hwi. rewrite Hs. assert (holds L (KRoom (rID room))) by by exists ForUpdate.
  unfold createdWrites. rewrite !app_comm_cons, coveredBy_app. split; [|done].
  cbn [coveredBy covered applyWrite roomRows]. split_and!; try done; try by right.
  - by left; exists ForUpdate.
  - destruct Hwi as [->|(c & t & ->)]; [done|]. split; [|done]. by exists ForUpdate.
Qed.

Definition roomWrites (room : Room) (u : string) (m : Member) : list roomWrite :=
  [WRoom (rID room) (Some (storedRoom room));
   WMember (rID room, u) (Some (mkMember (rID room) u (int16 (mRole m)) (pgTime (mJoinedAt m))));
   WRoom (rID room) (Some (set_rMemberCount (rMemberCount room + 1) (storedRoom room)))].

Lemma create_tail_ok op room u m wi L db e a :
  scopeOf op = SWhole (rID room) -> rMemberCount room = 0 -> columnsOk room = None -> free room db ->
  (KSlug (rSlug room), ForUpdate) ∈ L -> (KRoom (rID room), ForUpdate) ∈ L -> (KMember (rID room, u), ForUpdate) ∈ L ->
  (wi = [] \/ exists c t, wi = [WInvite c (Some (rID room, t))]) ->
  ok op (answer (fun _ => a) (tAppend e)) (roomWrites room u m ++ wi) L db.
Proof.
  intros Hs H0 Hc Hf Hsl Hr Hm Hwi. apply ok_append. intros db1 row Hi1 Hr1.
  pose proof (free_stays op room _ _ _ Hs Hsl Hr1 Hf) as Hf1.
  apply ok_ret. intros db2 Hi2 Hr2. rewrite <- app_assoc.
  change (roomWrites room u m ++ wi ++ [WOutbox row]) with (createdWrites room u m wi row).
  assert (free room db2) as Hf2 by (eapply free_stays; [done| |done|done]; by apply elem_of_app; left). split.
  - by apply created_inv.
  - apply created_covered; [done|by apply elem_of_app; left..| |done].
    exists ForUpdate. split; [|done]. by apply elem_of_app; left.
Qed.

Lemma create_ok sub rnd now id p db :
  room_inv db -> ok (TxCreate sub rnd now id p) (tx_body (TxCreate sub rnd now id p)) [] [] db.
Proof.
  intros Hi. set (op := TxCreate sub rnd now id p). unfold tx_body, op at 2.
  destruct (NewRoom rnd now id (sbUserID sub) p) as [room|e] eqn:En; [|done].
  assert (rID room = id /\ rMemberCount room = 0) as [Hid H0] by (unfold NewRoom in En; by go_cases).
  assert (scopeOf op = SWhole (rID room)) as Hs by by rewrite Hid. clearbody op. clear En Hid.
  unfold answer, createBody. set (u := sbUserID sub).
  apply ok_assoc, ok_stmt. intros db1 [] w l Hi1 Hr1 Hf. cbn [applyAll foldl] in Hf.
  destruct (columnsOk room) eqn:Hc; [done|]. case_bool_decide as Hn; [done|]. apply eq_None_not_Some in Hn.
  destruct (slugTaken _ _ _) eqn:Et; [done|]. injection Hf as <- <-. simpl app.
  assert (free room db1) as Hf1 by (split; [done|]; intros k r Hk Hr; by eapply slugTaken_false).
  ok_tac. apply ok_stmt. intros db2 [] w l Hi2 Hr2 Hf.
  assert (free room db2) as Hf2 by (eapply free_stays; [done| |done|done]; set_solver).
  assert (dMembers db2 !! (rID room, u) = None) as Hn2 by (eapply no_members; [exact Hi2|apply Hf2]).
  cbn in Hf. fold u in Hf. rewrite lookup_insert_eq, Hn2 in Hf. injection Hf as <- <-. simpl app.
  apply ok_assoc, ok_stmt. intros db3 [] w l Hi3 Hr3 Hf.
  assert (free room db3) as Hf3 by (eapply free_stays; [done| |done|done]; set_solver).
  cbn in Hf. rewrite lookup_insert_eq in Hf. case_bool_decide; [|done]. injection Hf as <- <-. simpl app.
  apply ok_assoc. destruct (_ || _).
  - ok_tac. apply ok_stmt. intros db4 [] w l Hi4 Hr4 Hf.
    assert (free room db4) as Hf4 by (eapply free_stays; [done| |done|done]; set_solver).
    cbn in Hf. rewrite lookup_insert_eq in Hf. case_bool_decide; [done|]. injection Hf as <- <-.
    ok_tac. apply (create_tail_ok op room u (mkMember "" "" ROLE_OWNER t)); try done; set_solver.
  - cbn [tbind]. ok_tac. apply (create_tail_ok op room u (mkMember "" "" ROLE_OWNER t) []); try done; set_solver.
Qed.

Lemma tx_body_ok op db : room_inv db -> ok op (tx_body op) [] [] db.
Proof.
  destruct op; [apply create_ok|apply join_ok|apply update_ok|apply delete_ok|apply leave_ok|apply kick_ok
    |apply role_ok|apply grant_ok].
Qed.
End requests.

(** ** Theorems *)

(** C5. Concurrent requests keep the room database consistent: from a consistent
    database, for every interleaving of the statements of any number of requests
    at Postgres's isolation level, with waits, deadlocks and failures anywhere,
    as long as two requests about the same member do not overlap and nothing
    overlaps with the creation or an update of the same room, every room's
    [member_count] is the number of its members, slugs are unique, members,
    grants and invites belong to what exists; so it is between any two
    commits. *)
Theorem concurrent_rooms_consistent `{Env} db n evs :
  room_inv db -> apart tx_body (fun _ => true) tx_compat (sys_start db n) evs = true ->
  let db' := yDB (sys_run tx_body (sys_start db n) evs) in
  (forall id r, dRooms db' !! id = Some r ->
     rID r = id /\ rMemberCount r = Z.of_nat (length (membersOf id (dMembers db')))) /\
  (forall id1 id2 r1 r2, dRooms db' !! id1 = Some r1 -> dRooms db' !! id2 = Some r2 ->
     rSlug r1 = rSlug r2 -> id1 = id2) /\
  (forall k m, dMembers db' !! k = Some m -> is_Some (dRooms db' !! k.1) /\ k = (mRoomID m, mUserID m)) /\
  (forall c i, dInvites db' !! c = Some i -> is_Some (dRooms db' !! i.1)) /\
  (forall k p, dPerms db' !! k = Some p -> is_Some (dMembers db' !! k)).
Proof.
  intros Hi Ha db'. assert (room_inv db') as Hinv.
  { eapply so_inv, (sys_run_ok tx_body room_inv (fun _ => true) tx_compat tx_rely); [intros; apply room_rely_refl|intros; by eapply room_rely_trans
      |apply tx_compat_sym|intros; by apply tx_body_ok|by apply sys_start_ok|done]. }
  destruct Hinv as [Hk Hc Hs Hm Hp Hpr Hiv]. split_and!; [|exact Hs| |exact Hiv|].
  - intros id r Hr. split; [by apply Hk|]. specialize (Hc id r Hr). unfold membersOf.
    rewrite length_map, length_map_to_list. unfold memberCount in Hc. case_bool_decide; lia.
  - intros k m Hkm. destruct (Hm k m Hkm). by split.
  - intros k p Hkp. by apply (Hp k p).
Qed.

(** ** Requests that do not overlap *)

(** The transaction of a request as [RoomService] has it. *)
Definition tx_service `{Env} (op : room_tx) : SM RoomDB tx_answer :=
  let ret {A} (f : A -> tx_answer) (m : SM RoomDB A) := sbind m (fun a => sret (f a)) in
  match op with
  | TxCreate sub rnd now id p =>
      match NewRoom rnd now id (sbUserID sub) p with
      | Err e => sfail e
      | Ok room => ret (fun _ => ADone) (createTx sub room)
      end
  | TxJoin sub r c now => ret (fun x => AJoined x.1 x.2) (joinTx sub r c now)
  | TxUpdate sub req => ret ARoom (updateTx sub req)
  | TxDelete sub r => ret (fun _ => ADone) (deleteTx sub r)
  | TxLeave sub r => ret (fun _ => ADone) (leaveTx sub r)
  | TxKick sub r t => ret AKicked (kickTx sub r t)
  | TxRole sub r t role => ret AMember (updateRoleTx sub r t role)
  | TxGrant sub r t p => ret (fun _ => ADone) (grantTx sub r t p)
  end.

Lemma tx_body_agrees `{Env} op : agree (serial (tx_body op)) (tx_service op).
Proof.
  destruct op; cbn [tx_body tx_service]; [destruct (NewRoom _ _ _ _ _) as [room|e]; [|done]|..].
  all: eapply agree_trans; [apply serial_bind|apply agree_bind; [|done]].
  - apply createBody_agrees.
  - apply joinBody_agrees.
  - apply updateBody_agrees.
  - apply deleteBody_agrees.
  - apply leaveBody_agrees.
  - apply kickBody_agrees.
  - apply updateRoleBody_agrees.
  - apply grantBody_agrees.
Qed.

(** A request that overlaps with no other does what [RoomService] says: run
    statement by statement it comes to its end, with the database, the answer
    and the failures of its transaction there. *)
Theorem room_requests_alone `{Env} i op db n dn :
  dn !! i = None ->
  let '(r, s1) := withTx (tx_service op) (mkSt db n false) in
  exists k, sys_run tx_body (mkSys db n ∅ dn) (Begin i op :: replicate k (Next i)) =
    mkSys (sdb s1) (sn s1) ∅ (<[i := (op, r)]> dn).
Proof.
  intros Hi. pose proof (alone_serial tx_body i op db n dn Hi) as Ha.
  by rewrite (agree_withTx _ _ (tx_body_agrees op)) in Ha.
Qed.

(** ** Overlapping requests: examples *)

Definition demoSubject (u : string) : requestSubject := mkSubject u SYSTEM_USER.

Definition demoRoom : Room := mkRoom "r" "s" "n" "" VisibilityPublic "o" 2 1 0 0.
Definition demoRooms (ms : list string) : RoomDB :=
  mkRoomDB {[ "r" := set_rMemberCount (1 + Z.of_nat (length ms)) demoRoom ]}
    (list_to_map ((("r", "o"), mkMember "r" "o" ROLE_OWNER 0) ::
                  map (fun u => (("r", u), mkMember "r" u ROLE_MEMBER 0)) ms)) ∅ ∅ [].

#[local] Instance demoEnv : Env := calmEnv (fun _ => 0) (fun n => if Nat.even n then "e0" else "e1").

(** [k] steps of transaction [i]. *)
Definition nexts (i k : nat) : list (event room_tx) := replicate k (Next i).

Definition demoRun (ms : list string) (evs : list (event room_tx)) :
    sys RoomDB roomKey roomWrite room_tx tx_answer := sys_run tx_body (sys_start (demoRooms ms) 0) evs.

(** The [member_count] of the room, the number of its members, and whether the
    first two requests were answered without an error. *)
Definition demoView (s : sys RoomDB roomKey roomWrite room_tx tx_answer) : option Z * nat * list (option bool) :=
  (rMemberCount <$> dRooms (yDB s) !! "r", length (membersOf "r" (dMembers (yDB s))),
   map (fun i => is_Ok ∘ snd <$> yDone s !! i) [0; 1]%nat).

(** Two requests that interleave: both begin and take their first steps, then
    the first runs to its end, then the second. *)
Definition race (a b : room_tx) (first : nat) : list (event room_tx) :=
  [Begin 0 a; Begin 1 b] ++ nexts 0 first ++ nexts 1 first ++ nexts 0 12 ++ nexts 1 12.

Definition joinOf (u : string) : room_tx := TxJoin (demoSubject u) "r" "" 5.
Definition leaveOf (u : string) : room_tx := TxLeave (demoSubject u) "r".

Lemma demoRooms_inv : room_inv (demoRooms []).
Proof.
  split.
  - intros k r. simpl. rewrite lookup_singleton_Some. by intros [<- <-].
  - intros k r. simpl. rewrite lookup_singleton_Some. intros [<- <-]. vm_compute. reflexivity.
  - intros k1 k2 r1 r2. simpl. rewrite !lookup_singleton_Some. by intros [<- _] [<- _].
  - intros k m. simpl. rewrite lookup_insert_Some, lookup_empty. intros [[<- <-]|[_ [=]]]. split; [done|].
    simpl. rewrite lookup_singleton_eq. by eexists.
  - intros k p. simpl. by rewrite lookup_empty.
  - intros k p. simpl. by rewrite lookup_empty.
  - intros k p. simpl. by rewrite lookup_empty.
Qed.

(** Two users join at the same time: the second waits for the count of the
    first, and the database is consistent with both. *)
Lemma concurrent_rooms_consistent_witness :
  exists r, dRooms (yDB (sys_run tx_body (sys_start (demoRooms []) 0) (race (joinOf "a") (joinOf "b") 2))) !! "r" = Some r /\
    rMemberCount r = 3 /\
    length (membersOf "r" (dMembers (yDB (sys_run tx_body (sys_start (demoRooms []) 0) (race (joinOf "a") (joinOf "b") 2))))) = 3%nat.
Proof.
  assert (apart tx_body (fun _ => true) tx_compat (sys_start (demoRooms []) 0) (race (joinOf "a") (joinOf "b") 2) = true) as Ha
    by (vm_compute; reflexivity).
  pose proof (concurrent_rooms_consistent (demoRooms []) 0 _ demoRooms_inv Ha) as Hc. cbv zeta in Hc. destruct Hc as [Hc _].
  set (s := sys_run tx_body (sys_start (demoRooms []) 0) (race (joinOf "a") (joinOf "b") 2)) in *.
  assert (rMemberCount <$> dRooms (yDB s) !! "r" = Some 3) as Hr by (vm_compute; reflexivity).
  clearbody s. apply fmap_Some in Hr as (r & Hr & Hcount). exists r. split; [exact Hr|].
  destruct (Hc "r" r Hr) as [_ Hm]. rewrite <- Hcount in Hm. split; [done|lia].
Defined.

(** ** Where the code falls short of its comments *)

(** The room is for two and has one: both joins succeed. *)
Example joins_exceed_capacity :
  rMaxMembers demoRoom = 2 /\
  demoView (demoRun [] (race (joinOf "a") (joinOf "b") 2)) = (Some 3, 3%nat, [Some true; Some true]) /\
  demoView (demoRun [] (race (joinOf "a") (joinOf "b") 0)) = (Some 2, 2%nat, [Some true; Some false]).
Proof. split_and!; vm_compute; reflexivity. Qed.

(** One user joins twice at the same time: the count grows by two. *)
Example double_join_miscounts :
  demoView (demoRun [] (race (joinOf "a") (joinOf "a") 2)) = (Some 3, 2%nat, [Some true; Some true]).
Proof. vm_compute. reflexivity. Qed.

(** A member leaves twice at the same time: the count falls by two, to zero
    with the owner still there. *)
Example double_leave_miscounts :
  demoView (demoRun ["a"] (race (leaveOf "a") (leaveOf "a") 2)) = (Some 0, 1%nat, [Some true; Some true]).
Proof. vm_compute. reflexivity. Qed.

(** An update writes back the count it read: the join in between is not
    counted. *)
Example update_loses_count :
  demoView (demoRun [] (race (joinOf "a")
     (TxUpdate (demoSubject "o") (mkUpdateRoom "r" None (Some "d") None None)) 2)) =
  (Some 1, 2%nat, [Some true; Some true]).
Proof. vm_compute. reflexivity. Qed.

(** A grant that overlaps with the member's departure outlives it. *)
Example grant_outlives_membership :
  let s := demoRun ["a"] (race (leaveOf "a") (TxGrant (demoSubject "o") "r" "a" 3) 2) in
  demoView s = (Some 1, 1%nat, [Some true; Some true]) /\
  dMembers (yDB s) !! ("r", "a") = None /\ dPerms (yDB s) !! ("r", "a") = Some 3.
Proof. split_and!; vm_compute; reflexivity. Qed.
