(* ===== verification/RoomClient.v ===== *)
(** * The permission port

    Model of [infra/roomclient/client.go] and of the port [RoomPermissions],
    which the sync service and the media service share: both ask the room
    service whether a user holds a permission in a room.  The class is the
    interface the clients are written against; [roomServicePermissions] is the
    room service behind it, and its lemma says what an answer means in the room
    service's database. *)

From S2P Require Import Prelude GoNum Errors GoString Store RoomDomain Outbox Web RoomRepo RoomService.
From S2P Require Import RoomServiceInv RoomServiceTheorems.

(** [ports.RoomPermissions]: whether a user holds a permission in a room, asked
    at the [n]-th interaction. *)
Class RoomPermissions : Type :=
  hasPermission : nat -> string -> string -> RoomPermission -> res error bool.

(** ** The permission check over the room service *)

(** [roomclient.Client.Has]: the answer of [GetMemberPermissions] is a list of
    permissions and the owner flag. *)
Definition clientHas (getMemberPermissions : string -> string -> res error (list RoomPermission * bool))
    (roomID userID : string) (perm : RoomPermission) : res error bool :=
  if bool_decide (roomID = "") || bool_decide (userID = "")
  then Err (EMsg "roomclient: room_id and user_id are required")
  else
    match getMemberPermissions roomID userID with
    | Err e => Err (EWrap "roomclient: get member permissions" e)
    | Ok (perms, isOwner) =>
        if (isOwner : bool) then Ok true else Ok (bool_decide (perm ∈ perms))
    end.

(** ** The permission check in the room service's database *)

(** The answer of the room service at some moment. *)
Definition askRoomService `{Env} (db : RoomDB) (n : nat) (r u : string)
    : res error (list RoomPermission * bool) :=
  (GetMemberPermissions r u (mkSt db n false)).1.

(** The room service as the sync service's permission port. *)
Definition roomServicePermissions `{Env} (db : RoomDB) : RoomPermissions :=
  fun n r u perm => clientHas (askRoomService db n) r u perm.

Lemma calm_GetMemberPermissions `{Env} `{!Calm _} r u db n b :
  (GetMemberPermissions r u (mkSt db n b)).1 =
  match dRooms db !! r with
  | None => Err (EVb (NotFound "room" r))
  | Some room =>
      Ok (ToProto (match dPerms db !! (r, u) with Some p => uint16 p | None => 0 end),
          bool_decide (rOwnerID room = u))
  end.
Proof.
  unfold GetMemberPermissions, sbind at 1. rewrite calm_ctxDone. unfold step_n, readTx.
  cbn [sn sdb saborted]. unfold sbind at 1. rewrite calm_withTx. unfold sbind at 1, stry at 1.
  rewrite calm_getRoom. destruct (dRooms db !! r) as [room|]; [|done].
  unfold sbind at 1. rewrite calm_getPerms. done.
Qed.

(** What the room database says about a permission. *)
Definition holds (db : RoomDB) (r u : string) (perm : RoomPermission) : Prop :=
  exists room, dRooms db !! r = Some room /\
    (rOwnerID room = u \/ exists p, dPerms db !! (r, u) = Some p /\ perm ∈ ToProto (uint16 p)).

Lemma roomServicePermissions_spec `{Env} `{!Calm _} db n r u perm :
  roomServicePermissions db n r u perm = Ok true <-> r <> "" /\ u <> "" /\ holds db r u perm.
Proof.
  unfold roomServicePermissions, clientHas, askRoomService, holds.
  rewrite calm_GetMemberPermissions.
  destruct (bool_decide (r = "") || bool_decide (u = "")) eqn:E.
  { split; [done|]. intros (Hr & Hu & _). apply orb_prop in E as [E|E];
      apply bool_decide_eq_true in E; done. }
  apply orb_false_elim in E as [Er Eu]. apply bool_decide_eq_false in Er, Eu.
  destruct (dRooms db !! r) as [room|] eqn:Em; [|naive_solver].
  assert (forall x, (exists room0, Some room = Some room0 /\ (rOwnerID room0 = u \/ x)) <->
    rOwnerID room = u \/ x) as Hs by naive_solver.
  rewrite Hs. case_bool_decide as Ho; [naive_solver|].
  destruct (dPerms db !! (r, u)) as [p|] eqn:Ep.
  - split.
    + intros [= Hb]. apply bool_decide_eq_true in Hb. split_and!; [done|done|]. right. by exists p.
    + intros (_ & _ & [?|(p' & [= <-] & Hin)]); [done|]. by rewrite bool_decide_true.
  - split; [|naive_solver]. by intros [=].
Qed.
