(* ===== verification/SyncService.v ===== *)
(** * The sync service

    Model of [apps/sync-service/internal/app/service.go] and [handlers.go], of
    [infra/postgres/sync_state_repo.go]:
    the manager that owns the rooms, their checkpoints, the RPC handlers around
    [RoomSync], and the check of owner-granted permissions through the port of
    [RoomClient].

    The service's state is the map of live rooms (each with its own runtime),
    the checkpoint table, the outbox, and a counter of interactions with the
    outside world ([Env] of [Store]).  A handler can panic when a room's method
    does ([PM]); an error it returns is a [res]. *)

From Stdlib Require Import Ascii.
From S2P Require Import Prelude GoNum GoFloat SyncState Heartbeat Controller RoomSync.
From S2P Require Import Errors GoString Store RoomDomain Outbox Web RoomClient.

Open Scope go_scope.

(** ** The checkpoint table *)

Record StateRow : Type := mkStateRow {
  srMediaID : string;
  srStatus : Z;
  srMediaTimeMs : Z;
  srWallTimeMs : Z;
  srPlaybackRate : float64;
  srEpoch : Z;          (* BIGINT *)
  srHostID : string;
  srFencingToken : Z;   (* BIGINT *)
  srOwnerID : string;
  srUpdatedAt : time;
}.

(** The row [Upsert] writes for a state. *)
Definition stateRow (now : time) (s : SyncState) : StateRow :=
  mkStateRow (MediaID s) (int16 (Status s)) (MediaTimeMs s) (WallTimeMs s) (PlaybackRate s)
    (int64 (Epoch s)) (HostID s) (int64 (FencingToken s)) (OwnerID s) (pgTime now).

(** *** [CHAR(26)]

    Blanks at the end of a value count neither for its equality nor for its
    length, and it is read back padded to 26 characters. *)

Fixpoint stripBlanks (s : string) : string :=
  match s with
  | EmptyString => ""
  | String c rest =>
      let rest := stripBlanks rest in
      if bool_decide (rest = "") && Ascii.eqb c " "%char then "" else String c rest
  end.

Fixpoint blanks (n : nat) : string := match n with O => "" | S n => String " "%char (blanks n) end.

Definition char26 (s : string) : string :=
  let s := stripBlanks s in s +:+ blanks (Z.to_nat (26 - charCount s)).

(** The [VARCHAR(26)] columns, and the [CHAR(26)] one of the key. *)
Definition rowFits (s : SyncState) : bool :=
  (charCount (MediaID s) <=? 26) && (charCount (HostID s) <=? 26) && (charCount (OwnerID s) <=? 26) &&
  (charCount (stripBlanks (SyncState.RoomID s)) <=? 26).

(** The table by its key without the blanks at its end. *)
Definition SyncStateRepo_Upsert (now : time) (s : SyncState) (t : gmap string StateRow)
    : res error (gmap string StateRow) :=
  if rowFits s then Ok (<[stripBlanks (SyncState.RoomID s) := stateRow now s]> t)
  else Err (EWrap "sync_state_repo: upsert" (EMsg "value too long for type character varying(26)")).

Definition SyncStateRepo_Get (roomID : string) (t : gmap string StateRow) : res error SyncState :=
  match t !! stripBlanks roomID with
  | None => Err (EWrap "sync_state_repo: get" ENoRows)
  | Some r =>
      Ok (mkSyncState (char26 roomID) (srMediaID r) (int8 (srStatus r)) (srMediaTimeMs r) (srWallTimeMs r)
            (srPlaybackRate r) (uint64 (srEpoch r)) (srHostID r) (uint64 (srFencingToken r))
            (srUpdatedAt r) (srOwnerID r))
  end.

(** ** The service's state *)

Record Svc : Type := mkSvc {
  svRooms : gmap string RoomSync;          (* RoomManager.rooms *)
  svTable : gmap string StateRow;          (* sync_state *)
  svOutbox : list (OutRow SyncUpdatedV1);  (* outbox *)
  svN : nat;
}.

Definition set_svRooms v s := mkSvc v (svTable s) (svOutbox s) (svN s).
Definition set_svTable v s := mkSvc (svRooms s) v (svOutbox s) (svN s).
Definition set_svOutbox v s := mkSvc (svRooms s) (svTable s) v (svN s).
Definition set_svN v s := mkSvc (svRooms s) (svTable s) (svOutbox s) v.

Section service.
Context `{Env} `{RoomPermissions}.
Context (rts : string -> Runtime) (scfg : SyncConfig) (withPresence : bool).

Abbreviation SV := (PM Svc).

(** The number of the next interaction. *)
Definition interaction : SV nat := fun s => Some (svN s, set_svN (S (svN s)) s).

(** A method of a live room. *)
Definition runRoom {A} (roomID : string) (m : PM RoomSync A) : SV A := fun s =>
  match svRooms s !! roomID with
  | None => None (* a nil room *)
  | Some rs =>
      match m rs with
      | Some (a, rs') => Some (a, set_svRooms (<[roomID := rs']> (svRooms s)) s)
      | None => None
      end
  end.

Definition svDone : SV (option error) :=
  n <-! interaction ;; pret (env_ctx n).

(** *** The manager *)

(** The state of a room without a checkpoint. *)
Definition freshState (roomID host owner : string) : SyncState :=
  mkSyncState roomID "" StatusPaused 0 0 (flit 1 1) 0 host 0 time_zero owner.

(** The load of [GetOrCreate], in a transaction that is rolled back. *)
Definition loadState (roomID : string) : SV (res error SyncState) :=
  n <-! interaction ;;
  t <-! pget svTable ;;
  pret (match env_begin n with
        | Some e => Err e
        | None =>
            match env_fault n with
            | Some e => Err (EWrap "sync_state_repo: get" e)
            | None => SyncStateRepo_Get roomID t
            end
        end).

Definition addRoom (roomID : string) (initial : SyncState) : SV unit :=
  pmod (fun s => set_svRooms
    (<[roomID := NewRoomSync scfg roomID initial true withPresence emptyWorld]> (svRooms s)) s) ;;!
  runRoom roomID Start.

(** The room is in the map afterwards; the Go function returns a pointer to it
    and never an error. *)
Definition GetOrCreate (roomID : string) : SV unit :=
  rooms <-! pget svRooms ;;
  match rooms !! roomID with
  | Some _ => pskip
  | None =>
      r <-! loadState roomID ;;
      addRoom roomID (match r with Ok st => st | Err _ => freshState roomID "" "" end)
  end.

Definition Init (roomID ownerID : string) : SV unit :=
  rooms <-! pget svRooms ;;
  match rooms !! roomID with
  | Some _ => runRoom roomID (@AdoptOwnerIfUnset (rts roomID) ownerID) ;;! pskip
  | None => addRoom roomID (freshState roomID ownerID ownerID)
  end.

Definition ManagerShutdown : SV unit :=
  pmod (fun s => set_svRooms
    ((fun rs => if started rs then set_cancelled true rs else rs) <$> svRooms s) s).

(** [makePersister]: [Upsert] in a transaction of its own. *)
Definition persister (st : SyncState) : SV (option error) :=
  n <-! interaction ;;
  t <-! pget svTable ;;
  match env_begin n, env_fault n, SyncStateRepo_Upsert (env_now n) st t with
  | Some e, _, _ => pret (Some e)
  | None, Some e, _ => pret (Some (EWrap "sync_state_repo: upsert" e))
  | None, None, Err e => pret (Some e)
  | None, None, Ok t' =>
      match env_commit n with
      | None => pmod (set_svTable t') ;;! pret None
      | Some (e, applied) =>
          (if (applied : bool) then pmod (set_svTable t') else pskip) ;;! pret (Some e)
      end
  end.

(** [makeStager]: [Append] of one event in a transaction of its own. *)
Definition stager (ev : RoomSync.Event) : SV (option error) :=
  n <-! interaction ;;
  rows <-! pget svOutbox ;;
  let row := mkOutEvent (evID ev) (evAggregateID ev) (evTopic ev) (evKey ev) (evPayload ev) ∅
               (evOccurredAt ev) (evVersion ev) in
  match env_begin n, env_fault n, insertEvent rows row with
  | Some e, _, _ => pret (Some e)
  | None, Some e, _ => pret (Some (EWrap "outbox: insert event 0" e))
  | None, None, Err e => pret (Some (EWrap "outbox: insert event 0" e))
  | None, None, Ok rows' =>
      match env_commit n with
      | None => pmod (set_svOutbox rows') ;;! pret None
      | Some (e, applied) =>
          (if (applied : bool) then pmod (set_svOutbox rows') else pskip) ;;! pret (Some e)
      end
  end.

(** The calls of the injected functions a room made; errors are logged. *)
Fixpoint runCalls (cs : list extCall) : SV unit :=
  match cs with
  | [] => pskip
  | CallPersist st :: cs => persister st ;;! runCalls cs
  | CallStager ev :: cs => stager ev ;;! runCalls cs
  | CallPresence _ _ :: cs => runCalls cs
  end.

(** The snapshot branch of a room's loop, with the functions it calls. *)
Definition roomSnapshotTick (roomID : string) : SV unit :=
  before <-! runRoom roomID (pget (fun rs => length (calls (world rs)))) ;;
  runRoom roomID (@snapshotTick (rts roomID)) ;;!
  made <-! runRoom roomID (pget (fun rs => drop before (calls (world rs)))) ;;
  runCalls made.

Definition roomTick (roomID : string) : SV unit := runRoom roomID (@tick (rts roomID)).

(** *** Heartbeat *)

Record HeartbeatRequest : Type := mkHbReq {
  hrRoomID : string;
  hrClientEpoch : Z;
  hrClientMediaTimeMs : Z;
  hrClientWallTimeMs : Z;
  hrLastServerWallTimeMs : Z;
}.

Definition missingRoom : error :=
  EVb (InvalidArgumentFor "vibesync.sync" "MISSING_ROOM_ID" "room_id required").
Definition missingUser : error := EVb (Unauthenticated "MISSING_USER_ID").

Definition Heartbeat (h : Header) (req : HeartbeatRequest) : SV (res error HeartbeatReply) :=
  done <-! svDone ;;
  match done with
  | Some e => pret (Err e)
  | None =>
      let roomID := hrRoomID req in
      if bool_decide (roomID = "") then pret (Err missingRoom)
      else
        let userID := sbUserID (subjectFromHeader h) in
        if bool_decide (userID = "") then pret (Err missingUser)
        else
          GetOrCreate roomID ;;!
          reply <-! runRoom roomID (@ProcessHeartbeat (rts roomID) roomID userID
                      (hrClientEpoch req) (hrClientMediaTimeMs req) (hrClientWallTimeMs req)
                      (hrLastServerWallTimeMs req)) ;;
          pret (Ok reply)
  end.

(** *** Command *)

Record CommandRequest : Type := mkCmdReq {
  cqRoomID : string;
  cqKind : Z;              (* int32 *)
  cqSeekToMs : option Z;
  cqRate : option float64;
  cqMediaID : string;
  cqFencingToken : Z;
}.

Definition commandPermission (kind : CommandKind) : option RoomPermission :=
  if kind =? CmdSeek then Some PERM_SEEK
  else if (kind =? CmdPlay) || (kind =? CmdPause) || (kind =? CmdSetRate) then Some PERM_PAUSE_PLAY
  else if (kind =? CmdLoadMedia) || (kind =? CmdNext) || (kind =? CmdPrevious)
  then Some PERM_SWITCH_QUEUE
  else None.

Definition commandDenied (roomID : string) : error :=
  EVb (PermissionDenied "command" ("room:" +:+ roomID)).

(** [None] is allowed. *)
Definition authorizeCommand (roomID userID : string) (kind : CommandKind) : SV (option error) :=
  host <-! runRoom roomID getHostID ;;
  owner <-! runRoom roomID getOwnerID ;;
  if bool_decide (userID = host) || bool_decide (userID = owner) then pret None
  else
    match commandPermission kind with
    | None => pret (Some (commandDenied roomID))
    | Some perm =>
        n <-! interaction ;;
        match hasPermission n roomID userID perm with
        | Err e => pret (Some (EVb (WithCause e (Internal "PERMISSION_CHECK_FAILED" (errText e)))))
        | Ok false => pret (Some (commandDenied roomID))
        | Ok true => pret None
        end
    end.

Definition Command (h : Header) (req : CommandRequest) : SV (res error CommandReply) :=
  done <-! svDone ;;
  match done with
  | Some e => pret (Err e)
  | None =>
      let roomID := cqRoomID req in
      if bool_decide (roomID = "") then pret (Err missingRoom)
      else
        let userID := sbUserID (subjectFromHeader h) in
        if bool_decide (userID = "") then pret (Err missingUser)
        else
          GetOrCreate roomID ;;!
          let kind := int8 (cqKind req) in
          denied <-! authorizeCommand roomID userID kind ;;
          match denied with
          | Some e => pret (Err e)
          | None =>
              reply <-! runRoom roomID (@ProcessCommandAuthorized (rts roomID) kind (cqSeekToMs req)
                          (cqRate req) (cqMediaID req) (cqFencingToken req)) ;;
              pret (Ok reply)
          end
  end.

(** *** Recover *)

Definition RecoverRPC (roomID : string) (sinceEpoch : Z)
    : SV (res error (SyncSnapshot + list Frame)) :=
  done <-! svDone ;;
  match done with
  | Some e => pret (Err e)
  | None =>
      if bool_decide (roomID = "") then pret (Err missingRoom)
      else
        GetOrCreate roomID ;;!
        r <-! runRoom roomID (@Recover (rts roomID) sinceEpoch) ;;
        pret (Ok (match r.1 with Some snap => inl snap | None => inr r.2 end))
  end.

(** *** Subscribe *)

(** One turn of the forwarding loop, as the [select] decides it: the context is
    done, or the channel is ready and the send of its frame succeeds or
    fails. *)
Inductive turn : Type :=
| TurnDone
| TurnFrame (sendError : option error).

(** What a stream has done so far: still open, or returned; and the frames sent
    to the client. *)
Inductive streamEnd : Type := Open | Returned_ (err : option error).

(** A receive does not block: the channel has a frame or is closed. *)
Definition chanReady (ch : nat) (rs : RoomSync) : bool :=
  match chans (world rs) !! ch with
  | Some (mkChan [] closed) => closed
  | Some (mkChan (_ :: _) _) => true
  | None => false
  end.

Fixpoint forward (roomID : string) (ch : nat) (turns : list turn) (sent : list Frame)
    : SV (streamEnd * list Frame) :=
  match turns with
  | [] => pret (Open, sent)
  | TurnDone :: _ => pret (Returned_ None, sent)
  | TurnFrame sendError :: turns =>
      ready <-! runRoom roomID (pget (chanReady ch)) ;;
      if negb ready then pret (Open, sent) (* the select blocks *)
      else
        frame <-! runRoom roomID (recvChan ch) ;;
        match frame with
        | None => pret (Returned_ None, sent) (* closed *)
        | Some f =>
            match sendError with
            | Some e => pret (Returned_ (Some e), sent)
            | None => forward roomID ch turns (sent ++ [f])
            end
        end
  end.

(** The stream up to a point: it ends with the deferred unregistration once the
    handler has returned.  The context's interactions with other operations of
    the room are in [RoomSyncRuns]. *)
Definition Subscribe (roomID : string) (firstSend : option error) (turns : list turn)
    : SV (res error (streamEnd * option SyncSnapshot * list Frame)) :=
  done <-! svDone ;;
  match done with
  | Some e => pret (Err e)
  | None =>
      if bool_decide (roomID = "") then pret (Err missingRoom)
      else
        GetOrCreate roomID ;;!
        ch <-! runRoom roomID RegisterSubscriber ;;
        snap <-! runRoom roomID (@Snapshot (rts roomID)) ;;
        match firstSend with
        | Some e =>
            runRoom roomID (UnregisterSubscriber ch) ;;! pret (Ok (Returned_ (Some e), None, []))
        | None =>
            r <-! forward roomID ch turns [] ;;
            match r.1 with
            | Open => pret (Ok (Open, Some snap, r.2))
            | Returned_ err =>
                runRoom roomID (UnregisterSubscriber ch) ;;!
                pret (Ok (Returned_ err, Some snap, r.2))
            end
        end
  end.

(** *** The consumer of [room.created.v1] *)

(** The payload after [json.Unmarshal]; [None] is malformed JSON. *)
Record RoomCreatedV1 : Type := mkRoomCreated {
  rcRoomID : string; rcSlug : string; rcName : string; rcOwnerID : string; rcVisibility : Z;
}.

Definition RoomCreatedHandler_Handle (msg : option RoomCreatedV1) : SV (option error) :=
  match msg with
  | None => pret None
  | Some ev =>
      if bool_decide (rcRoomID ev = "") || bool_decide (rcOwnerID ev = "") then pret None
      else Init (rcRoomID ev) (rcOwnerID ev) ;;! pret None
  end.
End service.
