(* ===== verification/SyncServiceTheorems.v ===== *)
(** * Theorems about the sync service

    Who may command a room, with the permission check followed into the room
    service's database; what a restart recovers; that room creation events can
    be delivered again. *)

From Stdlib Require Import Ascii.
From S2P Require Import Prelude GoNum GoFloat SyncState Heartbeat Controller RoomSync.
From S2P Require Import RoomSyncTheorems.
From S2P Require Import Errors GoString Store RoomDomain Outbox Web RoomRepo RoomService.
From S2P Require Import RoomServiceInv RoomServiceTheorems RoomClient SyncService.

Open Scope go_scope.

(** ** Commands *)

Section commands.
Context `{Env} `{RoomPermissions}.
Context (rts : string -> Runtime) (scfg : SyncConfig) (withPresence : bool).

Abbreviation getRoom := (GetOrCreate scfg withPresence).

(** A room as the manager starts it. *)
Definition newRoom (r : string) (st : SyncState) : RoomSync :=
  set_started true (NewRoomSync scfg r st true withPresence emptyWorld).

Lemma addRoom_spec r st s :
  addRoom scfg withPresence r st s =
  Some (tt, set_svRooms (<[r := newRoom r st]> (svRooms s)) s).
Proof.
  unfold addRoom, pbind, pmod, runRoom. cbn [svRooms set_svRooms]. rewrite lookup_insert_eq.
  unfold Start, pmod. cbn [started NewRoomSync]. by rewrite insert_insert_eq.
Qed.

(** [GetOrCreate] leaves the room in the map, and the others alone. *)
Lemma GetOrCreate_spec r s :
  exists s1 rs, getRoom r s = Some (tt, s1) /\ svRooms s1 !! r = Some rs /\
    svTable s1 = svTable s /\ svOutbox s1 = svOutbox s /\
    (forall k, k <> r -> svRooms s1 !! k = svRooms s !! k) /\
    (forall rs0, svRooms s !! r = Some rs0 -> rs = rs0 /\ s1 = s).
Proof.
  unfold GetOrCreate, pbind, pget. destruct (svRooms s !! r) as [rs0|] eqn:Er.
  - exists s, rs0. split_and!; try done. by intros rs1 [= ->].
  - unfold loadState, interaction, pbind, pget, pret. simpl. rewrite addRoom_spec. simpl.
    eexists _, _. split; [reflexivity|]. simpl. rewrite lookup_insert_eq.
    split_and!; try done. intros k Hk. by rewrite !lookup_insert_ne.
Qed.

(** Who may command: the host, the owner, or a holder of the matching grant. *)
Definition may_command (u r : string) (kind : CommandKind) (st : SyncState) : Prop :=
  u = HostID st \/ u = OwnerID st \/
  exists perm n, commandPermission kind = Some perm /\ hasPermission n r u perm = Ok true.

Lemma authorizeCommand_spec r u kind s rs :
  svRooms s !! r = Some rs ->
  exists d s', authorizeCommand r u kind s = Some (d, s') /\ svRooms s' = svRooms s /\
    (d = None -> may_command u r kind (state rs)).
Proof.
  intros Hr. unfold authorizeCommand, pbind, runRoom, getHostID, getOwnerID, pget. rewrite Hr. simpl.
  rewrite lookup_insert_eq. simpl.
  assert (<[r:=rs]> (<[r:=rs]> (svRooms s)) = svRooms s) as Hid
    by (rewrite !insert_id by (rewrite ?insert_id; done); done).
  destruct (bool_decide (u = HostID (state rs)) || bool_decide (u = OwnerID (state rs))) eqn:Eu.
  { eexists None, _. split; [done|]. split; [done|]. intros _.
    apply orb_prop in Eu as [Eu|Eu]; apply bool_decide_eq_true in Eu; [by left|by right; left]. }
  destruct (commandPermission kind) as [perm|] eqn:Ep; [|by eexists (Some _), _].
  unfold interaction. simpl. destruct (hasPermission _ _ _ _) as [[]|e] eqn:Eh.
  - eexists None, _. split; [done|]. split; [done|]. intros _. right; right. by eexists _, _.
  - by eexists (Some _), _.
  - by eexists (Some _), _.
Qed.

(** What a command did, given the service [s1] with the room materialised. *)
Definition command_outcome (u : string) (req : CommandRequest) (s1 : Svc)
    (res : res error CommandReply) (s' : Svc) : Prop :=
  let r := cqRoomID req in
  let kind := int8 (cqKind req) in
  match res with
  | Err _ => svRooms s' = svRooms s1
  | Ok reply =>
      exists rs rs', svRooms s1 !! r = Some rs /\ svRooms s' = <[r := rs']> (svRooms s1) /\
        may_command u r kind (state rs) /\
        (if crAccepted reply
         then FencingToken (state rs) <= cqFencingToken req /\
              exists t0 t1, state rs' = ApplyCommand kind (cqSeekToMs req) (cqRate req)
                              (cqMediaID req) (UnixMilli t0) t1 (state rs)
         else cqFencingToken req < FencingToken (state rs) /\ rs' = rs)
  end.

Lemma authorized_room_command r kind seek rate mid tok rs reply rs' :
  @ProcessCommandAuthorized (rts r) kind seek rate mid tok rs = Some (reply, rs') ->
  if crAccepted reply
  then FencingToken (state rs) <= tok /\
       exists t0 t1, state rs' = ApplyCommand kind seek rate mid (UnixMilli t0) t1 (state rs)
  else tok < FencingToken (state rs) /\ rs' = rs.
Proof.
  unfold ProcessCommandAuthorized. destruct (Z.lt_ge_cases tok (FencingToken (state rs))) as [Hlt|Hge].
  - unfold applyCommandLocked, pbind, pget, id. apply Z.ltb_lt in Hlt as Hb. rewrite Hb.
    unfold pret. intros [= <- <-]. done.
  - intros E. apply applyCommandLocked_accepts in E as (t0 & t1 & Hs & ->); [|done]. simpl.
    split; [done|]. by exists t0, t1.
Qed.

Lemma Command_spec h req s res s' :
  Command rts scfg withPresence h req s = Some (res, s') ->
  let s0 := set_svN (S (svN s)) s in
  (svRooms s' = svRooms s /\ exists e, res = Err e) \/
  (cqRoomID req <> "" /\ sbUserID (subjectFromHeader h) <> "" /\
   exists s1, getRoom (cqRoomID req) s0 = Some (tt, s1) /\
     command_outcome (sbUserID (subjectFromHeader h)) req s1 res s').
Proof.
  intros E s0. unfold Command in E. unfold svDone, interaction, pbind at 1 2, pret at 1 in E.
  destruct (env_ctx (svN s)) as [e|].
  { injection E as <- <-. left. split; [done|by eexists]. }
  case_bool_decide as Hr; [injection E as <- <-; left; split; [done|by eexists]|].
  case_bool_decide as Hu; [injection E as <- <-; left; split; [done|by eexists]|].
  right. split_and!; [done|done|].
  destruct (GetOrCreate_spec (cqRoomID req) s0) as (s1 & rs & Hg & Hroom & _).
  exists s1. split; [exact Hg|]. unfold pbind at 1 in E. unfold s0 in Hg. rewrite Hg in E.
  destruct (authorizeCommand_spec (cqRoomID req) (sbUserID (subjectFromHeader h))
              (int8 (cqKind req)) s1 rs Hroom) as (d & s2 & Ha & Hs2 & Hmay).
  unfold pbind at 1 in E. rewrite Ha in E.
  destruct d as [e|]; [unfold pret in E; injection E as <- <-; exact Hs2|].
  unfold pbind, runRoom in E. rewrite Hs2, Hroom in E.
  destruct (ProcessCommandAuthorized _ _ _ _ _ _) as [[reply rs']|] eqn:Ec; [|done].
  unfold pret in E. injection E as <- <-. exists rs, rs'. split_and!; [done|done| |].
  - by apply Hmay.
  - by eapply authorized_room_command.
Qed.
End commands.

(** ** Theorems *)

(** C11. Only those who may command a room: when the sync service asks the room
    service about grants, an accepted command comes from the host, the owner,
    or a user whom the room's database gives the permission of that command;
    its fencing token is not older than the room's; the room's state becomes
    exactly the command applied to it, and no other room changes.  A refused
    command, or a failed one, changes no room. *)
Theorem Command_authorized `{E : Env} `{!Calm E} `{Er : Env} `{!Calm Er} (db : RoomDB)
    rts scfg withPresence h req s res s' :
  @Command E (@roomServicePermissions Er db) rts scfg withPresence h req s = Some (res, s') ->
  (svRooms s' = svRooms s /\ exists e, res = Err e) \/
  exists s1 rs rs',
    @GetOrCreate E scfg withPresence (cqRoomID req) (set_svN (S (svN s)) s) = Some (tt, s1) /\
    svRooms s1 !! cqRoomID req = Some rs /\ svRooms s' = <[cqRoomID req := rs']> (svRooms s1) /\
    (match res with
     | Ok reply =>
         (let u := sbUserID (subjectFromHeader h) in
          u = HostID (state rs) \/ u = OwnerID (state rs) \/
          exists perm, commandPermission (int8 (cqKind req)) = Some perm /\
                       holds db (cqRoomID req) u perm) /\
         (if crAccepted reply
          then FencingToken (state rs) <= cqFencingToken req /\
               exists t0 t1, state rs' = ApplyCommand (int8 (cqKind req)) (cqSeekToMs req)
                               (cqRate req) (cqMediaID req) (UnixMilli t0) t1 (state rs)
          else cqFencingToken req < FencingToken (state rs) /\ rs' = rs)
     | Err _ => rs' = rs
     end).
Proof.
  intros Hc. destruct (@Command_spec E (@roomServicePermissions Er db) rts scfg withPresence
    h req s res s' Hc) as [Hl|(Hr & Hu & s1 & Hg & Ho)]; [by left|]. right.
  destruct res as [reply|e].
  - destruct Ho as (rs & rs' & H1 & H2 & Hm & H3). exists s1, rs, rs'. split_and!; try done.
    destruct Hm as [?|[?|(perm & n & Hp & Hh)]]; [by left|by right; left|right; right].
    exists perm. split; [done|].
    apply (roomServicePermissions_spec db n (cqRoomID req) _ perm) in Hh. apply Hh.
  - destruct (@GetOrCreate_spec E scfg withPresence (cqRoomID req) (set_svN (S (svN s)) s))
      as (s1' & rs & Hg' & Hroom & _). rewrite Hg in Hg'. injection Hg' as <-.
    exists s1, rs, rs. split_and!; try done. simpl in Ho. rewrite Ho. by rewrite insert_id.
Qed.

(** A room service where alice owns the room, bob may seek, and carol joined. *)
Definition grantsDB : RoomDB :=
  sdb (demoRun [demoCreate; OpGrantPermissions (user "alice") demoRoomID "bob" [PERM_SEEK];
                OpJoinRoom (user "bob") demoRoomID "";
                OpGrantPermissions (user "alice") demoRoomID "bob" [PERM_SEEK]]).

Definition emptySvc : Svc := mkSvc ∅ ∅ [] 0.

(** A sync service that has initialised the room from its creation event. *)
Definition demoSvc : Svc :=
  match @RoomCreatedHandler_Handle (fun _ => demoRuntime) demoConfig false
          (Some (mkRoomCreated demoRoomID "s" "n" "alice" 1)) emptySvc with
  | Some (_, s) => s
  | None => emptySvc
  end.

Definition demoCommand (who : string) (kind tok : Z) : option (res error CommandReply * Svc) :=
  @Command demoEnv (@roomServicePermissions demoEnv grantsDB) (fun _ => demoRuntime) demoConfig false
    (user who) (mkCmdReq demoRoomID kind (Some 5000) None "" tok) demoSvc.

Lemma Command_authorized_witness :
  exists s', demoCommand "bob" CmdSeek 0 = Some (Ok (mkCmdReply 1 true ""), s') /\
    "bob" <> "alice" /\ holds grantsDB demoRoomID "bob" PERM_SEEK.
Proof.
  destruct (demoCommand "bob" CmdSeek 0) as [[r s']|] eqn:E; [|by vm_compute in E].
  assert (r = Ok (mkCmdReply 1 true "")) as ->.
  { assert ((fst <$> demoCommand "bob" CmdSeek 0) = Some (Ok (mkCmdReply 1 true ""))) as Hf
      by by vm_compute. rewrite E in Hf. clear -Hf. by injection Hf. }
  exists s'. split; [reflexivity|]. split; [clear; done|].
  destruct (@Command_authorized demoEnv _ demoEnv _ grantsDB (fun _ => demoRuntime) demoConfig false
    (user "bob") (mkCmdReq demoRoomID CmdSeek (Some 5000) None "" 0) demoSvc _ s' E)
    as [[_ [e He]]|(s1 & rs & rs' & Hg & Hroom & _ & Hm & _)]; [clear -He; done|].
  assert (OwnerID (state rs) = "alice" /\ HostID (state rs) = "alice") as [Ho Hh].
  { assert ((fun rs => (OwnerID (state rs), HostID (state rs))) <$>
      (match @GetOrCreate demoEnv demoConfig false demoRoomID (set_svN (S (svN demoSvc)) demoSvc) with
       | Some (_, s1) => svRooms s1 !! demoRoomID | None => None end) = Some ("alice", "alice")) as Hx
      by by vm_compute.
    change (cqRoomID _) with demoRoomID in Hg, Hroom. rewrite Hg, Hroom in Hx. clear -Hx.
    injection Hx as Ho Hh. exact (conj Ho Hh). }
  destruct Hm as [Hm|[Hm|(perm & Hp & Hholds)]].
  - exfalso. rewrite Hh in Hm. clear -Hm. by vm_compute in Hm.
  - exfalso. rewrite Ho in Hm. clear -Hm. by vm_compute in Hm.
  - clear -Hp Hholds. injection Hp as <-. exact Hholds.
Defined.

(** ** Checkpoints and restarts *)

(** What a snapshot leaves alone: the state and the calls made so far. *)
Definition quiet3 (rs : RoomSync) : SyncState * bool * list extCall :=
  (state rs, hasPersist rs, calls (world rs)).

Definition keeps3 {A} (m : PM RoomSync A) : Prop :=
  forall rs a rs', m rs = Some (a, rs') -> quiet3 rs' = quiet3 rs.

Section snapshots.
Context `{Runtime}.

Lemma keeps3_bind {A B} (m : PM RoomSync A) (k : A -> PM RoomSync B) :
  keeps3 m -> (forall a, keeps3 (k a)) -> keeps3 (pbind m k).
Proof.
  intros Hm Hk rs b rs' E. unfold pbind in E. destruct (m rs) as [[a rs1]|] eqn:Em; [|done].
  rewrite (Hk a _ _ _ E). by eapply Hm.
Qed.
Lemma keeps3_get {A} (f : RoomSync -> A) : keeps3 (pget f).
Proof. by intros rs a rs' [= <- <-]. Qed.
Lemma keeps3_ret {A} (a : A) : keeps3 (pret a).
Proof. by intros rs b rs' [= <- <-]. Qed.
Lemma keeps3_clockNow : keeps3 clockNow.
Proof. by intros rs a rs' [= <- <-]. Qed.
Lemma keeps3_newID : keeps3 newID.
Proof. by intros rs a rs' [= <- <-]. Qed.
Lemma keeps3_rangeOver {A} (l : RoomSync -> list A) : keeps3 (rangeOver l).
Proof. by intros rs a rs' [= <- <-]. Qed.
Lemma keeps3_liftOpt {A} (o : option A) : keeps3 (liftOpt o).
Proof. intros rs a rs'. unfold liftOpt. destruct o; [|done]. by intros [= <- <-]. Qed.
Lemma keeps3_trySend f id : keeps3 (trySend f id).
Proof.
  intros rs a rs'. unfold trySend. destruct (chans _ !! id) as [ch|]; [|by intros [= <- <-]].
  destruct (chClosed ch); [done|]. destruct (decide _); by intros [= <- <-].
Qed.
Lemma keeps3_sendAll f ids : keeps3 (sendAll f ids).
Proof.
  induction ids as [|id ids IH]; [apply keeps3_ret|].
  apply keeps3_bind; [apply keeps3_trySend|intros _; apply IH].
Qed.
Lemma keeps3_buildSnapshotLocked : keeps3 buildSnapshotLocked.
Proof.
  apply keeps3_bind; [apply keeps3_clockNow|intros now].
  apply keeps3_bind; [apply keeps3_rangeOver|intros hbs].
  apply keeps3_bind; [apply keeps3_get|intros t].
  destruct (activeStats now t hbs) as [[active drifts] rtts].
  apply keeps3_bind; [apply keeps3_get|intros p].
  apply keeps3_bind; [apply keeps3_liftOpt|intros m]. apply keeps3_ret.
Qed.
Lemma keeps3_broadcastSnapshot : keeps3 broadcastSnapshot.
Proof.
  apply keeps3_bind; [apply keeps3_buildSnapshotLocked|intros snap].
  apply keeps3_bind; [apply keeps3_clockNow|intros now].
  apply keeps3_bind; [by intros rs a rs' [= <- <-]|intros _].
  apply keeps3_bind; [apply keeps3_rangeOver|intros ids]. apply keeps3_sendAll.
Qed.

(** The snapshot branch stages one event and persists the state as it is. *)
Lemma snapshotTick_calls rs rs' :
  snapshotTick rs = Some (tt, rs') -> hasPersist rs = true ->
  state rs' = state rs /\
  exists ev, calls (world rs') = calls (world rs) ++ [CallStager ev; CallPersist (state rs)].
Proof.
  intros E Hp. unfold snapshotTick, pbind in E.
  destruct (broadcastSnapshot rs) as [[[] r1]|] eqn:E1; [|done].
  pose proof (keeps3_broadcastSnapshot _ _ _ E1) as H1.
  unfold stageOutbox, pbind in E.
  destruct (buildSnapshotLocked r1) as [[snap r2]|] eqn:E2; [|done].
  pose proof (keeps3_buildSnapshotLocked _ _ _ E2) as H2. rewrite H1 in H2.
  unfold pget, newID, clockNow, callExt, pmod, persistState, pbind, pget in E. simpl in E.
  unfold quiet3 in H2. injection H2 as Hs Hh Hc. rewrite Hh, Hp in E. simpl in E.
  unfold callExt, pmod in E. injection E as <-. simpl. rewrite Hc, Hs.
  split; [done|]. eexists. by rewrite <- app_assoc.
Qed.
End snapshots.

(** What a checkpoint holds of a state. *)
Definition storable (st : SyncState) : Prop :=
  rowFits st = true /\ in_s 8 (Status st) /\ in_u 64 (Epoch st) /\ in_u 64 (FencingToken st).

(** *** Ids of 26 characters are kept as they are *)

Lemma stripBlanks_app s : exists n, s = stripBlanks s +:+ blanks n.
Proof.
  induction s as [|c s [n IH]]; [by exists 0%nat|]. cbn [stripBlanks]. cbv zeta. case_bool_decide as He; cbn [andb].
  - destruct (Ascii.eqb_spec c " "%char) as [->|_].
    + exists (S n). rewrite He in IH. change (String " "%char s = String " "%char ("" +:+ blanks n)). by rewrite <- IH.
    + exists n. change (String c s = String c (stripBlanks s +:+ blanks n)). by rewrite <- IH.
  - exists n. change (String c s = String c (stripBlanks s +:+ blanks n)). by rewrite <- IH.
Qed.

Lemma charCount_blanks s n : charCount (s +:+ blanks n) = charCount s + Z.of_nat n.
Proof.
  assert (charCount (blanks n) = Z.of_nat n) as Hn.
  { induction n as [|n IH]; [done|]. unfold charCount in *. cbn [blanks].
    change (bytes (String " "%char (blanks n))) with (32 :: bytes (blanks n)). rewrite filter_cons_True by (cbn; lia). simpl length. lia. }
  unfold charCount in *. rewrite bytes_app, filter_app, length_app. lia.
Qed.

Lemma char26_id s : charCount s = 26 -> char26 s = s.
Proof.
  intros Hs. destruct (stripBlanks_app s) as [n Hn]. unfold char26. rewrite Hn in Hs at 1. rewrite charCount_blanks in Hs.
  replace (Z.to_nat (26 - charCount (stripBlanks s))) with n by lia. by rewrite <- Hn.
Qed.

(** A state as it comes back: at the time of the checkpoint, with its id as the
    column gives it. *)
Definition restored (at_ : time) (st : SyncState) : SyncState :=
  set_EpochStarted at_ (mkSyncState (char26 (SyncState.RoomID st)) (MediaID st) (Status st) (MediaTimeMs st) (WallTimeMs st)
    (PlaybackRate st) (Epoch st) (HostID st) (FencingToken st) (EpochStarted st) (OwnerID st)).

Lemma restored_id at_ st : charCount (SyncState.RoomID st) = 26 -> restored at_ st = set_EpochStarted at_ st.
Proof. intros Hc. unfold restored. rewrite (char26_id _ Hc). by destruct st. Qed.

Lemma checkpoint_roundtrip now st t :
  storable st ->
  exists t', SyncStateRepo_Upsert now st t = Ok t' /\
    SyncStateRepo_Get (SyncState.RoomID st) t' = Ok (restored (pgTime now) st).
Proof.
  intros (Hf & Hst & He & Ht). unfold SyncStateRepo_Upsert. rewrite Hf. eexists. split; [done|].
  unfold SyncStateRepo_Get. rewrite lookup_insert_eq. unfold stateRow, restored, set_EpochStarted. simpl.
  rewrite !uint64_int64 by done. unfold int8, int16. unfold in_s in Hst.
  rewrite (swrap_id 16), (swrap_id 8) by (unfold in_s; lia). done.
Qed.

(** C36. A restart resumes from the last checkpoint, when nothing fails, neither
    then nor at the start, and the ids of the room's state fit their columns of 26
    characters: after a room's loop has taken a snapshot, a service that starts
    with that table materialises the room with the same state, so that neither
    the epoch nor the fencing token goes back; only the start of the epoch is
    replaced by the time of the checkpoint, and a room id of fewer than 26
    characters comes back padded with blanks, as its CHAR(26) column gives it. *)
Theorem restart_recovers `{Env} `{!Calm _} rts scfg withPresence r s s1 rs :
  roomSnapshotTick rts r s = Some (tt, s1) ->
  svRooms s !! r = Some rs -> hasPersist rs = true ->
  SyncState.RoomID (state rs) = r -> storable (state rs) ->
  forall s2, svTable s2 = svTable s1 -> svRooms s2 !! r = None ->
  exists s3 rs' at_, GetOrCreate scfg withPresence r s2 = Some (tt, s3) /\
    svRooms s3 !! r = Some rs' /\ state rs' = restored at_ (state rs) /\
    (charCount r = 26 -> state rs' = set_EpochStarted at_ (state rs)).
Proof.
  intros E Hr Hp Hid Hst s2 Ht Hnone. unfold roomSnapshotTick, pbind, runRoom, pget in E.
  rewrite Hr in E. cbn [svRooms set_svRooms] in E. rewrite lookup_insert_eq in E.
  destruct (@snapshotTick (rts r) rs) as [[[] rs1]|] eqn:Es; [|done].
  cbn [svRooms set_svRooms] in E. rewrite lookup_insert_eq in E.
  destruct (snapshotTick_calls rs rs1 Es Hp) as [_ [ev Hc]]. rewrite Hc in E.
  rewrite drop_app_length in E. cbn [runCalls] in E. unfold pbind at 1 in E.
  destruct (stager ev _) as [[x s0]|] eqn:Esg; [|done].
  assert (svTable s1 = match SyncStateRepo_Upsert (env_now (svN s0)) (state rs) (svTable s0) with
                       | Ok t' => t' | Err _ => svTable s0 end) as Htab.
  { unfold pbind, persister, interaction, pbind, pget in E. simpl in E.
    rewrite calm_begin, calm_fault in E.
    destruct (SyncStateRepo_Upsert _ _ _) as [t'|e]; [|by injection E as <-].
    rewrite calm_commit in E. unfold pbind, pmod, pret, pskip in E. by injection E as <-. }
  destruct (checkpoint_roundtrip (env_now (svN s0)) (state rs) (svTable s0) Hst) as (t' & Hu & Hg).
  rewrite Hu in Htab. rewrite Hid in Hg.
  unfold GetOrCreate, pbind, pget. rewrite Hnone.
  unfold loadState, interaction, pbind, pget, pret. cbn [svTable set_svN].
  rewrite calm_begin, calm_fault, Ht, Htab, Hg, addRoom_spec.
  eexists _, _, _. split; [done|]. cbn [svRooms set_svRooms set_svN]. rewrite lookup_insert_eq.
  split; [done|]. split; [done|]. intros H26. apply restored_id. by rewrite Hid.
Qed.

Lemma restart_recovers_witness :
  exists s1 s3 rs', @roomSnapshotTick demoEnv (fun _ => demoRuntime) demoRoomID demoSvc = Some (tt, s1) /\
    @GetOrCreate demoEnv demoConfig false demoRoomID (mkSvc ∅ (svTable s1) [] 0) = Some (tt, s3) /\
    svRooms s3 !! demoRoomID = Some rs' /\ HostID (state rs') = "alice" /\
    SyncState.RoomID (state rs') = demoRoomID +:+ blanks 24.
Proof.
  destruct (@roomSnapshotTick demoEnv (fun _ => demoRuntime) demoRoomID demoSvc) as [[[] s1]|] eqn:E;
    [|by vm_compute in E].
  destruct (svRooms demoSvc !! demoRoomID) as [rs|] eqn:Er; [|by vm_compute in Er].
  assert ((fun rs => (hasPersist rs, SyncState.RoomID (state rs), HostID (state rs),
             rowFits (state rs), Status (state rs), Epoch (state rs), FencingToken (state rs))) <$>
            svRooms demoSvc !! demoRoomID =
          Some (true, demoRoomID, "alice", true, StatusPaused, 0, 0)) as Hx by by vm_compute.
  rewrite Er in Hx. injection Hx as H1 H2 H3 H4 H5 H6 H7.
  destruct (@restart_recovers demoEnv _ (fun _ => demoRuntime) demoConfig false demoRoomID demoSvc s1 rs
              E Er H1 H2) with (s2 := mkSvc ∅ (svTable s1) [] 0) as (s3 & rs' & t & Hg & Hr & Hs & _).
  - unfold storable. rewrite H5, H6, H7. clear -H4. split_and!; [exact H4|unfold in_s, in_u; vm_compute; split; congruence..].
  - reflexivity.
  - reflexivity.
  - exists s1, s3, rs'. split_and!; [reflexivity|exact Hg|exact Hr| |]; rewrite Hs; [exact H3|].
    unfold restored. simpl. rewrite H2. vm_compute. reflexivity.
Defined.

(** ** Creation events *)

(** Broadcasting does not touch the state. *)
Lemma broadcastUpdateLocked_state `{Runtime} rs a rs' :
  broadcastUpdateLocked rs = Some (a, rs') -> state rs' = state rs.
Proof.
  unfold broadcastUpdateLocked, pbind, clockNow, stateToProtoLocked, pget, addToRingLocked, pmod.
  unfold broadcastLocked, pbind. simpl. intros E.
  match type of E with sendAll ?f ?ids ?r0 = _ => pose proof (keeps3_sendAll f ids r0 a rs' E) as Hk end.
  unfold quiet3 in Hk. by injection Hk.
Qed.

Lemma adopt_noop (rt : Runtime) o rs :
  o <> "" -> OwnerID (state rs) <> "" -> HostID (state rs) <> "" ->
  AdoptOwnerIfUnset o rs = Some (false, rs).
Proof.
  intros Ho Hown Hhost. unfold AdoptOwnerIfUnset. rewrite bool_decide_false by done.
  unfold modState, pmod, pbind, pget, pret, upd_state. simpl.
  rewrite (bool_decide_false (OwnerID (state rs) = "")) by done.
  rewrite (bool_decide_true (HostID (state rs) <> "")) by done. by destruct rs.
Qed.

Lemma adopt_spec (rt : Runtime) o rs b rs' :
  o <> "" -> AdoptOwnerIfUnset o rs = Some (b, rs') ->
  OwnerID (state rs') <> "" /\ HostID (state rs') <> "" /\
  (OwnerID (state rs) <> "" -> OwnerID (state rs') = OwnerID (state rs)) /\
  (HostID (state rs) <> "" -> HostID (state rs') = HostID (state rs) /\
                              Epoch (state rs') = Epoch (state rs)).
Proof.
  intros Ho E. unfold AdoptOwnerIfUnset in E. rewrite bool_decide_false in E by done.
  unfold modState, pmod, pbind at 1 2, pget in E.
  set (rs0 := upd_state _ rs) in E.
  assert (OwnerID (state rs0) <> "" /\ HostID (state rs0) = HostID (state rs) /\
    Epoch (state rs0) = Epoch (state rs) /\
    (OwnerID (state rs) <> "" -> OwnerID (state rs0) = OwnerID (state rs))) as (H1 & H2 & H3 & H4).
  { unfold rs0, upd_state. simpl. clear E. case_bool_decide; simpl; split_and!; intros; congruence. }
  case_bool_decide as Hh.
  - unfold pret in E. injection E as <- <-. rewrite H2, H3 in *. done.
  - unfold pbind, modState, pmod, clockNow in E. simpl in E.
    match type of E with context [broadcastUpdateLocked ?r0] =>
      destruct (broadcastUpdateLocked r0) as [[[] rs3]|] eqn:Eb; [|done] end.
    apply broadcastUpdateLocked_state in Eb. unfold pret in E. injection E as <- <-.
    rewrite Eb. simpl. rewrite H2 in Hh. split_and!; [done|done|done|congruence].
Qed.

(** Creation events may arrive again, and late: when a room is live, another
    event for it creates nothing and never takes the host role or the
    ownership away from anyone who has it; the second of two identical events
    changes nothing at all. *)
Theorem Init_idempotent rts scfg withPresence r o s s1 :
  o <> "" -> Init rts scfg withPresence r o s = Some (tt, s1) ->
  (exists rs1, svRooms s1 !! r = Some rs1 /\ OwnerID (state rs1) <> "" /\ HostID (state rs1) <> "" /\
     forall rs, svRooms s !! r = Some rs ->
       (OwnerID (state rs) <> "" -> OwnerID (state rs1) = OwnerID (state rs)) /\
       (HostID (state rs) <> "" -> HostID (state rs1) = HostID (state rs) /\
                                   Epoch (state rs1) = Epoch (state rs))) /\
  exists s2, Init rts scfg withPresence r o s1 = Some (tt, s2) /\ svRooms s2 = svRooms s1.
Proof.
  intros Ho E.
  assert (exists rs1, svRooms s1 !! r = Some rs1 /\ OwnerID (state rs1) <> "" /\
    HostID (state rs1) <> "" /\
    forall rs, svRooms s !! r = Some rs ->
       (OwnerID (state rs) <> "" -> OwnerID (state rs1) = OwnerID (state rs)) /\
       (HostID (state rs) <> "" -> HostID (state rs1) = HostID (state rs) /\
                                   Epoch (state rs1) = Epoch (state rs))) as Hfirst.
  { unfold Init, pbind at 1, pget in E. destruct (svRooms s !! r) as [rs|] eqn:Er.
    - unfold pbind, runRoom in E. rewrite Er in E.
      destruct (AdoptOwnerIfUnset o rs) as [[b rs1]|] eqn:Ea; [|done].
      unfold pskip, pret in E. injection E as <-. simpl. rewrite lookup_insert_eq.
      exists rs1. split; [done|]. destruct (adopt_spec (rts r) o rs b rs1 Ho Ea) as (H1 & H2 & H3 & H4).
      split_and!; [done|done|]. intros rs0 [= <-]. by split.
    - rewrite addRoom_spec in E. injection E as <-. simpl. rewrite lookup_insert_eq.
      eexists. split; [done|]. by split_and!. }
  split; [exact Hfirst|]. destruct Hfirst as (rs1 & Hr & Hown & Hhost & _).
  unfold Init, pbind at 1, pget. rewrite Hr. unfold pbind, runRoom. rewrite Hr.
  rewrite (adopt_noop (rts r) o rs1) by done. unfold pskip, pret. eexists. split; [done|].
  simpl. by rewrite insert_id.
Qed.

Lemma Init_idempotent_witness :
  exists s1 s2, Init (fun _ => demoRuntime) demoConfig false "r" "alice" emptySvc = Some (tt, s1) /\
    Init (fun _ => demoRuntime) demoConfig false "r" "alice" s1 = Some (tt, s2) /\
    svRooms s2 = svRooms s1.
Proof.
  destruct (Init (fun _ => demoRuntime) demoConfig false "r" "alice" emptySvc) as [[[] s1]|] eqn:E;
    [|by vm_compute in E].
  destruct (Init_idempotent (fun _ => demoRuntime) demoConfig false "r" "alice" emptySvc s1)
    as [_ (s2 & H2 & Hs)]; [|exact E|].
  - discriminate.
  - exists s1, s2. split_and!; [reflexivity|exact H2|exact Hs].
Defined.

(** ** Where the code differs from its comments *)

(** A paused room is documented to have a constant position, but the state a
    room starts with is paused with rate 1.0 and wall time 0: before the first
    command its position is the Unix time. *)
Example fresh_room_position_runs :
  Status (freshState "r" "alice" "alice") = StatusPaused /\
  AdvanceMediaTime (freshState "r" "alice" "alice") 1700000000000 = 1700000000000 /\
  AdvanceMediaTime (freshState "r" "alice" "alice") 1700000001000 = 1700000001000.
Proof. by vm_compute. Qed.

(** Any error of the load, not only a missing row, gives a fresh state: a
    connection that fails at the wrong moment takes the epoch and the fencing
    token back to 0 and forgets host and owner. *)
Definition noBegin : Env := {|
  env_ctx _ := None; env_begin _ := Some (EMsg "pool exhausted"); env_fault _ := None;
  env_commit _ := None; env_now _ := 0; env_id _ := ""; env_rand _ _ := [] |}.

Example load_error_forgets :
  let row := mkStateRow "m" StatusPlaying 1000 2000 (flit 1 1) 100 "alice" 7 "alice" 0 in
  let s := mkSvc ∅ {["r" := row]} [] 0 in
  (rs ← (match @GetOrCreate noBegin demoConfig false "r" s with
         | Some (_, s1) => svRooms s1 !! "r" | None => None end);
   Some (Epoch (state rs), FencingToken (state rs), HostID (state rs))) = Some (0, 0, "").
Proof. by vm_compute. Qed.

(** The command kind is truncated to 8 bits: kind 257 is a play. *)
Example command_kind_truncated : int8 257 = CmdPlay /\ commandPermission (int8 257) = Some PERM_PAUSE_PLAY.
Proof. by vm_compute. Qed.
