(* ===== verification/Kafka.v ===== *)
(** * Consuming events

    Model of [libs/kafka/kafka.go] and [idempotency.go], and of the consumer
    loop the services share ([Run] of [apps/*/internal/infra/events]): message
    handlers and middlewares, the Redis-backed dedupe, and the fetch, handle,
    commit cycle over a partition with its failures and crashes.

    A handler acts on the service's own world [W]; around it the state has the
    dedupe keys with their expiry and a counter of interactions.  The Kafka
    client is the documented one: a reader starts at the committed offset of
    its group, [FetchMessage] hands out the next message of the partition
    whether or not the previous one was committed, and [CommitMessages] moves
    the committed offset past the message.  The fetch, the call of the handler
    and the commit are separate steps, between which the process may die. *)

From S2P Require Import Prelude GoNum Errors GoString.

Section kafka.
Context {W V : Type}.

(** ** Messages and handlers *)

Record Message : Type := mkMessage {
  kTopic : string;
  kPartition : Z;
  kOffset : Z;
  kKey : string;
  kValue : V;
  kHeaders : gmap string string;
  kTimestamp : time;
}.

Record KState : Type := mkKState {
  ksWorld : W;
  ksKV : gmap string time;  (* key: expiry *)
  ksN : nat;
}.

Definition set_ksKV v s := mkKState (ksWorld s) v (ksN s).
Definition set_ksN v s := mkKState (ksWorld s) (ksKV s) v.
Definition set_ksWorld v s := mkKState v (ksKV s) (ksN s).

(** [Handler.Handle]: [None] is a nil error. *)
Definition Handler : Type := Message -> KState -> option error * KState.
Definition Middleware : Type := Handler -> Handler.

(** [Chain(a, b)(h) = a(b(h))]. *)
Definition Chain (mw : list Middleware) : Middleware := fun h => foldr (fun m h => m h) h mw.

(** What Redis answers to the [n]-th interaction, and when. *)
Class KafkaEnv : Type := {
  ke_now : nat -> time;
  ke_kv : nat -> option error;
}.
Context `{KafkaEnv}.

(** ** Deduplication *)

(** [SET key value NX EX ttl]: a key that has expired is absent. *)
Definition SetNX (key : string) (ttl : duration) (s : KState) : res error bool * KState :=
  let n := ksN s in
  let s := set_ksN (S n) s in
  match ke_kv n with
  | Some e => (Err e, s)
  | None =>
      match ksKV s !! key with
      | Some expiry => if ke_now n <? expiry then (Ok false, s)
                       else (Ok true, set_ksKV (<[key := ke_now n + ttl]> (ksKV s)) s)
      | None => (Ok true, set_ksKV (<[key := ke_now n + ttl]> (ksKV s)) s)
      end
  end.

Definition HeaderEventID : string := "event-id".

Definition eventID (msg : Message) : string :=
  match kHeaders msg !! HeaderEventID with
  | Some id => if bool_decide (id = "") then kKey msg else id
  | None => kKey msg
  end.

Definition idempotencyKey (topic eventID : string) : string :=
  ("idem:" +:+ topic +:+ ":" +:+ eventID)%string.

Definition IdempotencyMiddleware (ttl : duration) : Middleware := fun next msg s =>
  let id := eventID msg in
  if bool_decide (id = "") then next msg s
  else
    match SetNX (idempotencyKey (kTopic msg) id) ttl s with
    | (Err _, s) => next msg s (* fail open *)
    | (Ok false, s) => (None, s)
    | (Ok true, s) => next msg s
    end.

(** ** The consumer loop *)

(** Where [Run] is: before a fetch, before the handler is called on the message
    at an offset, before the commit of a handled message, or returned. *)
Inductive consumer_pc : Type :=
| CFetch
| CHandle (offset : nat)
| CCommit (offset : nat)
| CReturned.

(** A partition and a consumer of it: the offset the reader fetches next, the
    committed offset of the group, the calls of the handler that have returned,
    with what they returned, and the service's state. *)
Record Consumer : Type := mkConsumer {
  coPC : consumer_pc;
  coNext : nat;
  coCommitted : nat;
  coCalls : list (nat * option error);
  coState : KState;
}.

(** What the next step of the loop meets: the context has ended (before a fetch,
    in a fetch, or in the back-off after an error), the fetch fails, the commit
    fails (having been applied by the broker or not), or nothing of the kind.
    [SCrash]: the process dies wherever it is, and a new one joins the group. *)
Inductive happening : Type :=
| SCancelled
| SFetchError
| SGoesOn
| SCommitError (applied : bool)
| SCrash.

Definition to_pc (pc : consumer_pc) (c : Consumer) : Consumer :=
  mkConsumer pc (coNext c) (coCommitted c) (coCalls c) (coState c).
Definition committed (offset : nat) (c : Consumer) : Consumer :=
  mkConsumer CFetch (coNext c) (S offset) (coCalls c) (coState c).

(** One step of [Run]. *)
Definition runStep (log : list Message) (handler : Handler) (h : happening) (c : Consumer) : Consumer :=
  match h, coPC c with
  | SCrash, _ => mkConsumer CFetch (coCommitted c) (coCommitted c) (coCalls c) (coState c)
  | _, CReturned => c
  | SCancelled, CFetch => to_pc CReturned c
  | SFetchError, CFetch => c
  | _, CFetch =>
      match log !! coNext c with
      | None => c (* nothing to fetch yet *)
      | Some _ => mkConsumer (CHandle (coNext c)) (S (coNext c)) (coCommitted c) (coCalls c) (coState c)
      end
  | _, CHandle offset =>
      match log !! offset with
      | None => c
      | Some msg =>
          match handler msg (coState c) with
          | (Some e, s) => mkConsumer (match h with SCancelled => CReturned | _ => CFetch end)
                             (coNext c) (coCommitted c) (coCalls c ++ [(offset, Some e)]) s
          | (None, s) => mkConsumer (CCommit offset) (coNext c) (coCommitted c) (coCalls c ++ [(offset, None)]) s
          end
      end
  | SCommitError applied, CCommit offset => if applied then committed offset c else to_pc CFetch c
  | _, CCommit offset => committed offset c
  end.

Definition Run (log : list Message) (handler : Handler) (hs : list happening) (c : Consumer) : Consumer :=
  foldl (fun c h => runStep log handler h c) c hs.

Definition consumerStart (s : KState) : Consumer := mkConsumer CFetch 0 0 [] s.

(** ** Facts *)

(** The handler was called on every message before the reader's position, except
    the one it is about to be called on; what is committed, or about to be, was
    handled. *)
Record consumer_inv (log : list Message) (c : Consumer) : Prop := {
  ci_le : (coCommitted c <= coNext c)%nat;
  ci_called : forall i, (i < coNext c)%nat -> coPC c <> CHandle i -> exists r, (i, r) ∈ coCalls c;
  ci_handle : forall i, coPC c = CHandle i -> coNext c = S i /\ (coCommitted c <= i)%nat /\ is_Some (log !! i);
  ci_commit : forall i, coPC c = CCommit i -> coNext c = S i /\ (coCommitted c <= i)%nat /\ is_Some (log !! i) /\ (i, None) ∈ coCalls c;
  ci_handled : forall k, coCommitted c = S k -> is_Some (log !! k) /\ (k, None) ∈ coCalls c;
}.

Lemma consumer_inv_idle log c pc : consumer_inv log c ->
  (pc = CFetch \/ pc = CReturned) -> (forall i, coPC c <> CHandle i) -> consumer_inv log (to_pc pc c).
Proof.
  intros [Hle Hc Hh Hm Hd] Hpc Hno. split; simpl; [done| |by intros i ->; destruct Hpc|by intros i ->; destruct Hpc|done].
  intros i Hi _. by apply Hc.
Qed.

Lemma consumer_inv_committed log c i : consumer_inv log c -> coPC c = CCommit i -> consumer_inv log (committed i c).
Proof.
  intros [Hle Hc Hh Hm Hd] Hpc. destruct (Hm i Hpc) as (Hn & Hci & Hl & Hin). split; simpl; [lia| |done|done|by intros k [= ->]].
  intros j Hj _. apply Hc; [done|]. by rewrite Hpc.
Qed.

Lemma consumer_inv_crash log c : consumer_inv log c ->
  consumer_inv log (mkConsumer CFetch (coCommitted c) (coCommitted c) (coCalls c) (coState c)).
Proof.
  intros [Hle Hc Hh Hm Hd]. split; simpl; [done| |done..].
  intros i Hi _. apply Hc; [lia|]. intros Hpc. destruct (Hh i Hpc). lia.
Qed.

Lemma consumer_inv_fetch log c : consumer_inv log c -> coPC c = CFetch -> is_Some (log !! coNext c) ->
  consumer_inv log (mkConsumer (CHandle (coNext c)) (S (coNext c)) (coCommitted c) (coCalls c) (coState c)).
Proof.
  intros [Hle Hc Hh Hm Hd] Hpc Hl. split; simpl; [lia| |by intros i [= <-]|done|done].
  intros i Hi Hne. apply Hc; [destruct (decide (i = coNext c)) as [->|]; [by destruct Hne|lia]|by rewrite Hpc].
Qed.

(** A call that has returned. *)
Lemma consumer_inv_called log c i r pc s : consumer_inv log c -> coPC c = CHandle i ->
  match r with None => pc = CCommit i | Some _ => pc = CFetch \/ pc = CReturned end ->
  consumer_inv log (mkConsumer pc (coNext c) (coCommitted c) (coCalls c ++ [(i, r)]) s).
Proof.
  intros [Hle Hc Hh Hm Hd] Hpc Hr. destruct (Hh i Hpc) as (Hn & Hci & Hl). split; simpl; [done| | | |].
  - intros j Hj _. destruct (decide (j = i)) as [->|Hne]; [exists r; set_solver|].
    destruct (Hc j Hj) as [r' Hr']; [rewrite Hpc; congruence|]. exists r'. set_solver.
  - intros j ->. destruct r; [by destruct Hr|done].
  - intros j Hj. destruct r as [e|]; [subst pc; by destruct Hr|]. rewrite Hr in Hj. injection Hj as <-. split_and!; [done..|set_solver].
  - intros k Hk. destruct (Hd k Hk). split; [done|set_solver].
Qed.

Lemma runStep_inv log handler h c : consumer_inv log c -> consumer_inv log (runStep log handler h c).
Proof.
  intros I. unfold runStep. destruct (coPC c) as [|i|i|] eqn:Hpc.
  - assert (forall i, coPC c <> CHandle i) as Hno by congruence.
    destruct h; [by apply consumer_inv_idle; auto|done| | |by apply consumer_inv_crash];
      (destruct (log !! coNext c) eqn:El; [by apply consumer_inv_fetch; [..|by eexists]|done]).
  - destruct (ci_handle _ _ I i Hpc) as (_ & _ & [msg Hm]). destruct h; [..|by apply consumer_inv_crash];
      rewrite Hm; destruct (handler msg (coState c)) as [[e|] s]; apply consumer_inv_called; auto.
  - assert (forall j, coPC c <> CHandle j) as Hno by congruence.
    destruct h as [| | |[]|]; [by apply consumer_inv_committed..| |by apply consumer_inv_crash]. apply consumer_inv_idle; auto.
  - destruct h; [done..|by apply consumer_inv_crash].
Qed.

Lemma Run_inv log handler hs c : consumer_inv log c -> consumer_inv log (Run log handler hs c).
Proof. revert c. induction hs as [|h hs IH]; intros c I; [done|]. by apply IH, runStep_inv. Qed.

(** The dedupe key of a message is set and lasts at least until [t]. *)
Definition seen_until (msg : Message) (t : time) (s : KState) : Prop :=
  exists expiry, ksKV s !! idempotencyKey (kTopic msg) (eventID msg) = Some expiry /\ t <= expiry.

Lemma SetNX_first key ttl s s' :
  SetNX key ttl s = (Ok true, s') ->
  ksKV s' !! key = Some (ke_now (ksN s) + ttl) /\ ksWorld s' = ksWorld s.
Proof.
  unfold SetNX. destruct (ke_kv _); [done|]. simpl. destruct (ksKV s !! key) as [x|].
  - destruct (_ <? _); [done|]. intros [= <-]. simpl. by rewrite lookup_insert_eq.
  - intros [= <-]. simpl. by rewrite lookup_insert_eq.
Qed.

Lemma SetNX_seen key ttl s expiry :
  ke_kv (ksN s) = None -> ksKV s !! key = Some expiry -> ke_now (ksN s) < expiry ->
  SetNX key ttl s = (Ok false, set_ksN (S (ksN s)) s).
Proof.
  intros Hk He Hlt. unfold SetNX. rewrite Hk. simpl. rewrite He.
  apply Z.ltb_lt in Hlt. by rewrite Hlt.
Qed.
End kafka.

Arguments Message : clear implicits.
Arguments KState : clear implicits.
Arguments Handler : clear implicits.
Arguments Middleware : clear implicits.
Arguments Consumer : clear implicits.

(** ** Theorems *)

(** A redelivered event is not handled twice: once the middleware has let an
    event through, every later delivery of the same event, while Redis answers
    and before the key expires, returns nil without calling the handler and
    without touching the service's world, provided the handler leaves the
    dedupe keys alone. *)
Theorem dedupe {W V} `{KafkaEnv} (ttl : duration) (h : Handler W V) msg s e s1 s2 :
  eventID msg <> "" ->
  ke_kv (ksN s) = None ->
  (forall x, ksKV s !! idempotencyKey (kTopic msg) (eventID msg) = Some x -> x <= ke_now (ksN s)) ->
  (forall m s0, ksKV (h m s0).2 = ksKV s0) ->
  IdempotencyMiddleware ttl h msg s = (e, s1) ->
  ksKV s2 = ksKV s1 -> ke_kv (ksN s2) = None -> ke_now (ksN s2) < ke_now (ksN s) + ttl ->
  (exists s0, (e, s1) = h msg s0 /\ ksWorld s0 = ksWorld s) /\
  IdempotencyMiddleware ttl h msg s2 = (None, set_ksN (S (ksN s2)) s2).
Proof.
  intros Hid Hkv Hfresh Hkeys E Hs2 Hkv2 Hnow. unfold IdempotencyMiddleware in *.
  rewrite bool_decide_false in * by done.
  destruct (SetNX _ ttl s) as [[[]|err] s0] eqn:En.
  - apply SetNX_first in En as [Hk Hw].
    assert (ksKV s1 !! idempotencyKey (kTopic msg) (eventID msg) =
            Some (ke_now (ksN s) + ttl)) as Hk1.
    { specialize (Hkeys msg s0). rewrite E in Hkeys. simpl in Hkeys. by rewrite Hkeys. }
    split; [by exists s0|]. by rewrite (SetNX_seen _ ttl s2 (ke_now (ksN s) + ttl)) by congruence.
  - exfalso. unfold SetNX in En. rewrite Hkv in En. simpl in En.
    destruct (ksKV s !! _) as [x|] eqn:Ex; [|done].
    destruct (Z.ltb_spec (ke_now (ksN s)) x) as [Hlt|Hge]; [|done]. specialize (Hfresh x eq_refl). lia.
  - exfalso. unfold SetNX in En. rewrite Hkv in En. simpl in En.
    destruct (ksKV s !! _) as [x|]; [destruct (_ <? _)|]; done.
Qed.

(** C37. At least once: whatever the handler answers, whatever fetches and
    commits fail (also after the broker applied them), and wherever the process
    crashes and starts again, the committed offset only ever stands right after a
    message whose handler returned nil; every message below it has been given to
    the handler, and one whose handler never reported an error was handled; and
    a new process starts from that offset. *)
Theorem at_least_once {W V} (log : list (Message V)) (handler : Handler W V) hs s0 :
  let c := Run log handler hs (consumerStart s0) in
  (forall k, coCommitted c = S k -> is_Some (log !! k) /\ (k, None) ∈ coCalls c) /\
  (forall i, (i < coCommitted c)%nat -> (exists r, (i, r) ∈ coCalls c) /\
     ((forall e, (i, Some e) ∉ coCalls c) -> (i, None) ∈ coCalls c)) /\
  coNext (Run log handler (hs ++ [SCrash]) (consumerStart s0)) = coCommitted c.
Proof.
  intros c. assert (consumer_inv log c) as [Hle Hc Hh Hm Hd] by (apply Run_inv; split; simpl; intros; by try lia).
  assert (forall i, (i < coCommitted c)%nat -> exists r, (i, r) ∈ coCalls c) as Hall.
  { intros i Hi. apply Hc; [lia|]. intros Hpc. destruct (Hh i Hpc). lia. }
  split_and!; [exact Hd| |].
  - intros i Hi. destruct (Hall i Hi) as [r Hr]. split; [by exists r|]. intros Hno. destruct r as [e|]; [by destruct (Hno e)|done].
  - unfold Run. rewrite foldl_app. simpl. fold (Run log handler hs (consumerStart s0)). unfold runStep. by destruct (coPC _).
Qed.

(** ** A small topic *)

Definition demoMsg (id : string) (off : Z) : Message nat :=
  mkMessage "user.created.v1" 0 off "u1" 0%nat {["event-id" := id]} 0.
Definition demoTopic : list (Message nat) := [demoMsg "e1" 0; demoMsg "e2" 1].
#[local] Instance tickingEnv : KafkaEnv := {| ke_now n := Z.of_nat n; ke_kv _ := None |}.

(** A handler that records the event, and one whose first call fails. *)
Definition recordHandler : Handler (list string) nat := fun msg s =>
  (None, set_ksWorld (ksWorld s ++ [eventID msg]) s).
Definition failsOnce : Handler (list string) nat := fun msg s =>
  if bool_decide (ksWorld s = []) then (Some (EMsg "db down"), set_ksWorld ["failed"] s)
  else (None, set_ksWorld (ksWorld s ++ [eventID msg]) s).

Definition kstart : KState (list string) := mkKState [] ∅ 0.

Lemma dedupe_witness :
  IdempotencyMiddleware 100 recordHandler (demoMsg "e1" 0)
    (IdempotencyMiddleware 100 recordHandler (demoMsg "e1" 0) kstart).2 =
  (None, mkKState ["e1"] {["idem:user.created.v1:e1" := 100]} 2).
Proof.
  destruct (IdempotencyMiddleware 100 recordHandler (demoMsg "e1" 0) kstart) as [e s1] eqn:E.
  cbn [snd]. destruct (dedupe 100 recordHandler (demoMsg "e1" 0) kstart e s1 s1) as [_ Hd]; try done.
  - vm_compute in E. by injection E as _ <-.
  - rewrite Hd. vm_compute in E. injection E as _ <-. by vm_compute.
Defined.

(** The first commit is lost and the process crashes, it crashes again between
    handling the second event and committing it, and the last commit reports an
    error although it was applied: in the end both are handled. *)
Definition bumpyRun : list happening :=
  [SGoesOn; SGoesOn; SCommitError false; SCrash; SGoesOn; SGoesOn; SGoesOn; SGoesOn; SGoesOn; SCrash; SGoesOn; SGoesOn; SCommitError true].

Lemma at_least_once_witness :
  let c := Run demoTopic recordHandler bumpyRun (consumerStart kstart) in
  coCommitted c = 2%nat /\ (1%nat, None) ∈ coCalls c /\ (0%nat, None) ∈ coCalls c /\ length (coCalls c) = 4%nat.
Proof.
  destruct (at_least_once demoTopic recordHandler bumpyRun kstart) as (Hd & Hall & _).
  assert (coCommitted (Run demoTopic recordHandler bumpyRun (consumerStart kstart)) = 2%nat) as Hc by (vm_compute; reflexivity).
  cbn zeta. split; [exact Hc|]. split; [apply (proj2 (Hd 1%nat Hc))|]. split; [|vm_compute; reflexivity].
  apply (proj2 (Hall 0%nat ltac:(rewrite Hc; lia))). intros e. vm_compute. intros Hin.
  repeat (apply elem_of_cons in Hin as [Hin|Hin]; [discriminate Hin|]). by apply elem_of_nil in Hin.
Defined.

(** ** Where the code differs from its comments *)

(** The middleware marks an event before it is handled: when the handler fails,
    which is documented to schedule a retry, the retry is swallowed. *)
Theorem failed_event_is_lost {W V} `{KafkaEnv} (ttl : duration) (h : Handler W V) msg s e s1 s2 :
  eventID msg <> "" ->
  (forall m s0, ksKV (h m s0).2 = ksKV s0) ->
  SetNX (idempotencyKey (kTopic msg) (eventID msg)) ttl s = (Ok true, s2) ->
  h msg s2 = (Some e, s1) ->
  IdempotencyMiddleware ttl h msg s = (Some e, s1) /\
  (ke_kv (ksN s1) = None -> ke_now (ksN s1) < ke_now (ksN s) + ttl ->
   IdempotencyMiddleware ttl h msg s1 = (None, set_ksN (S (ksN s1)) s1)).
Proof.
  intros Hid Hkeys Hnx Hh. unfold IdempotencyMiddleware. rewrite bool_decide_false by done.
  rewrite Hnx. split; [done|]. intros Hkv Hnow. apply SetNX_first in Hnx as [Hk _].
  rewrite (SetNX_seen _ ttl s1 (ke_now (ksN s) + ttl)); [done|done| |done].
  specialize (Hkeys msg s2). rewrite Hh in Hkeys. simpl in Hkeys. by rewrite Hkeys.
Qed.

(** The loop logs "will retry" and goes on, but the next fetch hands out the
    next message, whose commit passes the failed one: event ["e1"] is never
    handled, not even after a restart. *)
Example failed_offset_is_skipped :
  let c := Run demoTopic failsOnce [SGoesOn; SGoesOn; SGoesOn; SGoesOn; SGoesOn; SCrash; SGoesOn] (consumerStart kstart) in
  coCommitted c = 2%nat /\ coCalls c = [(0%nat, Some (EMsg "db down")); (1%nat, None)].
Proof. by vm_compute. Qed.
