(* ===== verification/Playback.v ===== *)
(** * The playback service

    Model of [apps/playback-service]: the domain type
    ([internal/domain/playback.go]), the in-memory cache, the RPC handlers and
    the event consumer ([internal/app]), and the checkpoint repository
    ([internal/infra/postgres/playback_repo.go]).  The cache is guarded by a
    mutex, so each of its methods is one step. *)

From S2P Require Import Prelude GoNum GoFloat Errors GoString Store.

(** ** The room *)

Record PlaybackRoom : Type := mkPR {
  prRoomID : string;
  prMediaID : string;
  prStatus : Z;         (* int16 *)
  prMediaTimeMs : Z;
  prWallTimeMs : Z;
  prPlaybackRate : float64;
  prEpoch : Z;          (* uint64 *)
  prHostID : string;
  prFencingToken : Z;   (* uint64 *)
  prUpdatedAt : time;
}.

(** The zero value with a room id. *)
Definition newPlaybackRoom (roomID : string) : PlaybackRoom :=
  mkPR roomID "" 0 0 0 fzero 0 "" 0 time_zero.

(** The payload of [sync.updated.v1]. *)
Record SyncUpdated : Type := mkSyncUpdated {
  suRoomID : string;
  suEpoch : Z;
  suStatus : Z;         (* int *)
  suMediaTime : Z;
  suWallTime : Z;
  suRate : float64;
  suHostID : string;
  suDriftMs : Z;
  suPeers : Z;
}.

Definition ApplyFromEvent (e : SyncUpdated) (now : time) (r : PlaybackRoom) : bool * PlaybackRoom :=
  (prEpoch r <? suEpoch e,
   mkPR (prRoomID r) (prMediaID r) (int16 (suStatus e)) (suMediaTime e) (suWallTime e) (suRate e)
     (suEpoch e) (suHostID e) (prFencingToken r) now).

(** The arguments of [ApplySyncCommand]. *)
Record SyncCommand : Type := mkSyncCommand {
  scMediaID : string;
  scStatus : Z;
  scMediaTimeMs : Z;
  scWallTimeMs : Z;
  scPlaybackRate : float64;
  scEpoch : Z;
  scHostID : string;
  scFencingToken : Z;
}.

Definition applySyncCommand (c : SyncCommand) (now : time) (r : PlaybackRoom) : bool * PlaybackRoom :=
  if scFencingToken c <? prFencingToken r then (false, r)
  else if (scEpoch c <=? prEpoch r) && (scFencingToken c =? prFencingToken r) then (false, r)
  else (true, mkPR (prRoomID r) (scMediaID c) (scStatus c) (scMediaTimeMs c) (scWallTimeMs c)
                (scPlaybackRate c) (scEpoch c) (scHostID c) (scFencingToken c) now).

Definition loadMedia (mediaID : string) (now : time) (r : PlaybackRoom) : PlaybackRoom :=
  mkPR (prRoomID r) mediaID (prStatus r) (prMediaTimeMs r) (prWallTimeMs r) (prPlaybackRate r)
    (prEpoch r) (prHostID r) (prFencingToken r) now.

(** ** The cache *)

Definition RoomCache : Type := gmap string PlaybackRoom.

(** [room, ok := c.rooms[roomID]; if !ok { ... }]. *)
Definition roomOrNew (c : gmap string PlaybackRoom) (roomID : string) : PlaybackRoom :=
  default (newPlaybackRoom roomID) (c !! roomID).

Definition Cache_ApplyFromEvent (e : SyncUpdated) (now : time) (c : gmap string PlaybackRoom)
    : gmap string PlaybackRoom :=
  <[suRoomID e := (ApplyFromEvent e now (roomOrNew c (suRoomID e))).2]> c.

Definition Cache_ApplySyncCommand (roomID : string) (cmd : SyncCommand) (now : time)
    (c : gmap string PlaybackRoom) : bool * gmap string PlaybackRoom :=
  let '(applied, r) := applySyncCommand cmd now (roomOrNew c roomID) in
  (applied, <[roomID := r]> c).

Definition Cache_LoadMedia (roomID mediaID : string) (now : time) (c : gmap string PlaybackRoom)
    : gmap string PlaybackRoom :=
  <[roomID := loadMedia mediaID now (roomOrNew c roomID)]> c.

(** ** Checkpoints *)

(** [Upsert]: epoch and token go through [BIGINT]. *)
Definition playbackRow (now : time) (r : PlaybackRoom) : PlaybackRoom :=
  mkPR (prRoomID r) (prMediaID r) (prStatus r) (prMediaTimeMs r) (prWallTimeMs r)
    (prPlaybackRate r) (int64 (prEpoch r)) (prHostID r) (int64 (prFencingToken r)) (pgTime now).

Definition PlaybackRepo_Upsert `{Env} (r : PlaybackRoom) : SM (gmap string PlaybackRoom) unit :=
  sbind snow (fun now =>
    smapErr (EWrap "playback_repo: upsert")
      (stmt (fun t => Ok (tt, <[prRoomID r := playbackRow now r]> t)))).

Definition PlaybackRepo_Get `{Env} (roomID : string) : SM (gmap string PlaybackRoom) PlaybackRoom :=
  sbind (smapErr (EWrap "playback_repo: get") (queryRow (fun t => t !! roomID))) (fun r =>
    sret (mkPR (prRoomID r) (prMediaID r) (prStatus r) (prMediaTimeMs r) (prWallTimeMs r)
            (prPlaybackRate r) (uint64 (prEpoch r)) (prHostID r) (uint64 (prFencingToken r))
            (prUpdatedAt r))).

(** ** The service *)

(** The cache lives in memory, the table in the database. *)
Record PlaybackSvc : Type := mkPB {
  pbCache : gmap string PlaybackRoom;
  pbStore : st (gmap string PlaybackRoom);
}.

Section handlers.
Context `{Env}.

(** [persistRoom]; its error is discarded by the caller. *)
Definition persistRoom (roomID : string) (s : PlaybackSvc) : PlaybackSvc :=
  match pbCache s !! roomID with
  | None => s
  | Some room => mkPB (pbCache s) (withTx (PlaybackRepo_Upsert room) (pbStore s)).2
  end.

Definition LoadMedia (roomID mediaID : string) (s : PlaybackSvc) : res error bool * PlaybackSvc :=
  match ctxDone (pbStore s) with
  | (Err e, d) => (Err e, mkPB (pbCache s) d)
  | (Ok _, d) =>
      if bool_decide (roomID = "") || bool_decide (mediaID = "")
      then (Err (EVb (InvalidArgumentFor "vibesync.playback" "MISSING_TARGET"
                        "room_id and media_id required")), mkPB (pbCache s) d)
      else
        let '(now, d) := (env_now (sn d), step_n d) in
        (Ok true, persistRoom roomID (mkPB (Cache_LoadMedia roomID mediaID now (pbCache s)) d))
  end.

(** [state] is the message field, [None] when absent; its status is 32 bits. *)
Definition ApplySyncCommand (roomID : string) (state : option SyncCommand) (s : PlaybackSvc)
    : res error bool * PlaybackSvc :=
  match ctxDone (pbStore s) with
  | (Err e, d) => (Err e, mkPB (pbCache s) d)
  | (Ok _, d) =>
      match state with
      | Some cmd =>
          if bool_decide (roomID = "")
          then (Err (EVb (InvalidArgumentFor "vibesync.playback" "MISSING_STATE"
                            "room_id and state required")), mkPB (pbCache s) d)
          else
            let cmd := mkSyncCommand (scMediaID cmd) (int16 (scStatus cmd)) (scMediaTimeMs cmd)
                         (scWallTimeMs cmd) (scPlaybackRate cmd) (scEpoch cmd) (scHostID cmd)
                         (scFencingToken cmd) in
            let '(now, d) := (env_now (sn d), step_n d) in
            let '(applied, c) := Cache_ApplySyncCommand roomID cmd now (pbCache s) in
            (Ok applied, mkPB c d)
      | None => (Err (EVb (InvalidArgumentFor "vibesync.playback" "MISSING_STATE"
                             "room_id and state required")), mkPB (pbCache s) d)
      end
  end.

(** [SyncUpdatedHandler.Handle]: [None] is malformed JSON; the error is always
    nil. *)
Definition SyncUpdatedHandler_Handle (msg : option SyncUpdated) (s : PlaybackSvc) : PlaybackSvc :=
  match msg with
  | None => s
  | Some ev =>
      if bool_decide (suRoomID ev = "") then s
      else
        let d := pbStore s in
        mkPB (Cache_ApplyFromEvent ev (env_now (sn d)) (pbCache s)) (step_n d)
  end.

(** ** Runs *)

Inductive playback_op : Type :=
| PLoad (roomID mediaID : string)
| PCommand (roomID : string) (state : option SyncCommand)
| PEvent (msg : option SyncUpdated).

Definition playback_exec (o : playback_op) (s : PlaybackSvc) : PlaybackSvc :=
  match o with
  | PLoad r m => (LoadMedia r m s).2
  | PCommand r c => (ApplySyncCommand r c s).2
  | PEvent m => SyncUpdatedHandler_Handle m s
  end.

Definition playback_run (ops : list playback_op) (s : PlaybackSvc) : PlaybackSvc :=
  fold_left (fun s o => playback_exec o s) ops s.

(** ** Facts *)

Definition tokenOf (c : gmap string PlaybackRoom) (r : string) : Z := prFencingToken (roomOrNew c r).
Definition epochOf (c : gmap string PlaybackRoom) (r : string) : Z := prEpoch (roomOrNew c r).

(** Lexicographic order of (token, epoch). *)
Definition newer (a b : Z * Z) : Prop := a.1 < b.1 \/ (a.1 = b.1 /\ a.2 < b.2).

Lemma applySyncCommand_spec cmd now r :
  let '(applied, r') := applySyncCommand cmd now r in
  if applied
  then newer (prFencingToken r, prEpoch r) (scFencingToken cmd, scEpoch cmd) /\
       prFencingToken r' = scFencingToken cmd /\ prEpoch r' = scEpoch cmd /\
       prHostID r' = scHostID cmd /\ prMediaTimeMs r' = scMediaTimeMs cmd
  else r' = r /\ ~ newer (prFencingToken r, prEpoch r) (scFencingToken cmd, scEpoch cmd).
Proof.
  unfold applySyncCommand, newer. simpl.
  destruct (Z.ltb_spec (scFencingToken cmd) (prFencingToken r)); [split; [done|lia]|].
  destruct (Z.leb_spec (scEpoch cmd) (prEpoch r)), (Z.eqb_spec (scFencingToken cmd) (prFencingToken r));
    simpl; split_and!; try done; try lia.
Qed.

Lemma roomOrNew_insert c r k x : roomOrNew (<[k := x]> c) r = if bool_decide (k = r) then x else roomOrNew c r.
Proof.
  unfold roomOrNew. case_bool_decide as Hk; [subst; by rewrite lookup_insert_eq|].
  by rewrite lookup_insert_ne.
Qed.

Lemma persistRoom_cache r s : pbCache (persistRoom r s) = pbCache s.
Proof. unfold persistRoom. by destruct (pbCache s !! r). Qed.

Lemma playback_exec_token o s r : tokenOf (pbCache s) r <= tokenOf (pbCache (playback_exec o s)) r.
Proof.
  unfold tokenOf. destruct o as [rm md|rm cmd|ev]; simpl.
  - unfold LoadMedia. destruct (ctxDone _) as [[[]|e] d]; [|done].
    destruct (_ || _); [done|]. simpl. rewrite persistRoom_cache. simpl. unfold Cache_LoadMedia.
    rewrite roomOrNew_insert. case_bool_decide; [subst; simpl; lia|done].
  - unfold ApplySyncCommand. destruct (ctxDone _) as [[[]|e] d]; [|done].
    destruct cmd as [cmd|]; [|done]. destruct (bool_decide (rm = "")); [done|].
    unfold Cache_ApplySyncCommand. set (c := mkSyncCommand _ _ _ _ _ _ _ _).
    pose proof (applySyncCommand_spec c (env_now (sn d)) (roomOrNew (pbCache s) rm)) as Hs.
    destruct (applySyncCommand c _ _) as [applied r']. simpl. rewrite roomOrNew_insert.
    case_bool_decide; [|lia]. subst. destruct applied.
    + destruct Hs as (Hn & -> & _). unfold newer in Hn. simpl in *. lia.
    + destruct Hs as [-> _]. lia.
  - unfold SyncUpdatedHandler_Handle. destruct ev as [ev|]; [|done].
    destruct (bool_decide _); [done|]. simpl. unfold Cache_ApplyFromEvent. rewrite roomOrNew_insert.
    case_bool_decide; [subst; simpl; lia|done].
Qed.

Lemma playback_run_token ops s r : tokenOf (pbCache s) r <= tokenOf (pbCache (playback_run ops s)) r.
Proof.
  revert s. induction ops as [|o ops IH]; intros s; [done|]. unfold playback_run in *. simpl.
  etransitivity; [apply playback_exec_token|apply IH].
Qed.
End handlers.

(** ** Theorems *)

(** Fencing holds in the playback service: once a command of token [t] has
    been applied to a room, no command of an older token is ever applied to it
    again, whatever loads, events and commands happen in between; a rejected
    command changes no room, and an applied one is newer in (token, epoch) than
    what it replaces. *)
Theorem playback_fencing `{Env} r cmd s ops old :
  let applied_cmd := ApplySyncCommand r (Some cmd) s in
  applied_cmd.1 = Ok true ->
  scFencingToken old < scFencingToken cmd ->
  newer (tokenOf (pbCache s) r, epochOf (pbCache s) r) (scFencingToken cmd, scEpoch cmd) /\
  let s' := playback_run ops applied_cmd.2 in
  let again := ApplySyncCommand r (Some old) s' in
  again.1 <> Ok true /\
  forall k, roomOrNew (pbCache again.2) k = roomOrNew (pbCache s') k.
Proof.
  intros ap Hok Hold. unfold ap in *. clear ap. unfold ApplySyncCommand in Hok at 1.
  destruct (ctxDone (pbStore s)) as [[[]|e] d] eqn:Ec; [|done].
  destruct (bool_decide (r = "")) eqn:Er; [done|].
  set (c := mkSyncCommand _ _ _ _ _ _ _ _) in Hok.
  pose proof (applySyncCommand_spec c (env_now (sn d)) (roomOrNew (pbCache s) r)) as Hs.
  assert (tokenOf (pbCache (ApplySyncCommand r (Some cmd) s).2) r = scFencingToken cmd /\
          newer (tokenOf (pbCache s) r, epochOf (pbCache s) r) (scFencingToken cmd, scEpoch cmd))
    as [Htok Hnew].
  { unfold ApplySyncCommand. rewrite Ec, Er. fold c. unfold Cache_ApplySyncCommand in *.
    destruct (applySyncCommand c _ _) as [[] r']; [|done]. destruct Hs as (Hn & Ht & _).
    simpl. unfold tokenOf at 1. rewrite roomOrNew_insert, bool_decide_true by done. split; [done|exact Hn]. }
  split; [exact Hnew|]. set (s' := playback_run ops _).
  pose proof (playback_run_token ops (ApplySyncCommand r (Some cmd) s).2 r) as Hmono.
  fold s' in Hmono. rewrite Htok in Hmono.
  unfold ApplySyncCommand. destruct (ctxDone (pbStore s')) as [[[]|e] d']; [|done].
  rewrite Er. set (o := mkSyncCommand _ _ _ _ _ _ _ _). unfold Cache_ApplySyncCommand.
  assert (applySyncCommand o (env_now (sn d')) (roomOrNew (pbCache s') r) =
          (false, roomOrNew (pbCache s') r)) as ->.
  { unfold applySyncCommand. unfold tokenOf in Hmono.
    assert (scFencingToken o < prFencingToken (roomOrNew (pbCache s') r)) as Hlt by (simpl; lia).
    apply Z.ltb_lt in Hlt. by rewrite Hlt. }
  split; [done|]. intros k. simpl. rewrite roomOrNew_insert.
  destruct (bool_decide (r = k)) eqn:Hk; [|done]. apply bool_decide_eq_true in Hk. by rewrite Hk.
Qed.

Definition demoPB : PlaybackSvc := mkPB ∅ (mkSt ∅ 0 false).
Definition pbCmd (epoch token : Z) : SyncCommand := mkSyncCommand "m" 2 1000 2000 fzero epoch "alice" token.
#[local] Instance pbEnv : Env := calmEnv (fun n => Z.of_nat n) (fun _ => "").

Lemma playback_fencing_witness :
  (ApplySyncCommand "r" (Some (pbCmd 5 3)) demoPB).1 = Ok true /\
  (ApplySyncCommand "r" (Some (pbCmd 99 2))
     (playback_run [PLoad "r" "m2"] (ApplySyncCommand "r" (Some (pbCmd 5 3)) demoPB).2)).1 <> Ok true.
Proof.
  split; [reflexivity|].
  apply (playback_fencing "r" (pbCmd 5 3) demoPB [PLoad "r" "m2"] (pbCmd 99 2)).
  - reflexivity.
  - reflexivity.
Defined.

(** Checkpoints of the playback service survive the trip through [BIGINT]
    columns: what was written is read back, up to the time of the update. *)
Theorem playback_checkpoint_roundtrip `{Env} `{!Calm _} room s :
  in_u 64 (prEpoch room) -> in_u 64 (prFencingToken room) ->
  exists s1 s2 now, withTx (PlaybackRepo_Upsert room) s = (Ok tt, s1) /\
    withTx (PlaybackRepo_Get (prRoomID room)) s1 =
    (Ok (mkPR (prRoomID room) (prMediaID room) (prStatus room) (prMediaTimeMs room)
           (prWallTimeMs room) (prPlaybackRate room) (prEpoch room) (prHostID room)
           (prFencingToken room) (pgTime now)), s2).
Proof.
  intros He Ht. eexists _, _, (env_now (S (sn s))). split.
  - unfold withTx, PlaybackRepo_Upsert, sbind, snow, smapErr, stmt, step_n. simpl.
    rewrite calm_begin, calm_fault. simpl. rewrite calm_commit. reflexivity.
  - unfold withTx, PlaybackRepo_Get, sbind, smapErr, queryRow, query, sbind, stmt. simpl.
    rewrite calm_begin, calm_fault. simpl. rewrite lookup_insert_eq. simpl. rewrite calm_commit.
    by rewrite !uint64_int64.
Qed.

Lemma playback_checkpoint_roundtrip_witness :
  exists s1 s2 now, withTx (PlaybackRepo_Upsert (newPlaybackRoom "r")) (pbStore demoPB) = (Ok tt, s1) /\
    withTx (PlaybackRepo_Get "r") s1 = (Ok (mkPR "r" "" 0 0 0 fzero 0 "" 0 (pgTime now)), s2).
Proof.
  destruct (playback_checkpoint_roundtrip (newPlaybackRoom "r") (pbStore demoPB)) as (s1 & s2 & now & H1 & H2).
  - by vm_compute.
  - by vm_compute.
  - exists s1, s2, now. by split.
Defined.

(** ** Where the code differs from its comments *)

(** A [sync.updated.v1] event is applied whatever its epoch, so a late or
    redelivered event takes the epoch back, and a command the service had
    rejected as redundant is applied again. *)
Example event_takes_epoch_back :
  let s := playback_run [PCommand "r" (Some (pbCmd 9 3));
                         PEvent (Some (mkSyncUpdated "r" 4 2 0 0 fzero "alice" 0 0))] demoPB in
  (ApplySyncCommand "r" (Some (pbCmd 5 3)) (ApplySyncCommand "r" (Some (pbCmd 9 3)) demoPB).2).1 = Ok false /\
  epochOf (pbCache s) "r" = 4 /\
  (ApplySyncCommand "r" (Some (pbCmd 5 3)) s).1 = Ok true.
Proof. by vm_compute. Qed.
