(* ===== verification/Media.v ===== *)
(** * The media service

    Model of [apps/media-service]: the catalog item ([internal/domain/media.go]),
    the two repositories ([internal/infra/postgres/media_repo.go] and
    [queue_repo.go]) over the tables of the migration, and the RPC handlers
    ([internal/app/handlers.go]).  The queue of a room is a set of rows keyed by
    (room, position); [repr] says which list of entries it stands for.

    Postgres checks the primary key of [media_queue], which is not deferrable,
    row by row while [UPDATE ... SET position = position - 1] visits the rows
    in an order of its own: that order is a parameter ([PgScan]). *)

From S2P Require Import Prelude GoNum Errors GoString Store RoomDomain Web RoomRepo RoomClient.
From stdpp Require Import pretty.

Open Scope Z_scope.
Open Scope sm_scope.

(** ** The catalog *)

Definition KindAudio : Z := 1.
Definition SourceProvider : Z := 1.

Record Media : Type := mkMedia {
  mdID : string;
  mdKind : Z;         (* int8 *)
  mdSource : Z;       (* int8 *)
  mdExternalRef : string;
  mdTitle : string;
  mdArtist : string;
  mdDurationMs : Z;   (* int64 *)
  mdCoverURL : string;
  mdCreatedAt : time;
}.

Record NewMediaParams : Type := mkMediaParams {
  npKind : Z;
  npSource : Z;
  npExternalRef : string;
  npTitle : string;
  npArtist : string;
  npDurationMs : Z;
  npCoverURL : string;
}.

Definition ErrMediaTitleEmpty : error := EMsg "media: title must not be empty".

Definition NewMedia (now : time) (id : string) (p : NewMediaParams) : res error Media :=
  let title := TrimSpace (npTitle p) in
  if bool_decide (title = "") then Err ErrMediaTitleEmpty
  else
    let kind := if npKind p =? 0 then KindAudio else npKind p in
    let source := if npSource p =? 0 then SourceProvider else npSource p in
    Ok (mkMedia id kind source (TrimSpace (npExternalRef p)) title (TrimSpace (npArtist p))
          (npDurationMs p) (TrimSpace (npCoverURL p)) now).

Record QueueItem : Type := mkQueueItem {
  qiRoomID : string;
  qiPosition : Z;
  qiMediaID : string;
  qiAddedAt : time;
}.

(** ** The database *)

(** An entry of a queue: the media id and when it was added. *)
Abbreviation entry := (string * time)%type.

Record MediaDB : Type := mkMediaDB {
  dItems : gmap string Media;
  dQueue : gmap (string * Z) entry;   (* (room, position) *)
}.

Definition emptyMediaDB : MediaDB := mkMediaDB ∅ ∅.
Definition set_dQueue (q : gmap (string * Z) entry) (d : MediaDB) : MediaDB := mkMediaDB (dItems d) q.

(** The order in which an [UPDATE] visits the rows it changes. *)
Class PgScan : Type := {
  scanOrder : nat -> list Z -> list Z;
  scanOrder_perm : forall n l, scanOrder n l ≡ₚ l;
}.

Definition media_columnsOk (m : Media) : option error :=
  if (255 <? charCount (mdExternalRef m)) || (255 <? charCount (mdTitle m)) ||
     (255 <? charCount (mdArtist m))
  then Some (EMsg "value too long for type character varying(255)")
  else None.

(** The positions of a room's rows. *)
Definition positions (roomID : string) (q : gmap (string * Z) entry) : list Z :=
  elements (set_map (D := gset Z) snd (filter (fun k => k.1 = roomID) (dom q))).

(** [COALESCE(MAX(position), -1) + 1]. *)
Definition nextPosition (roomID : string) (q : gmap (string * Z) entry) : Z :=
  match positions roomID q with
  | [] => -1
  | p :: ps => foldr Z.max p ps
  end + 1.

(** [UPDATE media_queue SET position = position - 1] for the visited rows. *)
Fixpoint renumber (roomID : string) (ps : list Z) (q : gmap (string * Z) entry)
    : res error (gmap (string * Z) entry) :=
  match ps with
  | [] => Ok q
  | p :: ps =>
      match q !! (roomID, p), q !! (roomID, p - 1) with
      | Some _, Some _ => Err (EUniqueViolation "media_queue_pkey")
      | Some row, None => renumber roomID ps (<[(roomID, p - 1) := row]> (delete (roomID, p) q))
      | None, _ => renumber roomID ps q
      end
  end.

Section repos.
Context `{Env}.

Definition MediaRepo_Create (m : Media) : SM MediaDB unit :=
  smapErr (EWrap "media_repo: create") (stmt (fun db =>
    match media_columnsOk m with
    | Some e => Err e
    | None =>
        if bool_decide (is_Some (dItems db !! mdID m)) then Err (EUniqueViolation "media_items_pkey")
        else Ok (tt, mkMediaDB (<[mdID m := mkMedia (mdID m) (mdKind m) (mdSource m) (mdExternalRef m)
                                    (mdTitle m) (mdArtist m) (mdDurationMs m) (mdCoverURL m)
                                    (pgTime (mdCreatedAt m))]> (dItems db)) (dQueue db))
    end)).

Definition scanMedia (m : Media) : Media :=
  mkMedia (mdID m) (int8 (mdKind m)) (int8 (mdSource m)) (mdExternalRef m) (mdTitle m) (mdArtist m)
    (mdDurationMs m) (mdCoverURL m) (mdCreatedAt m).

Definition MediaRepo_GetByID (id : string) : SM MediaDB Media :=
  smapErr (mapErr "media" id) (queryRow (fun db => scanMedia <$> dItems db !! id)).

Definition newerMedia (a b : Media) : Prop := mdCreatedAt b <= mdCreatedAt a.
#[global] Instance newerMedia_dec a b : Decision (newerMedia a b).
Proof. unfold newerMedia. apply _. Defined.

Definition mediaCond `{PgSearch} (cursor search : string) (m : Media) : bool :=
  (bool_decide (search = "") || nameMatches search (mdTitle m)) &&
  (bool_decide (cursor = "") || strLt (mdID m) cursor).

Definition mediaQuery `{PgSearch} (cursor search : string) (limit : Z) (items : gmap string Media)
    : list Media :=
  map scanMedia (take (Z.to_nat limit) (merge_sort newerMedia
    (List.filter (mediaCond cursor search) (map snd (map_to_list items))))).

Definition mediaCut (limit : Z) (rows : list Media) : list Media * string :=
  match rows !! Z.to_nat limit with
  | Some m => (take (Z.to_nat limit) rows, mdID m)
  | None => (rows, "")
  end.

Definition MediaRepo_List `{PgSearch} (cursor : string) (limit : Z) (search : string)
    : SM MediaDB (list Media * string) :=
  let limit := if (limit <=? 0) || (200 <? limit) then 50 else limit in
  rows <- smapErr (EWrap "media_repo: list")
            (query (fun db => mediaQuery cursor search (limit + 1) (dItems db))) ;;
  sret (mediaCut limit rows).

(** [added_at] is the column default, [now()] of the database. *)
Definition QueueRepo_Add (roomID mediaID : string) : SM MediaDB QueueItem :=
  now <- snow ;;
  smapErr (EWrap "queue_repo: add") (stmt (fun db =>
    let p := nextPosition roomID (dQueue db) in
    if negb (bool_decide (in_s 32 p)) then Err (EMsg "integer out of range")
    else if bool_decide (is_Some (dQueue db !! (roomID, p))) then Err (EUniqueViolation "media_queue_pkey")
    else if negb (bool_decide (is_Some (dItems db !! mediaID)))
    then Err (EMsg "violates foreign key constraint")
    else Ok (mkQueueItem roomID p mediaID (pgTime now),
             set_dQueue (<[(roomID, p) := (mediaID, pgTime now)]> (dQueue db)) db))).

(** The rows of a room, [ORDER BY position]. *)
Definition queueRows (roomID : string) (q : gmap (string * Z) entry) : list QueueItem :=
  omap (fun p => (fun e : entry => mkQueueItem roomID p e.1 e.2) <$> q !! (roomID, p))
    (merge_sort Z.le (positions roomID q)).

Definition QueueRepo_List (roomID : string) : SM MediaDB (list QueueItem) :=
  smapErr (EWrap "queue_repo: list") (query (fun db => queueRows roomID (dQueue db))).

(** The first statement of [Remove] answers the number of rows it deleted; the
    position is an [INTEGER] parameter. *)
Definition deleteAt (roomID : string) (position : Z) : SM MediaDB Z :=
  smapErr (EWrap "queue_repo: delete") (stmt (fun db =>
    if negb (bool_decide (in_s 32 position)) then Err (EMsg "cannot encode int into int4")
    else match dQueue db !! (roomID, position) with
         | Some _ => Ok (1, set_dQueue (delete (roomID, position) (dQueue db)) db)
         | None => Ok (0, db)
         end)).

Definition shiftDown `{PgScan} (roomID : string) (position : Z) : SM MediaDB unit := fun s =>
  smapErr (EWrap "queue_repo: renumber") (stmt (fun db =>
    match renumber roomID
            (scanOrder (sn s) (filter (fun p => position < p) (positions roomID (dQueue db))))
            (dQueue db) with
    | Ok q => Ok (tt, set_dQueue q db)
    | Err e => Err e
    end)) s.

Definition QueueRepo_Remove `{PgScan} (roomID : string) (position : Z) : SM MediaDB unit :=
  n <- deleteAt roomID position ;;
  if n =? 0 then sfail (ENotFound "queue" (roomID +:+ "/" +:+ pretty position)%string)
  else shiftDown roomID position.
End repos.

(** ** Messages *)

Record ProtoMedia : Type := mkProtoMedia {
  pdId : string;
  pdKind : Z;
  pdSource : Z;
  pdExternalRef : string;
  pdTitle : string;
  pdArtist : string;
  pdDuration : duration;
  pdCoverUrl : string;
  pdCreatedAt : time;
}.

(** [time.Duration(m.DurationMs) * time.Millisecond] wraps. *)
Definition mediaToProto (m : Media) : ProtoMedia :=
  mkProtoMedia (mdID m) (mdKind m) (mdSource m) (mdExternalRef m) (mdTitle m) (mdArtist m)
    (int64 (mdDurationMs m * 1000000)) (mdCoverURL m) (mdCreatedAt m).

Record ProtoQueueItem : Type := mkProtoItem {
  pqMediaId : string;
  pqPosition : Z;   (* uint32 *)
  pqAddedAt : time;
}.

Definition queueItemToProto (q : QueueItem) : ProtoQueueItem :=
  mkProtoItem (qiMediaID q) (uint32 (qiPosition q)) (qiAddedAt q).

Record CreateMediaRequest : Type := mkCreateMedia {
  cmKind : Z;
  cmSource : Z;
  cmExternalRef : string;
  cmTitle : string;
  cmArtist : string;
  cmDurationMs : Z;   (* uint64 *)
  cmCoverUrl : string;
}.

(** ** The handlers *)

Section handlers.
Context `{Env} `{RoomPermissions} `{PgScan} `{PgSearch}.

Definition internalErr (reason : string) (e : error) : error :=
  EVb (WithCause e (Internal reason (errText e))).

Definition GetMedia (id : string) : SM MediaDB ProtoMedia :=
  ctxDone ;;;
  media <- smapErr (fun e => if isNotFound e then EVb (NotFound "media" id)
                             else internalErr "GET_MEDIA_FAILED" e)
             (withTx (MediaRepo_GetByID id)) ;;
  sret (mediaToProto media).

Definition CreateMedia (h : Header) (req : CreateMediaRequest) : SM MediaDB ProtoMedia :=
  ctxDone ;;;
  let subject := subjectFromHeader h in
  if sbSystemRole subject <? SYSTEM_USER then sfail (EVb (PermissionDenied "media.create" "media"))
  else
    now <- snow ;; id <- snewID ;;
    match NewMedia now id (mkMediaParams (int8 (cmKind req)) (int8 (cmSource req)) (cmExternalRef req)
            (cmTitle req) (cmArtist req) (int64 (cmDurationMs req)) (cmCoverUrl req)) with
    | Err e => sfail (EVb (WithCause e
                 (InvalidArgumentFor "vibesync.media" "INVALID_MEDIA" (errText e))))
    | Ok media =>
        smapErr (internalErr "CREATE_MEDIA_FAILED") (withTx (MediaRepo_Create media)) ;;;
        sret (mediaToProto media)
    end.

(** [page] is the optional message (cursor, limit); the limit is 32 bits. *)
Definition ListMedia (page : option (string * Z)) (search : string)
    : SM MediaDB (list ProtoMedia * string * Z) :=
  ctxDone ;;;
  let cursor := match page with Some (c, _) => c | None => "" end in
  let limit := match page with
               | Some (_, l) => if 0 <? l then l else 50
               | None => 50
               end in
  r <- smapErr (internalErr "LIST_MEDIA_FAILED") (withTx (MediaRepo_List cursor limit search)) ;;
  sret (map mediaToProto r.1, r.2, Z.of_nat (length r.1)).

(** One call of the permission port. *)
Definition askPermission (roomID userID : string) (perm : RoomPermission) : SM MediaDB bool := fun s =>
  (hasPermission (sn s) roomID userID perm, step_n s).

Definition requireQueuePermission (userID roomID : string) (perm : RoomPermission) (action : string)
    : SM MediaDB unit :=
  if bool_decide (userID = "") then sfail (EVb (Unauthenticated "MISSING_USER_ID"))
  else
    allowed <- smapErr (internalErr "PERMISSION_CHECK_FAILED") (askPermission roomID userID perm) ;;
    if (allowed : bool) then sret tt else sfail (EVb (PermissionDenied action ("room:" +:+ roomID)%string)).

(** The transaction of [AddToQueue]. *)
Definition addTx (roomID mediaID : string) : SM MediaDB QueueItem :=
  MediaRepo_GetByID mediaID ;;; QueueRepo_Add roomID mediaID.

Definition AddToQueue (h : Header) (roomID mediaID : string) : SM MediaDB ProtoQueueItem :=
  ctxDone ;;;
  let subject := subjectFromHeader h in
  if sbSystemRole subject <? SYSTEM_USER
  then sfail (EVb (PermissionDenied "media.queue.add" "media-queue"))
  else if bool_decide (roomID = "") || bool_decide (mediaID = "")
  then sfail (EVb (InvalidArgumentFor "vibesync.media" "MISSING_ID" "room_id and media_id required"))
  else
    requireQueuePermission (sbUserID subject) roomID PERM_ADD_QUEUE "media.queue.add" ;;;
    item <- smapErr (fun e => if isNotFound e then EVb (NotFound "media" mediaID)
                              else internalErr "ADD_TO_QUEUE_FAILED" e)
              (withTx (addTx roomID mediaID)) ;;
    sret (queueItemToProto item).

Definition GetQueue (roomID : string) : SM MediaDB (list ProtoQueueItem) :=
  ctxDone ;;;
  items <- smapErr (internalErr "GET_QUEUE_FAILED") (withTx (QueueRepo_List roomID)) ;;
  sret (map queueItemToProto items).

(** [position] is 32 bits, unsigned. *)
Definition RemoveFromQueue (h : Header) (roomID : string) (position : Z) : SM MediaDB bool :=
  ctxDone ;;;
  let subject := subjectFromHeader h in
  if sbSystemRole subject <? SYSTEM_USER
  then sfail (EVb (PermissionDenied "media.queue.remove" "media-queue"))
  else
    requireQueuePermission (sbUserID subject) roomID PERM_REMOVE_QUEUE "media.queue.remove" ;;;
    smapErr (fun e => if isNotFound e
                      then EVb (NotFound "queue" (roomID +:+ ":" +:+ pretty position)%string)
                      else internalErr "REMOVE_FROM_QUEUE_FAILED" e)
      (withTx (QueueRepo_Remove roomID position)) ;;;
    sret true.

Inductive media_op : Type :=
| MGet (id : string)
| MCreate (h : Header) (req : CreateMediaRequest)
| MList (page : option (string * Z)) (search : string)
| MAdd (h : Header) (roomID mediaID : string)
| MQueue (roomID : string)
| MRemove (h : Header) (roomID : string) (position : Z).

Inductive media_reply : Type :=
| RMedia (m : ProtoMedia)
| RPage (ms : list ProtoMedia * string * Z)
| RItem (i : ProtoQueueItem)
| RQueue (q : list ProtoQueueItem)
| RRemoved (b : bool).

Definition reply {A} (f : A -> media_reply) (m : SM MediaDB A) : SM MediaDB media_reply :=
  a <- m ;; sret (f a).

Definition media_exec (o : media_op) : SM MediaDB media_reply :=
  match o with
  | MGet id => reply RMedia (GetMedia id)
  | MCreate h req => reply RMedia (CreateMedia h req)
  | MList p s => reply RPage (ListMedia p s)
  | MAdd h r m => reply RItem (AddToQueue h r m)
  | MQueue r => reply RQueue (GetQueue r)
  | MRemove h r p => reply RRemoved (RemoveFromQueue h r p)
  end.

Fixpoint media_run (ops : list media_op) (s : st MediaDB) : st MediaDB :=
  match ops with
  | [] => s
  | o :: ops => media_run ops (media_exec o s).2
  end.
End handlers.
