(* ===== verification/MediaTheorems.v ===== *)
(** * Theorems about the media service

    The rows of [media_queue] implement one list per room: appending, removing
    by index and listing, whatever fails and in whatever order rows are
    visited; who may change a queue; and what a caller sees when nothing
    fails. *)

From S2P Require Import Prelude GoNum Errors GoString Store RoomDomain Web RoomRepo RoomService.
From S2P Require Import RoomServiceTheorems RoomClient Media.
From stdpp Require Import pretty.

Open Scope Z_scope.
#[local] Coercion Z.of_nat : nat >-> Z.

(** ** Rows and lists *)

Abbreviation queues := (gmap string (list entry)).

(** The rows are the lists: positions from 0, without gaps, within [INTEGER]. *)
Definition repr (q : gmap (string * Z) entry) (Q : queues) : Prop :=
  (forall r p, q !! (r, p) = if 0 <=? p then (Q !!! r) !! Z.to_nat p else None) /\
  (forall r, Z.of_nat (length (Q !!! r)) <= 2 ^ 31).

Lemma repr_pos q Q r p e : repr q Q -> q !! (r, p) = Some e -> 0 <= p < Z.of_nat (length (Q !!! r)).
Proof.
  intros [Hq _] Hl. rewrite Hq in Hl. destruct (Z.leb_spec 0 p); [|done].
  apply lookup_lt_Some in Hl. lia.
Qed.

Lemma repr_lookup q Q r (i : nat) : repr q Q -> q !! (r, Z.of_nat i) = (Q !!! r) !! i.
Proof. intros [Hq _]. rewrite Hq. destruct (Z.leb_spec 0 (Z.of_nat i)); [|lia]. by rewrite Nat2Z.id. Qed.

Lemma elem_of_positions r p q : p ∈ positions r q <-> is_Some (q !! (r, p)).
Proof.
  unfold positions. rewrite elem_of_elements, elem_of_map. split.
  - intros ([r' p'] & -> & Hk). apply elem_of_filter in Hk as [Hr Hd]. simpl in *. subst.
    by apply elem_of_dom.
  - intros Hs. exists (r, p). split; [done|]. apply elem_of_filter. split; [done|].
    by apply elem_of_dom.
Qed.

Lemma positions_repr q Q r : repr q Q -> positions r q ≡ₚ seqZ 0 (Z.of_nat (length (Q !!! r))).
Proof.
  intros Hr. apply NoDup_Permutation; [apply NoDup_elements|apply NoDup_seqZ|]. intros p.
  rewrite elem_of_positions, elem_of_seqZ. split.
  - intros [e He]. apply (repr_pos _ _ _ _ _ Hr) in He. lia.
  - intros Hp. destruct Hr as [Hq _]. rewrite Hq. destruct (Z.leb_spec 0 p); [|lia].
    apply lookup_lt_is_Some. lia.
Qed.

Lemma foldr_max p ps : foldr Z.max p ps ∈ p :: ps /\ forall x, x ∈ p :: ps -> x <= foldr Z.max p ps.
Proof.
  induction ps as [|y ps [Hin Hle]]; simpl.
  { split; [set_solver|]. intros x Hx. apply list_elem_of_singleton in Hx. lia. }
  split.
  - destruct (Z.max_spec y (foldr Z.max p ps)) as [[_ ->]|[_ ->]]; set_solver.
  - intros x Hx. assert (x = y \/ x ∈ p :: ps) as [->|Hx'] by set_solver; [lia|].
    specialize (Hle x Hx'). lia.
Qed.

Lemma nextPosition_repr q Q r : repr q Q -> nextPosition r q = Z.of_nat (length (Q !!! r)).
Proof.
  intros Hr. apply positions_repr with (r := r) in Hr. unfold nextPosition.
  destruct (positions r q) as [|p ps] eqn:E.
  - apply Permutation_nil_l in Hr. apply (f_equal length) in Hr. rewrite length_seqZ in Hr.
    simpl in Hr. lia.
  - destruct (foldr_max p ps) as [Hin Hle].
    assert (forall x, x ∈ p :: ps <-> 0 <= x < Z.of_nat (length (Q !!! r))) as He.
    { intros x. rewrite Hr, elem_of_seqZ. lia. }
    apply He in Hin as Hin'. specialize (Hle (Z.of_nat (length (Q !!! r)) - 1)).
    rewrite He in Hle. lia.
Qed.

Lemma seqZ_sorted m (n : nat) : StronglySorted Z.le (seqZ m n).
Proof.
  revert m. induction n as [|n IH]; intros m; [constructor|]. rewrite seqZ_cons by lia.
  replace (Z.pred (Z.of_nat (S n))) with (Z.of_nat n) by lia. constructor; [apply IH|].
  apply Forall_seqZ. lia.
Qed.

(** Reading a numbered list by its numbers. *)
Lemma omap_seqZ {A B} (f : Z -> option B) (g : Z -> A -> B) (l : list A) m :
  (forall (i : nat) e, l !! i = Some e -> f (m + i) = Some (g (m + i) e)) ->
  omap f (seqZ m (length l)) = imap (fun i e => g (m + Z.of_nat i) e) l.
Proof.
  revert m. induction l as [|a l IH]; intros m Hf; [done|].
  change (length (a :: l)) with (S (length l)). rewrite seqZ_cons by lia.
  replace (Z.pred (Z.of_nat (S (length l)))) with (Z.of_nat (length l)) by lia. simpl.
  pose proof (Hf 0%nat a eq_refl) as Ha. rewrite Z.add_0_r in Ha. rewrite Ha. simpl.
  rewrite Z.add_0_r. f_equal. rewrite IH.
  - apply imap_ext. intros i x _. simpl. f_equal. lia.
  - intros i e Hi. specialize (Hf (S i) e Hi). replace (Z.succ m + i) with (m + Z.of_nat (S i)) by lia. done.
Qed.

(** Listing a room gives its list, numbered. *)
Lemma queueRows_repr q Q r :
  repr q Q -> queueRows r q = imap (fun i e => mkQueueItem r (Z.of_nat i) e.1 e.2) (Q !!! r).
Proof.
  intros Hr. unfold queueRows.
  assert (merge_sort Z.le (positions r q) = seqZ 0 (Z.of_nat (length (Q !!! r)))) as ->.
  { apply (Sorted_unique Z.le); [apply Sorted_merge_sort, _| |].
    - apply StronglySorted_Sorted, seqZ_sorted.
    - by rewrite merge_sort_Permutation, positions_repr. }
  apply (omap_seqZ _ (fun p (e : entry) => mkQueueItem r p e.1 e.2)). intros i e Hi.
  rewrite Z.add_0_l, (repr_lookup _ Q) by done. by rewrite Hi.
Qed.

(** ** Appending *)

Lemma repr_add q Q r e :
  repr q Q -> Z.of_nat (length (Q !!! r)) < 2 ^ 31 ->
  repr (<[(r, Z.of_nat (length (Q !!! r))) := e]> q) (<[r := Q !!! r ++ [e]]> Q).
Proof.
  intros [Hq Hb] Hlt. split.
  - intros r' p. destruct (decide (r' = r)) as [->|Hne].
    + rewrite lookup_total_insert_eq. destruct (decide (p = length (Q !!! r))) as [->|Hp].
      * rewrite lookup_insert_eq. destruct (Z.leb_spec 0 (length (Q !!! r))); [|lia].
        rewrite Nat2Z.id, lookup_app_r, Nat.sub_diag by lia. done.
      * rewrite lookup_insert_ne by congruence. rewrite Hq. destruct (Z.leb_spec 0 p); [|done].
        destruct (decide (p < length (Q !!! r))); [rewrite lookup_app_l by lia; done|].
        rewrite !lookup_ge_None_2; [done|rewrite length_app; simpl; lia|lia].
    + rewrite lookup_total_insert_ne, lookup_insert_ne by congruence. apply Hq.
  - intros r'. destruct (decide (r' = r)) as [->|Hne].
    + rewrite lookup_total_insert_eq, length_app. simpl. lia.
    + rewrite lookup_total_insert_ne by done. apply Hb.
Qed.

(** ** Removing *)

(** The table while the rows of room [r] in [D] have been moved down. *)
Definition moving (r : string) (orig cur : gmap (string * Z) entry) (D : gset Z) : Prop :=
  (forall r' p, cur !! (r', p) =
     if decide (r' = r) then
       if decide (p + 1 ∈ D) then orig !! (r, p + 1)
       else if decide (p ∈ D) then None else orig !! (r, p)
     else orig !! (r', p)) /\
  (forall p, p + 1 ∈ D -> p ∈ D \/ orig !! (r, p) = None).

Lemma moving_start r q : moving r q q ∅.
Proof.
  split; [|set_solver]. intros r' p. case_decide; [subst|done].
  rewrite !decide_False by set_solver. done.
Qed.

Lemma moving_step r orig cur D p row :
  moving r orig cur D -> p ∉ D -> orig !! (r, p) = Some row -> cur !! (r, p - 1) = None ->
  cur !! (r, p) = Some row /\
  moving r orig (<[(r, p - 1) := row]> (delete (r, p) cur)) ({[p]} ∪ D).
Proof.
  intros [Hc Hd] Hp Ho Hn.
  assert (p + 1 ∉ D) as Hp1. { intros Hin. destruct (Hd _ Hin); congruence. }
  rewrite Hc, decide_True, decide_False, decide_False by done. split; [done|]. split.
  - intros r' x. destruct (decide (r' = r)) as [->|Hne].
    2:{ rewrite lookup_insert_ne, lookup_delete_ne by congruence. by rewrite Hc, decide_False. }
    destruct (decide (x = p - 1)) as [->|Hx].
    { rewrite lookup_insert_eq. replace (p - 1 + 1) with p by lia. by rewrite decide_True by set_solver. }
    rewrite lookup_insert_ne by congruence. destruct (decide (x = p)) as [->|Hx'].
    { rewrite lookup_delete_eq, decide_False, decide_True; [done|set_solver|].
      rewrite elem_of_union, elem_of_singleton. intros [?|?]; [lia|done]. }
    rewrite lookup_delete_ne, Hc, decide_True by congruence.
    assert (x + 1 ∈ {[p]} ∪ D <-> x + 1 ∈ D) as Hi1
      by (rewrite elem_of_union, elem_of_singleton; split; [intros [?|?]; [lia|done]|by right]).
    assert (x ∈ {[p]} ∪ D <-> x ∈ D) as Hi2 by set_solver.
    by rewrite (decide_ext _ _ _ _ Hi1), (decide_ext _ _ _ _ Hi2).
  - intros x. rewrite !elem_of_union, !elem_of_singleton. intros [Hx|Hx].
    + rewrite Hc, decide_True, decide_False in Hn by (done || by replace (p - 1 + 1) with p by lia).
      replace (p - 1) with x in Hn by lia. destruct (decide (x ∈ D)); [by left; right|by right].
    + destruct (Hd x Hx); [by left; right|by right].
Qed.

Lemma moving_here r orig cur D p row :
  moving r orig cur D -> p ∉ D -> orig !! (r, p) = Some row -> cur !! (r, p) = Some row.
Proof.
  intros [Hc Hd] Hp Ho. rewrite Hc, decide_True, decide_False, decide_False; [done|done| |done].
  intros Hin. destruct (Hd _ Hin); congruence.
Qed.

(** The rows still to visit. *)
Definition pending (r : string) (orig : gmap (string * Z) entry) (D : gset Z) (ps : list Z) : Prop :=
  NoDup ps /\ forall p, p ∈ ps -> p ∉ D /\ is_Some (orig !! (r, p)).

Lemma pending_step r orig D p ps : pending r orig D (p :: ps) -> pending r orig ({[p]} ∪ D) ps.
Proof.
  intros [Hnd Hp]. apply NoDup_cons in Hnd as [Hn Hnd]. split; [done|]. intros x Hx.
  destruct (Hp x) as [Hd Ho]; [by right|]. split; [|done].
  rewrite elem_of_union, elem_of_singleton. intros [->|?]; done.
Qed.

(** In whatever order the rows are visited: an [UPDATE] that succeeds has moved
    every one of them. *)
Lemma renumber_moves r orig ps cur D q' :
  pending r orig D ps -> moving r orig cur D -> renumber r ps cur = Ok q' ->
  moving r orig q' (list_to_set ps ∪ D).
Proof.
  revert cur D. induction ps as [|p ps IH]; intros cur D Hp Hm; simpl.
  { intros [= <-]. by replace (∅ ∪ D) with D by set_solver. }
  destruct Hp as [Hnd Hpd] eqn:EHp. destruct (Hpd p) as [HpD [row Hrow]]; [by left|]. clear EHp.
  rewrite (moving_here _ _ _ _ _ _ Hm HpD Hrow). destruct (cur !! (r, p - 1)) eqn:En; [done|].
  intros Hr. destruct (moving_step _ _ _ _ _ _ Hm HpD Hrow En) as [_ Hm'].
  replace ({[p]} ∪ list_to_set ps ∪ D) with (list_to_set ps ∪ ({[p]} ∪ D) : gset Z) by set_solver.
  eapply IH; [|exact Hm'|exact Hr]. by eapply pending_step.
Qed.

(** Visited by ascending position, the [UPDATE] succeeds. *)
Lemma renumber_ascending r orig ps cur D :
  pending r orig D ps -> moving r orig cur D -> StronglySorted Z.le ps ->
  (forall p, p ∈ ps -> p - 1 ∈ D \/ p - 1 ∈ ps \/ orig !! (r, p - 1) = None) ->
  exists q', renumber r ps cur = Ok q'.
Proof.
  revert cur D. induction ps as [|p ps IH]; intros cur D Hp Hm Hs Hprev; [by eexists|]. simpl.
  pose proof (pending_step _ _ _ _ _ Hp) as Hp'. destruct Hp as [Hnd Hpd].
  destruct (Hpd p) as [HpD [row Hrow]]; [by left|]. rewrite (moving_here _ _ _ _ _ _ Hm HpD Hrow).
  apply StronglySorted_inv in Hs as [Hs Hle]. rewrite Forall_forall in Hle.
  assert (cur !! (r, p - 1) = None) as En.
  { destruct Hm as [Hc _]. rewrite Hc, decide_True, decide_False by (done || by replace (p - 1 + 1) with p by lia).
    destruct (decide (p - 1 ∈ D)); [done|]. destruct (Hprev p) as [?|[Hin|?]]; [by left|done| |done].
    exfalso. apply elem_of_cons in Hin as [?|Hin]; [lia|]. apply Hle in Hin. lia. }
  rewrite En. destruct (moving_step _ _ _ _ _ _ Hm HpD Hrow En) as [_ Hm'].
  eapply IH; [exact Hp'|exact Hm'|exact Hs|]. intros x Hx. destruct (Hprev x) as [?|[Hin|?]]; [by right| | |].
  - left. set_solver.
  - apply elem_of_cons in Hin as [->|?]; [left; set_solver|by right; left].
  - by right; right.
Qed.

(** The rows after the removed one, all moved, are the list without it. *)
Lemma repr_remove q Q r (i : nat) q' (D : gset Z) :
  repr q Q -> (i < length (Q !!! r))%nat ->
  (forall p, p ∈ D <-> i < p /\ is_Some (q !! (r, p))) ->
  moving r (delete (r, Z.of_nat i) q) q' D ->
  repr q' (<[r := delete i (Q !!! r)]> Q).
Proof.
  intros Hrq Hi HD [Hc _]. pose proof Hrq as [Hq Hb]. split.
  2:{ intros r'. destruct (decide (r' = r)) as [->|Hne].
      - rewrite lookup_total_insert_eq, length_delete by (by apply lookup_lt_is_Some). specialize (Hb r). lia.
      - rewrite lookup_total_insert_ne by done. apply Hb. }
  intros r' p. rewrite Hc. destruct (decide (r' = r)) as [->|Hne].
  2:{ rewrite lookup_total_insert_ne, lookup_delete_ne by congruence. apply Hq. }
  rewrite lookup_total_insert_eq.
  assert (forall x, q !! (r, x) = None <-> ~ (0 <= x < length (Q !!! r))) as Hnone.
  { intros x. rewrite Hq. destruct (Z.leb_spec 0 x); [rewrite lookup_ge_None|]; split; (done || lia). }
  assert (forall x, x ∈ D <-> i < x < length (Q !!! r)) as HD'.
  { intros x. rewrite HD, <- not_eq_None_Some, Hnone. lia. }
  destruct (decide (p + 1 ∈ D)) as [Hin|Hin]; rewrite HD' in Hin.
  { rewrite lookup_delete_ne, Hq by (intros [= ?]; lia).
    destruct (Z.leb_spec 0 (p + 1)), (Z.leb_spec 0 p); try lia.
    rewrite list_lookup_delete_ge by lia. f_equal. lia. }
  destruct (decide (p ∈ D)) as [Hp|Hp]; rewrite HD' in Hp.
  { destruct (Z.leb_spec 0 p); [|done]. rewrite lookup_ge_None_2; [done|].
    rewrite length_delete by (by apply lookup_lt_is_Some). lia. }
  destruct (decide (p = i)) as [->|Hpi].
  { rewrite lookup_delete_eq. destruct (Z.leb_spec 0 i); [|done]. rewrite lookup_ge_None_2; [done|].
    rewrite length_delete by (by apply lookup_lt_is_Some). lia. }
  rewrite lookup_delete_ne, Hq by congruence. destruct (Z.leb_spec 0 p); [|done].
  destruct (decide (p < i)); [by rewrite list_lookup_delete_lt by lia|].
  rewrite !lookup_ge_None_2; [done|rewrite length_delete by (by apply lookup_lt_is_Some); lia|lia].
Qed.

(** ** The transactions *)

Section transactions.
Context `{Env} `{PgScan}.

Lemma reads_media id : reads (fun db => scanMedia <$> dItems db !! id) (MediaRepo_GetByID id).
Proof. unfold MediaRepo_GetByID. auto with vibe. Qed.

Lemma addTx_spec r m s item s1 Q :
  addTx r m s = (Ok item, s1) -> repr (dQueue (sdb s)) Q ->
  exists t, item = mkQueueItem r (length (Q !!! r)) m t /\
    repr (dQueue (sdb s1)) (<[r := Q !!! r ++ [(m, t)]]> Q).
Proof.
  intros E HQ. apply sbind_Ok in E as (md & s' & Hg & E).
  apply (reads_Ok _ _ _ _ _ (reads_media m)) in Hg as [_ Hs'].
  apply sbind_Ok in E as (now & s'' & [= <- <-] & E). apply smapErr_Ok, stmt_Ok in E as [E _].
  simpl in E. rewrite Hs' in E. rewrite (nextPosition_repr _ _ r HQ) in E.
  destruct (bool_decide (in_s 32 _)) eqn:Ei; [|done]. apply bool_decide_eq_true in Ei. simpl in E.
  destruct (bool_decide (is_Some (_ !! (_, _)))); [done|].
  destruct (bool_decide (is_Some (dItems _ !! _))); [|done]. simpl in E.
  injection E as <- <-. eexists. split; [done|]. simpl. apply repr_add; [done|]. unfold in_s in Ei. lia.
Qed.

Lemma deleteAt_spec r p s n s1 Q :
  deleteAt r p s = (Ok n, s1) -> repr (dQueue (sdb s)) Q ->
  (n = 0 /\ ~ (0 <= p < length (Q !!! r)) /\ sdb s1 = sdb s) \/
  (n = 1 /\ 0 <= p < length (Q !!! r) /\ dQueue (sdb s1) = delete (r, p) (dQueue (sdb s))).
Proof.
  intros E HQ. apply smapErr_Ok, stmt_Ok in E as [E _]. destruct (negb _); [done|].
  destruct (dQueue (sdb s) !! (r, p)) as [e|] eqn:Ep; injection E as <- E.
  - right. split; [done|]. split; [by eapply (repr_pos _ _ _ _ _ HQ)|]. by rewrite <- E.
  - left. split_and!; [done| |done]. intros Hp. destruct HQ as [Hq _]. rewrite Hq in Ep.
    destruct (Z.leb_spec 0 p); [|lia]. apply lookup_ge_None in Ep. lia.
Qed.

(** The rows after a position, in the order of the scan. *)
Lemma pending_scan r i q n :
  pending r (delete (r, i) q) ∅ (scanOrder n (filter (fun p => i < p) (positions r (delete (r, i) q)))).
Proof.
  split.
  - rewrite scanOrder_perm. apply NoDup_filter, NoDup_elements.
  - intros p. rewrite scanOrder_perm, list_elem_of_filter, elem_of_positions. intros [_ Hs].
    split; [set_solver|done].
Qed.

Lemma removeTx_spec r p s s1 Q :
  QueueRepo_Remove r p s = (Ok tt, s1) -> repr (dQueue (sdb s)) Q ->
  0 <= p < length (Q !!! r) /\
  repr (dQueue (sdb s1)) (<[r := delete (Z.to_nat p) (Q !!! r)]> Q).
Proof.
  intros E HQ. apply sbind_Ok in E as (n & s' & Hd & E).
  apply deleteAt_spec with (Q := Q) in Hd as [(-> & _)|(-> & Hp & Hs')]; [done| |done].
  split; [done|]. simpl in E. unfold shiftDown in E. apply smapErr_Ok, stmt_Ok in E as [E _].
  rewrite Hs' in E. destruct (renumber _ _ _) as [q'|] eqn:Er; [|done]. injection E as <-.
  simpl. eapply renumber_moves in Er; [|apply pending_scan|apply moving_start].
  eapply repr_remove; [exact HQ|lia| |by rewrite Z2Nat.id by lia].
  intros x. rewrite elem_of_union, elem_of_list_to_set, scanOrder_perm, list_elem_of_filter, elem_of_positions.
  rewrite Z2Nat.id by lia. split.
  - intros [[Hlt Hx]|]; [|set_solver]. split; [done|]. by rewrite lookup_delete_ne in Hx by (intros [= ?]; lia).
  - intros [Hlt Hx]. left. split; [done|]. by rewrite lookup_delete_ne by (intros [= ?]; lia).
Qed.
End transactions.

(** ** The handlers *)

Section handlers.
Context `{Env} `{RoomPermissions} `{PgScan} `{PgSearch}.

(** The caller has an account and the room service confirmed the permission. *)
Definition permitted (h : Header) (r : string) (perm : RoomPermission) : Prop :=
  SYSTEM_USER <= sbSystemRole (subjectFromHeader h) /\ sbUserID (subjectFromHeader h) <> "" /\
  exists n, hasPermission n r (sbUserID (subjectFromHeader h)) perm = Ok true.

(** A request that ended before its transaction, or after it. *)
Definition after_tx {A B} (tx : SM MediaDB A) (f : A -> B) (s : st MediaDB) (out : res error B * st MediaDB)
    : Prop :=
  exists s0 r s1, sdb s0 = sdb s /\ withTx tx s0 = (r, s1) /\ sdb out.2 = sdb s1 /\
    match r with Ok a => out.1 = Ok (f a) | Err _ => exists e, out.1 = Err e end.

Definition refused {B} (s : st MediaDB) (out : res error B * st MediaDB) : Prop :=
  sdb out.2 = sdb s /\ exists e, out.1 = Err e.

Lemma ctxDone_cases {B} (k : SM MediaDB B) (P : res error B * st MediaDB -> Prop) s :
  (forall e s', sdb s' = sdb s -> P (Err e, s')) -> (forall s', sdb s' = sdb s -> P (k s')) ->
  P (sbind ctxDone (fun _ => k) s).
Proof. intros He Hk. unfold sbind, ctxDone. destruct (env_ctx _); [by apply He|by apply Hk]. Qed.

Lemma refuse {B} (e : error) s s' : sdb s' = sdb s -> @refused B s (Err e, s').
Proof. intros Hs. split; [done|by eexists]. Qed.

Lemma permission_cases {B} u r perm act (k : SM MediaDB B) (P : res error B * st MediaDB -> Prop) s :
  (forall e s', sdb s' = sdb s -> P (Err e, s')) ->
  (forall s', u <> "" -> (exists n, hasPermission n r u perm = Ok true) -> sdb s' = sdb s -> P (k s')) ->
  P (sbind (requireQueuePermission u r perm act) (fun _ => k) s).
Proof.
  intros He Hk. unfold requireQueuePermission. destruct (bool_decide (u = "")) eqn:Eu; [by apply He|].
  apply bool_decide_eq_false in Eu. unfold sbind, smapErr, askPermission.
  destruct (hasPermission (sn s) r u perm) as [[]|e] eqn:Ep; [|by apply He..].
  apply Hk; [done|by eexists|done].
Qed.

Lemma tx_cases {A B} g (tx : SM MediaDB A) (f : A -> B) s :
  after_tx tx f s (sbind (smapErr g (withTx tx)) (fun a => sret (f a)) s).
Proof.
  exists s, (withTx tx s).1, (withTx tx s).2. unfold sbind, smapErr.
  destruct (withTx tx s) as [[a|e] s1]; split_and!; try done. by eexists.
Qed.

Lemma after_tx_eq {A B} (tx : SM MediaDB A) (f : A -> B) s s' out :
  sdb s' = sdb s -> after_tx tx f s' out -> after_tx tx f s out.
Proof. intros Hs (s0 & r & s1 & Hd & Hr). exists s0, r, s1. by rewrite Hd. Qed.

Lemma AddToQueue_cases h r m s :
  let out := AddToQueue h r m s in
  refused s out \/ (permitted h r PERM_ADD_QUEUE /\ after_tx (addTx r m) queueItemToProto s out).
Proof.
  unfold AddToQueue. apply ctxDone_cases; [intros; left; by apply refuse|]. intros s1 Hs1.
  destruct (_ <? _) eqn:Er; [left; by apply refuse|].
  destruct (_ || _); [left; by apply refuse|].
  apply permission_cases; [intros; left; apply refuse; congruence|].
  intros s2 Hu Hp Hs2. right. apply Z.ltb_ge in Er. split; [done|].
  eapply after_tx_eq; [|apply tx_cases]. congruence.
Qed.

Lemma RemoveFromQueue_cases h r p s :
  let out := RemoveFromQueue h r p s in
  refused s out \/
  (permitted h r PERM_REMOVE_QUEUE /\ after_tx (QueueRepo_Remove r p) (fun _ => true) s out).
Proof.
  unfold RemoveFromQueue. apply ctxDone_cases; [intros; left; by apply refuse|]. intros s1 Hs1.
  destruct (_ <? _) eqn:Er; [left; by apply refuse|].
  apply permission_cases; [intros; left; apply refuse; congruence|].
  intros s2 Hu Hp Hs2. right. apply Z.ltb_ge in Er. split; [done|].
  eapply after_tx_eq; [|apply (tx_cases _ _ (fun _ => true))]. congruence.
Qed.

Lemma GetQueue_cases r s :
  let out := GetQueue r s in
  refused s out \/ after_tx (QueueRepo_List r) (map queueItemToProto) s out.
Proof.
  unfold GetQueue. apply ctxDone_cases; [intros; left; by apply refuse|]. intros s1 Hs1.
  right. eapply after_tx_eq; [|apply tx_cases]. done.
Qed.

(** *** What the queues become *)

(** The effect of a request on the lists. *)
Definition queue_step (o : media_op) (Q Q' : queues) : Prop :=
  match o with
  | MAdd _ r m => exists t, Q' = <[r := Q !!! r ++ [(m, t)]]> Q
  | MRemove _ r p => 0 <= p < length (Q !!! r) /\ Q' = <[r := delete (Z.to_nat p) (Q !!! r)]> Q
  | _ => Q' = Q
  end.

(** What the caller is told. *)
Definition queue_reply (o : media_op) (Q : queues) (rep : media_reply) : Prop :=
  match o, rep with
  | MAdd _ r m, RItem i => pqMediaId i = m /\ pqPosition i = length (Q !!! r)
  | MQueue r, RQueue items =>
      items = imap (fun i e => mkProtoItem e.1 (Z.of_nat i) e.2) (Q !!! r)
  | MRemove _ _ _, RRemoved b => b = true
  | MGet _, RMedia _ | MCreate _ _, RMedia _ | MList _ _, RPage _ => True
  | _, _ => False
  end.

Definition refines (o : media_op) (Q : queues) (out : res error media_reply * st MediaDB) : Prop :=
  exists Q', repr (dQueue (sdb out.2)) Q' /\ (Q' = Q \/ queue_step o Q Q') /\
    forall rep, out.1 = Ok rep -> queue_step o Q Q' /\ queue_reply o Q rep.

(** A request that leaves the queue table alone. *)
Lemma refines_quiet {A} o (f : A -> media_reply) (m : SM MediaDB A) s Q :
  (forall q, keepsDB (fun db => dQueue db = q) m) ->
  queue_step o Q Q -> (forall a, queue_reply o Q (f a)) ->
  repr (dQueue (sdb s)) Q -> refines o Q (reply f m s).
Proof.
  intros Hk Hst Hrep HQ. exists Q. specialize (Hk (dQueue (sdb s)) s eq_refl).
  unfold reply, sbind. destruct (m s) as [[a|e] s']; simpl in *; rewrite Hk;
    (split; [done|]; split; [by left|]); [|done]. intros rep [= <-]. by split.
Qed.

Lemma refines_refused {A} o (f : A -> media_reply) (m : SM MediaDB A) s Q :
  refused s (m s) -> repr (dQueue (sdb s)) Q -> refines o Q (reply f m s).
Proof.
  intros [Hs [e He]] HQ. exists Q. unfold reply, sbind. destruct (m s) as [x s']. simpl in *. subst x.
  simpl. rewrite Hs. split; [done|]. split; [by left|done].
Qed.

Lemma refines_tx {A B} o (f : B -> media_reply) (g : A -> B) (tx : SM MediaDB A) (m : SM MediaDB B) s Q :
  after_tx tx g s (m s) -> repr (dQueue (sdb s)) Q ->
  (forall s0 a s1, tx s0 = (Ok a, s1) -> repr (dQueue (sdb s0)) Q ->
     exists Q', repr (dQueue (sdb s1)) Q' /\ queue_step o Q Q' /\ queue_reply o Q (f (g a))) ->
  refines o Q (reply f m s).
Proof.
  intros (s0 & r & s1 & Hs0 & Hw & Hs1 & Ho) HQ Htx. unfold reply, sbind.
  destruct (m s) as [out s'] eqn:Em. simpl in *.
  apply withTx_cases in Hw as [[Hsame [e ->]]|(a & s2 & Ha & _ & Hs2 & Hr)].
  - destruct Ho as [e' ->]. exists Q. simpl. rewrite Hs1, Hsame, Hs0. split; [done|]. split; [by left|done].
  - destruct (Htx _ _ _ Ha) as (Q' & HQ' & Hst & Hrep); [simpl; by rewrite Hs0|].
    exists Q'. destruct Hr as [->|[e ->]].
    + rewrite Ho. simpl. rewrite Hs1, Hs2. split; [done|]. split; [by right|]. by intros rep [= <-].
    + destruct Ho as [e' ->]. simpl. rewrite Hs1, Hs2. split; [done|]. split; [by right|done].
Qed.

Ltac keeps_queue :=
  repeat first [apply keepsDB_bind; [|intros ?] | apply keepsDB_ctxDone | apply keepsDB_now
    | apply keepsDB_newID | apply keepsDB_mapErr | apply keepsDB_ret | apply keepsDB_fail
    | apply keepsDB_withTx
    | match goal with |- keepsDB _ (match ?x with _ => _ end) => destruct x end].

Lemma GetMedia_queue id q : keepsDB (fun db => dQueue db = q) (GetMedia id).
Proof. unfold GetMedia. keeps_queue. eapply establishes_read, reads_media. Qed.

Lemma CreateMedia_queue h req q : keepsDB (fun db => dQueue db = q) (CreateMedia h req).
Proof.
  unfold CreateMedia. keeps_queue. apply establishes_mapErr, establishes_stmt.
  intros db a' db' Hq. destruct (media_columnsOk _); [done|]. destruct (bool_decide _); [done|].
  by intros [= _ <-].
Qed.

Lemma ListMedia_queue page search q : keepsDB (fun db => dQueue db = q) (ListMedia page search).
Proof.
  unfold ListMedia. keeps_queue. unfold MediaRepo_List. eapply establishes_query. intros v.
  eapply establishes_weaken; [apply establishes_ret|intros db Hdb; exact Hdb|by intros db []].
Qed.

Lemma GetQueue_queue r q : keepsDB (fun db => dQueue db = q) (GetQueue r).
Proof.
  unfold GetQueue. keeps_queue. unfold QueueRepo_List. apply establishes_mapErr, establishes_stmt.
  by intros db a0 db0 Hq [= _ <-].
Qed.

Lemma media_exec_refines o s Q : repr (dQueue (sdb s)) Q -> refines o Q (media_exec o s).
Proof.
  intros HQ. destruct o as [id|h req|page search|h r m|r|h r p]; simpl.
  - apply refines_quiet; [apply GetMedia_queue|done..].
  - apply refines_quiet; [apply CreateMedia_queue|done..].
  - apply refines_quiet; [apply ListMedia_queue|done..].
  - destruct (AddToQueue_cases h r m s) as [Hr|[_ Ht]]; [by apply refines_refused|].
    eapply refines_tx; [exact Ht|exact HQ|]. intros s0 item s1 Htx HQ0.
    destruct (addTx_spec _ _ _ _ _ _ Htx HQ0) as (t & -> & HQ').
    eexists. split; [exact HQ'|]. split; [by eexists|]. simpl. split; [done|].
    unfold uint32, uwrap. rewrite Z.mod_small; [done|]. destruct HQ as [_ Hb]. specialize (Hb r). lia.
  - destruct (GetQueue_cases r s) as [Hr|Ht]; [by apply refines_refused|].
    eapply refines_tx; [exact Ht|exact HQ|]. intros s0 items s1 Htx HQ0.
    apply smapErr_Ok, stmt_Ok in Htx as [[= <- <-] _]. exists Q. split; [done|]. split; [done|]. simpl.
    rewrite (queueRows_repr _ Q) by done. rewrite fmap_imap. apply imap_ext. intros i e Hi.
    unfold queueItemToProto, compose. simpl. apply lookup_lt_Some in Hi. f_equal.
    unfold uint32, uwrap. rewrite Z.mod_small; [done|]. destruct HQ as [_ Hb]. specialize (Hb r). lia.
  - destruct (RemoveFromQueue_cases h r p s) as [Hr|[_ Ht]]; [by apply refines_refused|].
    eapply refines_tx; [exact Ht|exact HQ|]. intros s0 [] s1 Htx HQ0.
    destruct (removeTx_spec _ _ _ _ _ Htx HQ0) as (Hp & HQ').
    eexists. split; [exact HQ'|]. split; [by split|done].
Qed.

Lemma media_run_repr ops s Q :
  repr (dQueue (sdb s)) Q -> exists Q', repr (dQueue (sdb (media_run ops s))) Q'.
Proof.
  revert s Q. induction ops as [|o ops IH]; intros s Q HQ; simpl; [by exists Q|].
  destruct (media_exec_refines o s Q HQ) as (Q' & HQ' & _). by eapply IH.
Qed.
End handlers.

Definition mediaStart : st MediaDB := mkSt emptyMediaDB 0 false.

Lemma repr_start : repr (dQueue (sdb mediaStart)) ∅.
Proof.
  split; [|intros r; by rewrite lookup_total_empty]. intros r p. rewrite lookup_total_empty.
  simpl. by destruct (0 <=? p).
Qed.

(** ** Theorems *)

(** C10. The queue table implements one list per room.  In every reachable state
    there are lists [Q] whose entries are the rows, numbered from 0 without a
    gap; whatever a request does and whatever fails while it runs, the table
    afterwards stands for the same lists or for the lists changed as the
    request says: an entry appended at the end, or the entry at the given index
    removed and the later ones moved up.  A successful reply means the change
    has been made and is truthful: the position of an added entry, the entries
    of a listed queue in order.  The order in which the database visits the
    rows it renumbers does not matter. *)
Theorem queue_refines `{Env} `{RoomPermissions} `{PgScan} `{PgSearch} ops o :
  let s := media_run ops mediaStart in
  exists Q, repr (dQueue (sdb s)) Q /\
    let out := media_exec o s in
    exists Q', repr (dQueue (sdb out.2)) Q' /\ (Q' = Q \/ queue_step o Q Q') /\
      forall rep, out.1 = Ok rep -> queue_step o Q Q' /\ queue_reply o Q rep.
Proof.
  intros s. destruct (media_run_repr ops mediaStart ∅ repr_start) as [Q HQ].
  exists Q. split; [exact HQ|]. by apply media_exec_refines.
Qed.

(** The queue a request is for, and the permission it needs. *)
Definition queue_target (o : media_op) : option (Header * string * RoomPermission) :=
  match o with
  | MAdd h r _ => Some (h, r, PERM_ADD_QUEUE)
  | MRemove h r _ => Some (h, r, PERM_REMOVE_QUEUE)
  | _ => None
  end.

Lemma media_exec_permitted `{Env} `{RoomPermissions} `{PgScan} `{PgSearch} o s :
  dQueue (sdb (media_exec o s).2) = dQueue (sdb s) \/
  exists h r perm, queue_target o = Some (h, r, perm) /\ permitted h r perm.
Proof.
  destruct o as [id|h req|page search|h r m|r|h r p].
  - left. by apply (keepsDB_bind _ _ _ (GetMedia_queue id _) (fun a => keepsDB_ret _ _)).
  - left. by apply (keepsDB_bind _ _ _ (CreateMedia_queue h req _) (fun a => keepsDB_ret _ _)).
  - left. by apply (keepsDB_bind _ _ _ (ListMedia_queue page search _) (fun a => keepsDB_ret _ _)).
  - destruct (AddToQueue_cases h r m s) as [[Hs [e He]]|[Hp _]]; [left|by right; eexists _, _, _].
    simpl. unfold reply, sbind. destruct (AddToQueue h r m s) as [x s']. simpl in *. subst x. by rewrite <- Hs.
  - left. by apply (keepsDB_bind _ _ _ (GetQueue_queue r _) (fun a => keepsDB_ret _ _)).
  - destruct (RemoveFromQueue_cases h r p s) as [[Hs [e He]]|[Hp _]]; [left|by right; eexists _, _, _].
    simpl. unfold reply, sbind. destruct (RemoveFromQueue h r p s) as [x s']. simpl in *. subst x.
    by rewrite <- Hs.
Qed.

(** Only those who may change a queue: with the room service answering the
    permission check from its database, a request changes the queue table only
    if it adds to or removes from a room's queue for a caller with an account
    who owns that room or was granted the matching permission there; no other
    room's queue changes. *)
Theorem queue_authorized `{E : Env} `{Er : Env} `{!Calm Er} `{PgScan} `{PgSearch} (rooms : RoomDB) ops o :
  let _ : RoomPermissions := @roomServicePermissions Er rooms in
  let s := @media_run E _ _ _ ops mediaStart in
  let s' := (@media_exec E _ _ _ o s).2 in
  dQueue (sdb s') = dQueue (sdb s) \/
  exists h r perm, queue_target o = Some (h, r, perm) /\
    SYSTEM_USER <= sbSystemRole (subjectFromHeader h) /\
    holds rooms r (sbUserID (subjectFromHeader h)) perm /\
    forall r' p, r' <> r -> dQueue (sdb s') !! (r', p) = dQueue (sdb s) !! (r', p).
Proof.
  intros Hperm s s'. destruct (@media_exec_permitted E Hperm _ _ o s) as [?|(h & r & perm & Ho & Hr & Hu & n & Hp)];
    [by left|right]. apply roomServicePermissions_spec in Hp as (_ & _ & Hp).
  exists h, r, perm. split; [done|]. split; [done|]. split; [done|]. intros r' p Hne.
  destruct (@media_run_repr E Hperm _ _ ops mediaStart ∅ repr_start) as [Q HQ].
  destruct (@media_exec_refines E Hperm _ _ o s Q HQ) as (Q' & [HQ' _] & Hst & _).
  unfold s'. rewrite HQ'. destruct HQ as [HQ _]. fold s in HQ. rewrite HQ.
  assert (Q' !!! r' = Q !!! r') as ->; [|done].
  destruct Hst as [->|Hst]; [done|]. destruct o; simpl in Ho, Hst; try done; injection Ho as <- <- <-.
  - destruct Hst as [t ->]. by rewrite lookup_total_insert_ne.
  - destruct Hst as [_ ->]. by rewrite lookup_total_insert_ne.
Qed.

(** *** When nothing fails *)

Section calm.
Context `{E : Env} `{!Calm E} `{RoomPermissions} `{PgScan} `{PgSearch}.

Lemma calm_getMedia id db n :
  MediaRepo_GetByID id (mkSt db n false) =
  match dItems db !! id with
  | Some m => (Ok (scanMedia m), mkSt db (S n) false)
  | None => (Err (ENotFound "media" id), mkSt db (S n) false)
  end.
Proof. unfold MediaRepo_GetByID, smapErr. rewrite calm_queryRow. by destruct (dItems db !! id). Qed.

Lemma calm_addTx r m db n Q :
  repr (dQueue db) Q -> length (Q !!! r) < 2 ^ 31 ->
  match dItems db !! m with
  | Some _ => exists item s', addTx r m (mkSt db n false) = (Ok item, s') /\ saborted s' = false
  | None => exists s', addTx r m (mkSt db n false) = (Err (ENotFound "media" m), s')
  end.
Proof.
  intros HQ Hlen. destruct (dItems db !! m) as [md|] eqn:Em; unfold addTx, sbind at 1;
    rewrite calm_getMedia, Em; [|by eexists]. unfold QueueRepo_Add, sbind, snow, step_n, smapErr.
  simpl. rewrite calm_stmt, (nextPosition_repr _ _ r HQ), (repr_lookup _ _ _ _ HQ).
  rewrite (lookup_ge_None_2 (Q !!! r)) by lia.
  rewrite bool_decide_true by (unfold in_s; lia). rewrite Em. simpl.
  by eexists _, _.
Qed.

Lemma calm_removeTx r p db n Q :
  (forall k l, StronglySorted Z.le (scanOrder k l)) ->
  repr (dQueue db) Q -> in_s 32 p ->
  if decide (0 <= p < length (Q !!! r))
  then exists s', QueueRepo_Remove r p (mkSt db n false) = (Ok tt, s') /\ saborted s' = false
  else exists id s', QueueRepo_Remove r p (mkSt db n false) = (Err (ENotFound "queue" id), s').
Proof.
  intros Hsort HQ Hp. case_decide as Hd; unfold QueueRepo_Remove, sbind, deleteAt, smapErr at 1;
    rewrite calm_stmt, bool_decide_true by done; simpl.
  - destruct (dQueue db !! (r, p)) as [e|] eqn:Ep.
    2:{ destruct HQ as [Hq _]. rewrite Hq in Ep. destruct (Z.leb_spec 0 p); [|lia].
        apply lookup_ge_None in Ep. lia. }
    change (1 =? 0) with false. cbn beta iota. unfold shiftDown, smapErr. rewrite calm_stmt. simpl.
    destruct (renumber_ascending r (delete (r, p) (dQueue db))
      (scanOrder (S n) (filter (fun x => p < x) (positions r (delete (r, p) (dQueue db)))))
      (delete (r, p) (dQueue db)) ∅ (pending_scan _ _ _ _) (moving_start _ _) (Hsort _ _)) as [q' Hq'].
    + intros x. rewrite !scanOrder_perm, !list_elem_of_filter, !elem_of_positions. intros [Hlt _].
      destruct (decide (x - 1 = p)) as [Hx|Hx]; [right; right; rewrite Hx; apply lookup_delete_eq|].
      destruct (delete (r, p) (dQueue db) !! (r, x - 1)) eqn:Ex; [|by right; right].
      right; left. split; [lia|done].
    + rewrite Hq'. by eexists.
  - destruct (dQueue db !! (r, p)) as [e|] eqn:Ep.
    { apply (repr_pos _ _ _ _ _ HQ) in Ep. lia. }
    simpl. by eexists _, _.
Qed.

(** A permitted request reaches its transaction. *)
Lemma calm_permission {B} h r perm act (k : SM MediaDB B) s :
  sbUserID (subjectFromHeader h) <> "" ->
  (forall n, hasPermission n r (sbUserID (subjectFromHeader h)) perm = Ok true) ->
  sbind (requireQueuePermission (sbUserID (subjectFromHeader h)) r perm act) (fun _ => k) s = k (step_n s).
Proof.
  intros Hu Hp. unfold requireQueuePermission. rewrite bool_decide_false by done.
  unfold sbind, smapErr, askPermission. by rewrite Hp.
Qed.

Lemma calm_AddToQueue h r m s Q :
  SYSTEM_USER <= sbSystemRole (subjectFromHeader h) -> sbUserID (subjectFromHeader h) <> "" ->
  (forall n, hasPermission n r (sbUserID (subjectFromHeader h)) PERM_ADD_QUEUE = Ok true) ->
  r <> "" -> m <> "" -> repr (dQueue (sdb s)) Q -> length (Q !!! r) < 2 ^ 31 ->
  match dItems (sdb s) !! m with
  | Some _ => exists item s', AddToQueue h r m s = (Ok item, s')
  | None => (AddToQueue h r m s).1 = Err (EVb (NotFound "media" m))
  end.
Proof.
  intros Hr Hu Hp Hr0 Hm0 HQ Hlen. pose proof (calm_addTx r m (sdb s) (S (S (S (sn s)))) Q HQ Hlen) as Htx.
  apply Z.ltb_ge in Hr. destruct (dItems (sdb s) !! m);
    unfold AddToQueue, sbind at 1; rewrite calm_ctxDone, Hr, !bool_decide_false by done; cbn [orb];
    rewrite calm_permission by done; unfold sbind, smapErr, step_n; simpl; rewrite calm_withTx.
  - destruct Htx as (item & s' & -> & ->). by eexists _, _.
  - by destruct Htx as (s' & ->).
Qed.

Lemma calm_RemoveFromQueue h r p s Q :
  SYSTEM_USER <= sbSystemRole (subjectFromHeader h) -> sbUserID (subjectFromHeader h) <> "" ->
  (forall n, hasPermission n r (sbUserID (subjectFromHeader h)) PERM_REMOVE_QUEUE = Ok true) ->
  (forall k l, StronglySorted Z.le (scanOrder k l)) ->
  repr (dQueue (sdb s)) Q -> in_s 32 p ->
  if decide (0 <= p < length (Q !!! r))
  then exists s', RemoveFromQueue h r p s = (Ok true, s')
  else exists id, (RemoveFromQueue h r p s).1 = Err (EVb (NotFound "queue" id)).
Proof.
  intros Hr Hu Hp Hsort HQ Hi. pose proof (calm_removeTx r p (sdb s) (S (S (S (sn s)))) Q Hsort HQ Hi) as Htx.
  apply Z.ltb_ge in Hr. destruct (decide _);
    unfold RemoveFromQueue, sbind at 1; rewrite calm_ctxDone, Hr;
    rewrite calm_permission by done; unfold sbind, smapErr, step_n; simpl; rewrite calm_withTx.
  - destruct Htx as (s' & -> & ->). by eexists.
  - destruct Htx as (id & s' & ->). by eexists.
Qed.
End calm.

(** Requests a caller is entitled to succeed: when nothing fails and rows are
    visited by ascending position, adding an existing item to a queue that is
    not full succeeds and adding an unknown item is a not-found; removing an
    entry that exists succeeds and removing one that does not is a
    not-found.  ([queue_refines] says what a success has done.) *)
Theorem queue_available `{E : Env} `{!Calm E} `{RoomPermissions} `{PgScan} `{PgSearch} h r m p s Q :
  let u := sbUserID (subjectFromHeader h) in
  SYSTEM_USER <= sbSystemRole (subjectFromHeader h) -> u <> "" -> r <> "" -> m <> "" -> in_s 32 p ->
  (forall n perm, hasPermission n r u perm = Ok true) ->
  (forall k l, StronglySorted Z.le (scanOrder k l)) ->
  repr (dQueue (sdb s)) Q -> length (Q !!! r) < 2 ^ 31 ->
  (match dItems (sdb s) !! m with
   | Some _ => exists item s', AddToQueue h r m s = (Ok item, s')
   | None => (AddToQueue h r m s).1 = Err (EVb (NotFound "media" m))
   end) /\
  (if decide (0 <= p < length (Q !!! r))
   then exists s', RemoveFromQueue h r p s = (Ok true, s')
   else exists id, (RemoveFromQueue h r p s).1 = Err (EVb (NotFound "queue" id))).
Proof.
  intros u Hr Hu Hr0 Hm0 Hp Hperm Hsort HQ Hlen. split.
  - by eapply calm_AddToQueue.
  - by eapply calm_RemoveFromQueue.
Qed.

(** ** A small queue *)

#[local] Instance mediaEnv : Env := calmEnv (fun n => Z.of_nat n * 1000) (fun n => pretty n).
#[local] Instance everyone : RoomPermissions := fun _ _ _ _ => Ok true.
#[local] Instance anySearch : PgSearch := fun _ _ => true.
#[local] Instance Zle_total : Total Z.le.
Proof. intros x y. lia. Qed.
#[local] Instance ascending : PgScan :=
  {| scanOrder _ l := merge_sort Z.le l; scanOrder_perm _ l := merge_sort_Permutation Z.le l |}.

Lemma rev_merge_sort l : rev (merge_sort Z.le l) ≡ₚ l.
Proof. by rewrite <- Permutation_rev, merge_sort_Permutation. Qed.
Definition descending : PgScan :=
  {| scanOrder _ l := rev (merge_sort Z.le l); scanOrder_perm _ := rev_merge_sort |}.

Definition demoHeader : Header :=
  {["X-Vibesync-User-Id" := "alice"; "X-Vibesync-System-Role" := "USER"]}.
Definition song (title : string) : media_op :=
  MCreate demoHeader (mkCreateMedia 0 0 "" title "" 1000 "").

(** Three songs (with ids "2", "8", "14") and a queue of them. *)
Definition demoQueueOps : list media_op :=
  [song "a"; song "b"; song "c"; MAdd demoHeader "r" "2"; MAdd demoHeader "r" "8"; MAdd demoHeader "r" "14"].

Definition queueOf (s : st MediaDB) : list (Z * string) :=
  map (fun i => (qiPosition i, qiMediaID i)) (queueRows "r" (dQueue (sdb s))).

Example demo_queue :
  queueOf (media_run demoQueueOps mediaStart) = [(0, "2"); (1, "8"); (2, "14")] /\
  queueOf (media_run (demoQueueOps ++ [MRemove demoHeader "r" 0]) mediaStart) = [(0, "8"); (1, "14")].
Proof. by vm_compute. Qed.

Lemma queue_available_witness :
  exists item s', AddToQueue demoHeader "r" "8" (media_run demoQueueOps mediaStart) = (Ok item, s').
Proof.
  destruct (media_run_repr demoQueueOps mediaStart ∅ repr_start) as (Q & HQ).
  assert (length (Q !!! "r") = 3%nat) as Hlen.
  { rewrite <- (length_imap (fun i e => mkQueueItem "r" (Z.of_nat i) e.1 e.2)), <- (queueRows_repr _ _ _ HQ).
    by vm_compute. }
  destruct (queue_available demoHeader "r" "8" 0 (media_run demoQueueOps mediaStart) Q) as [Ha _]; try done.
  - intros k l. simpl. apply Sorted_StronglySorted; [intros ???; lia|]. apply Sorted_merge_sort, _.
  - rewrite Hlen. lia.
Defined.

Definition demoRooms : RoomDB :=
  mkRoomDB {["r" := mkRoom "r" "r-abc" "R" "" VisibilityPublic "alice" 10 1 0 0]} ∅ ∅ ∅ [].

Lemma queue_authorized_witness :
  let _ : RoomPermissions := @roomServicePermissions mediaEnv demoRooms in
  queueOf (media_run [song "a"; MAdd demoHeader "r" "2"] mediaStart) = [(0, "2")] /\
  holds demoRooms "r" "alice" PERM_ADD_QUEUE.
Proof.
  split; [by vm_compute|].
  destruct (queue_authorized demoRooms [song "a"] (MAdd demoHeader "r" "2")) as [Heq|(h & r & perm & Ho & _ & Hh & _)].
  - exfalso. apply (f_equal size) in Heq. by vm_compute in Heq.
  - injection Ho as <- <- <-. exact Hh.
Defined.

(** ** Where the code differs from its comments *)

(** [Remove] promises to renumber the remaining entries, but the renumbering
    depends on the order in which Postgres visits them: visited from the end,
    the first move collides with the entry before it and the request fails. *)
Example remove_depends_on_scan :
  let s := media_run demoQueueOps mediaStart in
  (exists s', RemoveFromQueue demoHeader "r" 0 s = (Ok true, s')) /\
  exists e, (RemoveFromQueue (H1 := descending) demoHeader "r" 0 s).1 = Err e /\ wireCode e = CodeInternal.
Proof. split; [eexists; by vm_compute|eexists; by vm_compute]. Qed.

(** A duration of 2^63 ms or more becomes negative. *)
Example duration_wraps :
  exists m s', CreateMedia demoHeader (mkCreateMedia 0 0 "" "a" "" (2 ^ 64 - 5) "") mediaStart = (Ok m, s') /\
    pdDuration m < 0.
Proof. eexists _, _. split; [by vm_compute|by vm_compute]. Qed.
