(* ===== verification/MediaIsolation.v ===== *)
(** * Concurrent changes of a queue

    The transactions of the media service that change its database, as trees of
    statements ([Isolation]).  The position of an appended entry is computed
    from what the [INSERT] sees when it starts, before it waits for the primary
    key: appends that overlap do collide, and the one that comes second fails;
    but whatever the interleaving, a queue that only grows has no gaps.  A
    removal that overlaps with an append leaves one. *)

From S2P Require Import Prelude GoNum Errors GoString Store Isolation.
From S2P Require Import RoomDomain Web RoomRepo RoomClient Media MediaTheorems.
From stdpp Require Import pretty.

Open Scope Z_scope.
Open Scope tx_scope.

(** ** Rows *)

Inductive mediaKey : Type :=
| MKItem (id : string)
| MKQueue (k : string * Z).

#[global] Instance mediaKey_eq : EqDecision mediaKey.
Proof. solve_decision. Defined.

Inductive mediaWrite : Type :=
| MWItem (m : Media)
| MWQueue (k : string * Z) (e : option entry).

Definition updQueue (k : string * Z) (e : option entry) (q : gmap (string * Z) entry) : gmap (string * Z) entry :=
  match e with Some x => <[k := x]> q | None => delete k q end.

Definition applyMediaWrite (w : mediaWrite) (db : MediaDB) : MediaDB :=
  match w with
  | MWItem m => mkMediaDB (<[mdID m := m]> (dItems db)) (dQueue db)
  | MWQueue k e => set_dQueue (updQueue k e (dQueue db)) db
  end.

#[global] Instance mediaRows : Rows MediaDB mediaKey mediaWrite := {| applyWrite := applyMediaWrite |}.

Notation mprog := (prog MediaDB mediaKey mediaWrite).

(** ** Statements *)

Definition tCreateMedia (m : Media) : mprog unit :=
  tmapErr (EWrap "media_repo: create") (tstmt (fun db =>
    ([(MKItem (mdID m), ForUpdate)],
     match media_columnsOk m with
     | Some e => Err e
     | None =>
         if bool_decide (is_Some (dItems db !! mdID m)) then Err (EUniqueViolation "media_items_pkey")
         else Ok (tt, [MWItem (mkMedia (mdID m) (mdKind m) (mdSource m) (mdExternalRef m)
                                 (mdTitle m) (mdArtist m) (mdDurationMs m) (mdCoverURL m)
                                 (pgTime (mdCreatedAt m)))])
     end))).

Definition tGetMedia (id : string) : mprog Media :=
  tmapErr (mapErr "media" id) (tqueryRow (fun db => scanMedia <$> dItems db !! id)).

(** The row an append inserts, once its position [p] is computed. *)
Definition insertAt (roomID mediaID : string) (now : time) (p : Z) (db : MediaDB) : Isolation.outcome QueueItem :=
  ((MKQueue (roomID, p), ForUpdate) ::
     (if bool_decide (is_Some (dItems db !! mediaID)) then [(MKItem mediaID, KeyShare)] else []),
   if negb (bool_decide (in_s 32 p)) then Err (EMsg "integer out of range")
   else if bool_decide (is_Some (dQueue db !! (roomID, p))) then Err (EUniqueViolation "media_queue_pkey")
   else if negb (bool_decide (is_Some (dItems db !! mediaID)))
   then Err (EMsg "violates foreign key constraint")
   else Ok (mkQueueItem roomID p mediaID (pgTime now), [MWQueue (roomID, p) (Some (mediaID, pgTime now))])).

Definition tDeleteAt (roomID : string) (position : Z) : mprog Z :=
  tmapErr (EWrap "queue_repo: delete") (tstmt (fun db =>
    match dQueue db !! (roomID, position) with
    | Some _ =>
        ([(MKQueue (roomID, position), ForUpdate)],
         if negb (bool_decide (in_s 32 position)) then Err (EMsg "cannot encode int into int4")
         else Ok (1, [MWQueue (roomID, position) None]))
    | None =>
        ([], if negb (bool_decide (in_s 32 position)) then Err (EMsg "cannot encode int into int4") else Ok (0, []))
    end)).

(** The rows the renumbering touches and what it makes of them. *)
Definition touched (ps : list Z) : list Z := ps ++ map Z.pred ps.

Definition shiftRows (roomID : string) (ps : list Z) (db : MediaDB) : Isolation.outcome unit :=
  (map (fun p => (MKQueue (roomID, p), ForUpdate)) (touched ps),
   match renumber roomID ps (dQueue db) with
   | Ok q => Ok (tt, map (fun p => MWQueue (roomID, p) (q !! (roomID, p))) (touched ps))
   | Err e => Err e
   end).

Section bodies.
Context `{Env} `{PgScan}.

Definition tAdd (roomID mediaID : string) : mprog QueueItem :=
  now <~ tnow ;;
  tsnap (fun _ db => nextPosition roomID (dQueue db)) (fun p =>
    tmapErr (EWrap "queue_repo: add") (tstmt (insertAt roomID mediaID now p))).

(** The rows to renumber are those of the moment the [UPDATE] starts.  (A row
    that another removal moved in between is not followed to its new position;
    removals of one queue do not overlap in what is proved below.) *)
Definition tShiftDown (roomID : string) (position : Z) : mprog unit :=
  tsnap (fun n db => scanOrder n (filter (fun p => position < p) (positions roomID (dQueue db)))) (fun ps =>
    tmapErr (EWrap "queue_repo: renumber") (tstmt (shiftRows roomID ps))).

Definition tRemove (roomID : string) (position : Z) : mprog unit :=
  n <~ tDeleteAt roomID position ;;
  if n =? 0 then PFail (ENotFound "queue" (roomID +:+ "/" +:+ pretty position)%string)
  else tShiftDown roomID position.

Definition addBody (roomID mediaID : string) : mprog QueueItem :=
  tGetMedia mediaID ;;~ tAdd roomID mediaID.

(** ** Each tree is the transaction of the service *)

Lemma tCreateMedia_agrees m : agree (serial (tCreateMedia m)) (MediaRepo_Create m).
Proof. apply stmt_tree. same_rows. Qed.
Lemma tDeleteAt_agrees r p : agree (serial (tDeleteAt r p)) (deleteAt r p).
Proof. apply stmt_tree. same_rows. Qed.

Lemma tAdd_agrees r m : agree (serial (tAdd r m)) (QueueRepo_Add r m).
Proof.
  unfold tAdd, QueueRepo_Add. eapply agree_trans; [apply serial_bind|apply agree_bind; [apply serial_now|]].
  intros now. apply (snap_tree _ _ (insertAt r m now) (fun _ db =>
    let p := nextPosition r (dQueue db) in
    if negb (bool_decide (in_s 32 p)) then Err (EMsg "integer out of range")
    else if bool_decide (is_Some (dQueue db !! (r, p))) then Err (EUniqueViolation "media_queue_pkey")
    else if negb (bool_decide (is_Some (dItems db !! m)))
    then Err (EMsg "violates foreign key constraint")
    else Ok (mkQueueItem r p m (pgTime now), set_dQueue (<[(r, p) := (m, pgTime now)]> (dQueue db)) db))).
  intros _ db. unfold stmtOf, insertAt. cbv zeta. cbn [fst snd].
  repeat (case_bool_decide; cbn [negb]; try done).
Qed.

(** The renumbering changes nothing else. *)
Lemma renumber_elsewhere r ps q q' k :
  renumber r ps q = Ok q' -> (k.1 <> r \/ k.2 ∉ touched ps) -> q' !! k = q !! k.
Proof.
  revert q. induction ps as [|p ps IH]; intros q; simpl; [by intros [= <-]|].
  intros E Hk. assert (k.1 <> r \/ k.2 ∉ touched ps) as Hk'.
  { destruct Hk as [?|Hk]; [by left|right]. unfold touched in *. set_solver. }
  destruct (q !! (r, p)) as [row|] eqn:Ep; [|by apply IH].
  destruct (q !! (r, p - 1)) eqn:Ep1; [done|].
  rewrite (IH _ E Hk'). destruct k as [kr kp]. simpl in *.
  rewrite lookup_insert_ne, lookup_delete_ne; [done|..]; intros [= <- <-];
    (destruct Hk as [Hk|Hk]; [done|]); apply Hk; unfold touched.
  - set_solver.
  - apply elem_of_app. right. simpl. left.
Qed.

(** Writing the touched rows one after the other. *)
Lemma lookup_applyQueue (r : string) (q : gmap (string * Z) entry) (l : list Z) db k :
  dQueue (applyAll (map (fun p => MWQueue (r, p) (q !! (r, p))) l) db) !! k =
  if decide (k.1 = r /\ k.2 ∈ l) then q !! k else dQueue db !! k.
Proof.
  revert db. induction l as [|p l IH]; intros db; cbn [map].
  - rewrite decide_False; [done|]. by intros [_ ?%elem_of_nil].
  - unfold applyAll in *. cbn [foldl]. rewrite IH. destruct k as [kr kp]. simpl in *.
    destruct (decide (kr = r /\ kp ∈ l)) as [[-> Hin]|Hn].
    + rewrite decide_True; [done|]. split; [done|by right].
    + destruct (decide (kr = r /\ kp = p)) as [[-> ->]|Hne].
      * rewrite decide_True by (split; [done|by left]).
        destruct (q !! (r, p)); simpl; by rewrite ?lookup_insert_eq, ?lookup_delete_eq.
      * rewrite decide_False by (intros [-> [->|?]%elem_of_cons]; tauto).
        destruct (q !! (r, p)); simpl; [rewrite lookup_insert_ne|rewrite lookup_delete_ne];
          try done; intros [= -> ->]; tauto.
Qed.

Lemma applyQueue_items (r : string) (q : gmap (string * Z) entry) (l : list Z) db :
  dItems (applyAll (map (fun p => MWQueue (r, p) (q !! (r, p))) l) db) = dItems db.
Proof. revert db. induction l as [|p l IH]; intros db; [done|]. unfold applyAll in *. simpl. by rewrite IH. Qed.

Lemma tShiftDown_agrees r p : agree (serial (tShiftDown r p)) (shiftDown r p).
Proof.
  apply (snap_tree _ _ (shiftRows r) (fun n db =>
    match renumber r (scanOrder n (filter (fun x => p < x) (positions r (dQueue db)))) (dQueue db) with
    | Ok q => Ok (tt, set_dQueue q db)
    | Err e => Err e
    end)).
  intros n db. unfold stmtOf, shiftRows. cbn [fst snd]. set (ps := scanOrder _ _).
  destruct (renumber r ps (dQueue db)) as [q|e] eqn:E; [|done]. do 2 f_equal.
  destruct (applyAll _ db) as [items q'] eqn:Ea.
  assert (items = dItems db) as -> by (by rewrite <- (applyQueue_items r q (touched ps) db), Ea).
  unfold set_dQueue. f_equal. change q' with (dQueue (mkMediaDB (dItems db) q')). 
  apply map_eq. intros k. pose proof (lookup_applyQueue r q (touched ps) db k) as Hl. rewrite Ea in Hl. rewrite Hl.
  case_decide as Hk; [done|]. symmetry. apply (renumber_elsewhere r ps _ _ k E).
  destruct (decide (k.1 = r)); [right|by left]. tauto.
Qed.

Lemma tRemove_agrees r p : agree (serial (tRemove r p)) (QueueRepo_Remove r p).
Proof.
  pose proof tDeleteAt_agrees. pose proof tShiftDown_agrees. unfold tRemove, QueueRepo_Remove. agree_tac.
Qed.
Lemma addBody_agrees r m : agree (serial (addBody r m)) (addTx r m).
Proof.
  pose proof tAdd_agrees. unfold addBody, addTx, tGetMedia, MediaRepo_GetByID. agree_tac.
Qed.
End bodies.

(** ** Requests *)

Inductive media_tx : Type :=
| TxNewMedia (m : Media)
| TxAdd (roomID mediaID : string)
| TxRemove (roomID : string) (position : Z).

Inductive media_answer : Type :=
| MADone
| MAItem (i : QueueItem).

Definition media_body `{Env} `{PgScan} (op : media_tx) : mprog media_answer :=
  match op with
  | TxNewMedia m => tCreateMedia m ;;~ PRet MADone
  | TxAdd r m => i <~ addBody r m ;; PRet (MAItem i)
  | TxRemove r p => tRemove r p ;;~ PRet MADone
  end.

(** A removal overlaps with no other change of its queue; appends overlap with
    one another. *)
Definition media_compat (a b : media_tx) : bool :=
  match a, b with
  | TxRemove r _, TxRemove r' _ | TxRemove r _, TxAdd r' _ | TxAdd r _, TxRemove r' _ => negb (bool_decide (r = r'))
  | _, _ => true
  end.

Lemma media_compat_sym a b : media_compat a b = media_compat b a.
Proof. destruct a, b; simpl; try done; f_equal; by apply bool_decide_ext; split. Qed.

(** The queues have no gaps. *)
Definition dense (db : MediaDB) : Prop := exists Q, repr (dQueue db) Q.

Record queue_rely (op : media_tx) (L : list (mediaKey * lockMode)) (db db' : MediaDB) : Prop := {
  qr_grow : forall r m p e, op = TxAdd r m -> dQueue db !! (r, p) = Some e -> dQueue db' !! (r, p) = Some e;
  qr_row : forall k, (MKQueue k, ForUpdate) ∈ L -> dQueue db' !! k = dQueue db !! k;
  qr_whole : forall r n p, op = TxRemove r n -> dQueue db' !! (r, p) = dQueue db !! (r, p);
}.

Lemma queue_rely_refl op L db : queue_rely op L db db.
Proof. by split. Qed.
Lemma queue_rely_trans op L a b c : queue_rely op L a b -> queue_rely op L b c -> queue_rely op L a c.
Proof.
  intros H1 H2. split.
  - intros r m p e Hop He. eapply (qr_grow _ _ _ _ H2); [done|]. by eapply (qr_grow _ _ _ _ H1).
  - intros k Hk. rewrite (qr_row _ _ _ _ H2 k Hk). by apply (qr_row _ _ _ _ H1).
  - intros r n p Hop. rewrite (qr_whole _ _ _ _ H2 r n p Hop). by apply (qr_whole _ _ _ _ H1 r n p).
Qed.

(** A request that writes nothing, an item, or a new entry, does not disturb the
    others; nor does a removal those it may overlap with. *)
Lemma add_rely op op' r m p e L L' db :
  op = TxAdd r m -> media_compat op op' = true -> (MKQueue (r, p), ForUpdate) ∈ L -> clash L L' = false ->
  dQueue db !! (r, p) = None -> queue_rely op' L' db (applyMediaWrite (MWQueue (r, p) (Some e)) db).
Proof.
  intros -> Hop HL Hcl Hn. rewrite clash_false in Hcl. split; simpl.
  - intros r' m' p' e' _ He. rewrite lookup_insert_ne; [done|]. intros [= <- <-]. congruence.
  - intros k Hk. rewrite lookup_insert_ne; [done|]. intros <-. by specialize (Hcl _ _ _ HL Hk).
  - intros r' n p' ->. simpl in Hop. go_bool. rewrite lookup_insert_ne; [done|]. congruence.
Qed.

(** The end of the queue: the next position and everything before it. *)
Lemma dense_next r q Q :
  repr q Q -> 0 <= nextPosition r q /\ forall p, 0 <= p < nextPosition r q -> is_Some (q !! (r, p)).
Proof.
  intros Hr. rewrite (nextPosition_repr _ _ r Hr). split; [lia|]. intros p Hp.
  destruct Hr as [Hq _]. rewrite Hq. destruct (Z.leb_spec 0 p); [|lia]. apply lookup_lt_is_Some. lia.
Qed.

(** A free position all of whose predecessors are taken is the next one. *)
Lemma free_is_next r q Q p :
  repr q Q -> 0 <= p -> (forall x, 0 <= x < p -> is_Some (q !! (r, x))) -> q !! (r, p) = None ->
  p = Z.of_nat (length (Q !!! r)).
Proof.
  intros Hr Hp Hbelow Hn. destruct Hr as [Hq _]. rewrite Hq in Hn. destruct (Z.leb_spec 0 p); [|lia].
  apply lookup_ge_None in Hn. destruct (decide (p = Z.of_nat (length (Q !!! r)))) as [|Hne]; [done|].
  destruct (Hbelow (Z.of_nat (length (Q !!! r)))) as [e He]; [lia|]. rewrite Hq in He.
  destruct (Z.leb_spec 0 (Z.of_nat (length (Q !!! r)))); [|lia]. apply lookup_lt_Some in He. lia.
Qed.

Section requests.
Context `{Env} `{PgScan}.
Notation ok := (keepsOk dense media_compat queue_rely).

Lemma newMedia_ok m db : dense db -> ok (TxNewMedia m) (media_body (TxNewMedia m)) [] [] db.
Proof.
  intros Hi db1 Hi1 Hr1. cbn [applyAll foldl]. destruct (media_columnsOk m); [done|].
  case_bool_decide; [done|]. simpl. intros db2 Hi2 Hr2. split; [exact Hi2|]. intros op' L' _ _. by split.
Qed.

Lemma add_ok r m db : dense db -> ok (TxAdd r m) (media_body (TxAdd r m)) [] [] db.
Proof.
  intros Hi. set (op := TxAdd r m). unfold media_body, op at 2, addBody, tGetMedia.
  intros db1 Hi1 Hr1. simpl. destruct (scanMedia <$> dItems db1 !! m); [|done]. simpl.
  intros n n' db2 [Q2 Hi2] Hr2. cbn [applyAll foldl]. destruct (dense_next r _ _ Hi2) as [Hp0 Hbelow].
  set (p := nextPosition r (dQueue db2)) in *. clearbody p. simpl.
  intros db3 Hi3 Hr3. case_bool_decide as Hin; [|done]. simpl.
  case_bool_decide as Hfree; [done|]. apply eq_None_not_Some in Hfree.
  case_bool_decide as Hitem; [|done]. simpl. intros db4 [Q4 Hi4] Hr4.
  assert (dQueue db4 !! (r, p) = None) as Hfree4 by (rewrite (qr_row _ _ _ _ Hr4); [done|left]).
  split.
  - exists (<[r := Q4 !!! r ++ [(m, pgTime (env_now n))]]> Q4).
    assert (p = Z.of_nat (length (Q4 !!! r))) as Hp.
    { eapply free_is_next; [done..| |done]. intros x Hx. destruct (Hbelow x Hx) as [e He]. exists e.
      eapply (qr_grow _ _ _ _ Hr4), (qr_grow _ _ _ _ Hr3); done. }
    cbn. rewrite Hp. apply repr_add; [done|]. unfold in_s in Hin. lia.
  - intros op' L' Hop Hcl. apply (add_rely op op' r m p _ [(MKQueue (r, p), ForUpdate); (MKItem m, KeyShare)] L'); [done|exact Hop|left|exact Hcl|done].
Qed.

(** The rows of a removal, on the queue as it is at the commit. *)
Lemma removed_repr r (i : Z) ps q3 q4 Q4 q db4 :
  repr q4 Q4 -> dQueue db4 = q4 -> (forall p, q4 !! (r, p) = q3 !! (r, p)) -> is_Some (q3 !! (r, i)) ->
  ps ≡ₚ filter (fun p => i < p) (positions r (delete (r, i) q3)) ->
  renumber r ps (delete (r, i) q3) = Ok q ->
  dense (applyAll (MWQueue (r, i) None :: map (fun p => MWQueue (r, p) (q !! (r, p))) (touched ps)) db4).
Proof.
  intros Hrq Hdb Hsame Hrow Hps Hren.
  assert (exists j : nat, i = Z.of_nat j /\ (j < length (Q4 !!! r))%nat) as (j & -> & Hj).
  { rewrite <- Hsame in Hrow. destruct Hrow as [e He]. pose proof (repr_pos _ _ _ _ _ Hrq He). exists (Z.to_nat i). lia. }
  assert (forall p, delete (r, Z.of_nat j) q4 !! (r, p) = delete (r, Z.of_nat j) q3 !! (r, p)) as Hdel.
  { intros p. destruct (decide (p = Z.of_nat j)) as [->|Hne]; [by rewrite !lookup_delete_eq|].
    by rewrite !lookup_delete_ne by congruence. }
  assert (forall p, p ∈ ps <-> Z.of_nat j < p /\ is_Some (q3 !! (r, p))) as Hin.
  { intros p. rewrite Hps, list_elem_of_filter, elem_of_positions. split; intros [Hlt Hs]; (split; [done|]).
    - destruct (decide (p = Z.of_nat j)) as [->|Hne]; [lia|]. by rewrite lookup_delete_ne in Hs by congruence.
    - rewrite lookup_delete_ne; [done|]. intros [= ?]. lia. }
  assert (moving r (delete (r, Z.of_nat j) q3) q (list_to_set ps ∪ ∅)) as Hm.
  { eapply renumber_moves; [|apply moving_start|exact Hren]. split.
    - rewrite Hps. apply NoDup_filter, NoDup_elements.
    - intros p Hp. split; [set_solver|]. apply Hin in Hp as [Hlt Hs]. rewrite lookup_delete_ne; [done|]. intros [= ?]. lia. }
  exists (<[r := delete j (Q4 !!! r)]> Q4).
  change (applyAll (MWQueue (r, Z.of_nat j) None :: ?ws) db4) with
    (applyAll ws (applyMediaWrite (MWQueue (r, Z.of_nat j) None) db4)).
  eapply (repr_remove q4 Q4 r j _ (list_to_set ps ∪ ∅)); [done|done| |].
  - intros p. rewrite Hsame, <- Hin. set_solver.
  - destruct Hm as [Hc Hd]. split; [|intros p Hp; rewrite Hdel; by apply Hd].
    intros r' p. rewrite lookup_applyQueue. cbn [fst snd applyMediaWrite dQueue set_dQueue updQueue]. rewrite Hdb.
    destruct (decide (r' = r /\ p ∈ touched ps)) as [[-> Hp]|Hn].
    + rewrite (Hc r p). destruct (decide (r = r)) as [_|]; [|done]. by rewrite !Hdel.
    + destruct (decide (r' = r)) as [->|Hne]; [|done].
      pose proof (Hc r p) as Hcp. rewrite decide_True in Hcp by done.
      rewrite (renumber_elsewhere r ps _ _ (r, p) Hren) in Hcp by (right; tauto).
      rewrite !Hdel. exact Hcp.
Qed.

(** The writes of a removal stay in its room. *)
Lemma remove_rely (op' : media_tx) (r : string) (i : Z) (l : list Z) (q : gmap (string * Z) entry)
    (L L' : list (mediaKey * lockMode)) (db : MediaDB) :
  media_compat (TxRemove r i) op' = true -> clash L L' = false ->
  (MKQueue (r, i), ForUpdate) ∈ L -> (forall p, p ∈ l -> (MKQueue (r, p), ForUpdate) ∈ L) ->
  queue_rely op' L' db (applyAll (MWQueue (r, i) None :: map (fun p => MWQueue (r, p) (q !! (r, p))) l) db).
Proof.
  intros Hop Hcl Hi Hl. rewrite clash_false in Hcl.
  change (applyAll (MWQueue (r, i) None :: ?ws) db) with (applyAll ws (applyMediaWrite (MWQueue (r, i) None) db)).
  assert (forall r' p, r' <> r -> dQueue (applyAll (map (fun p => MWQueue (r, p) (q !! (r, p))) l)
            (applyMediaWrite (MWQueue (r, i) None) db)) !! (r', p) = dQueue db !! (r', p)) as Hother.
  { intros r' p Hne. rewrite lookup_applyQueue, decide_False by (simpl; tauto). simpl. rewrite lookup_delete_ne; congruence. }
  split.
  - intros r' m p e -> He. rewrite Hother; [done|]. simpl in Hop. go_bool. congruence.
  - intros [r' p] Hk. rewrite lookup_applyQueue. case_decide as Hd; simpl in Hd.
    + destruct Hd as [-> Hp]. by specialize (Hcl _ _ _ (Hl p Hp) Hk).
    + simpl. rewrite lookup_delete_ne; [done|]. intros [= <- <-]. by specialize (Hcl _ _ _ Hi Hk).
  - intros r' n p ->. rewrite Hother; [done|]. simpl in Hop. go_bool. congruence.
Qed.

Lemma queue_remove_ok r i db : dense db -> ok (TxRemove r i) (media_body (TxRemove r i)) [] [] db.
Proof.
  intros Hi. set (op := TxRemove r i). unfold media_body, op at 2, tRemove.
  intros db1 Hi1 Hr1. cbn [applyAll foldl]. destruct (dQueue db1 !! (r, i)) as [e1|] eqn:E1.
  2:{ case_bool_decide; simpl; done. }
  case_bool_decide; [|done]. simpl. intros n db2 Hi2 Hr2. simpl.
  set (ps := scanOrder n _). intros db3 Hi3 Hr3. cbn [applyAll foldl applyWrite mediaRows applyMediaWrite updQueue dQueue set_dQueue].
  destruct (renumber r ps (delete (r, i) (dQueue db3))) as [q|e] eqn:Er; [|done].
  intros db4 [Q4 Hi4] Hr4.
  assert (forall p, dQueue db3 !! (r, p) = dQueue db2 !! (r, p)) as H32 by (intros p; by apply (qr_whole _ _ _ _ Hr3 r i)).
  assert (forall p, dQueue db2 !! (r, p) = dQueue db1 !! (r, p)) as H21 by (intros p; by apply (qr_whole _ _ _ _ Hr2 r i)).
  split.
  - eapply (removed_repr r i ps (dQueue db3) _ Q4 q db4 Hi4); [done| | | |done].
    + intros p. by apply (qr_whole _ _ _ _ Hr4 r i).
    + rewrite H32, H21, E1. by eexists.
    + unfold ps. rewrite scanOrder_perm. apply filter_Permutation.
      apply NoDup_Permutation; [apply NoDup_elements..|]. intros p. rewrite !elem_of_positions.
      cbn [applyAll foldl applyWrite mediaRows applyMediaWrite updQueue dQueue set_dQueue].
      destruct (decide (p = i)) as [->|Hne]; [by rewrite !lookup_delete_eq|].
      by rewrite !lookup_delete_ne, H32 by congruence.
  - intros op' L' Hop Hcl.
    apply (remove_rely op' r i (touched ps) q
      ((MKQueue (r, i), ForUpdate) :: map (fun p => (MKQueue (r, p), ForUpdate)) (touched ps)) L');
      [exact Hop|exact Hcl|left|].
    intros p Hp. right. apply list_elem_of_fmap. by exists p.
Qed.

Lemma media_body_ok op db : dense db -> ok op (media_body op) [] [] db.
Proof. destruct op; [apply newMedia_ok|apply add_ok|apply queue_remove_ok]. Qed.
End requests.

(** ** Theorems *)

(** C7. Concurrent changes keep the queues: from queues without gaps, for every
    interleaving of the statements of appends, removals and new items, with any
    waits and failures, as long as a removal overlaps with no other change of
    its queue, the rows are still one list per room, numbered from 0 without a
    gap.  In particular appends may overlap freely. *)
Theorem concurrent_queues_dense `{Env} `{PgScan} db n evs Q :
  repr (dQueue db) Q ->
  apart media_body (fun _ => true) media_compat (sys_start db n) evs = true ->
  exists Q', repr (dQueue (yDB (sys_run media_body (sys_start db n) evs))) Q'.
Proof.
  intros HQ Ha. eapply so_inv, (sys_run_ok media_body dense (fun _ => true) media_compat queue_rely);
    [intros; apply queue_rely_refl|intros; by eapply queue_rely_trans|apply media_compat_sym
    |intros; by apply media_body_ok|apply sys_start_ok; by exists Q|done].
Qed.

(** The transaction of a request as [Media] has it. *)
Definition media_service `{Env} `{PgScan} (op : media_tx) : SM MediaDB media_answer :=
  match op with
  | TxNewMedia m => sbind (MediaRepo_Create m) (fun _ => sret MADone)
  | TxAdd r m => sbind (addTx r m) (fun i => sret (MAItem i))
  | TxRemove r p => sbind (QueueRepo_Remove r p) (fun _ => sret MADone)
  end.

(** A request that overlaps with no other does what [Media] says. *)
Theorem media_requests_alone `{Env} `{PgScan} i op db n dn :
  dn !! i = None ->
  let '(r, s1) := withTx (media_service op) (mkSt db n false) in
  exists k, sys_run media_body (mkSys db n ∅ dn) (Begin i op :: replicate k (Next i)) =
    mkSys (sdb s1) (sn s1) ∅ (<[i := (op, r)]> dn).
Proof.
  intros Hi. pose proof (alone_serial media_body i op db n dn Hi) as Ha.
  assert (agree (serial (media_body op)) (media_service op)) as Hag.
  { destruct op; cbn [media_body media_service];
      (eapply agree_trans; [apply serial_bind|apply agree_bind; [|done]]).
    - apply tCreateMedia_agrees.
    - apply addBody_agrees.
    - apply tRemove_agrees. }
  by rewrite (agree_withTx _ _ Hag) in Ha.
Qed.

(** ** Examples *)

#[local] Instance queueEnv : Env := calmEnv (fun _ => 0) (fun _ => "").
#[local] Instance queueScan : PgScan := {| scanOrder _ l := merge_sort Z.le l; scanOrder_perm _ l := merge_sort_Permutation Z.le l |}.

Definition demoItem : Media := mkMedia "m" 1 1 "" "t" "" 0 "" 0.
Definition demoQueues (ps : list Z) : MediaDB :=
  mkMediaDB {["m" := demoItem]} (list_to_map (map (fun p => (("r", p), ("m", 0))) ps)).

(** Requests 0 and 1 begin and take [first] steps each, then run to their ends. *)
Definition queueRace (a b : media_tx) (first : nat) : list (event media_tx) :=
  [Begin 0 a; Begin 1 b] ++ replicate first (Next 0%nat) ++ replicate first (Next 1%nat) ++
  replicate 10 (Next 0%nat) ++ replicate 10 (Next 1%nat).

(** Whether they succeeded, and the positions of the queue. *)
Definition queueView (s : sys MediaDB mediaKey mediaWrite media_tx media_answer) : list (option bool) * list Z :=
  (map (fun i => is_Ok ∘ snd <$> yDone s !! i) [0; 1]%nat, map qiPosition (queueRows "r" (dQueue (yDB s)))).

Lemma demoQueues_empty : repr (dQueue (demoQueues [])) ∅.
Proof.
  split; [intros r p; rewrite lookup_total_empty; simpl; by destruct (0 <=? p)|]. intros r. by rewrite lookup_total_empty.
Qed.

(** Two appends overlap: the queue has no gap. *)
Lemma concurrent_queues_dense_witness :
  exists Q, repr (dQueue (yDB (sys_run media_body (sys_start (demoQueues []) 0)
    (queueRace (TxAdd "r" "m") (TxAdd "r" "m") 3)))) Q.
Proof.
  apply (concurrent_queues_dense _ _ _ ∅ demoQueues_empty). vm_compute. reflexivity.
Defined.

(** ** Where the code falls short of its comments *)

(** Appends in separate transactions do collide: the second fails. *)
Example appends_collide :
  queueView (sys_run media_body (sys_start (demoQueues []) 0) (queueRace (TxAdd "r" "m") (TxAdd "r" "m") 3)) =
    ([Some true; Some false], [0]) /\
  queueView (sys_run media_body (sys_start (demoQueues []) 0) (queueRace (TxAdd "r" "m") (TxAdd "r" "m") 0)) =
    ([Some true; Some true], [0; 1]).
Proof. split; vm_compute; reflexivity. Qed.

(** An append that overlaps with the removal of the last entry leaves a gap:
    positions are not dense. *)
Example removal_leaves_gap :
  queueView (sys_run media_body (sys_start (demoQueues [0]) 0) (queueRace (TxAdd "r" "m") (TxRemove "r" 0) 3)) =
    ([Some true; Some true], [1]).
Proof. vm_compute. reflexivity. Qed.
