(* ===== verification/Duration.v ===== *)
(** * ISO 8601 durations

    Model of [ParseISODuration] and [unitMillis] of
    [apps/provider-service/internal/domain/provider.go]: one pass over the
    characters after the [P], at the width of [int64].  The parser reads back
    what a printer of days, hours, minutes and seconds writes; texts it should
    refuse and numbers that overflow are at the end. *)

From stdpp Require Import pretty.
From S2P Require Import Prelude GoNum Errors GoString GoUnicode.

Open Scope Z_scope.

Definition charD : Z := 68.
Definition charH : Z := 72.
Definition charM : Z := 77.
Definition charP : Z := 80.
Definition charS : Z := 83.
Definition charT : Z := 84.

(** The milliseconds of a unit, in the date or in the time part. *)
Definition unitMillis (r : Z) (inTime : bool) : option Z :=
  if r =? charD then (if inTime then None else Some (24 * 3600000))
  else if r =? charH then (if inTime then Some 3600000 else None)
  else if r =? charM then (if inTime then Some 60000 else None)
  else if r =? charS then (if inTime then Some 1000 else None)
  else None.

(** The variables of the loop. *)
Record durState : Type := mkDur {
  dsTotal : Z;
  dsNum : Z;
  dsDigits : bool;
  dsInTime : bool;
  dsSawUnit : bool;
}.

Definition durError (what : string) : error := EMsg ("domain: invalid ISO 8601 duration: " +:+ what).

(** One round of the loop. *)
Definition durStep (r : Z) (st : durState) : res error durState :=
  if r =? charT then
    if dsInTime st then Err (durError "duplicate T")
    else Ok (mkDur (dsTotal st) (dsNum st) (dsDigits st) true (dsSawUnit st))
  else if (48 <=? r) && (r <=? 57) then
    Ok (mkDur (dsTotal st) (int64 (int64 (dsNum st * 10) + (r - 48))) true (dsInTime st) (dsSawUnit st))
  else
    match unitMillis r (dsInTime st) with
    | None => Err (durError "unsupported unit")
    | Some ms =>
        if negb (dsDigits st) then Err (durError "missing number")
        else Ok (mkDur (int64 (dsTotal st + int64 (dsNum st * ms))) 0 false (dsInTime st) true)
    end.

Fixpoint durLoop (l : list Z) (st : durState) : res error durState :=
  match l with
  | [] => Ok st
  | r :: l => match durStep r st with
              | Err e => Err e
              | Ok st => durLoop l st
              end
  end.

Definition ParseISODuration (s : string) : res error Z :=
  match bytes s with
  | b :: rest =>
      if negb (b =? charP) || bool_decide (rest = []) then Err (durError "missing P prefix")
      else
        match durLoop (runes rest) (mkDur 0 0 false false false) with
        | Err e => Err e
        | Ok st =>
            if dsDigits st then Err (durError "trailing number without unit")
            else if negb (dsSawUnit st) then Err (durError "no components")
            else Ok (dsTotal st)
        end
  | [] => Err (durError "missing P prefix")
  end.

(** ** A printer *)

(** The decimal digits of a number; the fuel is enough because every round
    divides the number by ten. *)
Fixpoint decimalDigits (fuel : nat) (n : Z) (acc : list Z) : list Z :=
  match fuel with
  | O => acc
  | S fuel =>
      let acc := 48 + n mod 10 :: acc in
      if n / 10 =? 0 then acc else decimalDigits fuel (n / 10) acc
  end.
Definition decimal (n : Z) : list Z := decimalDigits (S (Z.to_nat (Z.log2 n))) n [].

(** Days, hours, minutes and seconds of a number of seconds. *)
Definition printISODuration (seconds : Z) : string :=
  ofBytes ([charP] ++ decimal (seconds / 86400) ++ [charD; charT] ++ decimal (seconds / 3600 mod 24) ++ [charH] ++
           decimal (seconds / 60 mod 60) ++ [charM] ++ decimal (seconds mod 60) ++ [charS]).

(** ** Reading it back *)

Definition isDigit (r : Z) : Prop := 48 <= r <= 57.

(** The number that digits spell after a prefix of value [n]. *)
Definition decimalValue (n : Z) (l : list Z) : Z := fold_left (fun a r => a * 10 + (r - 48)) l n.

Lemma decimalValue_ge n l : 0 <= n -> Forall isDigit l -> n <= decimalValue n l.
Proof.
  intros Hn Hl. revert n Hn. induction Hl as [|r l Hr Hl IH]; intros n Hn; simpl; [lia|].
  unfold isDigit in Hr. etrans; [|apply IH; lia]. lia.
Qed.

(** The value is what is read; [10 ^ length] bounds the digits from above. *)
Lemma decimalDigits_value fuel n acc :
  0 <= n < 2 ^ Z.of_nat fuel -> (0 < fuel)%nat ->
  exists l, decimalDigits fuel n acc = l ++ acc /\ l <> [] /\ Forall isDigit l /\ decimalValue 0 l = n.
Proof.
  revert n acc. induction fuel as [|fuel IH]; intros n acc Hn Hf; [lia|].
  cbn [decimalDigits]. cbv zeta. pose proof (Z.mod_pos_bound n 10 ltac:(lia)) as Hm. pose proof (Z.div_mod n 10 ltac:(lia)) as Hdm.
  destruct (Z.eqb_spec (n / 10) 0) as [Hz|Hnz].
  { exists [48 + n mod 10]. split_and!; [done..| |unfold decimalValue; simpl; lia]. repeat constructor; unfold isDigit; lia. }
  rewrite Nat2Z.inj_succ, Z.pow_succ_r in Hn by lia.
  destruct (IH (n / 10) (48 + n mod 10 :: acc)) as (l & -> & Hne & Hl & Hv).
  { split; [apply Z.div_pos; lia|apply Z.div_lt_upper_bound; lia]. }
  { destruct fuel; [|lia]. simpl in Hn. assert (n / 10 = 0) by (apply Z.div_small; lia). lia. }
  exists (l ++ [48 + n mod 10]). rewrite <- app_assoc. split_and!; [done|by destruct l| |].
  - apply Forall_app. split; [done|]. repeat constructor; unfold isDigit; lia.
  - unfold decimalValue in *. rewrite fold_left_app, Hv. simpl. lia.
Qed.

Lemma decimal_spec n : 0 <= n -> decimal n <> [] /\ Forall isDigit (decimal n) /\ decimalValue 0 (decimal n) = n.
Proof.
  intros Hn. unfold decimal. destruct (decimalDigits_value (S (Z.to_nat (Z.log2 n))) n []) as (l & -> & Hne & Hl & Hv); [|lia|].
  - rewrite Nat2Z.inj_succ, Z2Nat.id by apply Z.log2_nonneg. destruct (Z.eq_dec n 0) as [->|]; [done|].
    pose proof (Z.log2_spec n ltac:(lia)). lia.
  - by rewrite app_nil_r.
Qed.

Lemma int64_nonneg z : 0 <= z < 2 ^ 63 -> int64 z = z.
Proof. intros Hz. unfold int64. apply swrap_id; unfold in_s; lia. Qed.

(** The loop over the digits of a number. *)
Lemma durLoop_digits l rest st :
  Forall isDigit l -> 0 <= dsNum st -> decimalValue (dsNum st) l < 2 ^ 63 ->
  durLoop (l ++ rest) st =
  durLoop rest (match l with
                | [] => st
                | _ => mkDur (dsTotal st) (decimalValue (dsNum st) l) true (dsInTime st) (dsSawUnit st)
                end).
Proof.
  intros Hl. revert st. induction Hl as [|r l Hr Hl IH]; intros st Hn Hv; [done|]. unfold isDigit in Hr.
  change (decimalValue (dsNum st) (r :: l)) with (decimalValue (dsNum st * 10 + (r - 48)) l) in *.
  assert (dsNum st * 10 + (r - 48) < 2 ^ 63) as Hb.
  { eapply Z.le_lt_trans; [|exact Hv]. apply decimalValue_ge; [lia|done]. }
  cbn [app durLoop]. unfold durStep. rewrite (proj2 (Z.eqb_neq r charT)) by (unfold charT; lia).
  rewrite (proj2 (Z.leb_le 48 r)), (proj2 (Z.leb_le r 57)) by lia. cbn [andb].
  rewrite (int64_nonneg (dsNum st * 10)), int64_nonneg by lia. rewrite IH; cbn [dsTotal dsNum dsInTime dsSawUnit]; [|lia|done].
  by destruct l.
Qed.

(** A number and its unit. *)
Lemma durLoop_component n u ms rest st :
  0 <= n -> unitMillis u (dsInTime st) = Some ms -> 0 < ms -> u <> charT -> (u < 48 \/ 57 < u) ->
  dsNum st = 0 -> 0 <= dsTotal st -> dsTotal st + n * ms < 2 ^ 63 ->
  durLoop (decimal n ++ u :: rest) st = durLoop rest (mkDur (dsTotal st + n * ms) 0 false (dsInTime st) true).
Proof.
  intros Hn Hu Hms Hut Hnd H0 Ht Hb. destruct (decimal_spec n Hn) as (Hne & Hl & Hv).
  rewrite durLoop_digits; [|done|lia|rewrite H0, Hv; nia]. destruct (decimal n) as [|d l] eqn:Ed; [done|]. rewrite H0, Hv.
  cbn [durLoop]. unfold durStep. cbn [dsInTime dsDigits dsNum dsTotal].
  rewrite (proj2 (Z.eqb_neq u charT)) by done.
  replace ((48 <=? u) && (u <=? 57)) with false by (symmetry; apply andb_false_iff; rewrite !Z.leb_gt; lia).
  rewrite Hu. cbn [negb]. by rewrite (int64_nonneg (n * ms)), int64_nonneg by nia.
Qed.

Lemma runesOf_ascii fuel l : (length l <= fuel)%nat -> Forall (fun b => b < 128) l -> runesOf fuel l = l.
Proof.
  revert fuel. induction l as [|b l IH]; intros fuel Hf Hl; [by destruct fuel|]. destruct fuel as [|fuel]; [simpl in Hf; lia|].
  inversion Hl; subst. simpl in *. rewrite (proj2 (Z.ltb_lt b 128)) by done. f_equal. apply IH; [lia|done].
Qed.

Ltac dur_side := first [done | lia | unfold charD, charH, charM, charS, charT; cbn [dsTotal dsNum dsInTime dsDigits dsSawUnit]; lia].

(** Durations are read back: what is printed for a number of seconds, as days,
    hours, minutes and seconds, parses to that number of milliseconds, for
    every number whose milliseconds fit an [int64]. *)
Theorem ParseISODuration_roundtrip seconds :
  0 <= seconds -> seconds * 1000 < 2 ^ 63 -> ParseISODuration (printISODuration seconds) = Ok (seconds * 1000).
Proof.
  intros H0 Hb. unfold printISODuration, ParseISODuration.
  set (d := seconds / 86400). set (h := seconds / 3600 mod 24). set (m := seconds / 60 mod 60). set (s := seconds mod 60).
  assert (0 <= d /\ 0 <= h < 24 /\ 0 <= m < 60 /\ 0 <= s < 60 /\ seconds = d * 86400 + h * 3600 + m * 60 + s)
    as (Hd & Hh & Hm & Hs & Hsum) by (unfold d, h, m, s; Z.to_euclidean_division_equations; lia).
  clearbody d h m s. set (rest := decimal d ++ _).
  assert (Forall (fun b => 0 <= b < 128) rest) as Hrest.
  { subst rest. assert (forall n, 0 <= n -> Forall (fun b => 0 <= b < 128) (decimal n)) as Hdec.
    { intros n Hn. destruct (decimal_spec n Hn) as (_ & Hl & _). eapply Forall_impl; [exact Hl|]. unfold isDigit. lia. }
    repeat apply Forall_app_2; try (apply Hdec; lia); repeat constructor; unfold charD, charH, charM, charS, charT; lia. }
  rewrite bytes_ofBytes.
  2:{ apply Forall_app. split; [repeat constructor; unfold isByte, charP; lia|].
      eapply Forall_impl; [exact Hrest|]. unfold isByte. lia. }
  cbn [app]. replace (charP =? charP) with true by done. cbn [negb orb].
  rewrite bool_decide_false.
  2:{ subst rest. destruct (decimal_spec d Hd) as (Hne & _). by destruct (decimal d). }
  unfold runes. rewrite runesOf_ascii; [|done|eapply Forall_impl; [exact Hrest|]; intros b Hb2; simpl in Hb2; lia]. subst rest.
  cbn [app].
  rewrite (durLoop_component d charD (24 * 3600000)) by dur_side. cbn [durLoop].
  cbn [durStep]. unfold durStep at 1. cbn [dsInTime dsTotal dsNum dsDigits dsSawUnit]. replace (charT =? charT) with true by done.
  rewrite (durLoop_component h charH 3600000) by dur_side.
  rewrite (durLoop_component m charM 60000) by dur_side.
  replace (decimal s ++ [charS]) with (decimal s ++ charS :: []) by done.
  rewrite (durLoop_component s charS 1000) by dur_side.
  simpl. f_equal. lia.
Qed.

Lemma ParseISODuration_roundtrip_witness :
  printISODuration 93784 = "P1DT2H3M4S" /\ ParseISODuration "P1DT2H3M4S" = Ok 93784000.
Proof.
  split; [by vm_compute|]. pose proof (ParseISODuration_roundtrip 93784 ltac:(lia) ltac:(lia)) as Hp. exact Hp.
Defined.

(** ** Texts that should be refused *)

(** A number may be split by the [T]; an empty time part is accepted; a number
    that does not fit wraps around. *)
Example duration_split_number : ParseISODuration "P5T3S" = Ok 53000.
Proof. by vm_compute. Qed.
Example duration_empty_time : ParseISODuration "P1DT" = Ok 86400000.
Proof. by vm_compute. Qed.
Example duration_overflow : ParseISODuration "PT9223372036854775S" = Ok 9223372036854775000 /\
  ParseISODuration "PT9223372036854776S" = Ok (-9223372036854775616).
Proof. by vm_compute. Qed.
