(* ===== verification/Provider.v ===== *)
(** * The provider service

    Model of [apps/provider-service]: the handlers of [app/handlers.go], the
    repository [infra/postgres/resolution_cache_repo.go], the clients of Spotify
    and YouTube ([infra/spotify], [infra/youtube]) with the token cache of
    [infra/redis/client.go], and the client of the auth service
    ([infra/authclient]).

    The service is written against an interface of external providers, which the
    clients implement over an HTTP port.  A request is structural: its method,
    address, query, form and credentials; an answer is a status and the decoded
    body. *)

From stdpp Require Import pretty.
From S2P Require Import Prelude GoNum Errors GoString Store RoomDomain Outbox Web.

Open Scope Z_scope.
Open Scope sm_scope.

(** ** The domain *)

Record SearchResult : Type := mkSearchResult {
  srExternalRef : string;
  srTitle : string;
  srArtist : string;
  srCoverURL : string;
  srDurationMs : Z;
}.

Record ResolvedMedia : Type := mkResolved {
  rmExternalRef : string;
  rmTitle : string;
  rmArtist : string;
  rmCoverURL : string;
  rmPlayableURL : string;
  rmDurationMs : Z;
}.

(** [providerv1.ProviderName]. *)
Definition ProviderName : Type := Z.
Definition PROVIDER_SPOTIFY : ProviderName := 1.
Definition PROVIDER_YOUTUBE : ProviderName := 2.

(** ** The stores *)

(** A row of [resolution_cache]: title, artist, cover and duration. *)
Record CacheRow : Type := mkCacheRow {
  crTitle : string;
  crArtist : string;
  crCoverURL : string;
  crDurationMs : Z;
}.

(** The table, and Redis: values with their expiry. *)
Record ProviderDB : Type := mkProviderDB {
  pdResolutions : gmap (string * string) CacheRow;   (* (provider, external_ref) *)
  pdTokens : gmap string (string * time);
}.
Definition set_pdResolutions f (d : ProviderDB) : ProviderDB := mkProviderDB (f (pdResolutions d)) (pdTokens d).
Definition set_pdTokens f (d : ProviderDB) : ProviderDB := mkProviderDB (pdResolutions d) (f (pdTokens d)).

(** What Redis answers to the [n]-th interaction. *)
Class RedisEnv : Type := redis_fault : nat -> option error.

Section repos.
Context `{Env} `{RedisEnv}.

Definition ResolutionCacheRepo_Get (provider externalRef : string) : SM ProviderDB ResolvedMedia :=
  row <- smapErr (scanErr "resolution" (provider +:+ ":" +:+ externalRef) "resolution_cache_repo: get")
           (queryRow (fun db => pdResolutions db !! (provider, externalRef))) ;;
  sret (mkResolved externalRef (crTitle row) (crArtist row) (crCoverURL row) "" (crDurationMs row)).

(** [resolved_at] is not read. *)
Definition ResolutionCacheRepo_Upsert (provider : string) (m : ResolvedMedia) : SM ProviderDB unit :=
  smapErr (EWrap "resolution_cache_repo: upsert") (stmt (fun db =>
    if 32 <? charCount provider then Err (EMsg "value too long for type character varying(32)")
    else if 255 <? charCount (rmExternalRef m) then Err (EMsg "value too long for type character varying(255)")
    else if 255 <? charCount (rmTitle m) then Err (EMsg "value too long for type character varying(255)")
    else if 255 <? charCount (rmArtist m) then Err (EMsg "value too long for type character varying(255)")
    else Ok (tt, set_pdResolutions (insert (provider, rmExternalRef m)
                   (mkCacheRow (rmTitle m) (rmArtist m) (rmCoverURL m) (rmDurationMs m))) db))).

(** [Client.Get]: a missing or expired key is the empty string. *)
Definition Redis_Get (key : string) : SM ProviderDB string := fun s =>
  match redis_fault (sn s) with
  | Some e => (Err (EWrap "redis: get" e), step_n s)
  | None =>
      (Ok match pdTokens (sdb s) !! key with
          | Some (v, expiry) => if env_now (sn s) <? expiry then v else ""
          | None => ""
          end, step_n s)
  end.

Definition Redis_Set (key value : string) (ttl : duration) : SM ProviderDB unit := fun s =>
  match redis_fault (sn s) with
  | Some e => (Err (EWrap "redis: set" e), step_n s)
  | None => (Ok tt, mkSt (set_pdTokens (insert key (value, env_now (sn s) + ttl)) (sdb s)) (S (sn s)) (saborted s))
  end.
End repos.

(** ** HTTP *)

Inductive httpMethod : Type := GET | POST.
Inductive httpAuth : Type := NoAuth | Basic (user password : string) | Bearer (token : string).

Record httpRequest : Type := mkRequest {
  hrMethod : httpMethod;
  hrURL : string;
  hrQuery : list (string * string);
  hrForm : list (string * string);
  hrAuth : httpAuth;
}.

(** The decoded JSON payloads. *)
Record tokenResponse : Type := mkTokenResponse { tpAccessToken : string; tpExpiresIn : Z }.
Record track : Type := mkTrack {
  tkID : string;
  tkName : string;
  tkArtists : list string;        (* names *)
  tkImages : list string;         (* URLs *)
  tkDurationMS : Z;               (* int64 *)
}.
Record oembedResponse : Type := mkOembed { oeTitle : string; oeAuthorName : string; oeThumbnailURL : string }.

Inductive httpBody : Type :=
| BodyToken (t : tokenResponse)
| BodyTracks (l : list track)
| BodyTrack (t : track)
| BodyOembed (o : oembedResponse).

(** [http.Client.Do] with the body read: the status and the body, [None] for a
    body that [json.Unmarshal] refuses.  A body decodes as what the address
    serves.  [urlPathEscape] is [url.PathEscape]. *)
Class HttpClient : Type := {
  httpDo : nat -> httpRequest -> res error (Z * option httpBody);
  urlPathEscape : string -> string;
}.

Definition StatusOK : Z := 200.

(** ** The interface *)

Definition ErrSearchUnsupported : error := EMsg "provider: search is not supported for this provider".
Definition isSearchUnsupported (e : error) : bool :=
  match e with EMsg m => bool_decide (m = "provider: search is not supported for this provider") | _ => false end.

(** [ports.ExternalProvider] and [ports.SpotifyProvider]: the token is used by
    Spotify only. *)
Record ExternalProvider : Type := mkExternal {
  epSearch : string -> Z -> SM ProviderDB (list SearchResult);
  epResolve : string -> string -> SM ProviderDB ResolvedMedia;   (* reference, user token *)
}.

(** ** Spotify *)

Definition tokenURL : string := "https://accounts.spotify.com/api/token".
Definition searchURL : string := "https://api.spotify.com/v1/search".
Definition tracksURL : string := "https://api.spotify.com/v1/tracks/".
Definition clientCredsCacheKey : string := "provider-service:spotify:client-credentials-token".
Definition tokenCacheMargin : duration := Minute.

Definition artistName (artists : list string) : string := default "" (head artists).
Definition coverURL (images : list string) : string := default "" (head images).

Section spotify.
Context `{Env} `{RedisEnv} `{HttpClient}.
Context (clientID clientSecret : string) (cache : bool).   (* a nil cache disables caching *)

Definition cachedToken : SM ProviderDB string :=
  if cache then
    r <- stry (Redis_Get clientCredsCacheKey) ;;
    sret match r with Ok tok => tok | Err _ => "" end
  else sret "".

Definition tokenTTL (expiresIn : Z) : duration :=
  let ttl := int64 (int64 (expiresIn * Second) - tokenCacheMargin) in
  if ttl <? Minute then Minute else ttl.

Definition getClientCredentialsToken : SM ProviderDB string :=
  tok <- cachedToken ;;
  if negb (bool_decide (tok = "")) then sret tok
  else
    resp <- smapErr (EWrap "spotify: token request") (lift (fun n => httpDo n
              (mkRequest POST tokenURL [] [("grant_type", "client_credentials")] (Basic clientID clientSecret)))) ;;
    if negb (resp.1 =? StatusOK) then sfail (EMsg "spotify: token: status")
    else match resp.2 with
         | Some (BodyToken parsed) =>
             if bool_decide (tpAccessToken parsed = "") then sfail (EMsg "spotify: token: empty access_token")
             else
               (if cache then
                  stry (Redis_Set clientCredsCacheKey (tpAccessToken parsed) (tokenTTL (tpExpiresIn parsed))) ;;; sret tt
                else sret tt) ;;;
               sret (tpAccessToken parsed)
         | _ => sfail (EMsg "spotify: token decode")
         end.

Definition Spotify_Search (query : string) (limit : Z) : SM ProviderDB (list SearchResult) :=
  token <- getClientCredentialsToken ;;
  resp <- smapErr (EWrap "spotify: search request") (lift (fun n => httpDo n
            (mkRequest GET searchURL [("q", query); ("type", "track"); ("limit", pretty limit)] [] (Bearer token)))) ;;
  if negb (resp.1 =? StatusOK) then sfail (EMsg "spotify: search: status")
  else match resp.2 with
       | Some (BodyTracks items) =>
           sret (map (fun it => mkSearchResult (tkID it) (tkName it) (artistName (tkArtists it)) (coverURL (tkImages it))
                                  (tkDurationMS it)) items)
       | _ => sfail (EMsg "spotify: search decode")
       end.

Definition Spotify_Resolve (externalRef userToken : string) : SM ProviderDB ResolvedMedia :=
  token <- (if bool_decide (userToken = "") then getClientCredentialsToken else sret userToken) ;;
  resp <- smapErr (EWrap "spotify: track request") (lift (fun n => httpDo n
            (mkRequest GET (tracksURL +:+ urlPathEscape externalRef) [] [] (Bearer token)))) ;;
  if resp.1 =? 404 then sfail (ENotFound "spotify track" externalRef)
  else if negb (resp.1 =? StatusOK) then sfail (EMsg "spotify: track: status")
  else match resp.2 with
       | Some (BodyTrack t) =>
           if bool_decide (tkID t = "") then sfail (ENotFound "spotify track" externalRef)
           else sret (mkResolved (tkID t) (tkName t) (artistName (tkArtists t)) (coverURL (tkImages t))
                        ("https://open.spotify.com/track/" +:+ tkID t) (tkDurationMS t))
       | _ => sfail (EMsg "spotify: track decode")
       end.

Definition spotifyClient : ExternalProvider := mkExternal Spotify_Search Spotify_Resolve.
End spotify.

(** ** YouTube *)

Definition defaultBaseURL : string := "https://www.youtube.com".

Section youtube.
Context `{Env} `{HttpClient}.

Definition YouTube_Search (query : string) (limit : Z) : SM ProviderDB (list SearchResult) :=
  sfail ErrSearchUnsupported.

Definition YouTube_Resolve (externalRef : string) : SM ProviderDB ResolvedMedia :=
  resp <- smapErr (EWrap "youtube: request") (lift (fun n => httpDo n
            (mkRequest GET (defaultBaseURL +:+ "/oembed")
               [("url", "https://www.youtube.com/watch?v=" +:+ externalRef); ("format", "json")] [] NoAuth))) ;;
  if (resp.1 =? 400) || (resp.1 =? 401) || (resp.1 =? 403) || (resp.1 =? 404)
  then sfail (ENotFound "youtube video" externalRef)
  else if negb (resp.1 =? StatusOK) then sfail (EMsg "youtube: status")
  else match resp.2 with
       | Some (BodyOembed o) =>
           sret (mkResolved externalRef (oeTitle o) (oeAuthorName o) (oeThumbnailURL o)
                   ("https://www.youtube.com/watch?v=" +:+ externalRef) 0)
       | _ => sfail (EMsg "youtube: decode")
       end.

Definition youtubeClient : ExternalProvider := mkExternal YouTube_Search (fun externalRef _ => YouTube_Resolve externalRef).
End youtube.

(** ** The client of the auth service *)

(** [GetProviderToken] of the auth service, over the network. *)
Class AuthService : Type := authProviderToken : nat -> string -> string -> res error string.

Definition GetUserToken `{AuthService} (userID provider : string) : SM ProviderDB string :=
  if bool_decide (userID = "") || bool_decide (provider = "")
  then sfail (EMsg "authclient: user_id and provider are required")
  else
    token <- smapErr (EWrap "authclient: get provider token") (lift (fun n => authProviderToken n userID provider)) ;;
    if bool_decide (token = "") then sfail (EMsg "authclient: get provider token: empty access token")
    else sret token.

(** ** The handlers *)

Definition defaultSearchLimit : Z := 20.
Definition maxSearchLimit : Z := 50.

(** The limit of the request is a [uint32]; zero is a missing one. *)
Definition searchLimit (l : Z) : Z :=
  let limit := if 0 <? l then l else defaultSearchLimit in
  if maxSearchLimit <? limit then maxSearchLimit else limit.

Definition invalidProvider : error :=
  EVb (InvalidArgumentFor "vibesync.provider" "INVALID_PROVIDER"
         "provider must be PROVIDER_NAME_SPOTIFY or PROVIDER_NAME_YOUTUBE").
Definition providerDisabled (name : string) : error :=
  EVb (FailedPrecondition "vibesync.provider" "PROVIDER_DISABLED" (name +:+ " provider is not enabled")).

Definition providerSlug (p : ProviderName) : res error string :=
  if p =? PROVIDER_SPOTIFY then Ok "spotify"
  else if p =? PROVIDER_YOUTUBE then Ok "youtube"
  else Err invalidProvider.

Definition playableURL (p : ProviderName) (externalRef : string) : string :=
  if p =? PROVIDER_SPOTIFY then "https://open.spotify.com/track/" +:+ externalRef
  else if p =? PROVIDER_YOUTUBE then "https://www.youtube.com/watch?v=" +:+ externalRef
  else "".

Definition fillPlayableURL (p : ProviderName) (m : ResolvedMedia) : ResolvedMedia :=
  if negb (bool_decide (rmPlayableURL m = "")) then m
  else mkResolved (rmExternalRef m) (rmTitle m) (rmArtist m) (rmCoverURL m) (playableURL p (rmExternalRef m)) (rmDurationMs m).

Record ResolveResponse : Type := mkResolveResponse {
  rrTitle : string;
  rrArtist : string;
  rrCoverUrl : string;
  rrDurationMs : Z;            (* uint64 *)
  rrPlayableUrl : string;
}.
Definition resolveResponse (m : ResolvedMedia) : ResolveResponse :=
  mkResolveResponse (rmTitle m) (rmArtist m) (rmCoverURL m) (uint64 (rmDurationMs m)) (rmPlayableURL m).

(** [searchResultToProto]: the duration becomes a [uint64]. *)
Definition searchResultToProto (r : SearchResult) : SearchResult :=
  mkSearchResult (srExternalRef r) (srTitle r) (srArtist r) (srCoverURL r) (uint64 (srDurationMs r)).

Section service.
Context `{Env} `{AuthService}.
Context (spotify youtube : option ExternalProvider).

Definition searchProvider (p : ProviderName) : res error ExternalProvider :=
  if p =? PROVIDER_SPOTIFY then match spotify with Some c => Ok c | None => Err (providerDisabled "spotify") end
  else if p =? PROVIDER_YOUTUBE then match youtube with Some c => Ok c | None => Err (providerDisabled "youtube") end
  else Err invalidProvider.

Definition Search (provider : ProviderName) (query : string) (limit : Z) : SM ProviderDB (list SearchResult) :=
  ctxDone ;;;
  if bool_decide (query = "")
  then sfail (EVb (InvalidArgumentFor "vibesync.provider" "MISSING_QUERY" "query is required"))
  else match searchProvider provider with
       | Err e => sfail e
       | Ok searcher =>
           results <- smapErr (fun e =>
               if isSearchUnsupported e
               then EVb (New KindUnimplemented "vibesync.provider" "SEARCH_UNSUPPORTED"
                           "search is not available for this provider; add YouTube videos by pasting a URL")
               else EVb (WithCause e (Internal "SEARCH_FAILED" (errText e))))
             (epSearch searcher query (searchLimit limit)) ;;
           sret (map searchResultToProto results)
       end.

(** A cache miss: the provider resolves the reference. *)
Definition resolveMiss (h : Header) (provider : ProviderName) (slug externalRef : string) : SM ProviderDB ResolvedMedia :=
  let failed (e : error) := if isNotFound e then EVb (NotFound (slug +:+ " media") externalRef)
                            else EVb (WithCause e (Internal "RESOLVE_FAILED" (errText e))) in
  if provider =? PROVIDER_SPOTIFY then
    match spotify with
    | None => sfail (providerDisabled "spotify")
    | Some c =>
        let subject := subjectFromHeader h in
        userToken <- (if negb (bool_decide (sbUserID subject = ""))
                      then smapErr (fun e => EVb (WithCause e (Internal "USER_TOKEN_FETCH_FAILED" (errText e))))
                             (GetUserToken (sbUserID subject) slug)
                      else sret "") ;;
        smapErr failed (epResolve c externalRef userToken)
    end
  else
    match youtube with
    | None => sfail (providerDisabled "youtube")
    | Some c => smapErr failed (epResolve c externalRef "")
    end.

Definition Resolve (h : Header) (provider : ProviderName) (externalRef : string) : SM ProviderDB ResolveResponse :=
  ctxDone ;;;
  if bool_decide (externalRef = "")
  then sfail (EVb (InvalidArgumentFor "vibesync.provider" "MISSING_EXTERNAL_REF" "external_ref is required"))
  else match providerSlug provider with
       | Err e => sfail e
       | Ok slug =>
           cached <- stry (withTx (ResolutionCacheRepo_Get slug externalRef)) ;;
           match cached with
           | Ok m => sret (resolveResponse (fillPlayableURL provider m))
           | Err e =>
               if negb (isNotFound e)
               then sfail (EVb (WithCause e (Internal "RESOLVE_CACHE_READ_FAILED" (errText e))))
               else
                 media <- resolveMiss h provider slug externalRef ;;
                 smapErr (fun e => EVb (WithCause e (Internal "RESOLVE_CACHE_WRITE_FAILED" (errText e))))
                   (withTx (ResolutionCacheRepo_Upsert slug media)) ;;;
                 sret (resolveResponse (fillPlayableURL provider media))
           end
       end.
End service.
