(* ===== verification/ProviderTheorems.v ===== *)
(** * Theorems about the provider service

    A cached resolution is answered without the provider; a resolution never
    changes once it was answered; what the two clients promise. *)

From stdpp Require Import pretty.
From S2P Require Import Prelude GoNum Errors GoString Store RoomDomain Outbox Web Provider.

Open Scope Z_scope.

(** ** What a client promises *)

(** The media it resolves a reference to carries that reference, and a playable
    address that is empty or the one the service would build; it leaves the
    resolutions alone. *)
Class FaithfulProvider (p : ProviderName) (c : ExternalProvider) : Prop := {
  fp_media : forall externalRef tok s m s', epResolve c externalRef tok s = (Ok m, s') ->
    rmExternalRef m = externalRef /\ (rmPlayableURL m = "" \/ rmPlayableURL m = playableURL p externalRef);
  fp_keeps : forall externalRef tok, relates (keeps pdResolutions) (epResolve c externalRef tok);
  fp_search : forall query limit, relates (keeps pdResolutions) (epSearch c query limit);
}.

Section clients.
Context `{Env} `{RedisEnv} `{HttpClient}.

Lemma keeps_Redis_Set key value ttl : relates (keeps pdResolutions) (Redis_Set key value ttl).
Proof. intros s. unfold Redis_Set. by destruct (redis_fault _). Qed.

Lemma quiet_Redis_Get key : quiet (Redis_Get key).
Proof. intros s. unfold Redis_Get. by destruct (redis_fault _). Qed.

Lemma keeps_token clientID clientSecret cache :
  relates (keeps pdResolutions) (getClientCredentialsToken clientID clientSecret cache).
Proof.
  assert (forall t ttl, relates (keeps pdResolutions) (stry (Redis_Set clientCredsCacheKey t ttl))) as Hset.
  { intros t ttl s. pose proof (keeps_Redis_Set clientCredsCacheKey t ttl s) as Hk. unfold stry. by destruct (Redis_Set _ _ _ s). }
  assert (quiet (stry (Redis_Get clientCredsCacheKey))) as Hget by apply quiet_try, quiet_Redis_Get.
  unfold getClientCredentialsToken, cachedToken. keep_handler.
Qed.

#[global] Instance youtubeClient_faithful : FaithfulProvider PROVIDER_YOUTUBE youtubeClient.
Proof.
  split.
  - intros externalRef tok s m s' E. cbn [epResolve youtubeClient] in E. unfold YouTube_Resolve in E.
    apply sbind_Ok in E as ([st body] & s1 & _ & E). simpl in E.
    destruct (_ || _); [done|]. destruct (negb _); [done|]. destruct body as [[]|]; try done. injection E as <- <-. simpl.
    split; [done|by right].
  - intros externalRef tok. apply relates_quiet; [apply keeps_refl|]. cbn [epResolve youtubeClient]. unfold YouTube_Resolve. quiet_tac.
  - intros query limit. apply relates_quiet; [apply keeps_refl|]. cbn [epSearch youtubeClient]. unfold YouTube_Search. quiet_tac.
Qed.

(** Spotify's client keeps its promise when the API answers a look-up with the
    track that was asked for. *)
Lemma spotifyClient_faithful clientID clientSecret cache :
  (forall n externalRef auth st t,
     httpDo n (mkRequest GET (tracksURL +:+ urlPathEscape externalRef) [] [] auth) = Ok (st, Some (BodyTrack t)) ->
     tkID t = "" \/ tkID t = externalRef) ->
  FaithfulProvider PROVIDER_SPOTIFY (spotifyClient clientID clientSecret cache).
Proof.
  intros Hapi. split.
  - intros externalRef tok s m s' E. cbn [epResolve spotifyClient] in E. unfold Spotify_Resolve in E.
    apply sbind_Ok in E as (token & s1 & _ & E). apply sbind_Ok in E as ([st body] & s2 & Hd & E). simpl in E.
    apply smapErr_Ok in Hd. injection Hd as Hd _.
    destruct (_ =? 404); [done|]. destruct (negb _); [done|]. destruct body as [[]|]; try done.
    case_bool_decide as Hid; [done|]. injection E as <- <-. apply Hapi in Hd as [|Hd]; [done|]. simpl. rewrite Hd.
    split; [done|by right].
  - intros externalRef tok. cbn [epResolve spotifyClient]. unfold Spotify_Resolve.
    apply relates_bind_r.
    + match goal with |- relates _ (if ?b then _ else _) => destruct b end; [apply keeps_token|apply relates_quiet; [apply keeps_refl|quiet_tac]].
    + intros token. quiet_tac.
  - intros query limit. cbn [epSearch spotifyClient]. unfold Spotify_Search.
    apply relates_bind_r; [apply keeps_token|]. intros token. quiet_tac.
Qed.
End clients.

(** The driver reports a missing row by itself only: none of its failures is
    "no rows", nor a "not found" of the application. *)
Class DriverErrors `{Env} : Prop := {
  de_begin : forall n e, env_begin n = Some e -> isNotFound e = false;
  de_fault : forall n e, env_fault n = Some e -> isNotFound e = false /\ isNoRows e = false;
  de_commit : forall n e b, env_commit n = Some (e, b) -> isNotFound e = false;
}.

(** ** The service *)

Section service.
Context `{Env} `{AuthService}.
Context (spotify youtube : option ExternalProvider).

Lemma slug_inj p q slug : providerSlug p = Ok slug -> providerSlug q = Ok slug -> p = q.
Proof using Type.
  unfold providerSlug. destruct (Z.eqb_spec p PROVIDER_SPOTIFY), (Z.eqb_spec q PROVIDER_SPOTIFY);
    destruct (Z.eqb_spec p PROVIDER_YOUTUBE), (Z.eqb_spec q PROVIDER_YOUTUBE); by intros [= <-] [=]; congruence.
Qed.

(** The answer for a row. *)
Definition rowResponse (p : ProviderName) (externalRef : string) (row : CacheRow) : ResolveResponse :=
  resolveResponse (fillPlayableURL p (mkResolved externalRef (crTitle row) (crArtist row) (crCoverURL row) "" (crDurationMs row))).

Lemma quiet_cacheGet slug externalRef : quiet (stry (withTx (ResolutionCacheRepo_Get slug externalRef))).
Proof using Type. apply quiet_try, quiet_withTx. unfold ResolutionCacheRepo_Get. quiet_tac. Qed.

(** What the look-up finds. *)
Lemma cacheGet_row slug externalRef s m s' :
  stry (withTx (ResolutionCacheRepo_Get slug externalRef)) s = (Ok (Ok m), s') ->
  exists row, pdResolutions (sdb s) !! (slug, externalRef) = Some row /\
    m = mkResolved externalRef (crTitle row) (crArtist row) (crCoverURL row) "" (crDurationMs row).
Proof using Type.
  intros E. apply stry_Ok, withTx_cases in E as [[_ [e [=]]]|(a & s1 & Hg & _ & _ & [[= ->]|[e [=]]])].
  apply sbind_Ok in Hg as (row & s2 & Hq & [= <- _]). apply smapErr_Ok in Hq.
  apply (reads_Ok (fun db => pdResolutions db !! (slug, externalRef))) in Hq as [Hq _]; [|auto with vibe]. by exists row.
Qed.

(** It reports "not found" only when there is no row. *)
Lemma cacheGet_absent `{!DriverErrors} slug externalRef s e s' :
  stry (withTx (ResolutionCacheRepo_Get slug externalRef)) s = (Ok (Err e), s') -> isNotFound e = true ->
  pdResolutions (sdb s) !! (slug, externalRef) = None.
Proof using Type.
  intros E He. apply stry_Ok in E. unfold withTx in E.
  destruct (env_begin _) as [x|] eqn:Eb; [injection E as <- _; by rewrite (de_begin _ _ Eb) in He|].
  unfold ResolutionCacheRepo_Get, sbind, smapErr, queryRow, query, sbind, stmt in E. cbn [saborted sn sdb] in E.
  destruct (env_fault _) as [x|] eqn:Ef.
  { injection E as <- _. destruct (de_fault _ _ Ef) as [Hx Hn]. unfold scanErr in He. rewrite Hn in He. simpl in He. congruence. }
  cbn [sdb] in E. destruct (pdResolutions _ !! _) as [row|] eqn:Er; [|done]. exfalso. simpl in E.
  destruct (env_commit _) as [[x b]|] eqn:Ec; [|done]. injection E as <- _. by rewrite (de_commit _ _ _ Ec) in He.
Qed.

(** ** A resolution *)

Context {Hdrv : DriverErrors}.
Context (Hspotify : forall c, spotify = Some c -> FaithfulProvider PROVIDER_SPOTIFY c).
Context (Hyoutube : forall c, youtube = Some c -> FaithfulProvider PROVIDER_YOUTUBE c).

(** A miss resolves the reference that was asked for, and writes nothing. *)
Lemma resolveMiss_keeps h p slug externalRef : relates (keeps pdResolutions) (resolveMiss spotify youtube h p slug externalRef).
Proof using Hspotify Hyoutube.
  unfold resolveMiss, GetUserToken. destruct (p =? PROVIDER_SPOTIFY).
  - destruct spotify as [c|]; [|apply relates_quiet; [apply keeps_refl|quiet_tac]].
    apply relates_bind_l; [apply keeps_refl|quiet_tac|]. intros tok.
    apply relates_mapErr, (fp_keeps (FaithfulProvider := Hspotify c eq_refl)).
  - destruct youtube as [c|]; [|apply relates_quiet; [apply keeps_refl|quiet_tac]].
    apply relates_mapErr, (fp_keeps (FaithfulProvider := Hyoutube c eq_refl)).
Qed.

Lemma resolveMiss_media h p slug externalRef s m s' :
  providerSlug p = Ok slug -> resolveMiss spotify youtube h p slug externalRef s = (Ok m, s') ->
  rmExternalRef m = externalRef /\ (rmPlayableURL m = "" \/ rmPlayableURL m = playableURL p externalRef).
Proof using Hspotify Hyoutube.
  unfold resolveMiss, providerSlug. intros Hp E. destruct (Z.eqb_spec p PROVIDER_SPOTIFY) as [->|_].
  - destruct spotify as [c|]; [|done]. apply sbind_Ok in E as (tok & s1 & _ & E). apply smapErr_Ok in E.
    by apply (fp_media (FaithfulProvider := Hspotify c eq_refl)) in E.
  - destruct (Z.eqb_spec p PROVIDER_YOUTUBE) as [->|]; [|done]. destruct youtube as [c|]; [|done]. apply smapErr_Ok in E.
    by apply (fp_media (FaithfulProvider := Hyoutube c eq_refl)) in E.
Qed.

(** What a resolution can do: fail and store nothing, answer from the cache, or
    store what the provider said under the reference asked for. *)
Lemma Resolve_cases h p externalRef s r s' :
  Resolve spotify youtube h p externalRef s = (r, s') ->
  (pdResolutions (sdb s') = pdResolutions (sdb s) /\
     ((exists e, r = Err e) \/
      exists slug row, providerSlug p = Ok slug /\ pdResolutions (sdb s) !! (slug, externalRef) = Some row /\
        r = Ok (rowResponse p externalRef row))) \/
  exists slug row, providerSlug p = Ok slug /\ pdResolutions (sdb s) !! (slug, externalRef) = None /\
    pdResolutions (sdb s') = <[(slug, externalRef) := row]> (pdResolutions (sdb s)) /\
    ((exists e, r = Err e) \/ r = Ok (rowResponse p externalRef row)).
Proof using Hspotify Hyoutube Hdrv.
  unfold Resolve. intros E. destruct (ctxDone s) as [c s0] eqn:Ec.
  assert (sdb s0 = sdb s) as Hs0 by (unfold ctxDone in Ec; by destruct (env_ctx _); injection Ec as <- <-).
  unfold sbind at 1 in E. rewrite Ec in E. rewrite <- Hs0. clear Ec Hs0.
  destruct c as [[]|e]; [|injection E as <- <-; left; split; [done|by left; eexists]].
  case_bool_decide; [injection E as <- <-; left; split; [done|by left; eexists]|].
  destruct (providerSlug p) as [slug|e] eqn:Hp; [|injection E as <- <-; left; split; [done|by left; eexists]].
  unfold sbind at 1 in E. destruct (stry _ s0) as [g s1] eqn:Eg. pose proof (quiet_cacheGet slug externalRef s0) as Hq.
  rewrite Eg in Hq. simpl in Hq. rewrite <- Hq.
  destruct g as [[m|e]|e]; [| |exfalso; unfold stry in Eg; by destruct (withTx _ s0)].
  { apply cacheGet_row in Eg as (row & Hrow & ->). injection E as <- <-. left. split; [done|]. right. exists slug, row. by rewrite Hq. }
  destruct (isNotFound e) eqn:He; simpl in E; [|injection E as <- <-; left; split; [done|by left; eexists]].
  pose proof (cacheGet_absent _ _ _ _ _ Eg He) as Hnone. rewrite <- Hq in Hnone. clear Eg Hq.
  pose proof (resolveMiss_keeps h p slug externalRef s1) as Hk. unfold keeps in Hk.
  unfold sbind at 1 in E. destruct (resolveMiss _ _ _ _ _ _ s1) as [[m|e2] s2] eqn:Em; simpl in Hk;
    [|injection E as <- <-; left; split; [done|by left; eexists]].
  destruct (resolveMiss_media _ _ _ _ _ _ _ Hp Em) as [Href Hplay].
  unfold sbind at 1, smapErr at 1 in E. destruct (withTx _ s2) as [w s3] eqn:Ew.
  assert (s' = s3) as -> by (destruct w; by injection E).
  apply withTx_cases in Ew as [[Hs [x ->]]|([] & s4 & Hu & _ & Hs & Hw)].
  - injection E as <-. left. split; [by rewrite Hs|by left; eexists].
  - right. exists slug, (mkCacheRow (rmTitle m) (rmArtist m) (rmCoverURL m) (rmDurationMs m)).
    unfold ResolutionCacheRepo_Upsert in Hu. apply smapErr_Ok, stmt_Ok in Hu as [Hu _]. simpl in Hu.
    repeat match type of Hu with (if ?b then _ else _) = _ => destruct b; [discriminate Hu|] end. injection Hu as Hu. split_and!; [done|done| |].
    + by rewrite Hs, <- Hu, Href, <- Hk.
    + destruct Hw as [->|[x ->]]; [right|left; injection E as <-; by eexists]. injection E as <-. f_equal. unfold rowResponse, resolveResponse, fillPlayableURL. simpl.
      destruct Hplay as [Hplay|Hplay]; rewrite Hplay; simpl; [by rewrite Href|].
      by case_bool_decide; simpl; rewrite ?Href, ?Hplay.
Qed.
End service.

(** ** Runs of the service *)

(** The requests the service answers. *)
Inductive provider_op : Type :=
| OpSearch (p : ProviderName) (q : string) (limit : Z)
| OpResolve (h : Header) (p : ProviderName) (externalRef : string).

Definition provider_exec `{Env} `{AuthService} (spotify youtube : option ExternalProvider) (op : provider_op) : SM ProviderDB unit :=
  match op with
  | OpSearch p q limit => stry (Search spotify youtube p q limit) ;;; sret tt
  | OpResolve h p externalRef => stry (Resolve spotify youtube h p externalRef) ;;; sret tt
  end.

Fixpoint provider_run `{Env} `{AuthService} (spotify youtube : option ExternalProvider) (ops : list provider_op)
    (s : st ProviderDB) : st ProviderDB :=
  match ops with
  | [] => s
  | op :: ops => provider_run spotify youtube ops (provider_exec spotify youtube op s).2
  end.

Section runs.
Context `{Env} `{AuthService} {Hdrv : DriverErrors} (spotify youtube : option ExternalProvider).
Context (Hspotify : forall c, spotify = Some c -> FaithfulProvider PROVIDER_SPOTIFY c).
Context (Hyoutube : forall c, youtube = Some c -> FaithfulProvider PROVIDER_YOUTUBE c).

Lemma Search_keeps p q limit : relates (keeps pdResolutions) (Search spotify youtube p q limit).
Proof using Hspotify Hyoutube.
  unfold Search. apply relates_bind_l; [apply keeps_refl|quiet_tac|]. intros [].
  destruct (bool_decide _); [apply relates_quiet; [apply keeps_refl|quiet_tac]|].
  destruct (searchProvider _ _ p) as [c|e] eqn:Ec; [|apply relates_quiet; [apply keeps_refl|quiet_tac]].
  apply relates_bind_r; [|intros; quiet_tac]. apply relates_mapErr. unfold searchProvider in Ec.
  destruct (p =? PROVIDER_SPOTIFY); [|destruct (p =? PROVIDER_YOUTUBE); [|done]].
  - destruct spotify as [c'|] eqn:Es; [|done]. injection Ec as <-. apply (fp_search (FaithfulProvider := Hspotify c' eq_refl)).
  - destruct youtube as [c'|] eqn:Es; [|done]. injection Ec as <-. apply (fp_search (FaithfulProvider := Hyoutube c' eq_refl)).
Qed.

(** A row of the cache is never replaced. *)
Lemma exec_keeps_row op k row s :
  pdResolutions (sdb s) !! k = Some row -> pdResolutions (sdb (provider_exec spotify youtube op s).2) !! k = Some row.
Proof using Hspotify Hyoutube Hdrv.
  intros Hrow. destruct op as [p q limit|h p externalRef]; cbn [provider_exec].
  - pose proof (Search_keeps p q limit) as Hs.
    specialize (Hs s). unfold sbind, stry. destruct (Search _ _ _ _ _ s) as [r s']. simpl in *. by rewrite Hs.
  - unfold sbind, stry. destruct (Resolve spotify youtube h p externalRef s) as [r s'] eqn:E. simpl.
    apply (Resolve_cases spotify youtube Hspotify Hyoutube) in E as [[-> _]|(slug & row' & _ & Hnone & -> & _)]; [done|].
    rewrite lookup_insert_ne; [done|]. intros <-. congruence.
Qed.

Lemma run_keeps_row ops k row s :
  pdResolutions (sdb s) !! k = Some row -> pdResolutions (sdb (provider_run spotify youtube ops s)) !! k = Some row.
Proof using Hspotify Hyoutube Hdrv.
  revert s. induction ops as [|op ops IH]; intros s Hrow; [done|]. by apply IH, exec_keeps_row.
Qed.
End runs.

(** C26. A resolution is stable, for provider clients that answer for the reference
    they are asked for ([FaithfulProvider]: the YouTube client always, the Spotify
    client when the API answers with the track asked for and not with one it was
    relinked to) and requests served one after the other: once the service has
    answered a reference, every later answer for the reference is the same,
    whatever was asked in between, whoever asks, and whether or not interactions
    fail in between. *)
Theorem resolve_stable `{Env} `{AuthService} {Hdrv : DriverErrors} (spotify youtube : option ExternalProvider)
    (Hspotify : forall c, spotify = Some c -> FaithfulProvider PROVIDER_SPOTIFY c)
    (Hyoutube : forall c, youtube = Some c -> FaithfulProvider PROVIDER_YOUTUBE c)
    h h' p externalRef s a s1 ops b s2 :
  Resolve spotify youtube h p externalRef s = (Ok a, s1) ->
  Resolve spotify youtube h' p externalRef (provider_run spotify youtube ops s1) = (Ok b, s2) ->
  b = a.
Proof.
  intros Ha Hb.
  assert (exists slug row, providerSlug p = Ok slug /\ pdResolutions (sdb s1) !! (slug, externalRef) = Some row /\
            a = rowResponse p externalRef row) as (slug & row & Hslug & Hrow & ->).
  { apply (Resolve_cases spotify youtube Hspotify Hyoutube) in Ha as [[-> [[e [=]]|(slug & row & Hslug & Hrow & [= ->])]]|
      (slug & row & Hslug & _ & -> & [[e [=]]|[= ->]])].
    - by exists slug, row.
    - exists slug, row. by rewrite lookup_insert_eq. }
  apply (run_keeps_row spotify youtube Hspotify Hyoutube ops) in Hrow.
  apply (Resolve_cases spotify youtube Hspotify Hyoutube) in Hb as [[_ [[e [=]]|(slug' & row' & Hslug' & Hrow' & [= ->])]]|
    (slug' & row' & Hslug' & Hnone & _)]; congruence.
Qed.

#[global] Instance Calm_DriverErrors `{E : Env} `{!Calm E} : DriverErrors.
Proof.
  split.
  - intros n e. by rewrite calm_begin.
  - intros n e. by rewrite calm_fault.
  - intros n e b. by rewrite calm_commit.
Qed.

(** A row is answered without the provider. *)
Lemma Resolve_hit `{E : Env} `{!Calm E} `{AuthService} spotify youtube h p externalRef slug row s :
  externalRef <> "" -> providerSlug p = Ok slug -> pdResolutions (sdb s) !! (slug, externalRef) = Some row ->
  (Resolve spotify youtube h p externalRef s).1 = Ok (rowResponse p externalRef row).
Proof.
  intros Href Hslug Hrow. unfold Resolve. unfold sbind at 1, ctxDone. rewrite calm_ctx.
  rewrite bool_decide_eq_false_2 by done. rewrite Hslug. unfold sbind at 1, stry, withTx.
  rewrite calm_begin. unfold ResolutionCacheRepo_Get, sbind, smapErr, queryRow, query, sbind, stmt. cbn [saborted sdb sn].
  rewrite calm_fault. cbn [sdb step_n]. rewrite Hrow. simpl. by rewrite calm_commit.
Qed.

(** Once the service has answered a reference it goes on answering it: with
    a database that works, the answer is given again after any requests, for any
    caller, also when the provider is switched off or refuses everything. *)
Theorem resolve_available `{E : Env} `{!Calm E} `{AuthService} (spotify youtube : option ExternalProvider)
    (Hspotify : forall c, spotify = Some c -> FaithfulProvider PROVIDER_SPOTIFY c)
    (Hyoutube : forall c, youtube = Some c -> FaithfulProvider PROVIDER_YOUTUBE c)
    spotify' youtube' h h' p externalRef s a s1 ops :
  Resolve spotify youtube h p externalRef s = (Ok a, s1) ->
  (Resolve spotify' youtube' h' p externalRef (provider_run spotify youtube ops s1)).1 = Ok a.
Proof.
  intros Ha. assert (externalRef <> "") as Href.
  { intros ->. unfold Resolve in Ha. apply sbind_Ok in Ha as ([] & s0 & _ & Ha). done. }
  apply (Resolve_cases spotify youtube Hspotify Hyoutube) in Ha as [[Hdb [[e [=]]|(slug & row & Hslug & Hrow & [= ->])]]|
      (slug & row & Hslug & _ & Hdb & [[e [=]]|[= ->]])].
  - eapply Resolve_hit; [done..|]. apply (run_keeps_row spotify youtube Hspotify Hyoutube). by rewrite Hdb.
  - eapply Resolve_hit; [done..|]. apply (run_keeps_row spotify youtube Hspotify Hyoutube). by rewrite Hdb, lookup_insert_eq.
Qed.

(** ** On a small internet *)

(** The titles change at every look-up; the interaction 20 fails. *)
#[local] Instance driftingWeb : HttpClient := {
  httpDo n r := match hrMethod r with
    | POST => Ok (200, Some (BodyToken (mkTokenResponse ("tok" +:+ pretty n) 3600)))
    | GET => if bool_decide (hrURL r = tracksURL +:+ "relinked")
             then Ok (200, Some (BodyTrack (mkTrack "canonical" "Song" [] [] 1000)))
             else if bool_decide (hrURL r = tracksURL +:+ "t1")
             then Ok (200, Some (BodyTrack (mkTrack "t1" ("Song " +:+ pretty n) [] [] 1000)))
             else if bool_decide (hrURL r = tracksURL +:+ "long")
             then Ok (200, Some (BodyTrack (mkTrack "long" (ofBytes (repeat 97 256)) [] [] 1000)))
             else Ok (200, Some (BodyOembed (mkOembed ("Video " +:+ pretty n) "me" "")))
    end;
  urlPathEscape s := s;
}.
#[local] Instance noRedisFault : RedisEnv := fun _ => None.
#[local] Instance noTokens : AuthService := fun _ _ _ => Err (EMsg "none").
Definition flakyEnv : Env := {|
  env_ctx _ := None; env_begin _ := None; env_fault n := if Nat.eqb n 20 then Some (EMsg "reset") else None;
  env_commit _ := None; env_now n := Z.of_nat n; env_id n := pretty n; env_rand _ k := repeat 7 k;
|}.
#[local] Existing Instance flakyEnv.
#[local] Instance flakyEnv_errors : DriverErrors.
Proof. split; [done| |done]. intros n e. simpl. case_match; [|done]. by intros [= <-]. Qed.

Definition demoYouTube : option ExternalProvider := Some youtubeClient.
Definition demoSpotify : option ExternalProvider := Some (spotifyClient "id" "secret" true).
Definition demoProvider : st ProviderDB := mkSt (mkProviderDB ∅ ∅) 0 false.
Definition demoAnswer : ResolveResponse := mkResolveResponse "Video 4" "me" "" 0 "https://www.youtube.com/watch?v=v1".
Definition demoAsked : list provider_op :=
  [OpResolve ∅ PROVIDER_YOUTUBE "v2"; OpSearch PROVIDER_YOUTUBE "x" 3; OpResolve ∅ PROVIDER_YOUTUBE "v3"].
Definition demoResolved : st ProviderDB := (Resolve None demoYouTube ∅ PROVIDER_YOUTUBE "v1" demoProvider).2.

Lemma demoResolved_eq : Resolve None demoYouTube ∅ PROVIDER_YOUTUBE "v1" demoProvider = (Ok demoAnswer, demoResolved).
Proof. by vm_compute. Qed.

Lemma resolve_stable_witness : exists a s2,
  Resolve None demoYouTube ∅ PROVIDER_YOUTUBE "v1" (provider_run None demoYouTube demoAsked demoResolved) = (Ok a, s2) /\
  a = demoAnswer.
Proof.
  destruct (Resolve None demoYouTube ∅ PROVIDER_YOUTUBE "v1" (provider_run None demoYouTube demoAsked demoResolved))
    as [[b|e] s2] eqn:Eb; [|exfalso; by vm_compute in Eb].
  exists b, s2. split; [exact eq_refl|].
  refine (resolve_stable None demoYouTube _ _ ∅ ∅ PROVIDER_YOUTUBE "v1" demoProvider demoAnswer demoResolved demoAsked b s2 demoResolved_eq Eb).
  - intros c [=].
  - intros c [= <-]. apply youtubeClient_faithful.
Defined.

Definition quietEnv : Env := calmEnv Z.of_nat (fun n => pretty n).
Definition quietResolved : st ProviderDB := (Resolve (H := quietEnv) None demoYouTube ∅ PROVIDER_YOUTUBE "v1" demoProvider).2.
Lemma quietResolved_eq :
  Resolve (H := quietEnv) None demoYouTube ∅ PROVIDER_YOUTUBE "v1" demoProvider = (Ok demoAnswer, quietResolved).
Proof. by vm_compute. Qed.

Lemma resolve_available_witness :
  (Resolve (H := quietEnv) None None ∅ PROVIDER_YOUTUBE "v1"
     (provider_run (H := quietEnv) None demoYouTube demoAsked quietResolved)).1 = Ok demoAnswer.
Proof.
  refine (resolve_available (E := quietEnv) None demoYouTube _ _ None None ∅ ∅ PROVIDER_YOUTUBE "v1" demoProvider demoAnswer
            quietResolved demoAsked quietResolved_eq).
  - intros c [=].
  - intros c [= <-]. apply youtubeClient_faithful.
Defined.

(** ** Where the code differs from its comments *)

(** Spotify answers a relinked track under another id; the row is stored under
    that id, so the reference asked for is never found in the cache. *)
Example relinked_never_cached :
  let '(r, s) := Resolve demoSpotify None ∅ PROVIDER_SPOTIFY "relinked" demoProvider in
  (exists a, r = Ok a) /\ pdResolutions (sdb s) !! ("spotify", "relinked") = None /\
  is_Some (pdResolutions (sdb s) !! ("spotify", "canonical")).
Proof. vm_compute. split_and!; [by eexists|done|by eexists]. Qed.

(** Media with a long title is resolved and then refused: the row does not fit. *)
Example long_title_refused :
  match (Resolve demoSpotify None ∅ PROVIDER_SPOTIFY "long" demoProvider).1 with
  | Err (EVb v) => Reason v = "RESOLVE_CACHE_WRITE_FAILED"
  | _ => False
  end.
Proof. by vm_compute. Qed.

(** A short-lived token is cached for longer than it lives. *)
Example short_token_outlived : tokenTTL 30 = 60 * Second /\ 30 * Second < tokenTTL 30.
Proof. done. Qed.
