(* ===== verification/AuthDomain.v ===== *)
(** * The auth service's data

    Model of [apps/auth-service/internal/domain]: the statuses of [status.go],
    users and their validation ([user.go]), sessions ([session.go]), refresh
    tokens ([refresh_token.go]), OAuth flows and links ([oauth_flow.go]) and
    signing keys ([signing_key.go]); with the rows of the service's tables and
    the way its repositories report a missing row. *)

From S2P Require Import Prelude GoNum GoFloat Errors GoString GoRegexp GoUnicode Store RoomDomain Outbox.

(** ** Statuses *)

Definition UserStatus : Type := Z.
Definition UserStatusActive : UserStatus := 1.
Definition CanLogin (s : UserStatus) : bool := s =? UserStatusActive.

Definition RefreshTokenStatus : Type := Z.
Definition StatusUnspecified : RefreshTokenStatus := 0.
Definition StatusActive : RefreshTokenStatus := 1.
Definition StatusUsed : RefreshTokenStatus := 2.
Definition StatusRevoked : RefreshTokenStatus := 3.
Definition StatusCompromised : RefreshTokenStatus := 4.
Definition StatusExpired : RefreshTokenStatus := 5.

(** ** Users and sessions *)

Record User : Type := mkUser {
  uID : string;
  uEmail : string;
  uUsername : string;
  uDisplayName : string;
  uAvatarURL : string;
  uPasswordHash : string;
  uSystemRole : SystemRole;
  uStatus : UserStatus;
  uCreatedAt : time;
  uUpdatedAt : time;
}.

Definition CanAuthenticate (u : User) : bool := CanLogin (uStatus u).
Definition HasPassword (u : User) : bool := negb (bool_decide (uPasswordHash u = "")).

Record Session : Type := mkSession {
  seID : string;
  seUserID : string;
  seDeviceLabel : string;
  seFamilyID : string;
  seCreatedAt : time;
  seLastSeenAt : time;
  seExpiresAt : time;
}.

Definition NewSession (now : time) (id userID familyID : string) (ttl : duration) (deviceLabel : string)
    : Session :=
  mkSession id userID deviceLabel familyID now now (now + ttl).

Definition SessionIsExpired (now : time) (s : Session) : bool := negb (now <? seExpiresAt s).

(** ** Refresh tokens *)

Record RefreshToken : Type := mkRT {
  rtID : string;
  rtFamilyID : string;
  rtUserID : string;
  rtSessionID : string;
  rtSelector : string;
  rtValidatorHash : string;
  rtRotatedFrom : string;
  rtStatus : RefreshTokenStatus;
  rtExpiresAt : time;
  rtCreatedAt : time;
  rtUsedAt : time;
  rtRevokedAt : time;
}.

Definition set_rtUsed (st : RefreshTokenStatus) (at_ : time) (t : RefreshToken) : RefreshToken :=
  mkRT (rtID t) (rtFamilyID t) (rtUserID t) (rtSessionID t) (rtSelector t) (rtValidatorHash t)
    (rtRotatedFrom t) st (rtExpiresAt t) (rtCreatedAt t) at_ (rtRevokedAt t).
Definition set_rtRevoked (st : RefreshTokenStatus) (at_ : time) (t : RefreshToken) : RefreshToken :=
  mkRT (rtID t) (rtFamilyID t) (rtUserID t) (rtSessionID t) (rtSelector t) (rtValidatorHash t)
    (rtRotatedFrom t) st (rtExpiresAt t) (rtCreatedAt t) (rtUsedAt t) at_.

(** The transitions of the aggregate; the use cases write the same changes with
    the repository's statements. *)
Definition MarkUsed (now : time) (t : RefreshToken) : RefreshToken := set_rtUsed StatusUsed now t.
Definition MarkRevoked (now : time) (t : RefreshToken) : RefreshToken := set_rtRevoked StatusRevoked now t.
Definition MarkCompromised (now : time) (t : RefreshToken) : RefreshToken := set_rtRevoked StatusCompromised now t.

Definition ErrExpired : error := EMsg "refresh token: expired".
Definition ErrRevoked : error := EMsg "refresh token: revoked".
Definition ErrReuse : error := EMsg "refresh token: reuse detected".
Definition ErrCompromised : error := EMsg "refresh token: family compromised".

Inductive UseOutcome : Type :=
| UseOutcomeUnspecified
| UseOutcomeRotate
| UseOutcomeReuse
| UseOutcomeCompromised
| UseOutcomeRevoked
| UseOutcomeExpired.

(** [UseAction]: the outcome and its error. *)
Definition ClassifyUse (now : time) (t : RefreshToken) : UseOutcome * option error :=
  if rtStatus t =? StatusCompromised then (UseOutcomeCompromised, Some ErrCompromised)
  else if rtStatus t =? StatusRevoked then (UseOutcomeRevoked, Some ErrRevoked)
  else if negb (now <? rtExpiresAt t) then (UseOutcomeExpired, Some ErrExpired)
  else if rtStatus t =? StatusUsed then (UseOutcomeReuse, Some ErrReuse)
  else if rtStatus t =? StatusActive then (UseOutcomeRotate, None)
  else (UseOutcomeRevoked, Some ErrRevoked).

(** [ValidatorMaterial] and its wire form. *)
Record ValidatorMaterial : Type := mkVM {
  vmSelector : string;
  vmValidator : string;
}.
Definition PresentationToken (v : ValidatorMaterial) : string :=
  (vmSelector v +:+ "." +:+ vmValidator v)%string.

(** [randomURL(n)] of [n] random bytes. *)
Definition randomURL (rnd : list Z) : string := ofBytes (base64RawURL rnd).

Definition selectorBytes : nat := 12.
Definition validatorBytes : nat := 32.

(** [selRnd] and [valRnd] are the random bytes. *)
Definition NewRefreshToken (selRnd valRnd : list Z) (now : time)
    (id familyID userID sessionID rotatedFrom : string) (ttl : duration)
    (hashFn : string -> res error string) : res error (RefreshToken * ValidatorMaterial) :=
  let selector := randomURL selRnd in
  let validator := randomURL valRnd in
  match hashFn validator with
  | Err e => Err e
  | Ok vhash =>
      Ok (mkRT id familyID userID sessionID selector vhash rotatedFrom StatusActive (now + ttl) now
            time_zero time_zero, mkVM selector validator)
  end.

(** [strings.IndexByte(token, '.')]. *)
Fixpoint indexDot (l : list Z) : option nat :=
  match l with
  | [] => None
  | b :: l => if b =? 46 then Some 0%nat else option_map S (indexDot l)
  end.

Definition splitSelectorValidator (token : string) : string * string :=
  let l := bytes token in
  match indexDot l with
  | None => ("", "")
  | Some idx =>
      if (idx =? 0)%nat || (idx =? length l - 1)%nat then ("", "")
      else (ofBytes (take idx l), ofBytes (drop (idx + 1) l))
  end.

(** ** Creating a user *)

Definition ErrEmailInvalid : error := EMsg "user: invalid email".
Definition ErrUsernameInvalid : error := EMsg "user: invalid username".
Definition ErrDisplayNameTooLong : error := EMsg "user: display name too long".

(** [[^\s@]]: the white space of the expression syntax is ASCII. *)
Definition notSpaceAt (b : Z) : bool :=
  negb ((b =? 9) || (b =? 10) || (b =? 12) || (b =? 13) || (b =? 32) || (b =? 64)).
(** [^[^\s@]+@[^\s@]+\.[^\s@]+$]. *)
Definition emailRe : regexp :=
  RSeq (RPlus (RClass notSpaceAt)) (RSeq (RByte 64)
    (RSeq (RPlus (RClass notSpaceAt)) (RSeq (RByte 46) (RPlus (RClass notSpaceAt))))).

Definition isLower (b : Z) : bool := (97 <=? b) && (b <=? 122).
Definition isWord (b : Z) : bool := isLower b || ((48 <=? b) && (b <=? 57)) || (b =? 95).
(** [^[a-z][a-z0-9_]{2,31}$]. *)
Definition usernameRe : regexp := RSeq (RClass isLower) (RRepeat 2 31 (RClass isWord)).

Record NewUserParams : Type := mkNewUserParams {
  npEmail : string;
  npUsername : string;
  npDisplayName : string;
  npAvatarURL : string;
}.

Definition NewUser `{UnicodeLower} (now : time) (p : NewUserParams) : res error User :=
  let email := TrimSpace (ToLower (npEmail p)) in
  if negb (MatchString emailRe email) then Err ErrEmailInvalid
  else
    let username := TrimSpace (ToLower (npUsername p)) in
    if negb (MatchString usernameRe username) then Err ErrUsernameInvalid
    else
      let display := TrimSpace (npDisplayName p) in
      if 100 <? slen display then Err ErrDisplayNameTooLong
      else
        let display := if bool_decide (display = "") then username else display in
        Ok (mkUser "" email username display (TrimSpace (npAvatarURL p)) "" SYSTEM_USER UserStatusActive now now).

(** [at_] is the wall clock. *)
Definition SetPassword (at_ : time) (hash : string) (u : User) : User :=
  mkUser (uID u) (uEmail u) (uUsername u) (uDisplayName u) (uAvatarURL u) hash (uSystemRole u) (uStatus u)
    (uCreatedAt u) at_.
Definition set_uID (id : string) (u : User) : User :=
  mkUser id (uEmail u) (uUsername u) (uDisplayName u) (uAvatarURL u) (uPasswordHash u) (uSystemRole u)
    (uStatus u) (uCreatedAt u) (uUpdatedAt u).

(** ** OAuth flows, links and provider tokens *)

Record OAuthFlow : Type := mkOAuthFlow {
  ofState : string;
  ofProvider : string;
  ofRedirectURI : string;
  ofCodeChallenge : string;
  ofUserAgent : string;
  ofCreatedAt : time;
  ofExpiresAt : time;
}.

Definition stateBytes : nat := 16.

(** [rnd] are the random bytes of the state. *)
Definition NewOAuthFlow (rnd : list Z) (now : time) (provider redirectURI codeChallenge userAgent : string)
    (ttl : duration) : OAuthFlow :=
  mkOAuthFlow (randomURL rnd) provider redirectURI codeChallenge userAgent now (now + ttl).

Definition FlowIsExpired (now : time) (f : OAuthFlow) : bool := negb (now <? ofExpiresAt f).

Record OAuthAccount : Type := mkOAuthAccount {
  oaUserID : string;
  oaProvider : string;
  oaProviderUserID : string;
  oaCreatedAt : time;
}.

Record ProviderProfile : Type := mkProfile {
  ppProvider : string;
  ppProviderUserID : string;
  ppEmail : string;
  ppEmailVerified : bool;
  ppDisplayName : string;
  ppAvatarURL : string;
}.

(** [postgres.ProviderToken]: the tokens are encrypted. *)
Record ProviderToken : Type := mkProviderToken {
  ptProvider : string;
  ptUserID : string;
  ptAccessTokenEnc : string;
  ptRefreshTokenEnc : string;
  ptExpiresAt : time;
  ptUpdatedAt : time;
}.

(** ** Signing keys *)

Definition SigningKeyStatus : Type := Z.
Definition SigningKeyStatusActive : SigningKeyStatus := 1.
Definition SigningKeyStatusRetired : SigningKeyStatus := 2.

Record SigningKey : Type := mkSigningKey {
  skKID : string;
  skStatus : SigningKeyStatus;
  skPrivateEncrypted : string;
  skPublicJWK : string;
  skCreatedAt : time;
  skRetiredAt : time;
}.

Definition Retire (now : time) (k : SigningKey) : SigningKey :=
  mkSigningKey (skKID k) SigningKeyStatusRetired (skPrivateEncrypted k) (skPublicJWK k) (skCreatedAt k) now.

Definition KIDPrefix : string := "vk1_".
Definition NewKID (rnd : list Z) : string := (KIDPrefix +:+ randomURL rnd)%string.

(** ** The database *)

Record AuthDB : Type := mkAuthDB {
  dUsers : gmap string User;
  dSessions : gmap string Session;
  dTokens : gmap string RefreshToken;
  dFlows : gmap string OAuthFlow;
  dAccounts : gmap (string * string) OAuthAccount;            (* (provider, provider user) *)
  dProviderTokens : gmap (string * string) ProviderToken;     (* (provider, user) *)
  dKeys : gmap string SigningKey;
  dEvents : list (OutRow Payload);                            (* the outbox *)
}.

Definition set_dUsers f (d : AuthDB) : AuthDB :=
  mkAuthDB (f (dUsers d)) (dSessions d) (dTokens d) (dFlows d) (dAccounts d) (dProviderTokens d) (dKeys d) (dEvents d).
Definition set_dSessions f (d : AuthDB) : AuthDB :=
  mkAuthDB (dUsers d) (f (dSessions d)) (dTokens d) (dFlows d) (dAccounts d) (dProviderTokens d) (dKeys d) (dEvents d).
Definition set_dTokens f (d : AuthDB) : AuthDB :=
  mkAuthDB (dUsers d) (dSessions d) (f (dTokens d)) (dFlows d) (dAccounts d) (dProviderTokens d) (dKeys d) (dEvents d).
Definition set_dFlows f (d : AuthDB) : AuthDB :=
  mkAuthDB (dUsers d) (dSessions d) (dTokens d) (f (dFlows d)) (dAccounts d) (dProviderTokens d) (dKeys d) (dEvents d).
Definition set_dAccounts f (d : AuthDB) : AuthDB :=
  mkAuthDB (dUsers d) (dSessions d) (dTokens d) (dFlows d) (f (dAccounts d)) (dProviderTokens d) (dKeys d) (dEvents d).
Definition set_dProviderTokens f (d : AuthDB) : AuthDB :=
  mkAuthDB (dUsers d) (dSessions d) (dTokens d) (dFlows d) (dAccounts d) (f (dProviderTokens d)) (dKeys d) (dEvents d).
Definition set_dKeys f (d : AuthDB) : AuthDB :=
  mkAuthDB (dUsers d) (dSessions d) (dTokens d) (dFlows d) (dAccounts d) (dProviderTokens d) (f (dKeys d)) (dEvents d).
Definition set_dEvents f (d : AuthDB) : AuthDB :=
  mkAuthDB (dUsers d) (dSessions d) (dTokens d) (dFlows d) (dAccounts d) (dProviderTokens d) (dKeys d) (f (dEvents d)).

(** [CITEXT] equality. *)
Class PgCitext : Type := citextEq : string -> string -> bool.

(** The first row that satisfies a condition (on a unique column). *)
Definition findRow {A} (P : A -> bool) (m : gmap string A) : option A :=
  snd <$> List.find (fun kv => P kv.2) (map_to_list m).

