(* ===== verification/Auth.v ===== *)
(** * Sessions and refresh tokens

    Model of the auth service's token rotation (ADR-0011) over the data of
    [AuthDomain]: the statements of [infra/postgres/refresh_repo.go],
    [session_repo.go] and [user_repo.go] that log-in and rotation use, and the
    use cases of [app/login.go], [app/refresh.go] and [app/tokens.go] with
    [issueSessionForUser] of [app/oauth.go].

    The password hasher and the token signer are ports ([Hasher], [Signer]);
    how [CITEXT] compares e-mail addresses is Postgres's ([PgCitext]). *)

From S2P Require Import Prelude GoNum GoFloat Errors GoString Store RoomDomain AuthDomain.

Open Scope sm_scope.

Section repos.
Context `{Env}.

Definition UserRepo_GetByID (id : string) : SM AuthDB User :=
  smapErr (scanErr "user" "" "user_repo: scan") (queryRow (fun db => dUsers db !! id)).

Definition UserRepo_GetByEmail `{PgCitext} (email : string) : SM AuthDB User :=
  smapErr (scanErr "user" "" "user_repo: scan")
    (queryRow (fun db => findRow (fun u => citextEq (uEmail u) email) (dUsers db))).

Definition storedSession (s : Session) : Session :=
  mkSession (seID s) (seUserID s) (seDeviceLabel s) (seFamilyID s) (pgTime (seCreatedAt s))
    (pgTime (seLastSeenAt s)) (pgTime (seExpiresAt s)).

Definition SessionRepo_Create (s : Session) : SM AuthDB unit :=
  smapErr (EWrap "session_repo: create") (stmt (fun db =>
    if 100 <? charCount (seDeviceLabel s)
    then Err (EMsg "value too long for type character varying(100)")
    else if bool_decide (is_Some (dSessions db !! seID s)) then Err (EUniqueViolation "sessions_pkey")
    else if existsb (fun kv => bool_decide (seFamilyID kv.2 = seFamilyID s)) (map_to_list (dSessions db))
    then Err (EUniqueViolation "sessions_family_id_key")
    else match dUsers db !! seUserID s with
         | None => Err (EMsg "violates foreign key constraint")
         | Some _ => Ok (tt, set_dSessions (insert (seID s) (storedSession s)) db)
         end)).

(** [revoked_at] is always NULL: no use case calls [Revoke]. *)
Definition SessionRepo_GetByID (id : string) : SM AuthDB Session :=
  smapErr (scanErr "session" id "session_repo: scan") (queryRow (fun db => dSessions db !! id)).

(** [Session.Touch]. *)
Definition touch (at_ : time) (s : Session) : Session :=
  mkSession (seID s) (seUserID s) (seDeviceLabel s) (seFamilyID s) (seCreatedAt s) at_ (seExpiresAt s).

Definition SessionRepo_UpdateLastSeen (id : string) (at_ : time) : SM AuthDB unit :=
  smapErr (EWrap "session_repo: update_last_seen")
    (stmt (fun db => Ok (tt, set_dSessions (alter (touch (pgTime at_)) id) db))).

(** No statement reads [revoked_at], and it is not a field of [domain.Session]. *)
Definition SessionRepo_Revoke (id : string) (at_ : time) : SM AuthDB unit :=
  smapErr (EWrap "session_repo: revoke") (stmt (fun db => Ok (tt, db))).

Definition storedToken (t : RefreshToken) : RefreshToken :=
  mkRT (rtID t) (rtFamilyID t) (rtUserID t) (rtSessionID t) (rtSelector t) (rtValidatorHash t)
    (rtRotatedFrom t) (rtStatus t) (pgTime (rtExpiresAt t)) (pgTime (rtCreatedAt t)) time_zero time_zero.

Definition RefreshRepo_Create (t : RefreshToken) : SM AuthDB unit :=
  smapErr (EWrap "refresh_repo: create") (stmt (fun db =>
    if 32 <? charCount (rtSelector t)
    then Err (EMsg "value too long for type character varying(32)")
    else if bool_decide (is_Some (dTokens db !! rtID t)) then Err (EUniqueViolation "refresh_tokens_pkey")
    else if existsb (fun kv => bool_decide (rtSelector kv.2 = rtSelector t)) (map_to_list (dTokens db))
    then Err (EUniqueViolation "refresh_tokens_selector_key")
    else match dUsers db !! rtUserID t, dSessions db !! rtSessionID t with
         | Some _, Some _ => Ok (tt, set_dTokens (insert (rtID t) (storedToken t)) db)
         | _, _ => Err (EMsg "violates foreign key constraint")
         end)).

Definition RefreshRepo_GetBySelector (selector : string) : SM AuthDB RefreshToken :=
  smapErr (scanErr "refresh_token" "" "refresh_repo: scan")
    (queryRow (fun db => findRow (fun t => bool_decide (rtSelector t = selector)) (dTokens db))).

Definition RefreshRepo_MarkUsed (id : string) (at_ : time) : SM AuthDB unit :=
  smapErr (EWrap "refresh_repo: mark_used")
    (stmt (fun db => Ok (tt, set_dTokens (alter (MarkUsed (pgTime at_)) id) db))).

Definition RefreshRepo_MarkRevoked (id : string) (at_ : time) : SM AuthDB unit :=
  smapErr (EWrap "refresh_repo: mark_revoked")
    (stmt (fun db => Ok (tt, set_dTokens (alter (MarkRevoked (pgTime at_)) id) db))).

(** The rows of a family that are not compromised become so. *)
Definition burnFamily (familyID : string) (at_ : time) (t : RefreshToken) : RefreshToken :=
  if bool_decide (rtFamilyID t = familyID) && negb (rtStatus t =? StatusCompromised)
  then MarkCompromised at_ t else t.

Definition RefreshRepo_RevokeFamily (familyID : string) (at_ : time) : SM AuthDB Z :=
  smapErr (EWrap "refresh_repo: revoke_family")
    (stmt (fun db =>
       Ok (Z.of_nat (length (List.filter (fun kv => bool_decide (rtFamilyID kv.2 = familyID) &&
                                            negb (rtStatus kv.2 =? StatusCompromised))
                        (map_to_list (dTokens db)))),
           set_dTokens (fmap (burnFamily familyID (pgTime at_))) db))).
End repos.

(** ** The ports *)

Record AccessTokenClaims : Type := mkClaims {
  clSubject : string;
  clSystemRole : Z;     (* int32 *)
  clIssuer : string;
  clAudience : list string;
  clIssuedAt : time;
  clExpiresAt : time;
  clScope : string;
}.

(** [PasswordHasher]: [Hash] is salted, so its answer depends on the
    interaction. *)
Class Hasher : Type := {
  hashPassword : nat -> string -> res error string;
  comparePassword : string -> string -> bool;
}.

(** [TokenSigner.Sign]. *)
Class Signer : Type := signToken : nat -> AccessTokenClaims -> res error string.

(** [cfg.OAuth]: the names of the variables that hold the credentials. *)
Record OAuthConfig : Type := mkOAuthConfig {
  ocSpotifyClientIDEnv : string;
  ocSpotifyClientSecretEnv : string;
  ocGoogleClientIDEnv : string;
  ocGoogleClientSecretEnv : string;
}.

Record AuthConfig : Type := mkAuthConfig {
  acAccessTokenTTL : duration;
  acRefreshTokenTTL : duration;
  acSessionTTL : duration;
  acOAuthFlowTTL : duration;
  acKeyRotationInterval : duration;
  acIssuer : string;
  acOAuth : OAuthConfig;
}.

Record tokenMaterial : Type := mkMaterial {
  tmAccessToken : string;
  tmRefreshToken : string;
  tmExpiresIn : Z;
}.

(** [uint64(d.Seconds())]. *)
Definition wholeSeconds (d : duration) : Z :=
  uint64 (int64_of_float
    (fadd (float_of_Z (Z.quot d 1000000000))
          (fdiv (float_of_Z (Z.rem d 1000000000)) (flit 1000000000 1)))).

(** ** The use cases *)

Section service.
Context `{Env} `{PgCitext} `{Hasher} `{Signer}.
Context (cfg : AuthConfig).

Definition issueAccessToken (u : User) : SM AuthDB string :=
  now <- snow ;;
  lift (fun n => signToken n (mkClaims (uID u) (uSystemRole u) (acIssuer cfg) ["vibesync"] now
                                (now + acAccessTokenTTL cfg) "")).

Definition newRefreshToken (now : time) (id familyID userID sessionID rotatedFrom : string)
    : SM AuthDB (RefreshToken * ValidatorMaterial) :=
  selRnd <- srand selectorBytes ;; valRnd <- srand validatorBytes ;;
  lift (fun n => NewRefreshToken selRnd valRnd now id familyID userID sessionID rotatedFrom
                   (acRefreshTokenTTL cfg) (hashPassword n)).

Definition issueSessionForUser (user : User) (deviceLabel : string) : SM AuthDB (Session * tokenMaterial) :=
  now <- snow ;; sessionID <- snewID ;; familyID <- snewID ;;
  let sess := NewSession now sessionID (uID user) familyID (acSessionTTL cfg) deviceLabel in
  SessionRepo_Create sess ;;;
  rtID <- snewID ;;
  rv <- newRefreshToken now rtID familyID (uID user) sessionID "" ;;
  RefreshRepo_Create rv.1 ;;;
  access <- issueAccessToken user ;;
  sret (sess, mkMaterial access (PresentationToken rv.2) (wholeSeconds (acAccessTokenTTL cfg))).

(** The transaction of [loginUseCase]; from the session on it is the code of
    [issueSessionForUser]. *)
Definition loginTx (email password deviceLabel : string) : SM AuthDB (Session * tokenMaterial) :=
  user <- smapErr (fun e => if isNotFound e then EVb (Unauthenticated "INVALID_CREDENTIALS") else e)
            (UserRepo_GetByEmail email) ;;
  if negb (HasPassword user) then sfail (EVb (Unauthenticated "INVALID_CREDENTIALS"))
  else if negb (comparePassword (uPasswordHash user) password)
  then sfail (EVb (Unauthenticated "INVALID_CREDENTIALS"))
  else if negb (CanAuthenticate user)
  then sfail (EVb (PermissionDenied "login" ("user:" +:+ uID user)%string))
  else issueSessionForUser user deviceLabel.

Definition Login (email password deviceLabel : string) : SM AuthDB (string * tokenMaterial) :=
  ctxDone ;;;
  if bool_decide (email = "") || bool_decide (password = "")
  then sfail (EVb (InvalidArgumentFor "vibesync.auth" "MISSING_CREDENTIALS" "email and password required"))
  else
    sm <- withTx (loginTx email password deviceLabel) ;;
    sret (seUserID sm.1, sm.2).

(** The rotation, after the presented token has been classified. *)
Definition rotate (rt : RefreshToken) (now : time) : SM AuthDB (Session * tokenMaterial) :=
  user <- smapErr (fun e => if isNotFound e then EVb (Unauthenticated "INVALID_REFRESH_TOKEN") else e)
            (UserRepo_GetByID (rtUserID rt)) ;;
  if negb (CanAuthenticate user)
  then sfail (EVb (PermissionDenied "refresh" ("user:" +:+ uID user)%string))
  else
    RefreshRepo_MarkUsed (rtID rt) now ;;;
    newID <- snewID ;;
    rv <- newRefreshToken now newID (rtFamilyID rt) (uID user) (rtSessionID rt) (rtID rt) ;;
    RefreshRepo_Create rv.1 ;;;
    SessionRepo_UpdateLastSeen (rtSessionID rt) now ;;;
    access <- issueAccessToken user ;;
    sess <- SessionRepo_GetByID (rtSessionID rt) ;;
    sret (sess, mkMaterial access (PresentationToken rv.2) (wholeSeconds (acAccessTokenTTL cfg))).

(** [WithCause(action.Err)]. *)
Definition because (e : Error error) (cause : option error) : error :=
  EVb (match cause with Some c => WithCause c e | None => e end).

(** The transaction of [refreshUseCase]. *)
Definition refreshTx (selector validator : string) : SM AuthDB (Session * tokenMaterial) :=
  rt <- smapErr (fun e => if isNotFound e then EVb (Unauthenticated "INVALID_REFRESH_TOKEN") else e)
          (RefreshRepo_GetBySelector selector) ;;
  if negb (comparePassword (rtValidatorHash rt) validator)
  then sfail (EVb (Unauthenticated "INVALID_REFRESH_TOKEN"))
  else
    now <- snow ;;
    let action := ClassifyUse now rt in
    match action.1 with
    | UseOutcomeRotate => rotate rt now
    | UseOutcomeReuse =>
        RefreshRepo_RevokeFamily (rtFamilyID rt) now ;;;
        sfail (because (WithMeta "family_id" (rtFamilyID rt) (Unauthenticated "REUSE_DETECTED")) action.2)
    | UseOutcomeCompromised => sfail (because (Unauthenticated "FAMILY_COMPROMISED") action.2)
    | UseOutcomeRevoked => sfail (because (Unauthenticated "REVOKED") action.2)
    | UseOutcomeExpired => sfail (because (Unauthenticated "EXPIRED") action.2)
    | UseOutcomeUnspecified =>
        sfail (EVb (Internal "UNKNOWN_TOKEN_STATE" "unhandled refresh token state"))
    end.

Definition refreshUseCase (presented : string) : SM AuthDB (Session * tokenMaterial) :=
  let '(selector, validator) := splitSelectorValidator presented in
  if bool_decide (selector = "") || bool_decide (validator = "")
  then sfail (EVb (InvalidArgumentFor "vibesync.auth" "MALFORMED_REFRESH_TOKEN"
                     "expected <selector>.<validator>"))
  else withTx (refreshTx selector validator).

Definition RefreshTokenRPC (presented : string) : SM AuthDB (string * tokenMaterial) :=
  ctxDone ;;;
  if bool_decide (presented = "")
  then sfail (EVb (InvalidArgumentFor "vibesync.auth" "MISSING_REFRESH_TOKEN" "refresh_token required"))
  else
    sm <- refreshUseCase presented ;;
    sret (seUserID sm.1, sm.2).

(** The transaction of [Logout]: whether the token was revoked. *)
Definition logoutTx (selector : string) : SM AuthDB bool :=
  rt <- stry (RefreshRepo_GetBySelector selector) ;;
  match rt with
  | Err e => if isNotFound e then sret false else sfail e
  | Ok rt =>
      if rtStatus rt =? StatusActive then
        now <- snow ;; RefreshRepo_MarkRevoked (rtID rt) now ;;; sret true
      else sret false
  end.

Definition Logout (presented : string) : SM AuthDB bool :=
  ctxDone ;;;
  if bool_decide (presented = "") then sret false
  else
    let selector := (splitSelectorValidator presented).1 in
    if bool_decide (selector = "") then sret false
    else withTx (logoutTx selector).
End service.
