(* ===== verification/Register.v ===== *)
(** * Registration

    Model of [apps/auth-service/internal/app/register.go] with
    [UserRepo.Create] of [infra/postgres/user_repo.go]: a user row, the event
    that announces it and the first session, in one transaction. *)

From S2P Require Import Prelude GoNum Errors GoString GoUnicode GoTime Store RoomDomain Outbox AuthDomain Auth.

Open Scope sm_scope.

(** What the row holds of a user. *)
Definition storedUser (u : User) : User :=
  mkUser (uID u) (uEmail u) (uUsername u) (uDisplayName u) (uAvatarURL u) (uPasswordHash u)
    (int16 (uSystemRole u)) (int16 (uStatus u)) (pgTime (uCreatedAt u)) (pgTime (uUpdatedAt u)).

(** The columns' lengths and ranges. *)
Definition userColumnsOk (u : User) : option error :=
  if 32 <? charCount (uUsername u) then Some (EMsg "value too long for type character varying(32)")
  else if 100 <? charCount (uDisplayName u) then Some (EMsg "value too long for type character varying(100)")
  else if negb (within 0 4 (int16 (uSystemRole u))) then Some (EMsg "violates check constraint users_system_role_check")
  else if negb (within 0 3 (int16 (uStatus u))) then Some (EMsg "violates check constraint users_status_check")
  else None.

Definition UserRepo_Create `{Env} `{PgCitext} (u : User) : SM AuthDB unit :=
  smapErr (EWrap "user_repo: create") (stmt (fun db =>
    match userColumnsOk u with
    | Some e => Err e
    | None =>
        if bool_decide (is_Some (dUsers db !! uID u)) then Err (EUniqueViolation "users_pkey")
        else if existsb (fun kv => citextEq (uEmail kv.2) (uEmail u)) (map_to_list (dUsers db))
        then Err (EUniqueViolation "users_email_key")
        else if existsb (fun kv => bool_decide (uUsername kv.2 = uUsername u)) (map_to_list (dUsers db))
        then Err (EUniqueViolation "users_username_key")
        else Ok (tt, set_dUsers (insert (uID u) (storedUser u)) db)
    end)).

(** The mutable columns of the row; nothing in the service calls it. *)
Definition UserRepo_Update `{Env} (u : User) : SM AuthDB unit :=
  smapErr (EWrap "user_repo: update") (stmt (fun db =>
    match dUsers db !! uID u with
    | None => Ok (tt, db)
    | Some old =>
        match userColumnsOk (mkUser (uID old) (uEmail old) (uUsername old) (uDisplayName u) (uAvatarURL u)
                               (uPasswordHash u) (uSystemRole u) (uStatus u) (uCreatedAt old) (uUpdatedAt u)) with
        | Some e => Err e
        | None =>
            Ok (tt, set_dUsers (insert (uID u)
              (mkUser (uID old) (uEmail old) (uUsername old) (uDisplayName u) (uAvatarURL u) (uPasswordHash u)
                 (int16 (uSystemRole u)) (int16 (uStatus u)) (uCreatedAt old) (pgTime (uUpdatedAt u)))) db)
        end
    end)).

(** [errors.As] for a Postgres error with SQLSTATE 23505. *)
Fixpoint isUniqueViolation (e : error) : bool :=
  match e with
  | EUniqueViolation _ => true
  | EVb v => match Cause v with Some c => isUniqueViolation c | None => false end
  | EWrap _ c => isUniqueViolation c
  | _ => false
  end.

Definition OutboxAppend `{Env} (events : list (OutEvent Payload)) : SM AuthDB unit :=
  Append dEvents (fun rows => set_dEvents (fun _ => rows)) events.

(** [user.created.v1]. *)
Definition createdTopic : string := "user.created.v1".
Definition userCreatedEvent (id : string) (u : User) (provider : string) (now : time) : OutEvent Payload :=
  mkOutEvent id (uID u) createdTopic (uID u)
    (<["user_id" := JStr (uID u)]> (<["email" := JStr (uEmail u)]> (<["username" := JStr (uUsername u)]>
      (<["provider" := JStr provider]> (<["created_at" := JStr (FormatRFC3339 now)]> ∅)))))
    ∅ now "v1".

Section register.
Context `{Env} `{PgCitext} `{Hasher} `{Signer} `{UnicodeLower}.
Context (cfg : AuthConfig).

(** The transaction of [registerUseCase]. *)
Definition registerTx (email username password displayName deviceLabel : string)
    : SM AuthDB (Session * tokenMaterial) :=
  now <- snow ;;
  match NewUser now (mkNewUserParams email username displayName "") with
  | Err e => sfail (EVb (WithCause e (InvalidArgumentFor "vibesync.auth" "INVALID_FIELDS" (errText e))))
  | Ok user =>
      hash <- smapErr (fun e => EVb (WithCause e (Internal "PASSWORD_HASH_FAILED" (errText e))))
                (lift (fun n => hashPassword n password)) ;;
      at_ <- snow ;;
      let user := SetPassword at_ hash user in
      existing <- stry (UserRepo_GetByEmail (uEmail user)) ;;
      match existing with
      | Ok _ => sfail (EVb (AlreadyExists "user" (uEmail user)))
      | Err e =>
          if negb (isNotFound e) then sfail e
          else
            id <- snewID ;;
            let user := set_uID id user in
            smapErr (fun e => if isUniqueViolation e then EVb (AlreadyExists "user" (uEmail user)) else e)
              (UserRepo_Create user) ;;;
            eid <- snewID ;;
            OutboxAppend [userCreatedEvent eid user "password" now] ;;;
            issueSessionForUser cfg user deviceLabel
      end
  end.

Definition Register (email username password displayName deviceLabel : string)
    : SM AuthDB (string * tokenMaterial) :=
  ctxDone ;;;
  if bool_decide (email = "") || bool_decide (username = "") || bool_decide (password = "")
  then sfail (EVb (InvalidArgumentFor "vibesync.auth" "MISSING_FIELDS"
                     "email, username, and password are required"))
  else if slen password <? 8
  then sfail (EVb (InvalidArgumentFor "vibesync.auth" "PASSWORD_TOO_SHORT"
                     "password must be at least 8 characters"))
  else
    sm <- withTx (registerTx email username password displayName deviceLabel) ;;
    sret (seUserID sm.1, sm.2).
End register.
