(* ===== verification/OAuth.v ===== *)
(** * OAuth log-in and provider tokens

    Model of [apps/auth-service/internal/app/oauth.go], [provider_token.go] and
    [providers.go] with the repositories of flows, links and provider tokens
    ([infra/postgres/oauthflow_repo.go], [oauthaccount_repo.go],
    [provider_token_repo.go]) and the registry of [infra/oauth/provider.go].

    The providers ([OAuthProvider]), the key cipher ([Cipher]), the process
    environment and the providers' token endpoints ([TokenEndpoint]) are ports.
    What a port answers may depend on the interaction. *)

From S2P Require Import Prelude GoNum Errors GoString GoUnicode GoTime Store RoomDomain Outbox Web AuthDomain Auth Register.

Open Scope sm_scope.

(** ** Ports *)

(** [KeyCipher]; bytes are strings. *)
Class Cipher : Type := {
  encryptBytes : nat -> string -> res error string;
  decryptBytes : string -> res error string;
}.

Record ProviderTokens : Type := mkProviderTokens {
  tkAccessToken : string;
  tkIDToken : string;
  tkRefreshToken : string;
  tkExpiresIn : duration;
}.

Record OAuthProvider : Type := mkOAuthProvider {
  opName : string;
  opAuthorizationURL : nat -> string -> string -> string -> res error string;
  opExchange : nat -> string -> string -> string -> res error ProviderTokens;
  opProfile : nat -> ProviderTokens -> res error ProviderProfile;
}.

(** ** The registry *)

(** The [registry] field is an interface: it is nil, or it holds a [*Registry],
    which may itself be nil. *)
Inductive oauthRegistry : Type :=
| RegistryNil
| RegistryOf (r : option (gmap string OAuthProvider)).

Definition NewRegistry (providers : list OAuthProvider) : gmap string OAuthProvider :=
  fold_left (fun m p => <[opName p := p]> m) providers ∅.

(** [buildOAuthRegistry] returns a [*Registry], nil when no provider is
    enabled; [run] stores it in the interface field. *)
Definition buildOAuthRegistry (spotifyEnabled googleEnabled : bool) (spotify google : OAuthProvider)
    : option (gmap string OAuthProvider) :=
  let providers := (if spotifyEnabled then [spotify] else []) ++ (if googleEnabled then [google] else []) in
  match providers with
  | [] => None
  | _ => Some (NewRegistry providers)
  end.

(** A nil dereference panics; the server answers the request with it. *)
Definition nilDereference : error := EMsg "runtime error: invalid memory address or nil pointer dereference".

Definition RegistryGet {DB} (r : option (gmap string OAuthProvider)) (name : string) : SM DB (option OAuthProvider) :=
  match r with
  | None => sfail nilDereference
  | Some m => sret (m !! name)
  end.

(** ** Flows *)

Definition storedFlow (f : OAuthFlow) : OAuthFlow :=
  mkOAuthFlow (ofState f) (ofProvider f) (ofRedirectURI f) (ofCodeChallenge f) (ofUserAgent f)
    (pgTime (ofCreatedAt f)) (pgTime (ofExpiresAt f)).

Section repos.
Context `{Env}.

Definition OAuthFlowRepo_Create (f : OAuthFlow) : SM AuthDB unit :=
  smapErr (EWrap "oauthflow_repo: create") (stmt (fun db =>
    if 32 <? charCount (ofState f) then Err (EMsg "value too long for type character varying(32)")
    else if 32 <? charCount (ofProvider f) then Err (EMsg "value too long for type character varying(32)")
    else if 64 <? charCount (ofCodeChallenge f) then Err (EMsg "value too long for type character varying(64)")
    else if bool_decide (is_Some (dFlows db !! ofState f)) then Err (EUniqueViolation "oauth_flows_pkey")
    else Ok (tt, set_dFlows (insert (ofState f) (storedFlow f)) db))).

(** The select and the delete of the same transaction. *)
Definition OAuthFlowRepo_GetAndConsume (state : string) : SM AuthDB OAuthFlow :=
  f <- smapErr (scanErr "oauth_flow" state "oauthflow_repo: scan") (queryRow (fun db => dFlows db !! state)) ;;
  smapErr (EWrap "oauthflow_repo: consume") (stmt (fun db => Ok (tt, set_dFlows (delete state) db))) ;;;
  sret f.

(** [Delete]; nothing in the service calls it. *)
Definition OAuthFlowRepo_Delete (state : string) : SM AuthDB unit :=
  smapErr (EWrap "oauthflow_repo: delete") (stmt (fun db => Ok (tt, set_dFlows (delete state) db))).

(** [DeleteExpired]; nothing in the service calls it. *)
Definition OAuthFlowRepo_DeleteExpired (before : time) : SM AuthDB Z :=
  smapErr (EWrap "oauthflow_repo: delete_expired") (stmt (fun db =>
    Ok (Z.of_nat (size (filter (fun kv => ofExpiresAt kv.2 < before) (dFlows db))),
        set_dFlows (filter (fun kv => ~ ofExpiresAt kv.2 < before)) db))).

(** ** Links *)

Definition storedAccount (a : OAuthAccount) : OAuthAccount :=
  mkOAuthAccount (oaUserID a) (oaProvider a) (oaProviderUserID a) (pgTime (oaCreatedAt a)).

(** [ON CONFLICT (provider, provider_user_id) DO NOTHING]; the pair (user,
    provider) is unique too. *)
Definition OAuthAccountRepo_Upsert (a : OAuthAccount) : SM AuthDB unit :=
  smapErr (EWrap "oauthaccount_repo: upsert") (stmt (fun db =>
    if 32 <? charCount (oaProvider a) then Err (EMsg "value too long for type character varying(32)")
    else if 255 <? charCount (oaProviderUserID a) then Err (EMsg "value too long for type character varying(255)")
    else match dAccounts db !! (oaProvider a, oaProviderUserID a) with
         | Some _ => Ok (tt, db)
         | None =>
             if existsb (fun kv => bool_decide (oaUserID kv.2 = oaUserID a) && bool_decide (oaProvider kv.2 = oaProvider a))
                  (map_to_list (dAccounts db))
             then Err (EUniqueViolation "oauth_accounts_user_provider_idx")
             else match dUsers db !! oaUserID a with
                  | None => Err (EMsg "violates foreign key constraint")
                  | Some _ =>
                      Ok (tt, set_dAccounts (insert (oaProvider a, oaProviderUserID a) (storedAccount a)) db)
                  end
         end)).

Definition OAuthAccountRepo_GetByProvider (provider providerUserID : string) : SM AuthDB OAuthAccount :=
  smapErr (scanErr provider providerUserID "oauthaccount_repo: scan")
    (queryRow (fun db => dAccounts db !! (provider, providerUserID))).

Definition OAuthAccountRepo_GetByUser (userID provider : string) : SM AuthDB OAuthAccount :=
  smapErr (scanErr provider userID "oauthaccount_repo: scan") (queryRow (fun db =>
    snd <$> List.find (fun kv => bool_decide (oaUserID kv.2 = userID) && bool_decide (oaProvider kv.2 = provider))
      (map_to_list (dAccounts db)))).

Definition linkedLe (a b : OAuthAccount) : Prop := oaCreatedAt a <= oaCreatedAt b.
#[global] Instance linkedLe_dec a b : Decision (linkedLe a b).
Proof. unfold linkedLe. apply _. Defined.

Definition OAuthAccountRepo_ListByUser (userID : string) : SM AuthDB (list OAuthAccount) :=
  smapErr (EWrap "oauthaccount_repo: list_by_user") (query (fun db =>
    merge_sort linkedLe (filter (fun a => oaUserID a = userID) (map snd (map_to_list (dAccounts db)))))).

(** ** Provider tokens *)

(** [at_] is the wall clock. *)
Definition ProviderTokenRepo_Upsert (t : ProviderToken) : SM AuthDB unit :=
  at_ <- snow ;;
  smapErr (EWrap "provider_token_repo: upsert") (stmt (fun db =>
    if 32 <? charCount (ptProvider t) then Err (EMsg "value too long for type character varying(32)")
    else match dUsers db !! ptUserID t with
         | None => Err (EMsg "violates foreign key constraint")
         | Some _ =>
             Ok (tt, set_dProviderTokens (insert (ptProvider t, ptUserID t)
                       (mkProviderToken (ptProvider t) (ptUserID t) (ptAccessTokenEnc t) (ptRefreshTokenEnc t)
                          (pgTime (ptExpiresAt t)) (pgTime at_))) db)
         end)).

Definition ProviderTokenRepo_Get (provider userID : string) : SM AuthDB ProviderToken :=
  smapErr (scanErr "provider_token" (provider +:+ ":" +:+ userID) "provider_token_repo: get")
    (queryRow (fun db => dProviderTokens db !! (provider, userID))).
End repos.

(** ** Usernames for new OAuth users *)

(** The part of the address before the first [@]. *)
Fixpoint localPart (l : list Z) : list Z :=
  match l with
  | [] => []
  | b :: l => if b =? 64 then [] else b :: localPart l
  end.

(** One round of the sanitising loop on [out], kept in reverse. *)
Definition sanitize1 (out : list Z) (c : Z) : list Z :=
  if (97 <=? c) && (c <=? 122) then c :: out
  else if (65 <=? c) && (c <=? 90) then c + 32 :: out
  else if ((48 <=? c) && (c <=? 57)) || (c =? 95) then c :: out
  else match out with
       | [] => out
       | b :: _ => if b =? 95 then out else 95 :: out
       end.

(** The loop stops when [out] has 32 bytes. *)
Fixpoint sanitizeLoop (out : list Z) (l : list Z) : list Z :=
  match l with
  | [] => out
  | c :: l =>
      let out := sanitize1 out c in
      if (32 <=? length out)%nat then out else sanitizeLoop out l
  end.

Fixpoint trimLeft (l : list Z) : list Z :=
  match l with
  | b :: rest => if b =? 95 then trimLeft rest else l
  | [] => []
  end.
Definition trimUnderscores (l : list Z) : list Z := rev (trimLeft (rev (trimLeft l))).

Definition deriveUsername (p : ProviderProfile) : string :=
  if bool_decide (ppEmail p = "") then ""
  else
    let local := localPart (bytes (ppEmail p)) in
    let out := trimUnderscores (rev (sanitizeLoop [] local)) in
    if (length out <? 3)%nat then ofBytes local
    else
      match out with
      | first :: _ => ofBytes (if (first <? 97) || (122 <? first) then 117 :: out else out)
      | [] => ""
      end.

(** ** The log-in *)

Section oauth.
Context `{Env} `{PgCitext} `{Hasher} `{Signer} `{UnicodeLower} `{Cipher}.
Context (cfg : AuthConfig) (registry : oauthRegistry).

(** [s.registry == nil], then [s.registry.Get]. *)
Definition lookupProvider (name : string) (unknown : string) : SM AuthDB OAuthProvider :=
  match registry with
  | RegistryNil =>
      sfail (EVb (FailedPrecondition "vibesync.auth" "OAUTH_DISABLED" "no OAuth providers configured"))
  | RegistryOf r =>
      p <- RegistryGet r name ;;
      match p with
      | Some p => sret p
      | None => sfail (EVb (InvalidArgumentFor "vibesync.auth" "UNKNOWN_PROVIDER" unknown))
      end
  end.

(** The answer is the authorization URL and the state. *)
Definition BeginOAuth (providerName redirectURI codeChallenge : string) : SM AuthDB (string * string) :=
  ctxDone ;;;
  if bool_decide (providerName = "") || bool_decide (redirectURI = "")
  then sfail (EVb (InvalidArgumentFor "vibesync.auth" "MISSING_OAUTH_PARAMS" "provider and redirect_uri required"))
  else
    provider <- lookupProvider providerName ("unknown or disabled OAuth provider: " +:+ providerName) ;;
    now <- snow ;;
    rnd <- srand stateBytes ;;
    let flow := NewOAuthFlow rnd now providerName redirectURI codeChallenge "" (acOAuthFlowTTL cfg) in
    withTx (OAuthFlowRepo_Create flow) ;;;
    authURL <- smapErr (fun e => EVb (WithCause e (Internal "OAUTH_AUTH_URL" (errText e))))
      (lift (fun n => opAuthorizationURL provider n redirectURI (ofState flow) (ofCodeChallenge flow))) ;;
    sret (authURL, ofState flow).

Definition consumeTx (state : string) : SM AuthDB OAuthFlow :=
  smapErr (fun e => if isNotFound e
                    then EVb (InvalidArgumentFor "vibesync.auth" "BAD_STATE" "state not found or expired") else e)
    (OAuthFlowRepo_GetAndConsume state).

Definition encryptToken (v : string) : SM AuthDB string :=
  smapErr (fun e => EVb (WithCause e (Internal "TOKEN_ENCRYPT_FAILED" (errText e)))) (lift (fun n => encryptBytes n v)).

Definition saveProviderTokens (providerName userID : string) (tokens : ProviderTokens) : SM AuthDB unit :=
  if bool_decide (tkAccessToken tokens = "") then sret tt
  else
    encAccess <- encryptToken (tkAccessToken tokens) ;;
    encRefresh <- encryptToken (tkRefreshToken tokens) ;;
    now <- snow ;;
    expiresAt <- (if tkExpiresIn tokens =? 0 then now2 <- snow ;; sret (now2 + Hour)
                  else sret (now + tkExpiresIn tokens)) ;;
    ProviderTokenRepo_Upsert (mkProviderToken providerName userID encAccess encRefresh expiresAt time_zero).

(** A new user with its link and its event. *)
Definition createOAuthUser (providerName : string) (profile : ProviderProfile) : SM AuthDB User :=
  now <- snow ;;
  match NewUser now (mkNewUserParams (ppEmail profile) (deriveUsername profile) (ppDisplayName profile)
                       (ppAvatarURL profile)) with
  | Err e => sfail (EVb (WithCause e (InvalidArgumentFor "vibesync.auth" "OAUTH_PROFILE_INVALID" (errText e))))
  | Ok newUser =>
      id <- snewID ;;
      let newUser := set_uID id newUser in
      UserRepo_Create newUser ;;;
      OAuthAccountRepo_Upsert (mkOAuthAccount (uID newUser) providerName (ppProviderUserID profile) now) ;;;
      eid <- snewID ;;
      OutboxAppend [userCreatedEvent eid newUser providerName now] ;;;
      sret newUser
  end.

(** The user of a provider identity: the linked one, the one with the same
    address, or a new one. *)
Definition resolveUser (providerName : string) (profile : ProviderProfile) : SM AuthDB User :=
  link <- stry (OAuthAccountRepo_GetByProvider providerName (ppProviderUserID profile)) ;;
  match link with
  | Ok link => UserRepo_GetByID (oaUserID link)
  | Err e =>
      if negb (isNotFound e) then sfail e
      else
        found <- stry (UserRepo_GetByEmail (ppEmail profile)) ;;
        match found with
        | Ok user =>
            now <- snow ;;
            OAuthAccountRepo_Upsert (mkOAuthAccount (uID user) providerName (ppProviderUserID profile) now) ;;;
            sret user
        | Err e => if negb (isNotFound e) then sfail e else createOAuthUser providerName profile
        end
  end.

(** The transaction of [completeOAuthUpsert]. *)
Definition completeOAuthTx (providerName : string) (profile : ProviderProfile) (deviceLabel : string)
    (tokens : ProviderTokens) : SM AuthDB (Session * tokenMaterial) :=
  user <- resolveUser providerName profile ;;
  if negb (CanAuthenticate user)
  then sfail (EVb (PermissionDenied "oauth_login" ("user:" +:+ uID user)))
  else
    saveProviderTokens providerName (uID user) tokens ;;;
    issueSessionForUser cfg user deviceLabel.

(** From the flow on. *)
Definition finishOAuth (provider : OAuthProvider) (code codeVerifier : string) (flow : OAuthFlow)
    : SM AuthDB (string * tokenMaterial) :=
  tokens <- smapErr (fun e => EVb (WithCause e (Unauthenticated "OAUTH_EXCHANGE_FAILED")))
    (lift (fun n => opExchange provider n code (ofRedirectURI flow) codeVerifier)) ;;
  profile <- smapErr (fun e => EVb (WithCause e (Internal "OAUTH_PROFILE_FAILED" (errText e))))
    (lift (fun n => opProfile provider n tokens)) ;;
  if bool_decide (ppProviderUserID profile = "") || bool_decide (ppEmail profile = "")
  then sfail (EVb (InvalidArgumentFor "vibesync.auth" "OAUTH_PROFILE_INCOMPLETE"
                     "provider did not return id and email"))
  else
    sm <- withTx (completeOAuthTx (opName provider) profile (ofUserAgent flow) tokens) ;;
    sret (seUserID sm.1, sm.2).

Definition CompleteOAuth (providerName state code codeVerifier : string) : SM AuthDB (string * tokenMaterial) :=
  ctxDone ;;;
  provider <- lookupProvider providerName "unknown or disabled OAuth provider" ;;
  flow <- withTx (consumeTx state) ;;
  finishOAuth provider code codeVerifier flow.
End oauth.

(** ** Provider tokens for the provider service *)

Definition tokenRefreshMargin : duration := 2 * Minute.

(** The decoded answer of a token endpoint. *)
Record tokenRefreshResponse : Type := mkTokenRefresh {
  trAccessToken : string;
  trRefreshToken : string;
  trExpiresIn : Z;          (* int64 *)
}.

(** The environment variables, and a POST of a form to a token endpoint: the
    status and the decoded body. *)
Class TokenEndpoint : Type := {
  getenv : string -> string;
  postForm : nat -> string -> list (string * string) -> res error (Z * res error tokenRefreshResponse);
}.

Definition providerTokenEndpoints : gmap string string :=
  <["spotify" := "https://accounts.spotify.com/api/token"]>
  (<["google" := "https://oauth2.googleapis.com/token"]> ∅).

Definition resolveEnvOrValue `{TokenEndpoint} (s : string) : string :=
  if negb (bool_decide (getenv s = "")) then getenv s else s.

Section tokens.
Context `{Env} `{Cipher} `{TokenEndpoint}.
Context (cfg : AuthConfig) (registry : oauthRegistry).

Definition providerClientCreds (provider : string) : option (string * string) :=
  if bool_decide (provider = "spotify") then Some (ocSpotifyClientIDEnv (acOAuth cfg), ocSpotifyClientSecretEnv (acOAuth cfg))
  else if bool_decide (provider = "google") then Some (ocGoogleClientIDEnv (acOAuth cfg), ocGoogleClientSecretEnv (acOAuth cfg))
  else None.

(** The new access token, refresh token and expiry. *)
Definition refreshProviderToken (provider refreshToken : string) : SM AuthDB (string * string * time) :=
  match providerClientCreds provider with
  | None => sfail (EMsg ("no client credentials for provider " +:+ provider))
  | Some (clientIDEnv, clientSecretEnv) =>
      let clientID := resolveEnvOrValue clientIDEnv in
      let clientSecret := resolveEnvOrValue clientSecretEnv in
      match providerTokenEndpoints !! provider with
      | None => sfail (EMsg ("no token endpoint for provider " +:+ provider))
      | Some endpoint =>
          let form := [("grant_type", "refresh_token"); ("refresh_token", refreshToken)] ++
            (if bool_decide (clientID = "") then [] else [("client_id", clientID); ("client_secret", clientSecret)]) in
          resp <- smapErr (EWrap "refresh request") (lift (fun n => postForm n endpoint form)) ;;
          if negb (resp.1 =? 200) then sfail (EMsg "refresh status")
          else match resp.2 with
               | Err e => sfail (EWrap "decode refresh response" e)
               | Ok tr =>
                   if bool_decide (trAccessToken tr = "")
                   then sfail (EMsg "empty access token in refresh response")
                   else
                     let newRefresh := if bool_decide (trRefreshToken tr = "") then refreshToken
                                       else trRefreshToken tr in
                     now <- snow ;;
                     sret (trAccessToken tr, newRefresh, now + int64 (trExpiresIn tr * Second))
               end
      end
  end.

Definition internally {A} (reason : string) (m : SM AuthDB A) : SM AuthDB A :=
  smapErr (fun e => EVb (WithCause e (Internal reason (errText e)))) m.

(** From the stored pair on: the answer is the access token and its expiry. *)
Definition freshToken (providerName userID : string) (stored : ProviderToken) : SM AuthDB (string * time) :=
  accessToken <- internally "TOKEN_DECRYPT_FAILED" (lift (fun _ => decryptBytes (ptAccessTokenEnc stored))) ;;
  refreshToken <- internally "TOKEN_DECRYPT_FAILED" (lift (fun _ => decryptBytes (ptRefreshTokenEnc stored))) ;;
  now <- snow ;;
  if now <? ptExpiresAt stored - tokenRefreshMargin then sret (accessToken, ptExpiresAt stored)
  else
    new <- internally "TOKEN_REFRESH_FAILED" (refreshProviderToken providerName refreshToken) ;;
    let '(newAccess, newRefresh, newExpiry) := new in
    encAccess <- encryptToken newAccess ;;
    encRefresh <- encryptToken newRefresh ;;
    internally "TOKEN_STORE_FAILED" (withTx (ProviderTokenRepo_Upsert
      (mkProviderToken providerName userID encAccess encRefresh newExpiry time_zero))) ;;;
    sret (newAccess, newExpiry).

Definition GetProviderToken (userID providerName : string) : SM AuthDB (string * time) :=
  ctxDone ;;;
  if bool_decide (userID = "") || bool_decide (providerName = "")
  then sfail (EVb (InvalidArgumentFor "vibesync.auth" "MISSING_PARAMS" "user_id and provider required"))
  else
    lookupProvider registry providerName ("unknown provider: " +:+ providerName) ;;;
    stored <- smapErr (fun e =>
        if isNotFound e then EVb (NotFound "provider_token" (providerName +:+ ":" +:+ userID))
        else EVb (WithCause e (Internal "TOKEN_FETCH_FAILED" (errText e))))
      (withTx (ProviderTokenRepo_Get providerName userID)) ;;
    freshToken providerName userID stored.

(** The providers linked to a user, oldest first, with the time of the link. *)
Definition ListLinkedProviders (h : Header) (userID : string) : SM AuthDB (list (string * time)) :=
  ctxDone ;;;
  if bool_decide (userID = "")
  then sfail (EVb (InvalidArgumentFor "vibesync.auth" "MISSING_USER_ID" "user_id required"))
  else
    let subject := subjectFromHeader h in
    if negb (bool_decide (sbUserID subject = userID)) && (sbSystemRole subject <? SYSTEM_ADMINISTRATOR)
    then sfail (EVb (PermissionDenied "list_providers" ("user:" +:+ userID)))
    else
      accounts <- internally "LIST_PROVIDERS_FAILED" (withTx (OAuthAccountRepo_ListByUser userID)) ;;
      sret (map (fun a => (oaProvider a, oaCreatedAt a)) accounts).
End tokens.
