(* ===== verification/Crypto.v ===== *)
(** * Password hashes and key encryption

    Model of [auth-service/internal/infra/crypto/password.go] and
    [keycipher.go], the implementations of the ports [Hasher] and [Cipher].
    Argon2 and AES-GCM are parameters of the model, as is the source of random
    bytes; the PHC string, the layout of a ciphertext and the treatment of
    malformed input are the code's. *)

From stdpp Require Import pretty.
From S2P Require Import Prelude GoNum Errors GoString GoBase64 Store RoomDomain AuthDomain Outbox Web Auth OAuth.

Open Scope Z_scope.

(** [rand.Read] of [k] bytes at the [n]-th interaction. *)
Class Entropy : Type := randRead : nat -> nat -> res error (list Z).
Class EntropyLaws `(Entropy) : Prop :=
  randRead_bytes : forall n k l, randRead n k = Ok l -> length l = k /\ Forall isByte l.

(** ** Passwords *)

Definition argon2Version : Z := 19.
Definition argon2Memory : Z := 19 * 1024.
Definition argon2Iterations : Z := 2.
Definition argon2Lanes : Z := 1.
Definition argon2SaltBytes : nat := 16.
Definition argon2KeyBytes : nat := 32.
Definition phcVersion : string := "argon2id".

(** [argon2.IDKey]: password, salt, iterations, memory, lanes, length. *)
Class Argon2 : Type := IDKey : list Z -> list Z -> Z -> Z -> Z -> nat -> list Z.
Class Argon2Laws `(Argon2) : Prop :=
  IDKey_bytes : forall password salt t m p k, Forall isByte (IDKey password salt t m p k) /\ length (IDKey password salt t m p k) = k.

Definition dollar : Z := 36.

Definition phcEncode (salt key : list Z) : string :=
  "$" +:+ phcVersion +:+ "$v=" +:+ pretty argon2Version +:+ "$m=" +:+ pretty argon2Memory +:+ ",t=" +:+ pretty argon2Iterations +:+
  ",p=" +:+ pretty argon2Lanes +:+ "$" +:+ ofBytes (base64Encode false salt) +:+ "$" +:+ ofBytes (base64Encode false key).

(** The version and the parameters are not looked at. *)
Definition phcDecode (s : string) : res error (list Z * list Z) :=
  match splitByte dollar (bytes s) with
  | [_; version; _; _; salt; key] =>
      if negb (bool_decide (version = bytes phcVersion)) then Err (EMsg "password: unrecognized hash format")
      else match base64Decode false salt with
           | None => Err (EMsg "password: salt decode")
           | Some salt =>
               match base64Decode false key with
               | None => Err (EMsg "password: key decode")
               | Some key => Ok (salt, key)
               end
           end
  | _ => Err (EMsg "password: unrecognized hash format")
  end.

Section passwords.
Context `{Argon2} `{Entropy}.

Definition passwordKey (plaintext : string) (salt : list Z) : list Z :=
  IDKey (bytes plaintext) salt argon2Iterations argon2Memory argon2Lanes argon2KeyBytes.

Definition Hash (n : nat) (plaintext : string) : res error string :=
  match randRead n argon2SaltBytes with
  | Err e => Err (EWrap "password: salt" e)
  | Ok salt => Ok (phcEncode salt (passwordKey plaintext salt))
  end.

(** [subtle.ConstantTimeCompare] is 1 on equal slices of equal length. *)
Definition Compare (hash plaintext : string) : bool :=
  match phcDecode hash with
  | Err _ => false
  | Ok (salt, want) => bool_decide (want = passwordKey plaintext salt)
  end.

Definition argonHasher : Hasher := {| hashPassword := Hash; comparePassword := Compare |}.
End passwords.

(** ** Keys *)

(** [cipher.AEAD], without additional data. *)
Record AEAD : Type := mkAEAD {
  nonceSize : nat;
  aeadSeal : list Z -> list Z -> list Z;              (* nonce, plaintext *)
  aeadOpen : list Z -> list Z -> res error (list Z);  (* nonce, ciphertext *)
}.

(** [aes.NewCipher] and [cipher.NewGCM]. *)
Class AES : Type := {
  aesBlock : Type;
  aesNewCipher : list Z -> res error aesBlock;
  newGCM : aesBlock -> res error AEAD;
}.

(** Keys of 32 bytes are accepted; [Open] undoes [Seal], and accepts under a
    nonce only what [Seal] made under that nonce. *)
Class AESLaws `(AES) : Prop := {
  aes_accepts : forall key, length key = 32%nat -> exists block aead, aesNewCipher key = Ok block /\ newGCM block = Ok aead;
  gcm_open : forall block aead nonce p, newGCM block = Ok aead -> length nonce = nonceSize aead -> Forall isByte p ->
    aeadOpen aead nonce (aeadSeal aead nonce p) = Ok p;
  gcm_sound : forall block aead nonce c p, newGCM block = Ok aead -> length nonce = nonceSize aead -> Forall isByte c ->
    aeadOpen aead nonce c = Ok p -> c = aeadSeal aead nonce p /\ Forall isByte p;
  gcm_bytes : forall block aead nonce p, newGCM block = Ok aead -> Forall isByte p -> Forall isByte (aeadSeal aead nonce p);
}.

Record KeyCipher : Type := mkKeyCipher { aead : AEAD }.

Section keys.
Context `{AES} `{Entropy}.

Definition NewKeyCipher (masterKeyB64 : string) : res error KeyCipher :=
  match base64Decode true (bytes masterKeyB64) with
  | None => Err (EMsg "keycipher: master key not valid base64")
  | Some masterKey =>
      if negb (length masterKey =? 32)%nat then Err (EMsg "keycipher: master key must be 32 bytes")
      else match aesNewCipher masterKey with
           | Err e => Err (EWrap "keycipher: aes new" e)
           | Ok block =>
               match newGCM block with
               | Err e => Err (EWrap "keycipher: gcm new" e)
               | Ok a => Ok (mkKeyCipher a)
               end
           end
  end.

Definition Encrypt (c : KeyCipher) (n : nat) (plaintext : list Z) : res error (list Z) :=
  match randRead n (nonceSize (aead c)) with
  | Err e => Err (EWrap "keycipher: nonce" e)
  | Ok nonce => Ok (nonce ++ aeadSeal (aead c) nonce plaintext)
  end.

Definition Decrypt (c : KeyCipher) (ciphertext : list Z) : res error (list Z) :=
  if (length ciphertext <? nonceSize (aead c))%nat then Err (EMsg "keycipher: ciphertext too short")
  else match aeadOpen (aead c) (take (nonceSize (aead c)) ciphertext) (drop (nonceSize (aead c)) ciphertext) with
       | Err e => Err (EWrap "keycipher: decrypt" e)
       | Ok p => Ok p
       end.

Definition GenerateMasterKey (n : nat) : res error string :=
  match randRead n 32 with
  | Err e => Err e
  | Ok k => Ok (ofBytes (base64Encode true k))
  end.

Definition mapOk {A B} (f : A -> B) (r : res error A) : res error B :=
  match r with Ok a => Ok (f a) | Err e => Err e end.

(** The port of the use cases. *)
Definition keyCipher (c : KeyCipher) : Cipher := {|
  encryptBytes n v := mapOk ofBytes (Encrypt c n (bytes v));
  decryptBytes v := mapOk ofBytes (Decrypt c (bytes v));
|}.
End keys.
