(* ===== verification/CryptoTheorems.v ===== *)
(** * Theorems about password hashes and key encryption

    A stored hash accepts a password exactly when Argon2 gives it the key of the
    password that was hashed; a ciphertext decrypts to what was encrypted, and
    nothing but an encryption decrypts.  Both ports of the use cases are
    discharged ([argonHasher_accepts], [keyCipher_roundtrip]). *)

From stdpp Require Import pretty.
From S2P Require Import Prelude GoNum Errors GoString GoBase64 Store RoomDomain AuthDomain Outbox Web Auth OAuth Crypto.

Open Scope Z_scope.

Lemma mapOk_Ok {A B} (f : A -> B) r b : mapOk f r = Ok b <-> exists a, r = Ok a /\ b = f a.
Proof. destruct r as [a|e]; simpl; [|naive_solver]. split; [intros [= <-]; by exists a|by intros (? & [= <-] & ->)]. Qed.

(** ** Passwords *)

Lemma phcDecode_encode salt key : Forall isByte salt -> Forall isByte key -> phcDecode (phcEncode salt key) = Ok (salt, key).
Proof.
  intros Hs Hk. assert (forall l, Forall isByte l -> Forall (fun b => b <> dollar) (base64Encode false l)) as Hd.
  { intros l Hl. eapply Forall_impl; [by apply (encode_chars false)|]. by intros b (_ & _ & ?). }
  assert (forall l, Forall isByte l -> Forall isByte (base64Encode false l)) as Hb.
  { intros l Hl. eapply Forall_impl; [by apply (encode_chars false)|]. by intros b (? & _ & _). }
  assert (phcEncode salt key = "$argon2id$v=19$m=19456,t=2,p=1$" +:+ ofBytes (base64Encode false salt) +:+ "$" +:+
            ofBytes (base64Encode false key)) as -> by by vm_compute.
  unfold phcDecode. rewrite !bytes_app, !bytes_ofBytes by auto.
  assert (bytes "$argon2id$v=19$m=19456,t=2,p=1$" ++ base64Encode false salt ++ bytes "$" ++ base64Encode false key =
    joinByte dollar [[]; bytes phcVersion; bytes "v=19"; bytes "m=19456,t=2,p=1"; base64Encode false salt; base64Encode false key])
    as -> by by vm_compute.
  rewrite splitByte_join.
  - rewrite bool_decide_true by done. cbn [negb]. by rewrite !base64_roundtrip.
  - repeat (apply Forall_cons; split; [first [by apply Hd|apply (bool_decide_unpack _); by vm_compute]|]). done.
Qed.

(** C40. A hash stores its salt and its key, so that a password is accepted
    exactly when Argon2 gives it the same key under the same salt; the password
    that was hashed is, and a hash is never empty. *)
Theorem password_roundtrip `{A : Argon2} `{!Argon2Laws A} `{R : Entropy} `{!EntropyLaws R} n p h :
  Hash n p = Ok h ->
  h <> "" /\ Compare h p = true /\
  exists salt, phcDecode h = Ok (salt, passwordKey p salt) /\
    forall q, Compare h q = true <-> passwordKey q salt = passwordKey p salt.
Proof.
  unfold Hash. destruct (randRead n argon2SaltBytes) as [salt|e] eqn:Er; [|done]. intros [= <-].
  apply randRead_bytes in Er as [Hlen Hs].
  assert (phcDecode (phcEncode salt (passwordKey p salt)) = Ok (salt, passwordKey p salt)) as Hd
    by (apply phcDecode_encode; [done|]; apply IDKey_bytes).
  split_and!; [done|unfold Compare; rewrite Hd; by rewrite bool_decide_true|]. exists salt. split; [done|].
  intros q. unfold Compare. rewrite Hd, bool_decide_eq_true. done.
Qed.

(** The salt of a hash has 16 bytes. *)
Lemma hash_salt `{A : Argon2} `{!Argon2Laws A} `{R : Entropy} `{!EntropyLaws R} n p h :
  Hash n p = Ok h -> exists salt, length salt = 16%nat /\ phcDecode h = Ok (salt, passwordKey p salt).
Proof.
  unfold Hash. destruct (randRead n argon2SaltBytes) as [salt|e] eqn:Er; [|done]. intros [= <-].
  apply randRead_bytes in Er as [Hlen Hs]. exists salt. split; [done|]. apply phcDecode_encode; [done|apply IDKey_bytes].
Qed.

(** What the use cases rely on. *)
Lemma argonHasher_accepts `{A : Argon2} `{!Argon2Laws A} `{R : Entropy} `{!EntropyLaws R} n v h :
  hashPassword (Hasher := argonHasher) n v = Ok h -> h <> "" /\ comparePassword (Hasher := argonHasher) h v = true.
Proof.
  cbn. unfold Hash, Compare. destruct (randRead n argon2SaltBytes) as [salt|e] eqn:Er; [|done]. intros [= <-].
  apply randRead_bytes in Er as [Hlen Hs]. rewrite phcDecode_encode; [|done|apply IDKey_bytes]. split; [done|by rewrite bool_decide_true].
Qed.

(** ** Keys *)

Section keys.
Context `{A : AES} `{!AESLaws A} `{R : Entropy} `{!EntropyLaws R}.

Lemma NewKeyCipher_Ok mk c : NewKeyCipher mk = Ok c ->
  exists key block, base64Decode true (bytes mk) = Some key /\ length key = 32%nat /\ aesNewCipher key = Ok block /\ newGCM block = Ok (aead c).
Proof using Type.
  unfold NewKeyCipher. intros E. destruct (base64Decode _ _) as [key|] eqn:Ek; [|done].
  destruct (Nat.eqb_spec (length key) 32); [|done]. simpl in E. destruct (aesNewCipher key) as [block|] eqn:Eb; [|done].
  destruct (newGCM block) eqn:Eg; [|done]. injection E as <-. exists key, block. by rewrite Eg.
Qed.

(** Decryption accepts exactly the encryptions. *)
Lemma Decrypt_spec mk c ct p : NewKeyCipher mk = Ok c -> Forall isByte ct ->
  Decrypt c ct = Ok p <->
  exists nonce, length nonce = nonceSize (aead c) /\ Forall isByte p /\ ct = nonce ++ aeadSeal (aead c) nonce p.
Proof using AESLaws0.
  intros (key & block & _ & _ & _ & Hg)%NewKeyCipher_Ok Hct. unfold Decrypt. set (k := nonceSize (aead c)) in *. split.
  - destruct (Nat.ltb_spec (length ct) k); [done|]. destruct (aeadOpen _ _ _) as [q|] eqn:Eo; [|done].
    intros [= <-]. exists (take k ct). assert (length (take k ct) = k) as Hl by (rewrite length_take; lia).
    apply (gcm_sound _ _ _ _ _ Hg Hl) in Eo as [Eo Hq]; [|by apply Forall_drop]. by rewrite <- Eo, take_drop.
  - intros (nonce & Hl & Hp & ->). rewrite length_app, Hl.
    destruct (Nat.ltb_spec (k + length (aeadSeal (aead c) nonce p)) k); [lia|].
    rewrite take_app_length', drop_app_length' by done. by rewrite (gcm_open _ _ _ _ Hg Hl).
Qed.

Lemma Encrypt_Ok c n p ct : Encrypt c n p = Ok ct ->
  exists nonce, length nonce = nonceSize (aead c) /\ Forall isByte nonce /\ ct = nonce ++ aeadSeal (aead c) nonce p.
Proof using EntropyLaws0.
  unfold Encrypt. destruct (randRead _ _) as [nonce|] eqn:Er; [|done]. intros [= <-]. apply randRead_bytes in Er as [? ?]. by exists nonce.
Qed.

Lemma sealed_bytes mk c nonce p : NewKeyCipher mk = Ok c -> Forall isByte p -> Forall isByte (aeadSeal (aead c) nonce p).
Proof using AESLaws0. intros (key & block & _ & _ & _ & Hg)%NewKeyCipher_Ok. by eapply gcm_bytes. Qed.

Lemma keyCipher_roundtrip mk c n v enc : NewKeyCipher mk = Ok c ->
  encryptBytes (Cipher := keyCipher c) n v = Ok enc -> decryptBytes (Cipher := keyCipher c) enc = Ok v.
Proof using AESLaws0 EntropyLaws0.
  intros Hc. cbn. intros (ct & He & ->)%mapOk_Ok. apply Encrypt_Ok in He as (nonce & Hl & Hn & ->).
  apply mapOk_Ok. exists (bytes v). split; [|by rewrite ofBytes_bytes].
  assert (Forall isByte (nonce ++ aeadSeal (aead c) nonce (bytes v))) as Hct.
  { apply Forall_app. split; [done|]. by apply (sealed_bytes mk), bytes_range. }
  rewrite bytes_ofBytes by done. apply (Decrypt_spec mk c _ _ Hc Hct). exists nonce. split_and!; [done|apply bytes_range|done].
Qed.
End keys.

(** A generated master key makes a cipher.  What the cipher encrypts it
    decrypts, and what it decrypts to a plaintext is an encryption of that
    plaintext under the same key: a blob that is too short, altered, or made
    under another key is an error. *)
Theorem keycipher_roundtrip `{A : AES} `{!AESLaws A} `{R : Entropy} `{!EntropyLaws R} m mk :
  GenerateMasterKey m = Ok mk ->
  exists c, NewKeyCipher mk = Ok c /\
    (forall n p ct, Forall isByte p -> Encrypt c n p = Ok ct -> Forall isByte ct /\ Decrypt c ct = Ok p) /\
    (forall ct p, Forall isByte ct -> Decrypt c ct = Ok p ->
       exists nonce, length nonce = nonceSize (aead c) /\ ct = nonce ++ aeadSeal (aead c) nonce p).
Proof.
  unfold GenerateMasterKey. destruct (randRead m 32) as [k|] eqn:Er; [|done]. intros [= <-].
  apply randRead_bytes in Er as [Hlen Hk]. destruct (aes_accepts _ Hlen) as (block & g & Hb & Hg).
  assert (NewKeyCipher (ofBytes (base64Encode true k)) = Ok (mkKeyCipher g)) as Hc.
  { unfold NewKeyCipher. rewrite bytes_ofBytes.
    - rewrite base64_roundtrip by done. rewrite Hlen. simpl. by rewrite Hb, Hg.
    - eapply Forall_impl; [by apply (encode_chars true)|]. by intros b (? & _). }
  exists (mkKeyCipher g). split_and!; [done| |].
  - intros n p ct Hp (nonce & Hl & Hn & ->)%Encrypt_Ok.
    assert (Forall isByte (nonce ++ aeadSeal g nonce p)) as Hct by (apply Forall_app; split; [done|by apply (sealed_bytes _ _ _ _ Hc)]).
    split; [done|]. apply (Decrypt_spec _ _ _ _ Hc Hct). by exists nonce.
  - intros ct p Hct (nonce & Hl & _ & ->)%(Decrypt_spec _ _ _ _ Hc Hct). by exists nonce.
Qed.

(** ** Concrete parameters *)

#[local] Instance countingEntropy : Entropy := fun n k => Ok (repeat (Z.of_nat n mod 256) k).
#[local] Instance countingEntropy_laws : EntropyLaws countingEntropy.
Proof.
  intros n k l [= <-]. rewrite repeat_length. split; [done|].
  apply Forall_forall. intros b Hb%list_elem_of_In%repeat_spec. subst b.
  unfold isByte. apply Z.mod_pos_bound. lia.
Qed.

#[local] Instance foldingKdf : Argon2 := fun password salt _ _ _ k =>
  map (fun b => b mod 256) (take k (password ++ salt ++ repeat 0 k)).
#[local] Instance foldingKdf_laws : Argon2Laws foldingKdf.
Proof.
  intros password salt t m p k. unfold IDKey, foldingKdf. rewrite length_map, length_take, !length_app, repeat_length. split; [|lia].
  apply Forall_map, Forall_true. intros b. unfold isByte. apply Z.mod_pos_bound. lia.
Qed.

(** A cipher whose tag is the first byte of the key. *)
#[local] Instance taggingCipher : AES := {|
  aesBlock := list Z;
  aesNewCipher key := if (length key =? 32)%nat then Ok key else Err (EMsg "aes: invalid key size");
  newGCM key := let tag := hd 0 key mod 256 in
    Ok (mkAEAD 12 (fun _ p => tag :: p)
      (fun _ c => match c with
                  | b :: p => if b =? tag then Ok p else Err (EMsg "cipher: message authentication failed")
                  | [] => Err (EMsg "cipher: message authentication failed")
                  end));
|}.
#[local] Instance taggingCipher_laws : AESLaws taggingCipher.
Proof.
  split.
  - intros key Hk. exists key. eexists. split; [|done]. simpl. by rewrite Hk.
  - intros block g nonce p [= <-] _ Hp. simpl. by rewrite Z.eqb_refl.
  - intros block g nonce c p [= <-] _ Hc. simpl. destruct c as [|b c]; [done|]. destruct (Z.eqb_spec b (hd 0 block mod 256)) as [->|]; [|done].
    intros [= <-]. by apply Forall_cons in Hc as [_ Hc].
  - intros block g nonce p [= <-] Hp. simpl. apply Forall_cons. split; [|done]. unfold isByte. apply Z.mod_pos_bound. lia.
Qed.

Definition demoHash : string := "$argon2id$v=19$m=19456,t=2,p=1$AwMDAwMDAwMDAwMDAwMDAw$aHVudGVyMgMDAwMDAwMDAwMDAwMDAwMAAAAAAAAAAAA".

Lemma password_roundtrip_witness :
  Hash 3 "hunter2" = Ok demoHash /\ Compare demoHash "hunter2" = true /\ Compare demoHash "Hunter2" = false.
Proof.
  assert (Hash 3 "hunter2" = Ok demoHash) as Hh by by vm_compute.
  destruct (password_roundtrip 3 "hunter2" demoHash Hh) as (_ & Hc & _).
  split; [exact Hh|]. split; [exact Hc|]. by vm_compute.
Defined.

Lemma keycipher_roundtrip_witness : exists mk c,
  GenerateMasterKey 5 = Ok mk /\ NewKeyCipher mk = Ok c /\ Encrypt c 9 [1; 2; 3] = Ok (repeat 9 12 ++ [5; 1; 2; 3]) /\
  Decrypt c (repeat 9 12 ++ [5; 1; 2; 3]) = Ok [1; 2; 3] /\ Decrypt c (repeat 9 12 ++ [6; 1; 2; 3]) <> Ok [1; 2; 3].
Proof.
  destruct (GenerateMasterKey 5) as [mk|] eqn:Em; [|exfalso; by vm_compute in Em]. exists mk.
  destruct (keycipher_roundtrip 5 mk Em) as (c & Hc & Hrt & _). exists c.
  assert (Encrypt c 9 [1; 2; 3] = Ok (repeat 9 12 ++ [5; 1; 2; 3])) as He.
  { vm_compute in Em. injection Em as <-. vm_compute in Hc. injection Hc as <-. by vm_compute. }
  assert (Decrypt c (repeat 9 12 ++ [6; 1; 2; 3]) <> Ok [1; 2; 3]) as Hd.
  { vm_compute in Em. injection Em as <-. vm_compute in Hc. injection Hc as <-. by vm_compute. }
  split; [exact eq_refl|]. split; [exact Hc|]. split; [exact He|]. split; [|exact Hd].
  refine (proj2 (Hrt 9%nat [1; 2; 3] _ _ He)). repeat constructor; lia.
Defined.

(** ** Where the code differs from its comments *)

(** A hash of another version and with other parameters is accepted: only the
    algorithm is looked at. *)
Example version_not_checked :
  exists salt key, phcDecode "$argon2id$v=16$m=1,t=1,p=9$AwMD$aHVu" = Ok (salt, key).
Proof. by eexists _, _. Qed.
