(* ===== verification/JwksCache.v ===== *)
(** * The key set cache

    Model of [auth-service/internal/infra/redis/jwks_cache.go].  [Get] is called
    by any number of goroutines, so it is modelled by its atomic actions: the
    loads and stores of the atomics, the operations of the mutex and the call
    of the source.  A state holds the shared variables and where each call is;
    [jwks_exec] is one action of one call, [jwks_step] any action of any call.

    Every call returns whatever the scheduler does, what is served came from
    the source, and a call fetches at most once. *)

From stdpp Require Import relations.
From S2P Require Import Prelude GoNum Errors GoString.

Open Scope Z_scope.

(** [cachedJWKS]. *)
Record cachedJWKS : Type := mkJwks { jwJson : string; jwFetchedAt : time }.

(** Where a call of [Get] is.  The flag says whether the call is the one that
    set [refreshIn], and has to clear it. *)
Inductive jwks_pc : Type :=
| JStart                                      (* before the first load *)
| JCas (cur : option cachedJWKS)              (* stale or empty: before the compare-and-swap *)
| JLock (refresher : bool)                    (* before [mu.Lock] *)
| JRecheck                                    (* a waiter, after the lock *)
| JFetch (refresher : bool)                   (* [fetchLocked]: before the call of the source *)
| JFallback (refresher : bool)                (* the source failed *)
| JStore (refresher : bool) (json : string)   (* the source answered *)
| JClear (v : option string)                  (* deferred: [refreshIn.Store(false)] *)
| JUnlock (v : option string)                 (* deferred: [mu.Unlock] *)
| JDone (v : option string).                  (* returned; [None] is a nil slice *)

(** The log has what the source answered, the latest first. *)
Record JWKSCache : Type := mkCache {
  jcCached : option cachedJWKS;
  jcRefreshIn : bool;
  jcMutex : option nat;
  jcCalls : list jwks_pc;
  jcLog : list (res error string);
}.

(** [json.Marshal] of what [json.Unmarshal] reads, or the text itself. *)
Class JsonNormalizer : Type := normalizeJSON : string -> string.

Section cache.
Context `{JsonNormalizer} (ttl : duration).

Definition goto (i : nat) (pc : jwks_pc) (c : JWKSCache) : JWKSCache :=
  mkCache (jcCached c) (jcRefreshIn c) (jcMutex c) (<[i := pc]> (jcCalls c)) (jcLog c).

Definition fresh (now : time) (cur : option cachedJWKS) : bool :=
  match cur with Some j => now - jwFetchedAt j <? ttl | None => false end.

(** The deferred calls run in reverse order. *)
Definition leave (refresher : bool) (v : option string) : jwks_pc := if refresher then JClear v else JUnlock v.

(** One action of call [i]; [now] is the clock and [answer] the source, if the
    action asks it.  [None]: the call is blocked, or has returned. *)
Definition jwks_exec (i : nat) (now : time) (answer : res error string) (c : JWKSCache) : option JWKSCache :=
  match jcCalls c !! i with
  | Some JStart =>
      Some (goto i (if fresh now (jcCached c) then JDone (jwJson <$> jcCached c) else JCas (jcCached c)) c)
  | Some (JCas cur) =>
      Some (if jcRefreshIn c then goto i (match cur with Some j => JDone (Some (jwJson j)) | None => JLock false end) c
            else mkCache (jcCached c) true (jcMutex c) (<[i := JLock true]> (jcCalls c)) (jcLog c))
  | Some (JLock refresher) =>
      match jcMutex c with
      | Some _ => None
      | None => Some (mkCache (jcCached c) (jcRefreshIn c) (Some i)
                        (<[i := if refresher then JFetch true else JRecheck]> (jcCalls c)) (jcLog c))
      end
  | Some JRecheck =>
      Some (goto i (match jcCached c with Some j => JUnlock (Some (jwJson j)) | None => JFetch false end) c)
  | Some (JFetch refresher) =>
      Some (mkCache (jcCached c) (jcRefreshIn c) (jcMutex c)
              (<[i := match answer with Ok raw => JStore refresher (normalizeJSON raw) | Err _ => JFallback refresher end]> (jcCalls c))
              (answer :: jcLog c))
  | Some (JFallback refresher) => Some (goto i (leave refresher (jwJson <$> jcCached c)) c)
  | Some (JStore refresher json) =>
      Some (mkCache (Some (mkJwks json now)) (jcRefreshIn c) (jcMutex c) (<[i := leave refresher (Some json)]> (jcCalls c)) (jcLog c))
  | Some (JClear v) => Some (mkCache (jcCached c) false (jcMutex c) (<[i := JUnlock v]> (jcCalls c)) (jcLog c))
  | Some (JUnlock v) => Some (mkCache (jcCached c) (jcRefreshIn c) None (<[i := JDone v]> (jcCalls c)) (jcLog c))
  | Some (JDone _) | None => None
  end.

Definition jwks_step (c c' : JWKSCache) : Prop := exists i now answer, jwks_exec i now answer c = Some c'.

(** A new cache with [n] calls about to start. *)
Definition NewJWKSCache (n : nat) : JWKSCache := mkCache None false None (replicate n JStart) [].

(** A schedule: who acts, when, and what the source would say. *)
Fixpoint jwks_run (schedule : list (nat * time * res error string)) (c : JWKSCache) : option JWKSCache :=
  match schedule with
  | [] => Some c
  | (i, now, answer) :: schedule => c' ← jwks_exec i now answer c; jwks_run schedule c'
  end.

(** ** Invariants *)

Definition critical (pc : jwks_pc) : bool :=
  match pc with JRecheck | JFetch _ | JFallback _ | JStore _ _ | JClear _ | JUnlock _ => true | _ => false end.
Definition refreshes (pc : jwks_pc) : bool :=
  match pc with JLock r | JFetch r | JFallback r | JStore r _ => r | JClear _ => true | _ => false end.
(** Calls that may have used up their fetch. *)
Definition fetched (pc : jwks_pc) : nat :=
  match pc with JFallback _ | JStore _ _ | JClear _ | JUnlock _ | JDone _ => 1%nat | _ => 0%nat end.

Definition sourced (c : JWKSCache) (v : string) : Prop := exists raw, Ok raw ∈ jcLog c /\ v = normalizeJSON raw.
Definition failed (c : JWKSCache) : Prop := exists e, Err e ∈ jcLog c.

(** What a call holds. *)
Definition held (c : JWKSCache) (pc : jwks_pc) : Prop :=
  match pc with
  | JCas (Some j) => sourced c (jwJson j)
  | JStore _ v | JClear (Some v) | JUnlock (Some v) | JDone (Some v) => sourced c v
  | JFallback _ | JClear None | JUnlock None | JDone None => failed c
  | _ => True
  end.

Definition count (f : jwks_pc -> bool) (c : JWKSCache) : nat := sum_list_with (fun pc => if f pc then 1%nat else 0%nat) (jcCalls c).

Record cache_inv (c : JWKSCache) : Prop := {
  ci_mutex : count critical c = match jcMutex c with Some _ => 1%nat | None => 0%nat end;
  ci_flag : count refreshes c = if jcRefreshIn c then 1%nat else 0%nat;
  ci_cached : forall j, jcCached c = Some j -> sourced c (jwJson j);
  ci_held : forall i pc, jcCalls c !! i = Some pc -> held c pc;
  ci_fetches : (length (jcLog c) <= sum_list_with fetched (jcCalls c))%nat;
}.

(** How far a call is from returning. *)
Definition distance (pc : jwks_pc) : nat :=
  match pc with
  | JStart => 8 | JCas _ => 7 | JLock _ => 6 | JRecheck => 5 | JFetch _ => 4
  | JFallback _ | JStore _ _ => 3 | JClear _ => 2 | JUnlock _ => 1 | JDone _ => 0
  end.
Definition work (c : JWKSCache) : nat := sum_list_with distance (jcCalls c).

(** ** Every action keeps the invariants *)

Lemma lookup_calls i pc pc' (l : list jwks_pc) j q : l !! i = Some pc -> <[i := pc']> l !! j = Some q ->
  (j = i /\ q = pc') \/ (j <> i /\ l !! j = Some q).
Proof.
  intros Hi. destruct (decide (j = i)) as [->|Hne].
  - rewrite list_lookup_insert_eq by (by eapply lookup_lt_Some). intros [= <-]. by left.
  - rewrite list_lookup_insert_ne by done. by right.
Qed.

(** One goal for each action. *)
Ltac each_action Hx Hpc :=
  unfold jwks_exec in Hx;
  match type of Hx with match jcCalls ?c !! ?i with _ => _ end = _ =>
    let pc := fresh "pc" in destruct (jcCalls c !! i) as [pc|] eqn:Hpc; [destruct pc|]; try discriminate Hx end;
  repeat match type of Hx with
  | match jcMutex ?c with _ => _ end = _ => destruct (jcMutex c) eqn:?; try discriminate Hx
  | Some (if jcRefreshIn ?c then _ else _) = _ => destruct (jcRefreshIn c) eqn:?
  end;
  injection Hx as <-; cbn [goto jcCached jcRefreshIn jcMutex jcCalls jcLog].
Ltac split_call Hpc Hq :=
  apply (lookup_calls _ _ _ _ _ _ Hpc) in Hq as [[-> ->]|[? Hq]].

(** A sum over the calls after one has moved. *)
Lemma sum_insert (f : jwks_pc -> nat) l i pc pc' : l !! i = Some pc ->
  (sum_list_with f (<[i := pc']> l) + f pc = sum_list_with f l + f pc')%nat.
Proof.
  revert i. induction l as [|q l IH]; intros [|i] Hi; simplify_eq/=; [lia|]. specialize (IH i Hi). lia.
Qed.

Ltac sums Hpc := unfold count, work; cbn [goto jcCalls];
  repeat match goal with |- context [sum_list_with ?f (<[?i := ?pc']> ?l)] =>
    lazymatch goal with H : (sum_list_with f (<[i := pc']> l) + _ = _)%nat |- _ => fail | _ => idtac end;
    pose proof (sum_insert f l i _ pc' Hpc) end;
  unfold leave in *; cbn [critical refreshes fetched distance] in *.

Lemma exec_counts i now answer c c' : jwks_exec i now answer c = Some c' -> cache_inv c ->
  count critical c' = (match jcMutex c' with Some _ => 1 | None => 0 end)%nat /\
  count refreshes c' = (if jcRefreshIn c' then 1 else 0)%nat.
Proof.
  intros Hx [Hm Hf _ _ _]. unfold count in *.
  each_action Hx Hpc; sums Hpc; repeat case_match; simplify_eq/=; lia.
Qed.

Lemma exec_fetches i now answer c c' : jwks_exec i now answer c = Some c' -> cache_inv c ->
  (length (jcLog c') <= sum_list_with fetched (jcCalls c'))%nat.
Proof.
  intros Hx [_ _ _ _ Hl]. each_action Hx Hpc; sums Hpc; repeat case_match; simplify_eq/=; lia.
Qed.

(** The log only grows. *)
Lemma exec_log i now answer c c' : jwks_exec i now answer c = Some c' -> forall x, x ∈ jcLog c -> x ∈ jcLog c'.
Proof. intros Hx. each_action Hx Hpc; intros x Hin; first [done|by apply list_elem_of_further]. Qed.

Lemma sourced_mono c c' v : (forall x, x ∈ jcLog c -> x ∈ jcLog c') -> sourced c v -> sourced c' v.
Proof. intros Hlog (raw & Hin & ->). exists raw. auto. Qed.
Lemma held_mono c c' pc : (forall x, x ∈ jcLog c -> x ∈ jcLog c') -> held c pc -> held c' pc.
Proof.
  intros Hlog. assert (failed c -> failed c') as Hf by (intros [e He]; exists e; auto).
  destruct pc as [|[]| | | | | |[]|[]|[]]; simpl; eauto using sourced_mono.
Qed.

Lemma exec_cached i now answer c c' : jwks_exec i now answer c = Some c' -> cache_inv c ->
  forall j, jcCached c' = Some j -> sourced c' (jwJson j).
Proof.
  intros Hx [_ _ Hc Hh _] j Hj. apply (sourced_mono c); [by apply (exec_log _ _ _ _ _ Hx)|]. revert j Hj.
  each_action Hx Hpc; auto. intros j [= <-]. apply (Hh _ _ Hpc).
Qed.

Lemma exec_held i now answer c c' : jwks_exec i now answer c = Some c' -> cache_inv c ->
  forall j q, jcCalls c' !! j = Some q -> held c' q.
Proof.
  intros Hx [_ _ Hc Hh _]. pose proof (exec_log _ _ _ _ _ Hx) as Hlog.
  each_action Hx Hpc; intros j q Hq; split_call Hpc Hq; try (by eapply held_mono; [exact Hlog|by eapply Hh]);
    specialize (Hh _ _ Hpc) as Hi; simpl in Hi.
  all: try (destruct answer as [raw|e]; simpl; [exists raw|exists e]; split_and?; try done; by apply list_elem_of_here).
  all: apply (held_mono c); [exact Hlog|]; clear Hlog; unfold fresh, leave; destruct (jcCached c) as [j|]; simpl in *; repeat case_match;
    simplify_eq/=; auto.
Qed.

Lemma jwks_step_inv c c' : jwks_step c c' -> cache_inv c -> cache_inv c'.
Proof.
  intros (i & now & answer & Hx) I. destruct (exec_counts _ _ _ _ _ Hx I) as [Hm Hf].
  split; eauto using exec_cached, exec_held, exec_fetches.
Qed.

Lemma jwks_start_inv n : cache_inv (NewJWKSCache n).
Proof.
  assert (forall f, sum_list_with f (replicate n JStart) = n * f JStart)%nat as Hs
    by (intros f; induction n as [|m IH]; simpl; [done|by rewrite IH]).
  split; unfold count; cbn [NewJWKSCache jcCalls jcMutex jcRefreshIn jcCached jcLog]; rewrite ?Hs; simpl; try lia.
  - done.
  - intros i pc [-> _]%lookup_replicate. done.
Qed.

Lemma jwks_reachable_inv n c : rtc jwks_step (NewJWKSCache n) c -> cache_inv c.
Proof. intros Hr. pose proof (jwks_start_inv n) as I. induction Hr; eauto using jwks_step_inv. Qed.

(** ** Every action makes progress, and some action is possible *)

Lemma jwks_step_work c c' : jwks_step c c' -> (work c' < work c)%nat.
Proof.
  intros (i & now & answer & Hx). each_action Hx Hpc; sums Hpc; repeat case_match; simpl in *; lia.
Qed.

Lemma jwks_steps_work k c c' : nsteps jwks_step k c c' -> (k + work c' <= work c)%nat.
Proof. induction 1 as [|k c1 c2 c3 Hs _ IH]; [lia|]. apply jwks_step_work in Hs. lia. Qed.

Definition returned (pc : jwks_pc) : Prop := match pc with JDone _ => True | _ => False end.

(** A call that does not wait for the mutex can act. *)
Lemma exec_enabled i pc c now answer : jcCalls c !! i = Some pc -> ~ returned pc ->
  (forall r, pc = JLock r -> jcMutex c = None) -> is_Some (jwks_exec i now answer c).
Proof.
  intros Hpc Hr Hl. unfold jwks_exec. rewrite Hpc. destruct pc; simpl in *; try (by destruct Hr); try by eexists.
  rewrite (Hl _ eq_refl). by eexists.
Qed.

Lemma sum_positive (f : jwks_pc -> bool) l :
  sum_list_with (fun pc => if f pc then 1%nat else 0%nat) l = 1%nat -> exists i pc, l !! i = Some pc /\ f pc = true.
Proof.
  induction l as [|pc l IH]; simpl; [done|]. destruct (f pc) eqn:E; [by exists 0%nat, pc|].
  intros (i & q & Hi & Hq)%IH. by exists (S i), q.
Qed.

Lemma jwks_progress c i pc : cache_inv c -> jcCalls c !! i = Some pc -> ~ returned pc ->
  exists j, forall now answer, is_Some (jwks_exec j now answer c).
Proof.
  intros I Hpc Hr. destruct (jcMutex c) as [o|] eqn:Hm.
  - pose proof (ci_mutex _ I) as Hc. rewrite Hm in Hc. apply sum_positive in Hc as (j & q & Hj & Hq).
    exists j. intros now answer. apply (exec_enabled j q); [done|by intros ?; destruct q|intros r ->; done].
  - exists i. intros now answer. by eapply exec_enabled.
Qed.

Lemma jwks_step_calls c c' : jwks_step c c' -> length (jcCalls c') = length (jcCalls c).
Proof. intros (i & now & answer & Hx). each_action Hx Hpc; by rewrite length_insert. Qed.

Lemma jwks_reachable_calls n c : rtc jwks_step (NewJWKSCache n) c -> length (jcCalls c) = n.
Proof.
  intros Hr. remember (NewJWKSCache n) as c0 eqn:E. assert (length (jcCalls c0) = n) as <- by (rewrite E; apply length_replicate).
  clear E. induction Hr as [|c0 c1 c2 Hs _ IH]; [done|]. rewrite IH. by apply jwks_step_calls.
Qed.

Lemma fetched_calls l : (sum_list_with fetched l <= length l)%nat.
Proof. induction l as [|pc l IH]; simpl; [lia|]. destruct pc; simpl; lia. Qed.
End cache.

(** C29. Every call of [Get] returns: whatever the scheduler chooses and whatever
    the source answers, [n] concurrent calls perform at most [8 n] atomic
    actions, and as long as one of them has not returned some call can act;
    there is no deadlock between the mutex and the refresh flag. *)
Theorem jwks_terminates `{JsonNormalizer} ttl n k c :
  nsteps (jwks_step ttl) k (NewJWKSCache n) c ->
  (k <= 8 * n)%nat /\
  ((exists c', jwks_step ttl c c') \/ forall i pc, jcCalls c !! i = Some pc -> returned pc).
Proof.
  intros Hk. split.
  - apply jwks_steps_work in Hk. assert (work (NewJWKSCache n) = 8 * n)%nat; [|lia].
    unfold work. simpl. clear. induction n as [|m IH]; simpl; lia.
  - apply rtc_nsteps_2, jwks_reachable_inv in Hk as I.
    destruct (decide (Forall (fun pc => match pc with JDone _ => true | _ => false end = true) (jcCalls c))) as [Hall|Hno].
    + right. intros i pc Hi. rewrite Forall_lookup in Hall. specialize (Hall i pc Hi). by destruct pc.
    + left. apply not_Forall_Exists, Exists_exists in Hno as (pc & Hin & Hpc); [|apply _].
      apply list_elem_of_lookup in Hin as (i & Hi).
      destruct (jwks_progress ttl c i pc I Hi) as (j & Hj); [intros Hr; apply Hpc; by destruct pc|].
      destruct (Hj 0 (Ok "")) as [c' Hc']. by exists c', j, 0, (Ok "").
Qed.

(** What a call returns came from the source (in normal form), or is nil
    when the source failed; at most one call is inside the critical section and
    at most one refreshes at any time, and no call asks the source twice. *)
Theorem jwks_served `{JsonNormalizer} ttl n c :
  rtc (jwks_step ttl) (NewJWKSCache n) c ->
  (forall i v, jcCalls c !! i = Some (JDone v) ->
     match v with Some json => exists raw, Ok raw ∈ jcLog c /\ json = normalizeJSON raw | None => exists e, Err e ∈ jcLog c end) /\
  (count critical c <= 1)%nat /\ (count refreshes c <= 1)%nat /\ (length (jcLog c) <= n)%nat.
Proof.
  intros Hr. pose proof (jwks_reachable_inv _ _ _ Hr) as I. split_and!.
  - intros i v Hi. apply (ci_held _ I) in Hi. by destruct v.
  - rewrite (ci_mutex _ I). case_match; lia.
  - rewrite (ci_flag _ I). case_match; lia.
  - etrans; [apply (ci_fetches _ I)|]. rewrite <- (jwks_reachable_calls _ _ _ Hr). apply fetched_calls.
Qed.

(** ** Two calls *)

#[local] Instance noNormalizer : JsonNormalizer := fun s => s.

Lemma jwks_run_steps `{JsonNormalizer} ttl schedule c c' :
  jwks_run ttl schedule c = Some c' -> nsteps (jwks_step ttl) (length schedule) c c'.
Proof.
  revert c. induction schedule as [|[[i now] answer] schedule IH]; intros c Hr; simpl in Hr; [injection Hr as ->; constructor|].
  apply bind_Some in Hr as (c1 & H1 & Hr). econstructor; [by exists i, now, answer|by apply IH].
Qed.

(** The second call loads the empty cache before the first stores its answer,
    and sets the flag after the first has cleared it. *)
Definition demoSchedule : list (nat * time * res error string) :=
  let at_ i := (i, 5, Ok "{keys}") in
  [at_ 0%nat; at_ 0%nat; at_ 1%nat; at_ 0%nat; at_ 0%nat; at_ 0%nat; at_ 0%nat; at_ 0%nat;
   at_ 1%nat; at_ 1%nat; at_ 1%nat; at_ 1%nat; at_ 1%nat; at_ 1%nat].
Definition demoCalls : JWKSCache := default (NewJWKSCache 2) (jwks_run 100 demoSchedule (NewJWKSCache 2)).

Lemma demoCalls_run : jwks_run 100 demoSchedule (NewJWKSCache 2) = Some demoCalls.
Proof. by vm_compute. Qed.

Lemma demoCalls_done : jcCalls demoCalls !! 0%nat = Some (JDone (Some "{keys}")).
Proof. vm_compute. reflexivity. Qed.

(** Fourteen actions of the two calls, after which both have returned; after the
    first three of them somebody can still act. *)
Lemma jwks_terminates_witness :
  nsteps (jwks_step 100) 14 (NewJWKSCache 2) demoCalls /\
  (forall i pc, jcCalls demoCalls !! i = Some pc -> returned pc) /\
  jcCalls demoCalls = [JDone (Some "{keys}"); JDone (Some "{keys}")] /\
  exists c3 c4, jwks_run 100 (take 3 demoSchedule) (NewJWKSCache 2) = Some c3 /\ jwks_step 100 c3 c4.
Proof.
  pose proof (jwks_run_steps _ _ _ _ demoCalls_run) as Hrun. split; [exact Hrun|]. split.
  - destruct (jwks_terminates 100 2 14 demoCalls Hrun) as [_ [[c' Hs]|Hall]]; [|exact Hall].
    exfalso. apply jwks_step_work in Hs. vm_compute in Hs. lia.
  - split; [vm_compute; reflexivity|].
    destruct (jwks_run 100 (take 3 demoSchedule) (NewJWKSCache 2)) as [c3|] eqn:E3; [|vm_compute in E3; discriminate E3].
    exists c3. destruct (jwks_terminates 100 2 3 c3 (jwks_run_steps _ _ _ _ E3)) as [_ [[c4 Hs]|Hall]];
      [exists c4; split; [reflexivity|exact Hs]|].
    exfalso. assert (match jwks_run 100 (take 3 demoSchedule) (NewJWKSCache 2) with
      | Some c => match jcCalls c !! 0%nat with Some (JDone _) => true | _ => false end | None => true end = false) as Hx
      by (vm_compute; reflexivity).
    rewrite E3 in Hx. destruct (jcCalls c3 !! 0%nat) as [pc|] eqn:E0.
    + specialize (Hall 0%nat pc E0). destruct pc; try destruct Hall. discriminate Hx.
    + apply lookup_ge_None in E0. pose proof (jwks_reachable_calls 100 2 c3 (rtc_nsteps_2 _ _ _ (jwks_run_steps _ _ _ _ E3))). lia.
Defined.

Lemma jwks_served_witness : exists raw, Ok raw ∈ jcLog demoCalls /\ "{keys}" = raw.
Proof.
  exact (proj1 (jwks_served 100 2 demoCalls (rtc_nsteps_2 _ _ _ (jwks_run_steps _ _ _ _ demoCalls_run)))
    0%nat (Some "{keys}") demoCalls_done).
Defined.

(** ** Where the code differs from its comments *)

(** A stampede fetches twice, at one instant: nothing is checked again under the
    mutex by the call that has set the flag. *)
Example stampede_fetches_twice : length (jcLog demoCalls) = 2%nat.
Proof. by vm_compute. Qed.
