(* ===== verification/RedisLock.v ===== *)
(** * The relay's lock, presence and rate limits

    Model of the uses of Redis whose behaviour depends on interleaving or time:
    [RedisLocker] of the relays ([sync-service/internal/infra/events/events.go];
    the auth and room services have the same code), [Presence]
    ([sync-service/internal/infra/redis/client.go]) and [RateLimiter]
    ([auth-service/internal/infra/redis]).  Each Redis command is one atomic
    step; keys expire by the server's clock. *)

From stdpp Require Import pretty.
From S2P Require Import Prelude GoNum Errors GoString Kafka Outbox.

Open Scope Z_scope.

(** ** The lock *)

(** Where a relay is: between polls, draining with a lease (its token and the
    time its lease ends), or in [release] between the [GET] that let it go on
    and the [DEL]; [read] is when the key that the [GET] found expires. *)
Inductive relay_pc : Type :=
| RIdle
| RHeld (token : Z) (expiry : time)
| RGot (token : Z) (expiry read : time).

(** The key, and where each relay is. *)
Record lock_state : Type := mkLock {
  lkKey : option (Z * time);
  lkRelays : list relay_pc;
}.

(** What relay [i] does next, at the server's time. *)
Inductive lock_op : Type :=
| OpAcquire (i : nat) (token : Z)   (* [SET NX EX], with the relay's clock as the token *)
| OpGet (i : nat)
| OpDel (i : nat).

Section lock.
Context (ttl : duration).

(** The value of the key, if it has not expired. *)
Definition liveKey (now : time) (k : option (Z * time)) : option (Z * time) :=
  match k with Some (token, expiry) => if now <? expiry then Some (token, expiry) else None | None => None end.

Definition relayTo (i : nat) (pc : relay_pc) (s : lock_state) : lock_state := mkLock (lkKey s) (<[i := pc]> (lkRelays s)).

Definition lock_exec (now : time) (op : lock_op) (s : lock_state) : option lock_state :=
  match op with
  | OpAcquire i token =>
      match lkRelays s !! i with
      | Some RIdle =>
          match liveKey now (lkKey s) with
          | Some _ => Some s                                  (* [ErrNotLeader] *)
          | None => Some (mkLock (Some (uint64 token, now + ttl)) (<[i := RHeld (uint64 token) (now + ttl)]> (lkRelays s)))
          end
      | _ => None
      end
  | OpGet i =>
      match lkRelays s !! i with
      | Some (RHeld token expiry) =>
          Some match liveKey now (lkKey s) with
               | None => relayTo i RIdle s                     (* [redis.Nil] *)
               | Some (got, read) => if negb (got =? token) then relayTo i RIdle s else relayTo i (RGot token expiry read) s
               end
      | _ => None
      end
  | OpDel i =>
      match lkRelays s !! i with
      | Some (RGot _ _ _) => Some (mkLock None (<[i := RIdle]> (lkRelays s)))
      | _ => None
      end
  end.

(** A schedule gives the time of every command. *)
Fixpoint lock_run (schedule : list (time * lock_op)) (s : lock_state) : option lock_state :=
  match schedule with
  | [] => Some s
  | (now, op) :: schedule => s' ← lock_exec now op s; lock_run schedule s'
  end.

Definition lock_start (n : nat) : lock_state := mkLock None (replicate n RIdle).

(** The tokens a schedule draws, as they are stored. *)
Definition tokensOf (schedule : list (time * lock_op)) : list Z :=
  omap (fun x => match x.2 with OpAcquire _ token => Some (uint64 token) | _ => None end) schedule.

(** No key expires between the [GET] of a release that found it and the [DEL]
    that follows.  The [GET] itself may come at any time, also long after the
    lease has ended and another relay has the key. *)
Fixpoint dels_prompt (schedule : list (time * lock_op)) (s : lock_state) : Prop :=
  match schedule with
  | [] => True
  | (now, op) :: schedule =>
      match op with
      | OpDel i => match lkRelays s !! i with Some (RGot _ _ read) => now < read | _ => True end
      | _ => True
      end /\
      match lock_exec now op s with Some s' => dels_prompt schedule s' | None => True end
  end.

(** The relay may act as the leader at a time. *)
Definition leads (now : time) (pc : relay_pc) : Prop :=
  match pc with RIdle => False | RHeld _ expiry | RGot _ expiry _ => now < expiry end.
Definition tokenOf (pc : relay_pc) : option Z :=
  match pc with RIdle => None | RHeld token _ | RGot token _ _ => Some token end.
Definition expiryOf (pc : relay_pc) : time :=
  match pc with RIdle => 0 | RHeld _ expiry | RGot _ expiry _ => expiry end.

(** At time [now]: a relay within its lease owns the key; tokens are drawn from
    [used], and belong to one relay; the key and its holder agree on when it
    expires, and so does a [GET] that found the holder's token. *)
Record lock_inv (now : time) (used : list Z) (s : lock_state) : Prop := {
  li_owner : forall i pc token, lkRelays s !! i = Some pc -> tokenOf pc = Some token -> leads now pc ->
    lkKey s = Some (token, expiryOf pc);
  li_used : forall i pc token, lkRelays s !! i = Some pc -> tokenOf pc = Some token -> token ∈ used;
  li_one : forall i j p q token, lkRelays s !! i = Some p -> lkRelays s !! j = Some q ->
    tokenOf p = Some token -> tokenOf q = Some token -> i = j;
  li_key : forall i pc token expiry, lkRelays s !! i = Some pc -> tokenOf pc = Some token ->
    lkKey s = Some (token, expiry) -> expiry = expiryOf pc;
  li_read : forall i token expiry read, lkRelays s !! i = Some (RGot token expiry read) -> read = expiry;
}.

Lemma lookup_relay i pc' (l : list relay_pc) j q pc : l !! i = Some pc -> <[i := pc']> l !! j = Some q ->
  (j = i /\ q = pc') \/ (j <> i /\ l !! j = Some q).
Proof.
  intros Hi. destruct (decide (j = i)) as [->|Hne].
  - rewrite list_lookup_insert_eq by (by eapply lookup_lt_Some). intros [= <-]. by left.
  - rewrite list_lookup_insert_ne by done. by right.
Qed.

Lemma leads_earlier now now' pc : now <= now' -> leads now' pc -> leads now pc.
Proof. destruct pc; simpl; lia. Qed.

(** Time passing, and a relay that lets go, keep the invariant. *)
Lemma lock_inv_later now now' used s : now <= now' -> lock_inv now used s -> lock_inv now' used s.
Proof.
  intros Hn [Ho Hu H1 Hk Hr]. split; [|done..]. intros i pc token Hi Ht Hl. eapply Ho; [done..|]. by eapply leads_earlier.
Qed.

Lemma lock_inv_idle now used s i pc : lkRelays s !! i = Some pc -> lock_inv now used s -> lock_inv now used (relayTo i RIdle s).
Proof.
  intros Hi [Ho Hu H1 Hk Hr].
  assert (forall j q, <[i := RIdle]> (lkRelays s) !! j = Some q -> q <> RIdle -> j <> i /\ lkRelays s !! j = Some q) as Hback.
  { intros j q Hq Hne. by apply (lookup_relay _ _ _ _ _ _ Hi) in Hq as [[-> ->]|]. }
  assert (forall q token, tokenOf q = Some token -> q <> RIdle) as Hid by (by intros [] ?).
  split; cbn [relayTo lkRelays lkKey].
  - intros j q token Hq Ht Hl. apply Hback in Hq as [_ Hq]; [by eapply Ho|by eapply Hid].
  - intros j q token Hq Ht. apply Hback in Hq as [_ Hq]; [by eapply Hu|by eapply Hid].
  - intros j k p q token Hp Hq Tp Tq. apply Hback in Hp as [_ Hp]; [|by eapply Hid].
    apply Hback in Hq as [_ Hq]; [by eapply H1|by eapply Hid].
  - intros j q token expiry Hq Ht. apply Hback in Hq as [_ Hq]; [by eapply Hk|by eapply Hid].
  - intros j token expiry read Hq. apply Hback in Hq as [_ Hq]; [by eapply Hr|done].
Qed.

(** A [GET] that found the relay's own token. *)
Lemma lock_inv_got now used s i token expiry read : lkRelays s !! i = Some (RHeld token expiry) -> lkKey s = Some (token, read) ->
  lock_inv now used s -> lock_inv now used (relayTo i (RGot token expiry read) s).
Proof.
  intros Hi Hkey [Ho Hu H1 Hk Hr]. pose proof (Hk _ _ _ _ Hi eq_refl Hkey) as Hread. simpl in Hread.
  assert (forall j q, <[i := RGot token expiry read]> (lkRelays s) !! j = Some q ->
            exists p, lkRelays s !! j = Some p /\ tokenOf p = tokenOf q /\ expiryOf p = expiryOf q /\ (leads now q -> leads now p)) as Hback.
  { intros j q Hq. apply (lookup_relay _ _ _ _ _ _ Hi) in Hq as [[-> ->]|[_ Hq]]; [by exists (RHeld token expiry)|by exists q]. }
  split; cbn [relayTo lkRelays lkKey].
  - intros j q tok (p & Hp & Tp & Ep & Lp)%Hback Ht Hl. rewrite <- Ep. rewrite <- Tp in Ht. eapply Ho; eauto.
  - intros j q tok (p & Hp & Tp & _ & _)%Hback Ht. rewrite <- Tp in Ht. eauto.
  - intros j k q q' tok (p & Hp & Tp & _ & _)%Hback (p' & Hp' & Tp' & _ & _)%Hback Ht Ht'. rewrite <- Tp in Ht. rewrite <- Tp' in Ht'. eauto.
  - intros j q tok e (p & Hp & Tp & Ep & _)%Hback Ht Hk'. rewrite <- Ep. rewrite <- Tp in Ht. eauto.
  - intros j tok e r Hq. apply (lookup_relay _ _ _ _ _ _ Hi) in Hq as [[-> [= -> -> ->]]|[_ Hq]]; [done|eauto].
Qed.

Lemma liveKey_Some now k token expiry : liveKey now k = Some (token, expiry) -> k = Some (token, expiry).
Proof. destruct k as [[t e]|]; simpl; [|done]. by destruct (_ <? _). Qed.

(** A relay that takes a key nobody holds. *)
Lemma lock_inv_acquire now used s i token : lock_inv now used s -> lkRelays s !! i = Some RIdle -> liveKey now (lkKey s) = None ->
  token ∉ used -> lock_inv now (token :: used) (mkLock (Some (token, now + ttl)) (<[i := RHeld token (now + ttl)]> (lkRelays s))).
Proof.
  intros [Ho Hu H1 Hk Hr] Hi Hfree Hfresh.
  assert (forall j pc, lkRelays s !! j = Some pc -> ~ leads now pc) as Hnone.
  { intros j pc Hj Hl. destruct (tokenOf pc) as [tok|] eqn:Ht; [|by destruct pc]. pose proof (Ho _ _ _ Hj Ht Hl) as Hkey.
    rewrite Hkey in Hfree. simpl in Hfree. destruct pc as [|? x|? x]; simpl in *; [done| |]; by destruct (Z.ltb_spec now x); [|lia]. }
  assert (forall j pc, lkRelays s !! j = Some pc -> tokenOf pc <> Some token) as Hother by (intros j pc Hj Ht; apply Hfresh; by eapply Hu).
  split; cbn [lkRelays lkKey].
  - intros j q tok Hq Ht Hl. apply (lookup_relay _ _ _ _ _ _ Hi) in Hq as [[-> ->]|[_ Hq]]; [by simplify_eq/=|]. by apply Hnone in Hq.
  - intros j q tok Hq Ht. apply (lookup_relay _ _ _ _ _ _ Hi) in Hq as [[-> ->]|[_ Hq]]; [simplify_eq/=; by left|right; by eapply Hu].
  - intros j k p q tok Hp Hq Tp Tq. apply (lookup_relay _ _ _ _ _ _ Hi) in Hp as [[-> ->]|[_ Hp]];
      apply (lookup_relay _ _ _ _ _ _ Hi) in Hq as [[-> ->]|[_ Hq]]; simplify_eq/=; [done| | |by eapply H1];
      exfalso; by eapply Hother.
  - intros j q tok e Hq Ht [= -> <-]. apply (lookup_relay _ _ _ _ _ _ Hi) in Hq as [[-> ->]|[_ Hq]]; [done|]. by destruct (Hother _ _ Hq).
  - intros j tok e r Hq. apply (lookup_relay _ _ _ _ _ _ Hi) in Hq as [[-> [=]]|[_ Hq]]. eauto.
Qed.

(** A relay that deletes the key it holds. *)
Lemma lock_inv_del now used s i t e r : lkRelays s !! i = Some (RGot t e r) -> now < r -> lock_inv now used s ->
  lock_inv now used (mkLock None (<[i := RIdle]> (lkRelays s))).
Proof.
  intros Hi Hlt I. pose proof I as [Ho Hu H1 Hk Hr]. rewrite (Hr _ _ _ _ Hi) in Hlt.
  pose proof (Ho i _ t Hi eq_refl Hlt) as Hkey.
  apply (lock_inv_idle _ _ _ _ _ Hi) in I as [_ Hu' H1' _ Hr']. split; [|done..]. cbn [lkRelays lkKey].
  intros j q tok Hq Ht Hl. apply (lookup_relay _ _ _ _ _ _ Hi) in Hq as [[-> ->]|[Hne Hq]]; [done|].
  pose proof (Ho j q tok Hq Ht Hl) as Hkey'. rewrite Hkey in Hkey'. injection Hkey' as <- _. destruct Hne. by eapply H1.
Qed.

Lemma lock_inv_used now used token s : lock_inv now used s -> lock_inv now (token :: used) s.
Proof. intros [Ho Hu H1 Hk Hr]. split; [done| |done..]. intros j pc tok Hj Ht. right. by eapply Hu. Qed.

Lemma lock_exec_inv now now' used op s s' :
  now <= now' -> lock_inv now used s -> lock_exec now' op s = Some s' ->
  match op with OpDel i => match lkRelays s !! i with Some (RGot _ _ read) => now' < read | _ => True end | _ => True end ->
  match op with OpAcquire _ token => uint64 token ∉ used | _ => True end ->
  lock_inv now' (match op with OpAcquire _ token => uint64 token :: used | _ => used end) s'.
Proof.
  intros Hn I Hx Hdel Hacq. apply (lock_inv_later _ _ _ _ Hn) in I. clear Hn now.
  destruct op as [i token|i|i]; simpl in Hx; destruct (lkRelays s !! i) as [pc|] eqn:Hi; try done; destruct pc as [|t e|t e r]; try done.
  - destruct (liveKey now' (lkKey s)) as [k|] eqn:Hk; injection Hx as <-; [by apply lock_inv_used|by apply lock_inv_acquire].
  - destruct (liveKey now' (lkKey s)) as [[got e']|] eqn:Hk; [destruct (negb (got =? t)) eqn:Eg|]; injection Hx as <-;
      [by eapply lock_inv_idle| |by eapply lock_inv_idle].
    apply lock_inv_got; [done| |done]. apply liveKey_Some in Hk. apply negb_false_iff, Z.eqb_eq in Eg. by subst got.
  - injection Hx as <-. by eapply lock_inv_del.
Qed.

Lemma lock_start_inv n now : lock_inv now [] (lock_start n).
Proof.
  assert (forall i pc, lkRelays (lock_start n) !! i = Some pc -> pc = RIdle) as Hidle by (by intros i pc [-> _]%lookup_replicate).
  split; intros i; intros; repeat match goal with H : lkRelays (lock_start n) !! _ = Some _ |- _ => apply Hidle in H; simplify_eq/= end; done.
Qed.

(** Times of a schedule do not decrease. *)
Fixpoint ascending (now : time) (schedule : list (time * lock_op)) : Prop :=
  match schedule with [] => True | (now', _) :: schedule => now <= now' /\ ascending now' schedule end.
Definition lastTime (now : time) (schedule : list (time * lock_op)) : time := default now (fst <$> last schedule).

Lemma lastTime_cons now x schedule : lastTime now (x :: schedule) = lastTime x.1 schedule.
Proof. unfold lastTime. rewrite last_cons. by destruct (last schedule). Qed.

Lemma lock_run_inv schedule now used s s' :
  lock_inv now used s -> ascending now schedule -> dels_prompt schedule s -> NoDup (tokensOf schedule) ->
  (forall token, token ∈ tokensOf schedule -> token ∉ used) -> lock_run schedule s = Some s' ->
  exists used', lock_inv (lastTime now schedule) used' s'.
Proof.
  revert now used s. induction schedule as [|[now' op] schedule IH]; intros now used s I Hasc Hd Hnd Hfresh Hr;
    [injection Hr as <-; by exists used|].
  apply bind_Some in Hr as (s1 & Hx & Hr). destruct Hasc as [Hn Hasc]. destruct Hd as [Hdel Hd]. rewrite Hx in Hd. rewrite lastTime_cons.
  assert (match op with OpAcquire _ token => uint64 token ∉ used | _ => True end) as Hacq
    by (destruct op; [apply Hfresh; by left|done..]).
  eapply (IH now' _ s1); [by eapply lock_exec_inv|done..| | |done]; unfold tokensOf in *; destruct op as [i token| |]; simpl in *; try done.
  - by apply NoDup_cons in Hnd as [_ Hnd].
  - intros tok Htok. apply NoDup_cons in Hnd as [Hnot _]. intros [->|Hin]%elem_of_cons; [done|]. eapply Hfresh; [|done]. by right.
Qed.
End lock.

(** C28. One leader: when the relays draw different tokens, and no key expires
    in the instant between the [GET] and the [DEL] of a release, two relays never
    act within their leases at the same time, however the commands interleave
    and however late a relay releases: a release that finds the token of another
    relay leaves the key alone. *)
Theorem lock_exclusive ttl n start schedule s i j p q :
  ascending start schedule -> dels_prompt ttl schedule (lock_start n) -> NoDup (tokensOf schedule) ->
  lock_run ttl schedule (lock_start n) = Some s ->
  lkRelays s !! i = Some p -> lkRelays s !! j = Some q ->
  leads (lastTime start schedule) p -> leads (lastTime start schedule) q -> i = j.
Proof.
  intros Hasc Hd Hnd Hr Hp Hq Lp Lq.
  destruct (lock_run_inv ttl schedule start [] (lock_start n) s) as (used & [Ho Hu H1 _ _]); [apply lock_start_inv|done..| |done|].
  { by intros token _ ?%not_elem_of_nil. }
  destruct (tokenOf p) as [t|] eqn:Tp; [|by destruct p]. destruct (tokenOf q) as [t'|] eqn:Tq; [|by destruct q].
  pose proof (Ho _ _ _ Hp Tp Lp) as Hk. rewrite (Ho _ _ _ Hq Tq Lq) in Hk. injection Hk as -> _. by eapply H1.
Qed.

(** The second relay is refused, then takes over when the lease of the first has
    ended; the first finds another token and leaves the key alone. *)
Definition takeover : list (time * lock_op) :=
  [(0, OpAcquire 0 7); (1, OpAcquire 1 8); (30, OpAcquire 1 9); (31, OpGet 0)].
Definition afterTakeover : lock_state := default (lock_start 2) (lock_run 30 takeover (lock_start 2)).

Lemma lock_exclusive_witness :
  lkRelays afterTakeover = [RIdle; RHeld 9 60] /\
  forall j q, lkRelays afterTakeover !! j = Some q -> leads 31 q -> j = 1%nat.
Proof.
  assert (lock_run 30 takeover (lock_start 2) = Some afterTakeover) as Hr by by vm_compute.
  assert (lkRelays afterTakeover = [RIdle; RHeld 9 60]) as Hl by by vm_compute.
  split; [exact Hl|]. intros j q Hq Lq.
  assert (ascending 0 takeover) as Ha by (repeat split; simpl; lia).
  assert (dels_prompt 30 takeover (lock_start 2)) as Hd by (vm_compute; tauto).
  assert (NoDup (tokensOf takeover)) as Hn by (apply (bool_decide_unpack _); by vm_compute).
  refine (lock_exclusive 30 2 0 takeover afterTakeover j 1 q (RHeld 9 60) Ha Hd Hn Hr Hq _ Lq _).
  - by rewrite Hl.
  - change (31 < 60). lia.
Defined.

(** The release is not atomic: when the lease ends between its [GET] and its
    [DEL], it deletes the lease of another relay, and a third becomes leader
    beside the second. *)
Example late_del_two_leaders :
  match lock_run 30 [(0, OpAcquire 0 7); (29, OpGet 0); (30, OpAcquire 1 8); (31, OpDel 0); (32, OpAcquire 2 9)] (lock_start 3) with
  | Some s => lkRelays s = [RIdle; RHeld 8 60; RHeld 9 62]
  | None => False
  end.
Proof. done. Qed.

(** ** Presence *)

(** The sorted sets of a server: a score for each member of each key. *)
Notation PresenceDB := (gmap string (gmap string Z)).

Definition presenceKey (roomID : string) : string := "sync:presence:" +:+ roomID.
Definition zset (key : string) (db : PresenceDB) : gmap string Z := default ∅ (db !! key).

(** [ZADD], [ZREM], [ZREMRANGEBYSCORE -inf max], [ZRANGE start stop BYSCORE]; a
    score in milliseconds is a float without rounding. *)
Definition ZAdd (key member : string) (score : Z) (db : PresenceDB) : PresenceDB := <[key := <[member := score]> (zset key db)]> db.
Definition ZRem (key member : string) (db : PresenceDB) : PresenceDB := <[key := delete member (zset key db)]> db.
Definition ZRemRangeBelow (key : string) (max : Z) (db : PresenceDB) : PresenceDB :=
  <[key := filter (fun x => max < x.2) (zset key db)]> db.
Definition ZRangeByScore (key : string) (start stop : Z) (db : PresenceDB) : gmap string Z :=
  filter (fun x => start <= x.2 /\ x.2 <= stop) (zset key db).

Definition UnixMilli (t : time) : Z := t / 1000000.

Definition Join (now : time) (roomID userID : string) (db : PresenceDB) : PresenceDB := ZAdd (presenceKey roomID) userID (UnixMilli now) db.
Definition PresenceHeartbeat (now : time) (roomID userID : string) (db : PresenceDB) : PresenceDB :=
  ZAdd (presenceKey roomID) userID (UnixMilli now) db.
Definition Leave (roomID userID : string) (db : PresenceDB) : PresenceDB := ZRem (presenceKey roomID) userID db.

(** [Active]: the members it returns and the swept sets. *)
Definition Active (now : time) (roomID : string) (within : duration) (db : PresenceDB) : gset string * PresenceDB :=
  let key := presenceKey roomID in
  let cutoff := int64 (UnixMilli now - Z.quot within 1000000) in
  let db := ZRemRangeBelow key (int64 (cutoff - 1)) db in
  (dom (ZRangeByScore key cutoff (-1) db), db).

Lemma zset_insert key m db : zset key (<[key := m]> db) = m.
Proof. unfold zset. by rewrite lookup_insert_eq. Qed.

(** Sweeping removes exactly the members that were not seen for [within]. *)
Lemma Active_sweeps now roomID within db user score :
  in_s 64 (UnixMilli now - Z.quot within 1000000 - 1) -> in_s 64 (UnixMilli now - Z.quot within 1000000) ->
  zset (presenceKey roomID) (Active now roomID within db).2 !! user = Some score <->
  zset (presenceKey roomID) db !! user = Some score /\ UnixMilli now - Z.quot within 1000000 <= score.
Proof.
  intros Hr1 Hr2. unfold Active. cbn [snd]. unfold ZRemRangeBelow. rewrite zset_insert.
  rewrite map_lookup_filter_Some. simpl. rewrite (int64_id (UnixMilli now - _)) by done. rewrite int64_id by done.
  intuition lia.
Qed.

(** The upper end of the range is the score -1, not the last rank: no member is
    ever active. *)
Lemma Active_empty now roomID within db :
  0 <= UnixMilli now - Z.quot within 1000000 < 2 ^ 63 -> (Active now roomID within db).1 = ∅.
Proof.
  intros Hc. unfold Active. cbn [fst]. apply dom_empty_iff_L. unfold ZRangeByScore. apply map_empty. intros user.
  apply map_lookup_filter_None_2. right. intros score _ [Hlo Hhi]. simpl in *. rewrite int64_id in Hlo by (unfold in_s; lia). lia.
Qed.

Example joined_not_active : (Active 2000000000 "r" 30000000 (Join 1999000000 "r" "u" ∅)).1 = ∅.
Proof. by vm_compute. Qed.

(** ** Rate limits *)

(** Counters and their expiry. *)
Notation CounterDB := (gmap string (Z * Z)).

(** [Client.IncrWithTTL]: [INCR] and [EXPIRE] in one transaction; [fault] is an
    error of the server. *)
Definition IncrWithTTL (now : time) (fault : option error) (key : string) (ttl : duration) (db : CounterDB) : res error Z * CounterDB :=
  match fault with
  | Some e => (Err (EWrap "redis: incr_with_ttl" e), db)
  | None =>
      let count := match db !! key with Some (n, expiry) => if now <? expiry then n else 0 | None => 0 end in
      (Ok (count + 1), <[key := (count + 1, now + ttl)]> db)
  end.

Definition ErrRateLimited : error := EMsg "rate limit exceeded".

(** [t.Truncate(d)] counts from the year 1; [Unix] rounds down to seconds. *)
Definition yearOne : Z := 62135596800 * 1000000000.
Definition Truncate (t : time) (d : duration) : time := if d <=? 0 then t else t - (t + yearOne) mod d.
Definition Unix (t : time) : Z := t / 1000000000.

Record RateLimiter : Type := mkLimiter { rlLimit : Z; rlWindow : duration }.

Definition bucketOf (r : RateLimiter) (now : time) : Z := Unix (Truncate now (rlWindow r)).
Definition rateKey (r : RateLimiter) (key : string) (now : time) : string := "rl:" +:+ key +:+ ":" +:+ pretty (bucketOf r now).

Definition Allow (r : RateLimiter) (now : time) (fault : option error) (key : string) (db : CounterDB) : option error * CounterDB :=
  match IncrWithTTL now fault (rateKey r key now) (rlWindow r + Second) db with
  | (Err _, db) => (None, db)
  | (Ok count, db) => (if rlLimit r <? count then Some ErrRateLimited else None, db)
  end.

(** The answers to requests at the given times. *)
Fixpoint allowRun (r : RateLimiter) (key : string) (times : list time) (db : CounterDB) : list (option error) :=
  match times with
  | [] => []
  | now :: times => let '(e, db) := Allow r now None key db in e :: allowRun r key times db
  end.

(** Requests of one bucket come within the life of its key. *)
Lemma bucket_span r now now' : 0 < rlWindow r -> bucketOf r now = bucketOf r now' -> now' < now + (rlWindow r + Second).
Proof.
  intros Hw. unfold bucketOf, Unix, Truncate, Second. destruct (Z.leb_spec (rlWindow r) 0); [lia|].
  pose proof (Z.mod_pos_bound (now + yearOne) (rlWindow r) Hw). pose proof (Z.mod_pos_bound (now' + yearOne) (rlWindow r) Hw).
  set (a := now - _). set (b := now' - _). intros Heq.
  pose proof (Z.div_mod a 1000000000). pose proof (Z.div_mod b 1000000000).
  pose proof (Z.mod_pos_bound a 1000000000). pose proof (Z.mod_pos_bound b 1000000000). lia.
Qed.

(** The answers once [used] requests of the bucket were counted. *)
Lemma allowRun_counts r key times b : forall used last db,
  0 < rlWindow r -> Forall (fun t => bucketOf r t = b) times -> bucketOf r last = b -> Sorted Z.le (last :: times) ->
  db !! ("rl:" +:+ key +:+ ":" +:+ pretty b) = Some (used, last + (rlWindow r + Second)) ->
  allowRun r key times db = map (fun k => if rlLimit r <? k then Some ErrRateLimited else None) (seqZ (used + 1) (Z.of_nat (length times))).
Proof.
  induction times as [|now times IH]; intros used last db Hw Hb Hl Hs Hdb; [done|].
  apply Forall_cons in Hb as [Hnow Hb]. cbn [allowRun]. unfold Allow, IncrWithTTL, rateKey. rewrite Hnow, Hdb.
  pose proof (bucket_span r last now Hw ltac:(congruence)) as Hlive. rewrite (proj2 (Z.ltb_lt _ _) Hlive).
  rewrite (IH (used + 1) now); [|done..|by inversion Hs|by rewrite lookup_insert_eq].
  cbn [length]. rewrite (seqZ_cons (used + 1)) by lia. rewrite map_cons. f_equal. f_equal. f_equal; lia.
Qed.

(** The limit is exact: of the requests of one client in one bucket, the
    first [limit] are allowed and every later one is refused, however they are
    spaced, when the counter starts fresh and Redis answers. *)
Theorem rate_limit_exact r key times db b :
  0 < rlWindow r -> Forall (fun t => bucketOf r t = b) times -> Sorted Z.le times ->
  db !! ("rl:" +:+ key +:+ ":" +:+ pretty b) = None ->
  allowRun r key times db = map (fun k => if rlLimit r <? k then Some ErrRateLimited else None) (seqZ 1 (Z.of_nat (length times))).
Proof.
  intros Hw Hb Hs Hdb. destruct times as [|now times]; [done|]. apply Forall_cons in Hb as [Hnow Hb].
  cbn [allowRun]. unfold Allow, IncrWithTTL, rateKey. rewrite Hnow, Hdb.
  rewrite (allowRun_counts r key times b 1 now) by (done || by rewrite lookup_insert_eq).
  cbn [length]. rewrite (seqZ_cons 1) by lia. rewrite map_cons. f_equal. f_equal. f_equal; lia.
Qed.

Lemma rate_limit_exact_witness :
  allowRun (mkLimiter 2 Second) "ip" [5; 6; 999999999] ∅ = [None; None; Some ErrRateLimited].
Proof.
  rewrite (rate_limit_exact (mkLimiter 2 Second) "ip" [5; 6; 999999999] ∅ 0); [by vm_compute|done|by repeat constructor| |done].
  repeat constructor; lia.
Defined.

(** Fail open: without Redis every request is allowed. *)
Lemma Allow_fails_open r now e key db : Allow r now (Some e) key db = (None, db).
Proof. done. Qed.

(** Windows shorter than a second share the counter of their second. *)
Example short_windows_share : allowRun (mkLimiter 1 100000000) "ip" [0; 500000000] ∅ = [None; Some ErrRateLimited].
Proof. by vm_compute. Qed.
