(* ===== verification/Delivery.v ===== *)
(** * From the outbox to the consumer

    The loop of a relay around the draining of [Outbox]: [NewRelay] and [Run] of
    [apps/room-service/internal/infra/events/relay.go] (the relays of the other
    services are the same machine, [Relays]), and the wire format between
    [Producer.Publish] ([sync-service/internal/infra/events/events.go]) and the
    consumer's [vbkafkaMessageFromKafkaGo] ([user-service/internal/infra/events]):
    headers travel as a list whose order is that of a Go map.

    A relay that leads publishes everything that is staged; nothing is lost over
    any run; what a consumer sees of an event determines the key by which it is
    deduplicated. *)

From S2P Require Import Prelude GoNum Errors Store Outbox Kafka.

Open Scope Z_scope.

(** ** The relay *)

Record RelayOptions : Type := mkRelayOptions { roBatchSize : Z; roPollEvery : duration; roLockTTL : duration }.

Definition NewRelay (opts : RelayOptions) : RelayOptions :=
  mkRelayOptions (if roBatchSize opts <=? 0 then 100 else roBatchSize opts)
    (if roPollEvery opts <=? 0 then Second else roPollEvery opts)
    (if roLockTTL opts <=? 0 then 30 * Second else roLockTTL opts).

Section relay.
Context {P : Type} `{RelayEnv} (batchSize : nat).

(** The committed rows, what the broker has received, and the interactions so
    far. *)
Record relay_state : Type := mkRelay {
  rsRows : list (OutRow P);
  rsTrace : list (OutMessage P);
  rsN : nat;
}.

(** One iteration of the loop, or what happens beside it: the context ends; the
    lock is held elsewhere or its server is down; the relay leads and drains a
    batch while other transactions hold rows; use cases stage events. *)
Inductive relay_turn : Type :=
| TStop
| TNotLeader
| TLeader (locked : string -> bool)
| TStaged (events : list (OutEvent P)).

Definition relayTurn (t : relay_turn) (s : relay_state) : option relay_state :=
  match t with
  | TStop => None
  | TNotLeader => Some s
  | TLeader locked =>
      let '(_, rows, trace, n) := drainOnce locked batchSize (rsN s) (rsRows s) (rsTrace s) in
      Some (mkRelay rows trace n)
  | TStaged events => Some (mkRelay (rsRows s ++ map (fun e => mkOutRow (storedEvent e) false) events) (rsTrace s) (rsN s))
  end.

Fixpoint RelayRun (ts : list relay_turn) (s : relay_state) : relay_state :=
  match ts with
  | [] => s
  | t :: ts => match relayTurn t s with None => s | Some s' => RelayRun ts s' end
  end.

(** ** Nothing is lost *)

(** The events that are staged while the relay runs. *)
Definition stagedBy (t : relay_turn) : list (OutEvent P) := match t with TStaged events => map storedEvent events | _ => [] end.

Lemma relayTurn_events t s s' : ids_unique (rsRows s) -> marks_sent (rsRows s) (rsTrace s) -> relayTurn t s = Some s' ->
  map orEvent (rsRows s') = map orEvent (rsRows s) ++ stagedBy t /\ marks_sent (rsRows s') (rsTrace s') /\
  exists more, rsTrace s' = rsTrace s ++ more.
Proof.
  intros Hu Hm. destruct t as [| |locked|events]; simpl; intros Ht.
  - done.
  - injection Ht as <-. rewrite app_nil_r. split_and!; [done|done|]. exists []. by rewrite app_nil_r.
  - pose proof (drainOnce_safe locked batchSize (rsN s) (rsRows s) (rsTrace s) Hu Hm) as Hd.
    destruct (drainOnce _ _ _ _ _) as [[[r rows] trace] n]. injection Ht as <-. simpl. by rewrite app_nil_r.
  - injection Ht as <-. simpl. rewrite map_app, !map_map. split_and!; [done| |exists []; by rewrite app_nil_r].
    intros r [Hr|Hr]%elem_of_app Hp; [by apply Hm|]. apply list_elem_of_fmap in Hr as (e & -> & _). done.
Qed.

(** The events of a whole run; staging stops with the loop. *)
Fixpoint stagedIn (ts : list relay_turn) : list (OutEvent P) :=
  match ts with
  | [] | TStop :: _ => []
  | t :: ts => stagedBy t ++ stagedIn ts
  end.

Lemma stagedIn_cons t ts s s' : relayTurn t s = Some s' -> stagedIn (t :: ts) = stagedBy t ++ stagedIn ts.
Proof. by destruct t. Qed.

Lemma ids_unique_events (rows rows' : list (OutRow P)) : map orEvent rows = map orEvent rows' -> ids_unique rows -> ids_unique rows'.
Proof. unfold ids_unique. rewrite !ids_of_events. by intros <-. Qed.

Lemma RelayRun_events ts s :
  NoDup (map oeID (map orEvent (rsRows s) ++ stagedIn ts)) -> marks_sent (rsRows s) (rsTrace s) ->
  map orEvent (rsRows (RelayRun ts s)) = map orEvent (rsRows s) ++ stagedIn ts /\
  marks_sent (rsRows (RelayRun ts s)) (rsTrace (RelayRun ts s)) /\
  exists more, rsTrace (RelayRun ts s) = rsTrace s ++ more.
Proof.
  revert s. induction ts as [|t ts IH]; intros s Hnd Hm.
  { simpl. rewrite app_nil_r. split_and!; [done|done|]. exists []. by rewrite app_nil_r. }
  cbn [RelayRun]. destruct (relayTurn t s) as [s'|] eqn:Et.
  - rewrite (stagedIn_cons _ ts _ _ Et) in *.
    assert (ids_unique (rsRows s)) as Hu
      by (unfold ids_unique; rewrite ids_of_events; rewrite map_app in Hnd; by apply NoDup_app in Hnd as [Hnd _]).
    destruct (relayTurn_events _ _ _ Hu Hm Et) as (He & Hm' & more & Htr).
    destruct (IH s') as (He' & Hm'' & more' & Htr'); [by rewrite He, <- app_assoc|done|].
    split_and!; [by rewrite He', He, <- app_assoc|done|]. exists (more ++ more'). by rewrite Htr', Htr, app_assoc.
  - destruct t; simpl in *; try discriminate Et; [|by destruct (drainOnce _ _ _ _ _) as [[[? ?] ?] ?]].
    rewrite app_nil_r. split_and!; [done|done|]. exists []. by rewrite app_nil_r.
Qed.

(** ** Everything is published *)

Definition unpublished (rows : list (OutRow P)) : list (OutRow P) := filter (fun r => orPublished r = false) rows.

(** No interaction fails from the [n]-th on. *)
Definition works_from (n : nat) : Prop := forall k, (n <= k)%nat ->
  re_begin k = None /\ re_fetch k = None /\ re_publish k = None /\ re_mark k = None /\ re_commit k = None.

Lemma publishLoop_works pending : forall n (rows : list (OutRow P)) trace, works_from n ->
  exists trace', publishLoop n pending rows trace =
    (Ok (fold_left (fun rs pe => MarkPublished (oeID (orEvent pe)) rs) pending rows), trace', (n + length pending)%nat).
Proof.
  induction pending as [|pe pending IH]; intros n rows trace Hw; simpl; [exists trace; f_equal; lia|].
  destruct (Hw n (le_n n)) as (_ & _ & -> & -> & _).
  destruct (IH (S n) (MarkPublished (oeID (orEvent pe)) rows) (trace ++ [toMessage (re_now n) (orEvent pe)])) as (trace' & ->).
  { intros k Hk. apply Hw. lia. }
  exists trace'. f_equal. lia.
Qed.

Lemma fold_mark (pending rows : list (OutRow P)) :
  fold_left (fun rs pe => MarkPublished (oeID (orEvent pe)) rs) pending rows =
  map (fun r => if bool_decide (oeID (orEvent r) ∈ map (fun pe => oeID (orEvent pe)) pending) then mkOutRow (orEvent r) true else r) rows.
Proof.
  revert rows. induction pending as [|pe pending IH]; intros rows; cbn [fold_left map].
  - symmetry. rewrite <- (map_id rows) at 2. apply map_ext. intros r. reflexivity.
  - rewrite IH. unfold MarkPublished. rewrite map_map. apply map_ext. intros r.
    case_bool_decide as H1; simpl; case_bool_decide as H2; case_bool_decide as H3; try done; rewrite elem_of_cons in H3; tauto.
Qed.

(** What is left after the marks of a batch. *)
Lemma unpublished_marked (pending rest rows : list (OutRow P)) : ids_unique rows ->
  pending ++ rest ≡ₚ unpublished rows ->
  length (unpublished (fold_left (fun rs pe => MarkPublished (oeID (orEvent pe)) rs) pending rows)) = length rest.
Proof.
  intros Hu Hp. rewrite fold_mark. set (ids := map _ pending).
  assert (unpublished (map (fun r => if bool_decide (oeID (orEvent r) ∈ ids) then mkOutRow (orEvent r) true else r) rows) =
          filter (fun r => oeID (orEvent r) ∉ ids) (unpublished rows)) as ->.
  { clear. unfold unpublished. induction rows as [|r rows IH]; [done|]. rewrite map_cons. case_bool_decide as Hid.
    - rewrite filter_cons_False by done. rewrite (filter_cons _ r). case_decide; [by rewrite filter_cons_False by by intros ?|done].
    - rewrite !(filter_cons _ r). case_decide; [by rewrite filter_cons_True, IH by done|done]. }
  rewrite <- Hp, filter_app.
  assert (NoDup (map (fun r => oeID (orEvent r)) (pending ++ rest))) as Hnd.
  { rewrite Hp. unfold ids_unique in Hu. eapply sublist_NoDup; [exact Hu|]. apply (fmap_sublist (fun r : OutRow P => oeID (orEvent r))), sublist_filter. }
  rewrite map_app in Hnd. apply NoDup_app in Hnd as (_ & Hdis & _).
  rewrite (filter_none _ pending), (filter_all _ rest); [done| |].
  - apply Forall_forall. intros r Hr Hin. eapply (Hdis _ Hin). by apply (list_elem_of_fmap_2 (fun r => oeID (orEvent r))).
  - apply Forall_forall. intros r Hr Hnot. apply Hnot. by apply (list_elem_of_fmap_2 (fun r => oeID (orEvent r))).
Qed.

Lemma works_later n m : (n <= m)%nat -> works_from n -> works_from m.
Proof. intros Hn Hw k Hk. apply Hw. lia. Qed.

Definition noLocks : string -> bool := fun _ => false.

Lemma drain_works n (rows : list (OutRow P)) trace : ids_unique rows -> works_from n ->
  exists r rows' trace' n', drainOnce noLocks batchSize n rows trace = (r, rows', trace', n') /\
    (n <= n')%nat /\ length (unpublished rows') = (length (unpublished rows) - batchSize)%nat.
Proof.
  intros Hu Hw. unfold drainOnce. destruct (Hw n (le_n n)) as (-> & -> & _).
  unfold FetchUnpublished. set (sorted := merge_sort occurredLe _).
  assert (sorted ≡ₚ unpublished rows) as Hs.
  { unfold sorted. rewrite merge_sort_Permutation. unfold unpublished, noLocks.
    rewrite (list_filter_iff _ (fun r => orPublished r = false)); [done|]. intros r. tauto. }
  pose proof (Permutation_length Hs) as Hlen.
  destruct (take batchSize sorted) as [|pe pending] eqn:Et.
  { eexists _, _, _, _. split; [done|]. split; [lia|].
    assert (length (take batchSize sorted) = 0%nat) as Hz by by rewrite Et. rewrite length_take in Hz. lia. }
  assert (works_from (S n)) as Hw' by (by apply (works_later n); [lia|]).
  destruct (publishLoop_works (pe :: pending) (S n) rows trace Hw') as (trace' & ->).
  destruct (Hw (S n + length (pe :: pending))%nat) as (_ & _ & _ & _ & ->); [lia|].
  eexists _, _, _, _. split; [done|]. split; [lia|].
  rewrite (unpublished_marked (pe :: pending) (drop batchSize sorted)); [|done|by rewrite <- Et, take_drop].
  rewrite length_drop. lia.
Qed.

(** The turns of a relay whose world works and where nothing is staged. *)
Definition calm_turn (t : relay_turn) : Prop := t = TNotLeader \/ t = TLeader noLocks.
Fixpoint leaderTurns (ts : list relay_turn) : nat :=
  match ts with [] => 0 | TLeader _ :: ts => S (leaderTurns ts) | _ :: ts => leaderTurns ts end.

Lemma RelayRun_drains ts s : Forall calm_turn ts -> ids_unique (rsRows s) -> works_from (rsN s) ->
  length (unpublished (rsRows (RelayRun ts s))) = (length (unpublished (rsRows s)) - batchSize * leaderTurns ts)%nat.
Proof.
  intros Hts. revert s. induction Hts as [|t ts [->| ->] Hts IH]; intros s Hu Hw; simpl; [lia|by apply IH|].
  destruct (drain_works (rsN s) (rsRows s) (rsTrace s) Hu Hw) as (r & rows & trace & n & Ed & Hn & Hlen). rewrite Ed.
  assert (ids_unique rows) as Hu'.
  { eapply ids_unique_events; [|exact Hu]. pose proof (drainOnce_events noLocks batchSize (rsN s) (rsRows s) (rsTrace s)) as He.
    by rewrite Ed in He. }
  rewrite IH; [simpl; lia|done|by eapply works_later].
Qed.

Lemma all_published (rows : list (OutRow P)) r : length (unpublished rows) = 0%nat -> r ∈ rows -> orPublished r = true.
Proof.
  intros Hz Hr. destruct (orPublished r) eqn:Ep; [done|]. exfalso. apply length_zero_iff_nil in Hz.
  assert (r ∈ unpublished rows) as Hin by (by apply list_elem_of_filter). rewrite Hz in Hin. by apply elem_of_nil in Hin.
Qed.

(** A row that is staged is published once the relay has led often enough. *)
Lemma staged_published (rows : list (OutRow P)) e trace ts n :
  ids_unique rows -> oeID e ∉ map (fun x => oeID (orEvent x)) rows -> marks_sent rows trace -> works_from n ->
  Forall calm_turn ts -> (S (length (unpublished rows)) <= batchSize * leaderTurns ts)%nat ->
  exists t, toMessage t e ∈ rsTrace (RelayRun ts (mkRelay (rows ++ [mkOutRow e false]) trace n)).
Proof.
  intros Hu Hfresh Hm Hw Hcalm Hb. set (s1 := mkRelay _ _ _).
  assert (ids_unique (rsRows s1)) as Hu1.
  { unfold ids_unique. simpl. rewrite map_app. apply NoDup_app. split; [exact Hu|]. split; [|apply NoDup_singleton].
    intros i Hi Hi2. apply list_elem_of_singleton in Hi2 as ->. done. }
  assert (marks_sent (rsRows s1) trace) as Hm1.
  { intros x Hx Hpub. simpl in Hx. apply elem_of_app in Hx as [Hx|Hx]; [by apply Hm|].
    apply list_elem_of_singleton in Hx as ->. done. }
  assert (stagedIn ts = []) as Hno by (clear -Hcalm; induction Hcalm as [|t ts [->| ->] _ IH]; done).
  destruct (RelayRun_events ts s1) as (He & Hsent & _); [by rewrite Hno, app_nil_r; rewrite <- ids_of_events|done|].
  rewrite Hno, app_nil_r in He.
  assert (e ∈ map orEvent (rsRows (RelayRun ts s1))) as Hin
    by (rewrite He; simpl; rewrite map_app; apply elem_of_app; right; by apply list_elem_of_singleton).
  apply list_elem_of_fmap in Hin as (row & Hrow & Hin).
  assert (orPublished row = true) as Hpub.
  { apply (all_published (rsRows (RelayRun ts s1))); [|done]. rewrite RelayRun_drains by done. simpl.
    unfold unpublished in *. rewrite filter_app, length_app. simpl. lia. }
  destruct (Hsent row Hin Hpub) as [t Htr]. rewrite <- Hrow in Htr. by exists t.
Qed.

(** ** Nothing else is published *)

Definition from_rows (rows : list (OutRow P)) (trace : list (OutMessage P)) : Prop :=
  forall m, m ∈ trace -> exists e t, e ∈ map orEvent rows /\ m = toMessage t e.

Lemma publishLoop_from pending : forall n (rows rows0 : list (OutRow P)) trace,
  (forall pe, pe ∈ pending -> pe ∈ rows0) -> from_rows rows0 trace -> from_rows rows0 (publishLoop n pending rows trace).1.2.
Proof.
  induction pending as [|pe pending IH]; intros n rows rows0 trace Hin Hf; cbn [publishLoop]; [done|].
  assert (from_rows rows0 (trace ++ [toMessage (re_now n) (orEvent pe)])) as Hmore.
  { intros m [Hm|Hm]%elem_of_app; [by apply Hf|]. apply list_elem_of_singleton in Hm as ->. eexists _, _. split; [|done].
    apply (list_elem_of_fmap_2 orEvent), Hin. by left. }
  destruct (re_publish n) as [[e []]|]; [done|done|]. destruct (re_mark n); [done|]. apply IH; [|done]. intros pe' Hpe. apply Hin. by right.
Qed.

Lemma drainOnce_from locked n (rows : list (OutRow P)) trace : from_rows rows trace ->
  from_rows rows (drainOnce locked batchSize n rows trace).1.2.
Proof.
  intros Hf. unfold drainOnce. destruct (re_begin n); [done|]. destruct (re_fetch n); [done|].
  destruct (FetchUnpublished _ _ _) as [|pe pending] eqn:Ef; [done|].
  pose proof (publishLoop_from (pe :: pending) (S n) rows rows trace) as Hl.
  destruct (publishLoop _ _ _ _) as [[r trace'] n']. simpl in Hl.
  assert (from_rows rows trace').
  { apply Hl; [|done]. intros pe' Hpe. rewrite <- Ef in Hpe. unfold FetchUnpublished in Hpe.
    apply elem_of_take in Hpe as (i & Hi & _). apply list_elem_of_lookup_2 in Hi.
    rewrite merge_sort_Permutation, list_elem_of_filter in Hi. tauto. }
  destruct r as [rows'|e]; [|done]. by destruct (re_commit n') as [[e []]|].
Qed.

Lemma RelayRun_from ts s : from_rows (rsRows s) (rsTrace s) -> from_rows (rsRows (RelayRun ts s)) (rsTrace (RelayRun ts s)).
Proof.
  revert s. induction ts as [|t ts IH]; intros s Hf; [done|]. cbn [RelayRun]. destruct (relayTurn t s) as [s'|] eqn:Et; [|done].
  apply IH. destruct t as [| |locked|events]; simpl in Et.
  - done.
  - by injection Et as <-.
  - pose proof (drainOnce_from locked (rsN s) _ _ Hf) as Hd. pose proof (drainOnce_events locked batchSize (rsN s) (rsRows s) (rsTrace s)) as He.
    destruct (drainOnce _ _ _ _ _) as [[[r rows] trace] n]. injection Et as <-. simpl in *.
    intros m (e & t & Hin & ->)%Hd. exists e, t. by rewrite He.
  - injection Et as <-. simpl. intros m (e & t & Hin & ->)%Hf. exists e, t. rewrite map_app, elem_of_app. tauto.
Qed.
End relay.

Arguments relay_state : clear implicits.
Arguments relay_turn : clear implicits.

(** C19. The outbox is delivered.  After any run of the relay (failures of the
    database, of the broker, of the lock; rows locked by others; events staged
    in between) no event is lost or invented: the rows are the staged events,
    what is marked published was sent, and what was sent was staged.  From any
    such state, once the interactions work, a relay that leads often enough for
    the backlog publishes every event, whatever polls it loses in between. *)
Theorem relay_delivers {P} `{RelayEnv} batchSize (ts1 ts2 : list (relay_turn P)) :
  let s1 := RelayRun batchSize ts1 (mkRelay [] [] 0) in
  let s2 := RelayRun batchSize ts2 s1 in
  NoDup (map oeID (stagedIn ts1)) ->
  (map orEvent (rsRows s1) = stagedIn ts1 /\ marks_sent (rsRows s1) (rsTrace s1) /\ from_rows (rsRows s1) (rsTrace s1)) /\
  (works_from (rsN s1) -> Forall calm_turn ts2 -> (length (stagedIn ts1) <= batchSize * leaderTurns ts2)%nat ->
   map orEvent (rsRows s2) = stagedIn ts1 /\ forall e, e ∈ stagedIn ts1 -> sent (rsTrace s2) e).
Proof.
  intros s1 s2 Hnd.
  destruct (RelayRun_events batchSize ts1 (mkRelay [] [] 0) Hnd) as (He1 & Hm1 & _); [by intros r ?%elem_of_nil|].
  fold s1 in He1, Hm1. simpl in He1.
  split; [split_and!; [done..|]; apply RelayRun_from; by intros m ?%elem_of_nil|]. intros Hw Hcalm Hb.
  assert (stagedIn ts2 = []) as Hst by (clear -Hcalm; induction Hcalm as [|t ts [->| ->] _ IH]; done).
  assert (ids_unique (rsRows s1)) as Hu by (unfold ids_unique; by rewrite ids_of_events, He1).
  destruct (RelayRun_events batchSize ts2 s1) as (He2 & Hm2 & _); [by rewrite He1, Hst, app_nil_r|done|].
  fold s2 in He2, Hm2. rewrite Hst, app_nil_r in He2. split; [by rewrite He2|]. intros e Hin.
  rewrite <- He1, <- He2 in Hin. apply list_elem_of_fmap in Hin as (r & -> & Hr). apply Hm2; [done|].
  apply (all_published (rsRows s2)); [|done]. unfold s2. rewrite RelayRun_drains by done.
  assert (length (unpublished (rsRows s1)) <= length (rsRows s1))%nat by apply length_filter.
  assert (length (rsRows s1) = length (stagedIn ts1)) by by rewrite <- He1, length_map.
  lia.
Qed.

(** ** The wire *)

(** [kafka.Message] of the client library; headers are a list. *)
Record kafkaMessage (P : Type) : Type := mkKafkaMessage {
  kmTopic : string;
  kmPartition : Z;             (* int *)
  kmOffset : Z;
  kmKey : string;
  kmValue : P;
  kmHeaders : list (string * string);
  kmTime : time;
}.
Arguments mkKafkaMessage {P}.
Arguments kmTopic {P}.
Arguments kmPartition {P}.
Arguments kmOffset {P}.
Arguments kmKey {P}.
Arguments kmValue {P}.
Arguments kmHeaders {P}.
Arguments kmTime {P}.

(** [Producer.Publish]: ranging over the map gives its entries in an [order]. *)
Definition toKafka {P} (order : list (string * string)) (m : OutMessage P) : kafkaMessage P :=
  mkKafkaMessage (omTopic m) 0 0 (omKey m) (omValue m) order (omTimestamp m).
Definition ranges_over (order : list (string * string)) (headers : gmap string string) : Prop := order ≡ₚ map_to_list headers.

Definition vbkafkaMessageFromKafkaGo {P} (m : kafkaMessage P) : Message P :=
  mkMessage (kmTopic m) (swrap 32 (kmPartition m)) (kmOffset m) (kmKey m) (kmValue m)
    (fold_left (fun headers h => <[h.1 := h.2]> headers) (kmHeaders m) ∅) (kmTime m).

(** The broker keeps topic, key, value and headers, and assigns the rest. *)
Definition brokered {P} (m m' : kafkaMessage P) : Prop :=
  kmTopic m' = kmTopic m /\ kmKey m' = kmKey m /\ kmValue m' = kmValue m /\ kmHeaders m' = kmHeaders m.

Lemma headers_roundtrip order headers : ranges_over order headers ->
  fold_left (fun headers h => <[h.1 := h.2]> headers) order (∅ : gmap string string) = headers.
Proof.
  intros Ho. assert (forall l (m : gmap string string), NoDup l.*1 -> (forall k v, (k, v) ∈ l -> m !! k = None) ->
    fold_left (fun headers h => <[h.1 := h.2]> headers) l m = list_to_map l ∪ m) as Hfold.
  { induction l as [|[k v] l IH]; intros m Hnd Hfresh; simpl; [by rewrite map_empty_union|].
    apply NoDup_cons in Hnd as [Hk Hnd]. rewrite IH.
    - rewrite <- insert_union_l, insert_union_r; [done|]. by apply not_elem_of_list_to_map.
    - done.
    - intros k' v' Hin. rewrite lookup_insert_ne; [apply (Hfresh k' v'); by right|]. intros ->. apply Hk.
      by apply (list_elem_of_fmap_2 fst _ (k', v')). }
  assert (NoDup order.*1) as Hnd by (rewrite Ho; apply NoDup_fst_map_to_list).
  rewrite Hfold; [|done|intros; apply lookup_empty]. rewrite map_union_empty.
  rewrite <- (list_to_map_to_list headers). apply list_to_map_proper; [done|by symmetry].
Qed.

Lemma string_app_inj (a b c : string) : a +:+ b = a +:+ c -> b = c.
Proof. induction a as [|x a IH]; simpl; [done|]. intros [= ?]. auto. Qed.

(** C38. What is staged is what the consumer's handler sees: whatever order the
    headers travel in, topic, key, payload and headers of the event arrive, and
    the dedupe key is that of the event's id, the same for every delivery of the
    event and different for two events of a topic. *)
Theorem delivery_roundtrip {P} (e1 e2 : OutEvent P) wallClock1 wallClock2 order1 order2 m1 m2 :
  ranges_over order1 (omHeaders (toMessage wallClock1 e1)) -> ranges_over order2 (omHeaders (toMessage wallClock2 e2)) ->
  brokered (toKafka order1 (toMessage wallClock1 e1)) m1 -> brokered (toKafka order2 (toMessage wallClock2 e2)) m2 ->
  oeID e1 <> "" -> oeID e2 <> "" ->
  oeHeaders e1 !! HeaderEventID = None -> oeHeaders e2 !! HeaderEventID = None -> oeTopic e1 = oeTopic e2 ->
  let c1 := vbkafkaMessageFromKafkaGo m1 in
  let c2 := vbkafkaMessageFromKafkaGo m2 in
  kTopic c1 = oeTopic e1 /\ kKey c1 = (if bool_decide (oeKey e1 = "") then oeAggregateID e1 else oeKey e1) /\
  kValue c1 = oePayload e1 /\ kHeaders c1 = eventHeaders e1 /\
  (idempotencyKey (kTopic c1) (eventID c1) = idempotencyKey (kTopic c2) (eventID c2) <-> oeID e1 = oeID e2).
Proof.
  intros Ho1 Ho2 (Ht1 & Hk1 & Hv1 & Hh1) (Ht2 & _ & _ & Hh2) Hid1 Hid2 Hf1 Hf2 Htopic.
  assert (forall (e : OutEvent P) wc (m : kafkaMessage P) order, ranges_over order (omHeaders (toMessage wc e)) ->
    kmHeaders m = kmHeaders (toKafka order (toMessage wc e)) -> oeID e <> "" -> oeHeaders e !! HeaderEventID = None ->
    kHeaders (vbkafkaMessageFromKafkaGo m) = eventHeaders e /\ eventID (vbkafkaMessageFromKafkaGo m) = oeID e) as Hwire.
  { intros e wc m order Ho Hh Hne Hf.
    assert (kHeaders (vbkafkaMessageFromKafkaGo m) = eventHeaders e) as Hk.
    { cbn [vbkafkaMessageFromKafkaGo kHeaders]. rewrite Hh. by apply (headers_roundtrip order). }
    split; [done|]. unfold eventID; rewrite Hk. unfold eventHeaders. rewrite lookup_union_r by done.
    rewrite lookup_insert_ne by done. rewrite lookup_insert_eq. by rewrite bool_decide_false. }
  destruct (Hwire e1 wallClock1 m1 order1) as [Hkh1 He1]; [done..|]. destruct (Hwire e2 wallClock2 m2 order2) as [_ He2]; [done..|].
  cbn zeta. split_and!; [done..|]. rewrite He1, He2. cbn [vbkafkaMessageFromKafkaGo kTopic]. rewrite Ht1, Ht2. cbn [toKafka kmTopic toMessage omTopic].
  rewrite Htopic. unfold idempotencyKey. split; [|by intros ->]. intros Heq. by do 3 apply string_app_inj in Heq.
Qed.

(** ** A small outbox *)

Definition worksAfter (k : nat) : RelayEnv := {|
  re_begin _ := None; re_fetch _ := None; re_mark _ := None; re_commit _ := None;
  re_publish n := if bool_decide (n < k)%nat then Some (EMsg "broker down", true) else None;
  re_now _ := 0;
|}.

(** The broker is down while the first batch is drained. *)
Definition demoTurns1 : list (relay_turn nat) :=
  [TStaged [demoEvent "e1" 20; demoEvent "e2" 10]; TNotLeader; TLeader noLocks; TStaged [demoEvent "e3" 5]].
Definition demoTurns2 : list (relay_turn nat) := [TLeader noLocks; TNotLeader; TLeader noLocks].
Definition demoRelay1 : relay_state nat := @RelayRun nat (worksAfter 3) 2 demoTurns1 (mkRelay [] [] 0).

Lemma demoRelay1_works : @works_from (worksAfter 3) (rsN demoRelay1).
Proof.
  assert (rsN demoRelay1 = 3%nat) as -> by by vm_compute. intros k Hk. simpl. rewrite bool_decide_false by lia. done.
Qed.

Lemma relay_delivers_witness :
  let s2 := @RelayRun nat (worksAfter 3) 2 demoTurns2 demoRelay1 in
  map orEvent (rsRows s2) = stagedIn demoTurns1 /\ sent (rsTrace s2) (storedEvent (demoEvent "e3" 5)).
Proof.
  assert (NoDup (map oeID (stagedIn demoTurns1))) as Hnd by (apply (bool_decide_unpack _); by vm_compute).
  destruct (@relay_delivers nat (worksAfter 3) 2 demoTurns1 demoTurns2 Hnd) as [_ Hlive].
  destruct Hlive as [Hrows Hsent]; [exact demoRelay1_works| | |].
  - repeat (apply Forall_cons; split; [unfold calm_turn; tauto|]). apply Forall_nil. exact I.
  - simpl. lia.
  - split; [exact Hrows|]. apply Hsent. simpl. right. right. left.
Defined.

Definition demoOutEvent (id : string) : OutEvent nat := mkOutEvent id "agg" "user.created.v1" "" 7%nat {["traceparent" := "00-1"]} 5 "1".
Definition demoWire (id : string) : kafkaMessage nat :=
  toKafka (map_to_list (omHeaders (toMessage 0 (demoOutEvent id)))) (toMessage 0 (demoOutEvent id)).

Lemma demoWire_brokered id : brokered (demoWire id) (demoWire id).
Proof. by unfold brokered. Qed.
Lemma demoOutEvent_no_id id : oeHeaders (demoOutEvent id) !! HeaderEventID = None.
Proof. by vm_compute. Qed.

Lemma delivery_roundtrip_witness :
  let c := vbkafkaMessageFromKafkaGo (demoWire "ev1") in
  kKey c = "agg" /\ kHeaders c = eventHeaders (demoOutEvent "ev1") /\
  idempotencyKey (kTopic c) (eventID c) <>
    idempotencyKey (kTopic (vbkafkaMessageFromKafkaGo (demoWire "ev2"))) (eventID (vbkafkaMessageFromKafkaGo (demoWire "ev2"))).
Proof.
  assert (oeID (demoOutEvent "ev1") <> "") as Hid1 by discriminate.
  assert (oeID (demoOutEvent "ev2") <> "") as Hid2 by discriminate.
  destruct (delivery_roundtrip (demoOutEvent "ev1") (demoOutEvent "ev2") 0 0 _ _ (demoWire "ev1") (demoWire "ev2")
    (Permutation_refl _) (Permutation_refl _) (demoWire_brokered "ev1") (demoWire_brokered "ev2") Hid1 Hid2
    (demoOutEvent_no_id "ev1") (demoOutEvent_no_id "ev2") eq_refl) as (_ & Hk & _ & Hh & Hd).
  split; [exact Hk|]. split; [exact Hh|]. intros Heq. apply Hd in Heq. discriminate Heq.
Defined.
