(* ===== verification/Relays.v ===== *)
(** * The relays of the four services

    The auth, room, media and sync services each have a copy of the relay, from
    the headers of a message to the polling loop.  The copies differ: the auth
    service wraps the errors of its database and backs off explicitly after an
    error ([auth-service/internal/infra/events/relay.go]); the room and media
    services tell a lost election from a lock server that is down, the sync
    service does not ([room-service/internal/infra/events/relay.go],
    [media-service] and [sync-service] [/internal/infra/events/events.go]).

    Each copy is translated by itself, in a section of its own, from its publisher
    and its statements on.  Only the Kafka writer, the lock and the clock are
    shared.  Each is proved to be the machine of [Outbox] and [Delivery], so what
    [Delivery] shows of one relay holds of every one. *)

From S2P Require Import Prelude GoNum Errors Store Outbox Delivery.

Open Scope Z_scope.

Section surroundings.
Context {P : Type} `{RelayEnv}.

(** What the lock answers: a lease, [ErrNotLeader], or another error. *)
Inductive acquired : Type :=
| AcqLeader
| AcqNotLeader
| AcqDown (e : error).

(** What an iteration meets: whether the context has ended at its start, or ends
    while it sleeps; the lock; and the rows that others hold. *)
Record iteration : Type := mkIteration {
  itDone : bool;
  itDoneAsleep : bool;
  itLock : acquired;
  itLocked : string -> bool;
}.

(** [Run] returns, or goes on after a sleep or at once. *)
Inductive next : Type :=
| Stop (s : relay_state P)
| Slept (s : relay_state P)
| Again (s : relay_state P).

(** [select { case <-ctx.Done(): return ctx.Err(); case <-time.After(r.pollEvery): }]. *)
Definition sleep (it : iteration) (s : relay_state P) : next := if itDoneAsleep it then Stop s else Slept s.

(** [kafka.Writer.WriteMessages]: the message may have reached the broker also
    when an error is reported. *)
Definition produce (n : nat) (msg : OutMessage P) (trace : list (OutMessage P)) : option error * list (OutMessage P) :=
  match re_publish n with
  | None => (None, trace ++ [msg])
  | Some (e, delivered) => (Some e, if (delivered : bool) then trace ++ [msg] else trace)
  end.

(** A loop over the iterations it meets: the state it leaves, and how often it
    slept. *)
Fixpoint loop (run : iteration -> relay_state P -> next) (its : list iteration) (s : relay_state P) (slept : nat)
    : relay_state P * nat :=
  match its with
  | [] => (s, slept)
  | it :: its =>
      match run it s with
      | Stop s => (s, slept)
      | Slept s => loop run its s (S slept)
      | Again s => loop run its s slept
      end
  end.

(** The machine of [Delivery]: a turn, then a sleep unless something was
    published. *)
Definition spec_Run (batchSize : nat) (it : iteration) (s : relay_state P) : next :=
  if itDone it then Stop s
  else
    match itLock it with
    | AcqLeader =>
        match Outbox.drainOnce (itLocked it) batchSize (rsN s) (rsRows s) (rsTrace s) with
        | (Ok (S _), rows, trace, n) => Again (mkRelay rows trace n)
        | (_, rows, trace, n) => sleep it (mkRelay rows trace n)
        end
    | _ => sleep it s
    end.

Lemma loop_ext run1 run2 its s k : (forall it s, run1 it s = run2 it s) -> loop run1 its s k = loop run2 its s k.
Proof.
  intros Hr. revert s k. induction its as [|it its IH]; intros s k; simpl; [done|]. rewrite Hr. destruct (run2 it s); auto.
Qed.

(** What an iteration leaves is what [relayTurn] leaves. *)
Lemma spec_Run_turn batchSize it (s s' : relay_state P) :
  spec_Run batchSize it s = Slept s' \/ spec_Run batchSize it s = Again s' ->
  relayTurn batchSize (match itLock it with AcqLeader => TLeader (itLocked it) | _ => TNotLeader end) s = Some s'.
Proof.
  unfold spec_Run, sleep. destruct (itDone it); [by intros [[=]|[=]]|].
  destruct (itLock it) as [| |e]; [|by destruct (itDoneAsleep it); intros [[=]|[=]]; subst..].
  simpl. destruct (Outbox.drainOnce _ _ _ _ _) as [[[[[|p]|e] rows] trace] n]; destruct (itDoneAsleep it); intros [[=]|[=]]; by subst.
Qed.
End surroundings.

Arguments iteration : clear implicits.
Arguments next : clear implicits.

(** ** The four copies *)

(** [payloadBytes] of the auth service. *)
Definition payloadBytes {P} (e : OutEvent P) : P := oePayload e.

(** *** auth *)

Section auth.
Context {P : Type} `{RelayEnv}.

Definition auth_eventHeaders (e : OutEvent P) : gmap string string :=
  let h := <["schema-version" := oeVersion e]> (<["event-id" := oeID e]> (<["aggregate-id" := oeAggregateID e]> ∅)) in
  oeHeaders e ∪ h.

(** [Publisher.Publish]. *)
Definition auth_Publish (n : nat) (event : OutEvent P) (trace : list (OutMessage P)) : option error * list (OutMessage P) :=
  let key := if bool_decide (oeKey event = "") then oeAggregateID event else oeKey event in
  let occurredAt := if time_IsZero (oeOccurredAt event) then re_now n else oeOccurredAt event in
  produce n (mkOutMessage (oeTopic event) key (payloadBytes event) (auth_eventHeaders event) occurredAt) trace.

(** [PendingPublisher.PublishOne]. *)
Definition auth_PublishOne (n : nat) (pe : OutEvent P) (trace : list (OutMessage P)) : option error * list (OutMessage P) :=
  auth_Publish n (mkOutEvent (oeID pe) (oeAggregateID pe) (oeTopic pe) (oeKey pe) (oePayload pe) (oeHeaders pe) (oeOccurredAt pe) (oeVersion pe)) trace.

Definition auth_FetchUnpublished (locked : string -> bool) (limit : nat) (rows : list (OutRow P)) : list (OutEvent P) :=
  map orEvent (take limit (merge_sort occurredLe
    (filter (fun r => orPublished r = false /\ locked (oeID (orEvent r)) = false) rows))).

Definition auth_MarkPublished (id : string) (rows : list (OutRow P)) : list (OutRow P) :=
  map (fun r => if bool_decide (oeID (orEvent r) = id) then mkOutRow (orEvent r) true else r) rows.

(** The loop of [drainOnce] over the pending events. *)
Fixpoint auth_publishAll (n : nat) (pending : list (OutEvent P)) (rows : list (OutRow P)) (trace : list (OutMessage P))
    : option error * list (OutRow P) * list (OutMessage P) * nat :=
  match pending with
  | [] => (None, rows, trace, n)
  | pe :: rest =>
      match auth_PublishOne n pe trace with
      | (Some e, trace) => (Some (EWrap ("relay: publish " +:+ oeID pe) e), rows, trace, S n)
      | (None, trace) =>
          match re_mark n with
          | Some e => (Some (EWrap ("relay: mark " +:+ oeID pe) e), rows, trace, S n)
          | None => auth_publishAll (S n) rest (auth_MarkPublished (oeID pe) rows) trace
          end
      end
  end.

Definition auth_drainOnce (batchSize : nat) (it : iteration) (s : relay_state P) : nat * option error * relay_state P :=
  let n := rsN s in
  let rows := rsRows s in
  match re_begin n with
  | Some e => (0%nat, Some (EWrap "relay: begin" e), mkRelay rows (rsTrace s) (S n))
  | None =>
      match re_fetch n with
      | Some e => (0%nat, Some (EWrap "relay: fetch" e), mkRelay rows (rsTrace s) (S n))
      | None =>
          let pending := auth_FetchUnpublished (itLocked it) batchSize rows in
          if (length pending =? 0)%nat then (0%nat, None, mkRelay rows (rsTrace s) (S n))
          else
            match auth_publishAll (S n) pending rows (rsTrace s) with
            | (Some e, _, trace, n) => (0%nat, Some e, mkRelay rows trace (S n)) (* rolled back *)
            | (None, marked, trace, n) =>
                match re_commit n with
                | Some (e, applied) => (0%nat, Some (EWrap "relay: commit" e), mkRelay (if (applied : bool) then marked else rows) trace (S n))
                | None => (length pending, None, mkRelay marked trace (S n))
                end
            end
      end
  end.

Definition auth_NewRelay (opts : RelayOptions) : string * RelayOptions :=
  let batchSize := if roBatchSize opts <=? 0 then 100 else roBatchSize opts in
  let pollEvery := if roPollEvery opts <=? 0 then Second else roPollEvery opts in
  let lockTTL := if roLockTTL opts <=? 0 then 30 * Second else roLockTTL opts in
  ("auth:outbox:relay", mkRelayOptions batchSize pollEvery lockTTL).

(** One iteration of [Run]. *)
Definition auth_Run (batchSize : nat) (it : iteration) (s : relay_state P) : next P :=
  if itDone it then Stop s
  else
    match itLock it with
    | AcqNotLeader => sleep it s
    | AcqDown _ => sleep it s
    | AcqLeader =>
        let '(published, err, s) := auth_drainOnce batchSize it s in
        match err with
        | Some _ => sleep it s
        | None => if (published =? 0)%nat then sleep it s else Again s
        end
    end.
End auth.

(** *** room *)

Section room.
Context {P : Type} `{RelayEnv}.

Definition room_eventHeaders (e : OutEvent P) : gmap string string :=
  let h := <["schema-version" := oeVersion e]> (<["event-id" := oeID e]> (<["aggregate-id" := oeAggregateID e]> ∅)) in
  oeHeaders e ∪ h.

(** [Publisher.Publish]. *)
Definition room_Publish (n : nat) (event : OutEvent P) (trace : list (OutMessage P)) : option error * list (OutMessage P) :=
  let key := if bool_decide (oeKey event = "") then oeAggregateID event else oeKey event in
  let occurredAt := if time_IsZero (oeOccurredAt event) then re_now n else oeOccurredAt event in
  produce n (mkOutMessage (oeTopic event) key (oePayload event) (room_eventHeaders event) occurredAt) trace.

(** [PendingPublisher.PublishOne]. *)
Definition room_PublishOne (n : nat) (pe : OutEvent P) (trace : list (OutMessage P)) : option error * list (OutMessage P) :=
  room_Publish n (mkOutEvent (oeID pe) (oeAggregateID pe) (oeTopic pe) (oeKey pe) (oePayload pe) (oeHeaders pe) (oeOccurredAt pe) (oeVersion pe)) trace.

Definition room_FetchUnpublished (locked : string -> bool) (limit : nat) (rows : list (OutRow P)) : list (OutEvent P) :=
  map orEvent (take limit (merge_sort occurredLe
    (filter (fun r => orPublished r = false /\ locked (oeID (orEvent r)) = false) rows))).

Definition room_MarkPublished (id : string) (rows : list (OutRow P)) : list (OutRow P) :=
  map (fun r => if bool_decide (oeID (orEvent r) = id) then mkOutRow (orEvent r) true else r) rows.

(** The loop of [drainOnce] over the pending events. *)
Fixpoint room_publishAll (n : nat) (pending : list (OutEvent P)) (rows : list (OutRow P)) (trace : list (OutMessage P))
    : option error * list (OutRow P) * list (OutMessage P) * nat :=
  match pending with
  | [] => (None, rows, trace, n)
  | pe :: rest =>
      match room_PublishOne n pe trace with
      | (Some e, trace) => (Some (EWrap ("relay: publish " +:+ oeID pe) e), rows, trace, S n)
      | (None, trace) =>
          match re_mark n with
          | Some e => (Some (EWrap ("relay: mark " +:+ oeID pe) e), rows, trace, S n)
          | None => room_publishAll (S n) rest (room_MarkPublished (oeID pe) rows) trace
          end
      end
  end.

Definition room_drainOnce (batchSize : nat) (it : iteration) (s : relay_state P) : nat * option error * relay_state P :=
  let n := rsN s in
  let rows := rsRows s in
  match re_begin n with
  | Some e => (0%nat, Some e, mkRelay rows (rsTrace s) (S n))
  | None =>
      match re_fetch n with
      | Some e => (0%nat, Some e, mkRelay rows (rsTrace s) (S n))
      | None =>
          let pending := room_FetchUnpublished (itLocked it) batchSize rows in
          if (length pending =? 0)%nat then (0%nat, None, mkRelay rows (rsTrace s) (S n))
          else
            match room_publishAll (S n) pending rows (rsTrace s) with
            | (Some e, _, trace, n) => (0%nat, Some e, mkRelay rows trace (S n)) (* rolled back *)
            | (None, marked, trace, n) =>
                match re_commit n with
                | Some (e, applied) => (0%nat, Some e, mkRelay (if (applied : bool) then marked else rows) trace (S n))
                | None => (length pending, None, mkRelay marked trace (S n))
                end
            end
      end
  end.

Definition room_NewRelay (opts : RelayOptions) : string * RelayOptions :=
  let batchSize := if roBatchSize opts <=? 0 then 100 else roBatchSize opts in
  let pollEvery := if roPollEvery opts <=? 0 then Second else roPollEvery opts in
  let lockTTL := if roLockTTL opts <=? 0 then 30 * Second else roLockTTL opts in
  ("room:outbox:relay", mkRelayOptions batchSize pollEvery lockTTL).

(** One iteration of [Run]. *)
Definition room_Run (batchSize : nat) (it : iteration) (s : relay_state P) : next P :=
  if itDone it then Stop s
  else
    match itLock it with
    | AcqNotLeader => sleep it s
    | AcqDown _ => sleep it s
    | AcqLeader =>
        let '(published, _, s) := room_drainOnce batchSize it s in
        if (published =? 0)%nat then sleep it s else Again s
    end.
End room.

(** *** media *)

Section media.
Context {P : Type} `{RelayEnv}.

Definition media_eventHeaders (e : OutEvent P) : gmap string string :=
  let h := <["schema-version" := oeVersion e]> (<["event-id" := oeID e]> (<["aggregate-id" := oeAggregateID e]> ∅)) in
  oeHeaders e ∪ h.

(** [Publisher.Publish]. *)
Definition media_Publish (n : nat) (event : OutEvent P) (trace : list (OutMessage P)) : option error * list (OutMessage P) :=
  let key := if bool_decide (oeKey event = "") then oeAggregateID event else oeKey event in
  let occurredAt := if time_IsZero (oeOccurredAt event) then re_now n else oeOccurredAt event in
  produce n (mkOutMessage (oeTopic event) key (oePayload event) (media_eventHeaders event) occurredAt) trace.

(** [PendingPublisher.PublishOne]. *)
Definition media_PublishOne (n : nat) (pe : OutEvent P) (trace : list (OutMessage P)) : option error * list (OutMessage P) :=
  media_Publish n (mkOutEvent (oeID pe) (oeAggregateID pe) (oeTopic pe) (oeKey pe) (oePayload pe) (oeHeaders pe) (oeOccurredAt pe) (oeVersion pe)) trace.

Definition media_FetchUnpublished (locked : string -> bool) (limit : nat) (rows : list (OutRow P)) : list (OutEvent P) :=
  map orEvent (take limit (merge_sort occurredLe
    (filter (fun r => orPublished r = false /\ locked (oeID (orEvent r)) = false) rows))).

Definition media_MarkPublished (id : string) (rows : list (OutRow P)) : list (OutRow P) :=
  map (fun r => if bool_decide (oeID (orEvent r) = id) then mkOutRow (orEvent r) true else r) rows.

(** The loop of [drainOnce] over the pending events. *)
Fixpoint media_publishAll (n : nat) (pending : list (OutEvent P)) (rows : list (OutRow P)) (trace : list (OutMessage P))
    : option error * list (OutRow P) * list (OutMessage P) * nat :=
  match pending with
  | [] => (None, rows, trace, n)
  | pe :: rest =>
      match media_PublishOne n pe trace with
      | (Some e, trace) => (Some (EWrap ("relay: publish " +:+ oeID pe) e), rows, trace, S n)
      | (None, trace) =>
          match re_mark n with
          | Some e => (Some (EWrap ("relay: mark " +:+ oeID pe) e), rows, trace, S n)
          | None => media_publishAll (S n) rest (media_MarkPublished (oeID pe) rows) trace
          end
      end
  end.

Definition media_drainOnce (batchSize : nat) (it : iteration) (s : relay_state P) : nat * option error * relay_state P :=
  let n := rsN s in
  let rows := rsRows s in
  match re_begin n with
  | Some e => (0%nat, Some e, mkRelay rows (rsTrace s) (S n))
  | None =>
      match re_fetch n with
      | Some e => (0%nat, Some e, mkRelay rows (rsTrace s) (S n))
      | None =>
          let pending := media_FetchUnpublished (itLocked it) batchSize rows in
          if (length pending =? 0)%nat then (0%nat, None, mkRelay rows (rsTrace s) (S n))
          else
            match media_publishAll (S n) pending rows (rsTrace s) with
            | (Some e, _, trace, n) => (0%nat, Some e, mkRelay rows trace (S n)) (* rolled back *)
            | (None, marked, trace, n) =>
                match re_commit n with
                | Some (e, applied) => (0%nat, Some e, mkRelay (if (applied : bool) then marked else rows) trace (S n))
                | None => (length pending, None, mkRelay marked trace (S n))
                end
            end
      end
  end.

Definition media_NewRelay (opts : RelayOptions) : string * RelayOptions :=
  let batchSize := if roBatchSize opts <=? 0 then 100 else roBatchSize opts in
  let pollEvery := if roPollEvery opts <=? 0 then Second else roPollEvery opts in
  let lockTTL := if roLockTTL opts <=? 0 then 30 * Second else roLockTTL opts in
  ("media:outbox:relay", mkRelayOptions batchSize pollEvery lockTTL).

(** One iteration of [Run]. *)
Definition media_Run (batchSize : nat) (it : iteration) (s : relay_state P) : next P :=
  if itDone it then Stop s
  else
    match itLock it with
    | AcqNotLeader => sleep it s
    | AcqDown _ => sleep it s
    | AcqLeader =>
        let '(published, _, s) := media_drainOnce batchSize it s in
        if (published =? 0)%nat then sleep it s else Again s
    end.
End media.

(** *** sync *)

Section sync.
Context {P : Type} `{RelayEnv}.

Definition sync_eventHeaders (e : OutEvent P) : gmap string string :=
  let h := <["schema-version" := oeVersion e]> (<["event-id" := oeID e]> (<["aggregate-id" := oeAggregateID e]> ∅)) in
  oeHeaders e ∪ h.

(** [Publisher.Publish]. *)
Definition sync_Publish (n : nat) (event : OutEvent P) (trace : list (OutMessage P)) : option error * list (OutMessage P) :=
  let key := if bool_decide (oeKey event = "") then oeAggregateID event else oeKey event in
  let occurredAt := if time_IsZero (oeOccurredAt event) then re_now n else oeOccurredAt event in
  produce n (mkOutMessage (oeTopic event) key (oePayload event) (sync_eventHeaders event) occurredAt) trace.

(** [PendingPublisher.PublishOne]. *)
Definition sync_PublishOne (n : nat) (pe : OutEvent P) (trace : list (OutMessage P)) : option error * list (OutMessage P) :=
  sync_Publish n (mkOutEvent (oeID pe) (oeAggregateID pe) (oeTopic pe) (oeKey pe) (oePayload pe) (oeHeaders pe) (oeOccurredAt pe) (oeVersion pe)) trace.

Definition sync_FetchUnpublished (locked : string -> bool) (limit : nat) (rows : list (OutRow P)) : list (OutEvent P) :=
  map orEvent (take limit (merge_sort occurredLe
    (filter (fun r => orPublished r = false /\ locked (oeID (orEvent r)) = false) rows))).

Definition sync_MarkPublished (id : string) (rows : list (OutRow P)) : list (OutRow P) :=
  map (fun r => if bool_decide (oeID (orEvent r) = id) then mkOutRow (orEvent r) true else r) rows.

(** The loop of [drainOnce] over the pending events. *)
Fixpoint sync_publishAll (n : nat) (pending : list (OutEvent P)) (rows : list (OutRow P)) (trace : list (OutMessage P))
    : option error * list (OutRow P) * list (OutMessage P) * nat :=
  match pending with
  | [] => (None, rows, trace, n)
  | pe :: rest =>
      match sync_PublishOne n pe trace with
      | (Some e, trace) => (Some (EWrap ("relay: publish " +:+ oeID pe) e), rows, trace, S n)
      | (None, trace) =>
          match re_mark n with
          | Some e => (Some (EWrap ("relay: mark " +:+ oeID pe) e), rows, trace, S n)
          | None => sync_publishAll (S n) rest (sync_MarkPublished (oeID pe) rows) trace
          end
      end
  end.

Definition sync_drainOnce (batchSize : nat) (it : iteration) (s : relay_state P) : nat * option error * relay_state P :=
  let n := rsN s in
  let rows := rsRows s in
  match re_begin n with
  | Some e => (0%nat, Some e, mkRelay rows (rsTrace s) (S n))
  | None =>
      match re_fetch n with
      | Some e => (0%nat, Some e, mkRelay rows (rsTrace s) (S n))
      | None =>
          let pending := sync_FetchUnpublished (itLocked it) batchSize rows in
          if (length pending =? 0)%nat then (0%nat, None, mkRelay rows (rsTrace s) (S n))
          else
            match sync_publishAll (S n) pending rows (rsTrace s) with
            | (Some e, _, trace, n) => (0%nat, Some e, mkRelay rows trace (S n)) (* rolled back *)
            | (None, marked, trace, n) =>
                match re_commit n with
                | Some (e, applied) => (0%nat, Some e, mkRelay (if (applied : bool) then marked else rows) trace (S n))
                | None => (length pending, None, mkRelay marked trace (S n))
                end
            end
      end
  end.

Definition sync_NewRelay (opts : RelayOptions) : string * RelayOptions :=
  let batchSize := if roBatchSize opts <=? 0 then 100 else roBatchSize opts in
  let pollEvery := if roPollEvery opts <=? 0 then Second else roPollEvery opts in
  let lockTTL := if roLockTTL opts <=? 0 then 30 * Second else roLockTTL opts in
  ("sync:outbox:relay", mkRelayOptions batchSize pollEvery lockTTL).

(** One iteration of [Run]. *)
Definition sync_Run (batchSize : nat) (it : iteration) (s : relay_state P) : next P :=
  if itDone it then Stop s
  else
    match itLock it with
    | AcqNotLeader | AcqDown _ => sleep it s
    | AcqLeader =>
        let '(published, _, s) := sync_drainOnce batchSize it s in
        if (published =? 0)%nat then sleep it s else Again s
    end.
End sync.

(** ** The same machine *)

Section same.
Context {P : Type} `{RelayEnv}.

(** One round of a publishing loop: the message of [Outbox] is produced, then the
    row is marked. *)
Definition publishes (all : nat -> list (OutEvent P) -> list (OutRow P) -> list (OutMessage P) ->
    option error * list (OutRow P) * list (OutMessage P) * nat) : Prop :=
  (forall n rows trace, all n [] rows trace = (None, rows, trace, n)) /\
  (forall n pe rest rows trace, all n (pe :: rest) rows trace =
     match produce n (toMessage (re_now n) pe) trace with
     | (Some e, trace) => (Some (EWrap ("relay: publish " +:+ oeID pe) e), rows, trace, S n)
     | (None, trace) =>
         match re_mark n with
         | Some e => (Some (EWrap ("relay: mark " +:+ oeID pe) e), rows, trace, S n)
         | None => all (S n) rest (MarkPublished (oeID pe) rows) trace
         end
     end).

(** Such a loop is [publishLoop]. *)
Lemma publishes_loop all n pending rows trace : publishes all ->
  match all n (map orEvent pending) rows trace with
  | (None, rows', trace', n') => publishLoop n pending rows trace = (Ok rows', trace', n')
  | (Some e, _, trace', n') => publishLoop n pending rows trace = (Err e, trace', n')
  end.
Proof.
  intros [Hnil Hcons]. revert n rows trace. induction pending as [|pe pending IH]; intros n rows trace; cbn [map publishLoop].
  { by rewrite Hnil. }
  rewrite Hcons. unfold produce. destruct (re_publish n) as [[e []]|]; [done..|]. destruct (re_mark n); [done|]. apply IH.
Qed.

(** A drain is that of [Outbox], up to the text of its errors: the same number,
    the same state, an error in the same cases; and no error comes with a
    number. *)
Definition drains (drain : nat -> iteration -> relay_state P -> nat * option error * relay_state P) : Prop :=
  forall batchSize it s,
    match drain batchSize it s, drainOnce (itLocked it) batchSize (rsN s) (rsRows s) (rsTrace s) with
    | (k, None, s'), (Ok k', rows, trace, n) => k = k' /\ s' = mkRelay rows trace n
    | (k, Some _, s'), (Err _, rows, trace, n) => k = 0%nat /\ s' = mkRelay rows trace n
    | _, _ => False
    end.

(** The shape of the four drains, [w] being what they do to the errors of the
    database. *)
Lemma drains_intro (w : string -> error -> error) all drain :
  publishes all ->
  (forall batchSize it s, drain batchSize it s =
     match re_begin (rsN s) with
     | Some e => (0%nat, Some (w "begin" e), mkRelay (rsRows s) (rsTrace s) (S (rsN s)))
     | None =>
         match re_fetch (rsN s) with
         | Some e => (0%nat, Some (w "fetch" e), mkRelay (rsRows s) (rsTrace s) (S (rsN s)))
         | None =>
             let pending := map orEvent (FetchUnpublished (itLocked it) batchSize (rsRows s)) in
             if (length pending =? 0)%nat then (0%nat, None, mkRelay (rsRows s) (rsTrace s) (S (rsN s)))
             else
               match all (S (rsN s)) pending (rsRows s) (rsTrace s) with
               | (Some e, _, trace, n) => (0%nat, Some e, mkRelay (rsRows s) trace (S n))
               | (None, marked, trace, n) =>
                   match re_commit n with
                   | Some (e, applied) => (0%nat, Some (w "commit" e), mkRelay (if (applied : bool) then marked else rsRows s) trace (S n))
                   | None => (length pending, None, mkRelay marked trace (S n))
                   end
               end
         end
     end) ->
  drains drain.
Proof.
  intros Hall Hd batchSize it s. rewrite Hd. unfold drainOnce. destruct (re_begin _); [done|]. destruct (re_fetch _); [done|]. cbv zeta.
  pose proof (publishes_loop all (S (rsN s)) (FetchUnpublished (itLocked it) batchSize (rsRows s)) (rsRows s) (rsTrace s) Hall) as Hl.
  destruct (FetchUnpublished _ _ _) as [|pe pending]; [done|]. rewrite length_map. cbn [length Nat.eqb].
  destruct (all _ _ _ _) as [[[[e|] marked] trace] n]; rewrite Hl; [done|]. by destruct (re_commit n) as [[e []]|].
Qed.

(** A loop that sleeps after an empty or failed drain, and when it does not
    lead, is the machine. *)
Lemma run_spec drain run : drains drain ->
  (forall batchSize it s, itDone it = false -> itLock it = AcqLeader ->
     run batchSize it s = (let '(published, err, s') := drain batchSize it s in
       match err with Some _ => sleep it s' | None => if (published =? 0)%nat then sleep it s' else Again s' end)) ->
  (forall batchSize it s, itDone it = false -> itLock it <> AcqLeader -> run batchSize it s = sleep it s) ->
  (forall batchSize it s, itDone it = true -> run batchSize it s = Stop s) ->
  forall batchSize it s, run batchSize it s = spec_Run batchSize it s.
Proof.
  intros Hd Hlead Hnot Hdone batchSize it s. unfold spec_Run. destruct (itDone it) eqn:E; [by apply Hdone|].
  destruct (itLock it) eqn:El; [|by apply Hnot; [|rewrite El]..]. rewrite (Hlead _ _ _ E El).
  specialize (Hd batchSize it s). destruct (drain batchSize it s) as [[k [e|]] s'];
    destruct (drainOnce _ _ _ _ _) as [[[[[|k']|e'] rows] trace] n]; try done; by destruct Hd as [-> ->].
Qed.

Lemma auth_drains : drains auth_drainOnce.
Proof. by apply (drains_intro (fun t => EWrap ("relay: " +:+ t)) auth_publishAll). Qed.
Lemma room_drains : drains room_drainOnce.
Proof. by apply (drains_intro (fun _ e => e) room_publishAll). Qed.
Lemma media_drains : drains media_drainOnce.
Proof. by apply (drains_intro (fun _ e => e) media_publishAll). Qed.
Lemma sync_drains : drains sync_drainOnce.
Proof. by apply (drains_intro (fun _ e => e) sync_publishAll). Qed.

(** A drain with an error returns no number, so the three loops that look at the
    number alone also sleep after one. *)
Lemma drains_zero drain batchSize it s : drains drain ->
  (let '(published, _, s') := drain batchSize it s in if (published =? 0)%nat then sleep it s' else Again s') =
  (let '(published, err, s') := drain batchSize it s in
   match err with Some _ => sleep it s' | None => if (published =? 0)%nat then sleep it s' else Again s' end).
Proof.
  intros Hd. specialize (Hd batchSize it s). destruct (drain batchSize it s) as [[k [e|]] s']; [|done].
  destruct (drainOnce _ _ _ _ _) as [[[[?|?] ?] ?] ?]; [done|]. by destruct Hd as [-> _].
Qed.

(** The loops that look only at the number. *)
Ltac counting_run lem run :=
  apply (run_spec _ _ lem); intros ? it ?; unfold run;
  [intros -> ->; by apply drains_zero, lem|intros -> Hl; by destruct (itLock it)|by intros ->].

Lemma auth_spec batchSize it (s : relay_state P) : auth_Run batchSize it s = spec_Run batchSize it s.
Proof.
  revert batchSize it s. apply (run_spec _ _ auth_drains); intros ? it ?; unfold auth_Run;
    [by intros -> ->|intros -> Hl; by destruct (itLock it)|by intros ->].
Qed.
Lemma room_spec batchSize it (s : relay_state P) : room_Run batchSize it s = spec_Run batchSize it s.
Proof. revert batchSize it s. counting_run room_drains @room_Run. Qed.
Lemma media_spec batchSize it (s : relay_state P) : media_Run batchSize it s = spec_Run batchSize it s.
Proof. revert batchSize it s. counting_run media_drains @media_Run. Qed.
Lemma sync_spec batchSize it (s : relay_state P) : sync_Run batchSize it s = spec_Run batchSize it s.
Proof. revert batchSize it s. counting_run sync_drains @sync_Run. Qed.
End same.

(** C39. The relays of the four services are one machine.  In the same
    circumstances (database, broker, lock, clock, cancellation) each of the four
    copies, with its own publisher, statements, drain and loop, publishes the
    messages of [Outbox] in the same order, leaves the same rows, and sleeps
    equally often; only the auth service's errors read differently, and [Run]
    drops them.  They take the same defaults for their options, and their lock
    keys differ, so they never hold up one another. *)
Theorem relays_equivalent {P} `{RelayEnv} batchSize its (s : relay_state P) opts :
  loop (auth_Run batchSize) its s 0 = loop (spec_Run batchSize) its s 0 /\
  loop (room_Run batchSize) its s 0 = loop (spec_Run batchSize) its s 0 /\
  loop (media_Run batchSize) its s 0 = loop (spec_Run batchSize) its s 0 /\
  loop (sync_Run batchSize) its s 0 = loop (spec_Run batchSize) its s 0 /\
  NoDup (map fst [auth_NewRelay opts; room_NewRelay opts; media_NewRelay opts; sync_NewRelay opts]) /\
  map snd [auth_NewRelay opts; room_NewRelay opts; media_NewRelay opts; sync_NewRelay opts] = repeat (NewRelay opts) 4.
Proof.
  split_and!; [apply loop_ext, auth_spec|apply loop_ext, room_spec|apply loop_ext, media_spec|apply loop_ext, sync_spec| |done].
  apply (bool_decide_unpack _). by vm_compute.
Qed.
