(* ===== verification/SigningKeys.v ===== *)
(** * Signing keys and access tokens

    Model of the auth service's JWT keys: [domain/signing_key.go], the
    repository [infra/postgres/signingkey_repo.go], the signer of
    [infra/crypto/jwt.go] with [rsa_helpers.go], the use cases of
    [app/keys.go] and [app/introspect.go], and [bootstrapSigner] of
    [cmd/auth-service/main.go].

    RSA, PKCS #8, JWK and JWS are the standard library's and go-jose's
    ([Jose]).  A token's payload is a JSON object ([jwtObject]). *)

From S2P Require Import Prelude GoNum Errors GoString Store RoomDomain Outbox AuthDomain Auth OAuth.

Open Scope sm_scope.

(** ** Payloads *)

(** The JSON values a claim can have; [CNull] is [null], [COther] anything
    that is not listed. *)
Inductive claimValue : Type :=
| CNull
| CStr (s : string)
| CInt (z : Z)
| CStrs (l : list string)
| COther.

Definition jwtObject : Type := gmap string claimValue.

(** [crypto.accessTokenClaims]. *)
Record jwtClaims : Type := mkJwtClaims {
  jcSub : string;
  jcRole : Z;        (* int32 *)
  jcScope : string;  (* omitempty *)
  jcJti : string;
  jcIss : string;
  jcAud : list string; (* omitempty *)
  jcIat : Z;         (* int64 *)
  jcExp : Z;         (* int64 *)
}.

Definition marshalClaims (c : jwtClaims) : jwtObject :=
  let base : jwtObject :=
    <["sub" := CStr (jcSub c)]> (<["role" := CInt (jcRole c)]> (<["jti" := CStr (jcJti c)]>
    (<["iss" := CStr (jcIss c)]> (<["iat" := CInt (jcIat c)]> (<["exp" := CInt (jcExp c)]> ∅))))) in
  let base := if bool_decide (jcScope c = "") then base else <["scope" := CStr (jcScope c)]> base in
  match jcAud c with [] => base | aud => <["aud" := CStrs aud]> base end.

(** A field of [json.Unmarshal]: a missing or null member leaves the zero
    value, a value of another type or out of range is an error. *)
Definition strField (k : string) (o : jwtObject) : option string :=
  match o !! k with
  | None | Some CNull => Some ""
  | Some (CStr s) => Some s
  | _ => None
  end.
Definition intField (w : Z) (k : string) (o : jwtObject) : option Z :=
  match o !! k with
  | None | Some CNull => Some 0
  | Some (CInt z) => if decide (in_s w z) then Some z else None
  | _ => None
  end.
Definition strsField (k : string) (o : jwtObject) : option (list string) :=
  match o !! k with
  | None | Some CNull => Some []
  | Some (CStrs l) => Some l
  | _ => None
  end.

Definition unmarshalClaims (o : jwtObject) : option jwtClaims :=
  sub ← strField "sub" o; role ← intField 32 "role" o; scope ← strField "scope" o; jti ← strField "jti" o;
  iss ← strField "iss" o; aud ← strsField "aud" o; iat ← intField 64 "iat" o; exp ← intField 64 "exp" o;
  Some (mkJwtClaims sub role scope jti iss aud iat exp).

(** ** The cryptographic port *)

Class Jose : Type := {
  rsaPriv : Type;
  rsaPub : Type;
  rsaPublic : rsaPriv -> rsaPub;              (* priv.PublicKey *)
  rsaN : rsaPub -> Z;
  rsaE : rsaPub -> Z;
  rsaGenerate : nat -> res error rsaPriv;
  pkcs8Encode : rsaPriv -> res error string;
  pkcs8Decode : string -> res error rsaPriv;
  jwkMarshal : rsaPub -> res error string;
  jwkUnmarshal : string -> res error rsaPub;
  newUUID : nat -> string;
  joseSign : rsaPriv -> string -> jwtObject -> res error string;   (* key, kid, payload *)
  jws : Type;
  joseParse : string -> res error (string * jws);                  (* the kid of the header *)
  joseVerify : jws -> rsaPub -> res error (option jwtObject);      (* None: not a JSON object *)
}.

(** What go-jose and the standard library promise: what was signed verifies,
    encodings decode. *)
Class JoseLaws (J : Jose) : Prop := {
  sign_verify : forall k kid o t, joseSign k kid o = Ok t ->
    exists b, joseParse t = Ok (kid, b) /\ joseVerify b (rsaPublic k) = Ok (Some o);
  pkcs8_roundtrip : forall k der, pkcs8Encode k = Ok der -> pkcs8Decode der = Ok k;
  jwk_roundtrip : forall p j, jwkMarshal p = Ok j -> jwkUnmarshal j = Ok p;
}.

(** ** The signer *)

Section jwt.
Context `{Jose}.

Record JWTSigner : Type := mkJWTSigner {
  jsActiveKID : string;
  jsKey : rsaPriv;                       (* of [signer] *)
  jsVerifiers : gmap string rsaPub;
  jsJWKS : gmap string rsaPub;           (* the key of the [JSONWebKey] *)
}.

(** [VerifiableKey] and [RetiredKeyInput]: a kid and its public JWK. *)
Definition verifiableKey : Type := string * string.

(** The loop of [NewJWTSigner] over the keys other than the active one. *)
Fixpoint loadVerifiable (context activeKID : string) (keys : list verifiableKey) (m : gmap string rsaPub)
    : res error (gmap string rsaPub) :=
  match keys with
  | [] => Ok m
  | (kid, jwk) :: rest =>
      if bool_decide (kid = activeKID) then loadVerifiable context activeKID rest m
      else match jwkUnmarshal jwk with
           | Err e => Err (EWrap (context +:+ kid) e)
           | Ok pub => loadVerifiable context activeKID rest (<[kid := pub]> m)
           end
  end.

Definition NewJWTSigner (active : SigningKey) (activePriv : option rsaPriv) (verifiable : list verifiableKey)
    : res error JWTSigner :=
  match activePriv with
  | None => Err (EMsg "jwt: active private key required")
  | Some priv =>
      match loadVerifiable "jwt: load retired key " (skKID active) verifiable {[skKID active := rsaPublic priv]} with
      | Err e => Err e
      | Ok m => Ok (mkJWTSigner (skKID active) priv m m)
      end
  end.

(** The loop of [Reload] has no special case for the active key. *)
Fixpoint loadRetired (keys : list verifiableKey) (m : gmap string rsaPub) : res error (gmap string rsaPub) :=
  match keys with
  | [] => Ok m
  | (kid, jwk) :: rest =>
      match jwkUnmarshal jwk with
      | Err e => Err (EWrap ("jwt: reload retired key " +:+ kid) e)
      | Ok pub => loadRetired rest (<[kid := pub]> m)
      end
  end.

(** On an error the signer keeps its keys. *)
Definition Reload (active : SigningKey) (priv : rsaPriv) (retired : list verifiableKey)
    : res error JWTSigner :=
  match loadRetired retired {[skKID active := rsaPublic priv]} with
  | Err e => Err e
  | Ok m => Ok (mkJWTSigner (skKID active) priv m m)
  end.

(** [t.Unix()] and [time.Unix(s, 0)]. *)
Definition unixSeconds (t : time) : Z := t / Second.

Definition Sign (n : nat) (g : JWTSigner) (c : AccessTokenClaims) : res error string :=
  joseSign (jsKey g) (jsActiveKID g)
    (marshalClaims (mkJwtClaims (clSubject c) (clSystemRole c) (clScope c) (newUUID n) (clIssuer c) (clAudience c)
                      (unixSeconds (clIssuedAt c)) (unixSeconds (clExpiresAt c)))).

(** The claims and the token id. *)
Definition Verify (now : time) (g : JWTSigner) (token : string) : res error (AccessTokenClaims * string) :=
  match joseParse token with
  | Err _ => Err (EVb (Unauthenticated "TOKEN_MALFORMED"))
  | Ok (kid, b) =>
      match jsVerifiers g !! kid with
      | None => Err (EVb (Unauthenticated "UNKNOWN_KID"))
      | Some pub =>
          match joseVerify b pub with
          | Err _ => Err (EVb (Unauthenticated "BAD_SIGNATURE"))
          | Ok payload =>
              match payload ≫= unmarshalClaims with
              | None => Err (EVb (Unauthenticated "CLAIMS_MALFORMED"))
              | Some c =>
                  if jcExp c <=? unixSeconds now then Err (EVb (Unauthenticated "TOKEN_EXPIRED"))
                  else Ok (mkClaims (jcSub c) (jcRole c) (jcIss c) (jcAud c) (jcIat c * Second)
                             (jcExp c * Second) (jcScope c), jcJti c)
              end
          end
      end
  end.

(** The signer as the port the other use cases are written against. *)
Definition jwtSigner (g : JWTSigner) : Signer := fun n c => Sign n g c.

(** ** Generating keys *)

Definition GenerateSigningKey `{Cipher} (now : time) (kid : string) : SM AuthDB (SigningKey * rsaPriv) :=
  priv <- lift rsaGenerate ;;
  der <- lift (fun _ => pkcs8Encode priv) ;;
  enc <- lift (fun n => encryptBytes n der) ;;
  jwk <- lift (fun _ => jwkMarshal (rsaPublic priv)) ;;
  sret (mkSigningKey kid SigningKeyStatusActive enc jwk now time_zero, priv).
End jwt.

(** ** The repository *)

Section repo.
Context `{Env}.

Definition activeKey (k : SigningKey) : bool := skStatus k =? SigningKeyStatusActive.

(** What the row holds of a key; a zero [retired_at] is NULL and is read back
    as the zero time. *)
Definition storedKey (k : SigningKey) : SigningKey :=
  mkSigningKey (skKID k) (int16 (skStatus k)) (skPrivateEncrypted k) (skPublicJWK k) (pgTime (skCreatedAt k))
    (if time_IsZero (skRetiredAt k) then time_zero else pgTime (skRetiredAt k)).

(** On a conflict the creation time is kept. *)
Definition upsertedKey (old : option SigningKey) (k : SigningKey) : SigningKey :=
  match old with
  | None => storedKey k
  | Some old => mkSigningKey (skKID k) (skStatus (storedKey k)) (skPrivateEncrypted k) (skPublicJWK k)
                  (skCreatedAt old) (skRetiredAt (storedKey k))
  end.

(** The partial unique index allows one active row. *)
Definition SigningKeyRepo_Upsert (k : SigningKey) : SM AuthDB unit :=
  smapErr (EWrap "signingkey_repo: upsert") (stmt (fun db =>
    if negb ((0 <=? int16 (skStatus k)) && (int16 (skStatus k) <=? 2))
    then Err (EMsg "violates check constraint signing_keys_status_check")
    else if activeKey (storedKey k) &&
            existsb (fun kv => activeKey kv.2 && negb (bool_decide (skKID kv.2 = skKID k))) (map_to_list (dKeys db))
    then Err (EUniqueViolation "signing_keys_one_active_idx")
    else Ok (tt, set_dKeys (insert (skKID k) (upsertedKey (dKeys db !! skKID k) k)) db))).

Definition SigningKeyRepo_GetActive : SM AuthDB SigningKey :=
  smapErr (scanErr "signing_key" "" "signingkey_repo: scan")
    (queryRow (fun db => findRow activeKey (dKeys db))).

Definition newerKey (a b : SigningKey) : Prop := skCreatedAt b <= skCreatedAt a.
#[global] Instance newerKey_dec a b : Decision (newerKey a b).
Proof. unfold newerKey. apply _. Defined.

Definition verifiableStatus (k : SigningKey) : Prop :=
  skStatus k = SigningKeyStatusActive \/ skStatus k = SigningKeyStatusRetired.
#[global] Instance verifiableStatus_dec k : Decision (verifiableStatus k).
Proof. unfold verifiableStatus. apply _. Defined.

Definition SigningKeyRepo_ListVerifiable : SM AuthDB (list SigningKey) :=
  smapErr (EWrap "signingkey_repo: list") (query (fun db =>
    merge_sort newerKey (filter verifiableStatus (map snd (map_to_list (dKeys db)))))).

Definition SigningKeyRepo_MarkRetired (kid : string) (at_ : time) : SM AuthDB unit :=
  smapErr (EWrap "signingkey_repo: mark_retired")
    (stmt (fun db => Ok (tt, set_dKeys (alter (Retire (pgTime at_)) kid) db))).
End repo.

(** ** Method sets *)

(** The parameter types of the [Reload] methods.  A type assertion to an
    interface holds when the dynamic type has the interface's methods with
    identical signatures. *)
Inductive goType : Type := TSigningKey | TRSAPrivateKey | TAny | TRetiredKeys.
#[global] Instance goType_eq_dec : EqDecision goType.
Proof. solve_decision. Defined.

(** [app.signerReloader] and the method of [crypto.JWTSigner]. *)
Definition signerReloader_Reload : list goType := [TSigningKey; TRSAPrivateKey; TRetiredKeys].
Definition JWTSigner_Reload : list goType := [TSigningKey; TAny; TRetiredKeys].
Definition isReloader (method : list goType) : bool := bool_decide (method = signerReloader_Reload).

(** ** Use cases *)

Section keys.
Context `{Env} `{Cipher} `{Jose}.
Context (cfg : AuthConfig).

(** The transaction of [rotateSigningKey]. *)
Definition rotateTx (now : time) (force : bool) (newKey : SigningKey) : SM AuthDB unit :=
  prev <- stry SigningKeyRepo_GetActive ;;
  match prev with
  | Ok prev =>
      if negb force && (time_Sub now (skCreatedAt prev) <? acKeyRotationInterval cfg)
      then sfail (EVb (FailedPrecondition "vibesync.auth" "ROTATION_TOO_SOON"
                         "active key is younger than the rotation interval"))
      else
        SigningKeyRepo_MarkRetired (skKID prev) now ;;;
        SigningKeyRepo_Upsert newKey
  | Err e => if negb (isNotFound e) then sfail e else SigningKeyRepo_Upsert newKey
  end.

(** The keys the signer is reloaded with. *)
Definition otherKeys (kid : string) (stored : list SigningKey) : list verifiableKey :=
  map (fun k => (skKID k, skPublicJWK k)) (filter (fun k => skKID k <> kid) stored).

(** [method] are the parameters of the signer's [Reload] method; the answer is
    the new key id and the signer afterwards. *)
Definition rotateSigningKey (method : list goType) (force : bool) (g : JWTSigner)
    : SM AuthDB (string * JWTSigner) :=
  now <- snow ;;
  rnd <- srand 8 ;;
  let newKID := NewKID rnd in
  kp <- internally "KEY_GEN_FAILED" (GenerateSigningKey now newKID) ;;
  let '(newKey, newPriv) := kp in
  withTx (rotateTx now force newKey) ;;;
  if isReloader method then
    stored <- withTx SigningKeyRepo_ListVerifiable ;;
    g' <- internally "SIGNER_RELOAD_FAILED"
            (lift (fun _ => Reload newKey newPriv (otherKeys newKID stored))) ;;
    sret (newKID, g')
  else sret (newKID, g).

Definition RotateKeys (force : bool) (g : JWTSigner) : SM AuthDB (string * JWTSigner) :=
  ctxDone ;;; rotateSigningKey JWTSigner_Reload force g.

(** [bootstrapSigner]: the first transaction loads or creates the active key. *)
Definition bootstrapTx (now : time) : SM AuthDB (SigningKey * rsaPriv) :=
  active <- stry SigningKeyRepo_GetActive ;;
  match active with
  | Err e =>
      if negb (isNoRows e) && negb (isNotFound e) then sfail (EWrap "load active key" e)
      else
        rnd <- srand 8 ;;
        kp <- GenerateSigningKey now (NewKID rnd) ;;
        SigningKeyRepo_Upsert kp.1 ;;;
        sret kp
  | Ok active =>
      der <- smapErr (EWrap "decrypt active key") (lift (fun _ => decryptBytes (skPrivateEncrypted active))) ;;
      priv <- smapErr (EWrap "jwt: parse pkcs8") (lift (fun _ => pkcs8Decode der)) ;;
      sret (active, priv)
  end.

Definition bootstrapSigner : SM AuthDB JWTSigner :=
  now <- snow ;;
  kp <- withTx (bootstrapTx now) ;;
  stored <- withTx SigningKeyRepo_ListVerifiable ;;
  lift (fun _ => NewJWTSigner kp.1 (Some kp.2) (otherKeys (skKID kp.1) stored)).

(** ** Key sets *)

(** [big.Int.Bytes]: the bytes of a natural number, most significant first. *)
Fixpoint bigBytes (fuel : nat) (z : Z) (acc : list Z) : list Z :=
  match fuel with
  | O => acc
  | S fuel => if z =? 0 then acc else bigBytes fuel (z / 256) (z mod 256 :: acc)
  end.
Definition bigIntBytes (z : Z) : list Z := bigBytes (S (Z.to_nat (Z.log2 z))) z [].

Definition encodeRSAModulus (p : rsaPub) : string := ofBytes (base64RawURL (bigIntBytes (rsaN p))).

(** [byte(v >> n)]. *)
Definition byteAt (v n : Z) : Z := Z.land (Z.shiftr v n) 255.

Fixpoint dropZeros (l : list Z) : list Z :=
  match l with
  | b :: (_ :: _) as rest => if b =? 0 then dropZeros rest else l
  | _ => l
  end.

Definition exponentBytes (v : Z) : list Z :=
  dropZeros (if v =? 0 then [0]
             else if v <? 256 then [byteAt v 0]
             else if v <? 65536 then [byteAt v 8; byteAt v 0]
             else [byteAt v 24; byteAt v 16; byteAt v 8; byteAt v 0]).
Definition encodeRSAExponent (p : rsaPub) : string := ofBytes (base64RawURL (exponentBytes (rsaE p))).

(** [authv1.JsonWebKey]: kid, n and e; the other members are constants. *)
Record JsonWebKey : Type := mkJWK {
  jwkKid : string;
  jwkN : string;
  jwkE : string;
}.

Definition jwkFromStored (k : SigningKey) : res error JsonWebKey :=
  match jwkUnmarshal (skPublicJWK k) with
  | Err e => Err (EVb (WithCause e (Internal "JWK_PARSE_FAILED" (errText e))))
  | Ok pub => Ok (mkJWK (skKID k) (encodeRSAModulus pub) (encodeRSAExponent pub))
  end.

Fixpoint jwksOf (keys : list SigningKey) : res error (list JsonWebKey) :=
  match keys with
  | [] => Ok []
  | k :: rest =>
      match jwkFromStored k with
      | Err e => Err e
      | Ok j => match jwksOf rest with Ok js => Ok (j :: js) | Err e => Err e end
      end
  end.

Definition listSigningKeyJWK : SM AuthDB (list JsonWebKey) :=
  withTx (stored <- SigningKeyRepo_ListVerifiable ;; lift (fun _ => jwksOf stored)).

Definition GetJwks : SM AuthDB (list JsonWebKey) := ctxDone ;;; listSigningKeyJWK.
End keys.

(** ** Introspection *)

(** [authv1.IntrospectResponse]. *)
Record IntrospectResponse : Type := mkIntrospect {
  irActive : bool;
  irUserID : string;
  irSystemRole : SystemRole;
  irExpiresAt : time;
  irScope : string;
}.
Definition inactive : IntrospectResponse := mkIntrospect false "" 0 time_zero "".

(** [err.(interface{ Code() uint32 })]: of the error types, [*errors.Error] and
    [*connect.Error] have a [Code] method, and it returns a [connect.Code],
    which is another type than [uint32]. *)
Inductive codeResult : Type := RConnectCode | RUint32.
#[global] Instance codeResult_eq_dec : EqDecision codeResult.
Proof. solve_decision. Defined.
Definition codeMethod (e : error) : option codeResult :=
  match e with
  | EVb _ | EConnect _ _ => Some RConnectCode
  | _ => None
  end.

(** [connect.CodeUnauthenticated] is 16. *)
Definition isAuthErr (e : error) : bool :=
  bool_decide (codeMethod e = Some RUint32) && bool_decide (wireCode e = CodeUnauthenticated).

Definition Introspect `{Env} `{Jose} {DB} (g : JWTSigner) (token : string) : SM DB IntrospectResponse :=
  ctxDone ;;;
  if bool_decide (token = "") then sret inactive
  else
    now <- snow ;;
    match Verify now g token with
    | Err e => if isAuthErr e then sret inactive else sfail e
    | Ok (c, _) =>
        sret (mkIntrospect true (clSubject c) (clSystemRole c) (clExpiresAt c) (clScope c))
    end.
