(* ===== verification/AuthRuns.v ===== *)
(** * Runs of the auth service

    The requests of the auth service that change its database, as the operations
    of a run; a restart reads or creates the signing key. *)

From S2P Require Import Prelude GoNum Errors GoString GoUnicode Store AuthDomain Auth Register OAuth SigningKeys.

Section runs.
Context `{Env} `{PgCitext} `{Hasher} `{Signer} `{UnicodeLower} `{Cipher} `{TokenEndpoint} `{Jose}.
Context (cfg : AuthConfig) (registry : oauthRegistry).

Inductive auth_op : Type :=
| ALogin (email password deviceLabel : string)
| ARefresh (presented : string)
| ALogout (presented : string)
| ARegister (email username password displayName deviceLabel : string)
| ABeginOAuth (provider redirectURI codeChallenge : string)
| ACompleteOAuth (provider state code codeVerifier : string)
| AProviderToken (userID provider : string)
| ARotateKeys (force : bool) (signer : JWTSigner)
| ARestart.

Definition auth_exec (o : auth_op) (s : st AuthDB) : st AuthDB :=
  match o with
  | ALogin e p d => (Login cfg e p d s).2
  | ARefresh t => (RefreshTokenRPC cfg t s).2
  | ALogout t => (Logout t s).2
  | ARegister e u p n d => (Register cfg e u p n d s).2
  | ABeginOAuth p r c => (BeginOAuth cfg registry p r c s).2
  | ACompleteOAuth p st c v => (CompleteOAuth cfg registry p st c v s).2
  | AProviderToken u p => (GetProviderToken cfg registry u p s).2
  | ARotateKeys f g => (RotateKeys cfg f g s).2
  | ARestart => (bootstrapSigner s).2
  end.

Definition auth_run (ops : list auth_op) (s : st AuthDB) : st AuthDB :=
  fold_left (fun s o => auth_exec o s) ops s.
End runs.

(** A database with users and nothing else. *)
Definition authStart (users : gmap string User) : st AuthDB := mkSt (mkAuthDB users ∅ ∅ ∅ ∅ ∅ ∅ []) 0 false.
