(* ===== verification/AuthDemo.v ===== *)
(** * A small world for the auth service

    Instances of the service's ports that evaluate, for the witnesses of the
    theorems about it: a clock that counts seconds, readable ids, a hasher that
    keeps the password, a cipher that marks its text and a signature scheme
    whose keys are numbers and whose tokens spell out the key, its id and the
    payload. *)

From stdpp Require Import pretty countable.
From Stdlib Require Import Ascii.
From S2P Require Import Prelude GoNum GoFloat Errors GoString GoUnicode Store RoomDomain Outbox AuthDomain Auth Register OAuth SigningKeys AuthRuns.

Open Scope Z_scope.

Definition second : duration := 1000000000.

#[local] Instance authEnv : Env := {|
  env_ctx _ := None; env_begin _ := None; env_fault _ := None; env_commit _ := None;
  env_now n := Z.of_nat (Nat.min n 1000) * second;
  env_id n := pretty n;
  env_rand n k := repeat (Z.of_nat (Nat.min n 255)) k;
|}.
#[local] Instance authEnv_Calm : Calm authEnv.
Proof. by split. Qed.
#[local] Instance prefixHasher : Hasher := {|
  hashPassword _ v := Ok ("h:" +:+ v)%string;
  comparePassword h v := bool_decide (h = ("h:" +:+ v)%string);
|}.
#[local] Instance constSigner : Signer := fun _ c => Ok (clSubject c).
#[local] Instance exactCitext : PgCitext := fun a b => bool_decide (a = b).
#[local] Instance idLower : UnicodeLower := fun r => r.
#[local] Instance markCipher : Cipher := {|
  encryptBytes _ v := Ok ("e:" +:+ v)%string;
  decryptBytes v := if bool_decide (String.substring 0 2 v = "e:") then Ok (String.substring 2 (String.length v) v)
                    else Err (EMsg "keycipher: decrypt");
|}.
#[local] Instance echoEndpoint : TokenEndpoint := {|
  getenv _ := "";
  postForm n _ _ := Ok (200, Ok (mkTokenRefresh ("fresh" +:+ pretty n) "" 3600));
|}.

(** ** A signature scheme *)

#[local] Instance claimValue_eq_dec : EqDecision claimValue.
Proof. solve_decision. Defined.
#[local] Instance claimValue_countable : Countable claimValue.
Proof.
  apply (inj_countable'
    (fun c => match c with
              | CNull => inl (inl tt) | CStr s => inl (inr s) | CInt z => inr (inl z)
              | CStrs l => inr (inr (inl l)) | COther => inr (inr (inr tt))
              end)
    (fun x => match x with
              | inl (inl _) => CNull | inl (inr s) => CStr s | inr (inl z) => CInt z
              | inr (inr (inl l)) => CStrs l | inr (inr (inr _)) => COther
              end)).
  by intros [].
Defined.

(** A positive number, spelt in binary. *)
Fixpoint spell (p : positive) : string :=
  match p with
  | xH => ""
  | xO p => String "0"%char (spell p)
  | xI p => String "1"%char (spell p)
  end.
Fixpoint unspell (s : string) : positive :=
  match s with
  | EmptyString => xH
  | String c s => if bool_decide (c = "0"%char) then xO (unspell s) else xI (unspell s)
  end.
Lemma unspell_spell p : unspell (spell p) = p.
Proof. induction p as [p IH|p IH|]; simpl; [|..|done]; by rewrite IH. Qed.

Definition signed : Type := Z * string * jwtObject.

#[local] Instance toyJose : Jose := {|
  rsaPriv := Z; rsaPub := Z; rsaPublic k := k; rsaN k := k; rsaE _ := 65537;
  rsaGenerate n := Ok (Z.of_nat n);
  pkcs8Encode k := Ok (spell (encode k));
  pkcs8Decode s := match decode (unspell s) with Some k => Ok k | None => Err (EMsg "pkcs8") end;
  jwkMarshal p := Ok (spell (encode p));
  jwkUnmarshal s := match decode (unspell s) with Some k => Ok k | None => Err (EMsg "jwk") end;
  newUUID n := pretty n;
  joseSign k kid o := Ok (spell (encode ((k, kid, o) : signed)));
  jws := signed;
  joseParse t := match decode (unspell t) with
                 | Some x => Ok ((x : signed).1.2, x)
                 | None => Err (EMsg "malformed")
                 end;
  joseVerify x p := if decide (x.1.1 = p) then Ok (Some x.2) else Err (EMsg "bad signature");
|}.

#[local] Instance toyJose_laws : JoseLaws toyJose.
Proof.
  split.
  - intros k kid o t [= <-]. exists (k, kid, o). cbn [joseParse joseVerify rsaPublic toyJose].
    rewrite unspell_spell, decode_encode. by rewrite decide_True.
  - intros k der [= <-]. cbn [pkcs8Decode toyJose]. by rewrite unspell_spell, decode_encode.
  - intros p j [= <-]. cbn [jwkUnmarshal toyJose]. by rewrite unspell_spell, decode_encode.
Qed.

(** ** A deployment *)

(** Sessions last ten seconds. *)
Definition demoAuthConfig : AuthConfig :=
  mkAuthConfig (900 * second) (3600 * second) (10 * second) (600 * second) (3600 * second) "vibesync"
    (mkOAuthConfig "" "" "" "").
Definition demoUsers : gmap string User :=
  {["u1" := mkUser "u1" "ann@example.com" "ann" "Ann" "" "h:secret12" SYSTEM_USER UserStatusActive 0 0]}.

Lemma demoUsers_keyed k u : demoUsers !! k = Some u -> uID u = k.
Proof. unfold demoUsers. by intros [<- <-]%lookup_singleton_Some. Qed.

(** A provider for which the code names the account: its id, its address and
    whether the address was verified. *)
Definition demoProvider (name : string) : OAuthProvider := {|
  opName := name;
  opAuthorizationURL _ _ state _ := Ok (name +:+ "?state=" +:+ state);
  opExchange _ code _ _ := Ok (mkProviderTokens ("at-" +:+ code) "" ("rt-" +:+ code) 3600000000000);
  opProfile _ t :=
    Ok (if bool_decide (tkAccessToken t = "at-eve")
        then mkProfile name "eve-id" "ann@example.com" false "Eve" ""
        else mkProfile name (tkAccessToken t) "bob.Smith@example.com" true "" "");
|}.
Definition demoRegistry : oauthRegistry := RegistryOf (Some (NewRegistry [demoProvider "spotify"; demoProvider "google"])).
