(* ===== verification/AuthIsolation.v ===== *)
(** * Concurrent presentations of credentials

    The transactions of [Auth] and [OAuth] that create, present and end refresh
    tokens and OAuth states, as trees of statements ([Isolation]): log-in,
    rotation, log-out, the beginning of an OAuth flow and its consumption.  What
    was spent when a request looks it up is refused under every interleaving;
    the last section shows that two requests that look a credential up before
    either commits are both served. *)

From S2P Require Import Prelude GoNum GoFloat Errors GoString Store Isolation.
From S2P Require Import RoomDomain AuthDomain Auth OAuth.

Open Scope tx_scope.

(** ** Rows *)

Inductive authKey : Type :=
| AKUser (id : string)
| AKSession (id : string)
| AKFamily (id : string)          (* unique in the sessions *)
| AKToken (id : string)
| AKSelector (s : string)         (* unique in the tokens *)
| AKFlow (state : string).

#[global] Instance authKey_eq : EqDecision authKey.
Proof. solve_decision. Defined.

Inductive authWrite : Type :=
| AWSession (id : string) (s : Session)
| AWToken (id : string) (t : RefreshToken)
| AWFlow (state : string) (f : option OAuthFlow).

Definition applyAuthWrite (w : authWrite) : AuthDB -> AuthDB :=
  match w with
  | AWSession id s => set_dSessions (insert id s)
  | AWToken id t => set_dTokens (insert id t)
  | AWFlow st (Some f) => set_dFlows (insert st f)
  | AWFlow st None => set_dFlows (delete st)
  end.

#[global] Instance authRows : Rows AuthDB authKey authWrite := {| applyWrite := applyAuthWrite |}.

Notation aprog := (prog AuthDB authKey authWrite).

(** ** Statements *)

Definition tUserByID (id : string) : aprog User :=
  tmapErr (scanErr "user" "" "user_repo: scan") (tqueryRow (fun db => dUsers db !! id)).

Definition tUserByEmail `{PgCitext} (email : string) : aprog User :=
  tmapErr (scanErr "user" "" "user_repo: scan")
    (tqueryRow (fun db => findRow (fun u => citextEq (uEmail u) email) (dUsers db))).

Definition tCreateSession (s : Session) : aprog unit :=
  tmapErr (EWrap "session_repo: create") (tstmt (fun db =>
    ((AKSession (seID s), ForUpdate) :: (AKFamily (seFamilyID s), ForUpdate) ::
       match dUsers db !! seUserID s with Some _ => [(AKUser (seUserID s), KeyShare)] | None => [] end,
     if 100 <? charCount (seDeviceLabel s)
     then Err (EMsg "value too long for type character varying(100)")
     else if bool_decide (is_Some (dSessions db !! seID s)) then Err (EUniqueViolation "sessions_pkey")
     else if existsb (fun kv => bool_decide (seFamilyID kv.2 = seFamilyID s)) (map_to_list (dSessions db))
     then Err (EUniqueViolation "sessions_family_id_key")
     else match dUsers db !! seUserID s with
          | None => Err (EMsg "violates foreign key constraint")
          | Some _ => Ok (tt, [AWSession (seID s) (storedSession s)])
          end))).

Definition tSessionByID (id : string) : aprog Session :=
  tmapErr (scanErr "session" id "session_repo: scan") (tqueryRow (fun db => dSessions db !! id)).

Definition tUpdateLastSeen (id : string) (at_ : time) : aprog unit :=
  tmapErr (EWrap "session_repo: update_last_seen") (tstmt (fun db =>
    match dSessions db !! id with
    | Some s => ([(AKSession id, NoKeyUpdate)], Ok (tt, [AWSession id (touch (pgTime at_) s)]))
    | None => ([], Ok (tt, []))
    end)).

Definition tCreateToken (t : RefreshToken) : aprog unit :=
  tmapErr (EWrap "refresh_repo: create") (tstmt (fun db =>
    ((AKToken (rtID t), ForUpdate) :: (AKSelector (rtSelector t), ForUpdate) ::
       match dUsers db !! rtUserID t with Some _ => [(AKUser (rtUserID t), KeyShare)] | None => [] end ++
       match dSessions db !! rtSessionID t with Some _ => [(AKSession (rtSessionID t), KeyShare)] | None => [] end,
     if 32 <? charCount (rtSelector t)
     then Err (EMsg "value too long for type character varying(32)")
     else if bool_decide (is_Some (dTokens db !! rtID t)) then Err (EUniqueViolation "refresh_tokens_pkey")
     else if existsb (fun kv => bool_decide (rtSelector kv.2 = rtSelector t)) (map_to_list (dTokens db))
     then Err (EUniqueViolation "refresh_tokens_selector_key")
     else match dUsers db !! rtUserID t, dSessions db !! rtSessionID t with
          | Some _, Some _ => Ok (tt, [AWToken (rtID t) (storedToken t)])
          | _, _ => Err (EMsg "violates foreign key constraint")
          end))).

Definition tTokenBySelector (selector : string) : aprog RefreshToken :=
  tmapErr (scanErr "refresh_token" "" "refresh_repo: scan")
    (tqueryRow (fun db => findRow (fun t => bool_decide (rtSelector t = selector)) (dTokens db))).

(** The [UPDATE] of one token by its id, whatever its status. *)
Definition markToken (f : RefreshToken -> RefreshToken) (id : string) (db : AuthDB)
    : Isolation.outcome unit :=
  match dTokens db !! id with
  | Some t => ([(AKToken id, NoKeyUpdate)], Ok (tt, [AWToken id (f t)]))
  | None => ([], Ok (tt, []))
  end.

Definition tMarkUsed (id : string) (at_ : time) : aprog unit :=
  tmapErr (EWrap "refresh_repo: mark_used") (tstmt (markToken (MarkUsed (pgTime at_)) id)).

Definition tMarkRevoked (id : string) (at_ : time) : aprog unit :=
  tmapErr (EWrap "refresh_repo: mark_revoked") (tstmt (markToken (MarkRevoked (pgTime at_)) id)).

(** The rows of a family that are not compromised yet. *)
Definition familyRows (familyID : string) (db : AuthDB) : list (string * RefreshToken) :=
  List.filter (fun kv => bool_decide (rtFamilyID kv.2 = familyID) && negb (rtStatus kv.2 =? StatusCompromised))
    (map_to_list (dTokens db)).

(** Of the rows that were in the family when the statement started, those that
    still are when it has their locks. *)
Definition familyRowsOf (familyID : string) (ids : list string) (db : AuthDB) : list (string * RefreshToken) :=
  List.filter (fun kv => bool_decide (kv.1 ∈ ids)) (familyRows familyID db).

Definition revokeRows (familyID : string) (at_ : time) (ids : list string) (db : AuthDB) : Isolation.outcome Z :=
  let rows := familyRowsOf familyID ids db in
  (map (fun kv => (AKToken kv.1, NoKeyUpdate)) rows,
   Ok (Z.of_nat (length rows), map (fun kv => AWToken kv.1 (MarkCompromised (pgTime at_) kv.2)) rows)).

Definition tRevokeFamily (familyID : string) (at_ : time) : aprog Z :=
  tsnap (fun _ db => map fst (familyRows familyID db)) (fun ids =>
    tmapErr (EWrap "refresh_repo: revoke_family") (tstmt (revokeRows familyID at_ ids))).

Definition tCreateFlow (f : OAuthFlow) : aprog unit :=
  tmapErr (EWrap "oauthflow_repo: create") (tstmt (fun db =>
    ([(AKFlow (ofState f), ForUpdate)],
     if 32 <? charCount (ofState f) then Err (EMsg "value too long for type character varying(32)")
     else if 32 <? charCount (ofProvider f) then Err (EMsg "value too long for type character varying(32)")
     else if 64 <? charCount (ofCodeChallenge f) then Err (EMsg "value too long for type character varying(64)")
     else if bool_decide (is_Some (dFlows db !! ofState f)) then Err (EUniqueViolation "oauth_flows_pkey")
     else Ok (tt, [AWFlow (ofState f) (Some (storedFlow f))])))).

(** The [SELECT], then the [DELETE] whose number of rows nobody looks at. *)
Definition tGetAndConsume (state : string) : aprog OAuthFlow :=
  f <~ tmapErr (scanErr "oauth_flow" state "oauthflow_repo: scan") (tqueryRow (fun db => dFlows db !! state)) ;;
  tmapErr (EWrap "oauthflow_repo: consume") (tstmt (fun db =>
    match dFlows db !! state with
    | Some _ => ([(AKFlow state, ForUpdate)], Ok (tt, [AWFlow state None]))
    | None => ([], Ok (tt, []))
    end)) ;;~
  PRet f.

(** ** Bodies *)

Section bodies.
Context `{Env} `{PgCitext} `{Hasher} `{Signer} (cfg : AuthConfig).

Definition issueAccessTokenBody (u : User) : aprog string :=
  now <~ tnow ;;
  tlift (fun n => signToken n (mkClaims (uID u) (uSystemRole u) (acIssuer cfg) ["vibesync"] now
                                (now + acAccessTokenTTL cfg) "")).

Definition newRefreshTokenBody (now : time) (id familyID userID sessionID rotatedFrom : string)
    : aprog (RefreshToken * ValidatorMaterial) :=
  selRnd <~ trand selectorBytes ;; valRnd <~ trand validatorBytes ;;
  tlift (fun n => NewRefreshToken selRnd valRnd now id familyID userID sessionID rotatedFrom
                    (acRefreshTokenTTL cfg) (hashPassword n)).

Definition issueSessionBody (user : User) (deviceLabel : string) : aprog (Session * tokenMaterial) :=
  now <~ tnow ;; sessionID <~ tnewID ;; familyID <~ tnewID ;;
  let sess := NewSession now sessionID (uID user) familyID (acSessionTTL cfg) deviceLabel in
  tCreateSession sess ;;~
  rtID <~ tnewID ;;
  rv <~ newRefreshTokenBody now rtID familyID (uID user) sessionID "" ;;
  tCreateToken rv.1 ;;~
  access <~ issueAccessTokenBody user ;;
  PRet (sess, mkMaterial access (PresentationToken rv.2) (wholeSeconds (acAccessTokenTTL cfg))).

Definition loginBody (email password deviceLabel : string) : aprog (Session * tokenMaterial) :=
  user <~ tmapErr (fun e => if isNotFound e then EVb (Unauthenticated "INVALID_CREDENTIALS") else e)
            (tUserByEmail email) ;;
  if negb (HasPassword user) then PFail (EVb (Unauthenticated "INVALID_CREDENTIALS"))
  else if negb (comparePassword (uPasswordHash user) password)
  then PFail (EVb (Unauthenticated "INVALID_CREDENTIALS"))
  else if negb (CanAuthenticate user)
  then PFail (EVb (PermissionDenied "login" ("user:" +:+ uID user)%string))
  else issueSessionBody user deviceLabel.

Definition rotateBody (rt : RefreshToken) (now : time) : aprog (Session * tokenMaterial) :=
  user <~ tmapErr (fun e => if isNotFound e then EVb (Unauthenticated "INVALID_REFRESH_TOKEN") else e)
            (tUserByID (rtUserID rt)) ;;
  if negb (CanAuthenticate user)
  then PFail (EVb (PermissionDenied "refresh" ("user:" +:+ uID user)%string))
  else
    tMarkUsed (rtID rt) now ;;~
    newID <~ tnewID ;;
    rv <~ newRefreshTokenBody now newID (rtFamilyID rt) (uID user) (rtSessionID rt) (rtID rt) ;;
    tCreateToken rv.1 ;;~
    tUpdateLastSeen (rtSessionID rt) now ;;~
    access <~ issueAccessTokenBody user ;;
    sess <~ tSessionByID (rtSessionID rt) ;;
    PRet (sess, mkMaterial access (PresentationToken rv.2) (wholeSeconds (acAccessTokenTTL cfg))).

Definition refreshBody (selector validator : string) : aprog (Session * tokenMaterial) :=
  rt <~ tmapErr (fun e => if isNotFound e then EVb (Unauthenticated "INVALID_REFRESH_TOKEN") else e)
          (tTokenBySelector selector) ;;
  if negb (comparePassword (rtValidatorHash rt) validator)
  then PFail (EVb (Unauthenticated "INVALID_REFRESH_TOKEN"))
  else
    now <~ tnow ;;
    let action := ClassifyUse now rt in
    match action.1 with
    | UseOutcomeRotate => rotateBody rt now
    | UseOutcomeReuse =>
        tRevokeFamily (rtFamilyID rt) now ;;~
        PFail (because (WithMeta "family_id" (rtFamilyID rt) (Unauthenticated "REUSE_DETECTED")) action.2)
    | UseOutcomeCompromised => PFail (because (Unauthenticated "FAMILY_COMPROMISED") action.2)
    | UseOutcomeRevoked => PFail (because (Unauthenticated "REVOKED") action.2)
    | UseOutcomeExpired => PFail (because (Unauthenticated "EXPIRED") action.2)
    | UseOutcomeUnspecified =>
        PFail (EVb (Internal "UNKNOWN_TOKEN_STATE" "unhandled refresh token state"))
    end.

Definition logoutBody (selector : string) : aprog bool :=
  rt <~ ttry (tTokenBySelector selector) ;;
  match rt with
  | Err e => if isNotFound e then PRet false else PFail e
  | Ok rt =>
      if rtStatus rt =? StatusActive then
        now <~ tnow ;; tMarkRevoked (rtID rt) now ;;~ PRet true
      else PRet false
  end.

Definition consumeBody (state : string) : aprog OAuthFlow :=
  tmapErr (fun e => if isNotFound e
                    then EVb (InvalidArgumentFor "vibesync.auth" "BAD_STATE" "state not found or expired") else e)
    (tGetAndConsume state).
End bodies.

(** ** Each tree is the transaction of the service *)

Section agreement.
Context `{Env} `{PgCitext} `{Hasher} `{Signer} (cfg : AuthConfig).

Lemma tUserByID_agrees id : agree (serial (tUserByID id)) (UserRepo_GetByID id).
Proof. unfold tUserByID, UserRepo_GetByID. agree_tac. Qed.
Lemma tUserByEmail_agrees e : agree (serial (tUserByEmail e)) (UserRepo_GetByEmail e).
Proof. unfold tUserByEmail, UserRepo_GetByEmail. agree_tac. Qed.
Lemma tSessionByID_agrees id : agree (serial (tSessionByID id)) (SessionRepo_GetByID id).
Proof. unfold tSessionByID, SessionRepo_GetByID. agree_tac. Qed.
Lemma tTokenBySelector_agrees s : agree (serial (tTokenBySelector s)) (RefreshRepo_GetBySelector s).
Proof. unfold tTokenBySelector, RefreshRepo_GetBySelector. agree_tac. Qed.
Lemma tCreateSession_agrees s : agree (serial (tCreateSession s)) (SessionRepo_Create s).
Proof. apply stmt_tree. same_rows. Qed.
Lemma tCreateToken_agrees t : agree (serial (tCreateToken t)) (RefreshRepo_Create t).
Proof. apply stmt_tree. same_rows. Qed.
Lemma tCreateFlow_agrees f : agree (serial (tCreateFlow f)) (OAuthFlowRepo_Create f).
Proof. apply stmt_tree. same_rows. Qed.

Lemma markToken_alter f id db :
  stmtOf (markToken f id) db = Ok (tt, set_dTokens (alter f id) db).
Proof.
  unfold stmtOf, markToken, applyAll, set_dTokens. destruct (dTokens db !! id) eqn:E; simpl.
  - by erewrite alter_insert_eq by done.
  - rewrite alter_absent by done. by destruct db.
Qed.
Lemma tMarkUsed_agrees id t : agree (serial (tMarkUsed id t)) (RefreshRepo_MarkUsed id t).
Proof. apply stmt_tree, markToken_alter. Qed.
Lemma tMarkRevoked_agrees id t : agree (serial (tMarkRevoked id t)) (RefreshRepo_MarkRevoked id t).
Proof. apply stmt_tree, markToken_alter. Qed.
Lemma tUpdateLastSeen_agrees id t : agree (serial (tUpdateLastSeen id t)) (SessionRepo_UpdateLastSeen id t).
Proof.
  apply stmt_tree. same_rows; unfold applyAll, set_dSessions; simpl.
  - by erewrite alter_insert_eq by done.
  - rewrite alter_absent by done. by destruct db.
Qed.
Lemma tGetAndConsume_agrees st : agree (serial (tGetAndConsume st)) (OAuthFlowRepo_GetAndConsume st).
Proof.
  unfold tGetAndConsume, OAuthFlowRepo_GetAndConsume. agree_tac.
  eapply agree_trans; [apply serial_stmt|apply agree_stmt]. same_rows.
  unfold applyAll, set_dFlows. simpl. rewrite delete_id by done. by destruct db.
Qed.

(** Writing the rows of a list one after the other. *)
Lemma lookup_foldl_insert {K V} `{Countable K} (g : V -> V) (l : list (K * V)) (m : gmap K V) k :
  NoDup l.*1 ->
  foldl (fun m kv => <[kv.1 := g kv.2]> m) m l !! k =
  match (list_to_map l : gmap K V) !! k with Some v => Some (g v) | None => m !! k end.
Proof.
  revert m. induction l as [|[j v] l IH]; intros m Hnd; [done|].
  apply NoDup_cons in Hnd as [Hj Hnd]. cbn [foldl fst snd]. rewrite IH by done. simpl.
  destruct (decide (j = k)) as [->|Hne].
  - rewrite lookup_insert_eq, not_elem_of_list_to_map_1 by done. by rewrite lookup_insert_eq.
  - by rewrite !lookup_insert_ne by done.
Qed.

Lemma applyAll_tokens (g : RefreshToken -> RefreshToken) l db :
  applyAll (map (fun kv => AWToken kv.1 (g kv.2)) l) db =
  set_dTokens (fun m => foldl (fun m kv => <[kv.1 := g kv.2]> m) m l) db.
Proof.
  revert db. induction l as [|kv l IH]; intros db; [by destruct db|].
  simpl. unfold applyAll in *. simpl. by rewrite IH.
Qed.

Lemma NoDup_keys_filter {K V} (f : K * V -> bool) (l : list (K * V)) :
  NoDup l.*1 -> NoDup (List.filter f l).*1.
Proof.
  induction l as [|kv l IH]; [done|]. intros [Hn Hnd]%NoDup_cons. simpl. destruct (f kv); [|by apply IH].
  apply NoDup_cons. split; [|by apply IH]. intros Hin. apply Hn. apply list_elem_of_fmap in Hin as (x & Hx & Hin).
  apply list_elem_of_fmap. exists x. split; [done|]. apply list_elem_of_In in Hin.
  apply List.filter_In in Hin as [Hin _]. by apply list_elem_of_In.
Qed.

Lemma familyRows_NoDup fam db : NoDup (familyRows fam db).*1.
Proof. apply NoDup_keys_filter, NoDup_fst_map_to_list. Qed.

Lemma familyRows_elem fam db k t :
  (k, t) ∈ familyRows fam db <->
  dTokens db !! k = Some t /\ bool_decide (rtFamilyID t = fam) && negb (rtStatus t =? StatusCompromised) = true.
Proof.
  unfold familyRows. by rewrite list_elem_of_In, List.filter_In, <- list_elem_of_In, elem_of_map_to_list.
Qed.

Lemma familyRowsOf_all fam db : familyRowsOf fam (map fst (familyRows fam db)) db = familyRows fam db.
Proof.
  unfold familyRowsOf. apply forallb_filter_id. apply forallb_forall. intros kv Hkv.
  apply bool_decide_eq_true. apply list_elem_of_fmap. exists kv. split; [done|]. by apply list_elem_of_In.
Qed.

Lemma tRevokeFamily_agrees fam t : agree (serial (tRevokeFamily fam t)) (RefreshRepo_RevokeFamily fam t).
Proof.
  apply (snap_tree _ _ (revokeRows fam t) (fun _ db =>
    Ok (Z.of_nat (length (familyRows fam db)), set_dTokens (fmap (burnFamily fam (pgTime t))) db))).
  intros _ db. unfold stmtOf, revokeRows. cbn [fst snd]. rewrite familyRowsOf_all, applyAll_tokens. do 2 f_equal.
  unfold set_dTokens. f_equal. apply map_eq. intros k. rewrite lookup_foldl_insert by apply familyRows_NoDup.
  rewrite lookup_fmap. unfold burnFamily.
  destruct (list_to_map _ !! k) as [x|] eqn:El.
  - apply elem_of_list_to_map, familyRows_elem in El as [Hk Hb]; [|apply familyRows_NoDup].
    rewrite Hk. simpl. by rewrite Hb.
  - destruct (dTokens db !! k) as [x|] eqn:Ek; [|done]. simpl.
    destruct (_ && _) eqn:Eb; [|done].
    apply not_elem_of_list_to_map in El. destruct El. apply list_elem_of_fmap. exists (k, x).
    split; [done|]. by apply familyRows_elem.
Qed.
End agreement.

#[export] Hint Resolve tUserByID_agrees tUserByEmail_agrees tSessionByID_agrees tTokenBySelector_agrees
  tCreateSession_agrees tCreateToken_agrees tCreateFlow_agrees tMarkUsed_agrees tMarkRevoked_agrees
  tUpdateLastSeen_agrees tGetAndConsume_agrees tRevokeFamily_agrees : agree.

Section transactions.
Context `{Env} `{PgCitext} `{Hasher} `{Signer} (cfg : AuthConfig).

Lemma issueAccessToken_agrees u : agree (serial (issueAccessTokenBody cfg u)) (issueAccessToken cfg u).
Proof. unfold issueAccessTokenBody, issueAccessToken. agree_tac. Qed.
Lemma newRefreshToken_agrees now id fam u s r :
  agree (serial (newRefreshTokenBody cfg now id fam u s r)) (newRefreshToken cfg now id fam u s r).
Proof. unfold newRefreshTokenBody, newRefreshToken. agree_tac. Qed.
Lemma issueSession_agrees u d : agree (serial (issueSessionBody cfg u d)) (issueSessionForUser cfg u d).
Proof.
  pose proof issueAccessToken_agrees. pose proof newRefreshToken_agrees.
  unfold issueSessionBody, issueSessionForUser. agree_tac.
Qed.
Lemma loginBody_agrees e p d : agree (serial (loginBody cfg e p d)) (loginTx cfg e p d).
Proof. pose proof issueSession_agrees. unfold loginBody, loginTx. agree_tac. Qed.
Lemma rotateBody_agrees rt now : agree (serial (rotateBody cfg rt now)) (rotate cfg rt now).
Proof.
  pose proof issueAccessToken_agrees. pose proof newRefreshToken_agrees.
  unfold rotateBody, rotate. agree_tac.
Qed.
Lemma refreshBody_agrees s v : agree (serial (refreshBody cfg s v)) (refreshTx cfg s v).
Proof. pose proof rotateBody_agrees. unfold refreshBody, refreshTx. agree_tac. Qed.
Lemma logoutBody_agrees s : agree (serial (logoutBody s)) (logoutTx s).
Proof. unfold logoutBody, logoutTx. agree_tac. Qed.
Lemma consumeBody_agrees s : agree (serial (consumeBody s)) (consumeTx s).
Proof. unfold consumeBody, consumeTx. agree_tac. Qed.
End transactions.
