(* ===== verification/AuthIsolationTheorems.v ===== *)
(** * Spent credentials stay spent

    Log-ins, rotations, log-outs and OAuth flows of the auth service,
    interleaved statement by statement ([AuthIsolation]): tokens keep their
    selectors and never become active again, so a request that looks up a spent
    token or a consumed state is refused; and what two requests do that look a
    credential up before either commits. *)

From S2P Require Import Prelude GoNum GoFloat Errors GoString Store Isolation.
From S2P Require Import RoomDomain AuthDomain Auth OAuth AuthDemo AuthIsolation.

Open Scope tx_scope.

(** ** Requests *)

Inductive auth_tx : Type :=
| TxLogin (email password deviceLabel : string)
| TxRefresh (selector validator : string)
| TxLogout (selector : string)
| TxBeginFlow (f : OAuthFlow)
| TxConsume (state : string).

Inductive auth_answer : Type :=
| AASession (s : Session) (m : tokenMaterial)
| AALogout (revoked : bool)
| AADone
| AAFlow (f : OAuthFlow).

Definition auth_ret {A} (f : A -> auth_answer) (m : aprog A) : aprog auth_answer :=
  tbind m (fun a => PRet (f a)).

Definition auth_body `{Env} `{PgCitext} `{Hasher} `{Signer} (cfg : AuthConfig) (op : auth_tx) : aprog auth_answer :=
  match op with
  | TxLogin e p d => auth_ret (fun sm => AASession sm.1 sm.2) (loginBody cfg e p d)
  | TxRefresh s v => auth_ret (fun sm => AASession sm.1 sm.2) (refreshBody cfg s v)
  | TxLogout s => auth_ret AALogout (logoutBody s)
  | TxBeginFlow f => auth_ret (fun _ => AADone) (tCreateFlow f)
  | TxConsume st => auth_ret AAFlow (consumeBody st)
  end.

(** The transaction of a request as [Auth] and [OAuth] have it. *)
Definition auth_service `{Env} `{PgCitext} `{Hasher} `{Signer} (cfg : AuthConfig) (op : auth_tx)
    : SM AuthDB auth_answer :=
  let ret {A} (f : A -> auth_answer) (m : SM AuthDB A) := sbind m (fun a => sret (f a)) in
  match op with
  | TxLogin e p d => ret (fun sm => AASession sm.1 sm.2) (loginTx cfg e p d)
  | TxRefresh s v => ret (fun sm => AASession sm.1 sm.2) (refreshTx cfg s v)
  | TxLogout s => ret AALogout (logoutTx s)
  | TxBeginFlow f => ret (fun _ => AADone) (OAuthFlowRepo_Create f)
  | TxConsume st => ret AAFlow (consumeTx st)
  end.

Lemma auth_body_agrees `{Env} `{PgCitext} `{Hasher} `{Signer} cfg op :
  agree (serial (auth_body cfg op)) (auth_service cfg op).
Proof.
  destruct op; cbn [auth_body auth_service].
  all: eapply agree_trans; [apply serial_bind|apply agree_bind; [|done]].
  - apply loginBody_agrees.
  - apply refreshBody_agrees.
  - apply logoutBody_agrees.
  - apply tCreateFlow_agrees.
  - apply consumeBody_agrees.
Qed.

(** ** What the transactions rely on *)

(** Tokens have their ids and their own selectors. *)
Record tokens_ok (db : AuthDB) : Prop := {
  tk_id : forall id t, dTokens db !! id = Some t -> rtID t = id;
  tk_selector : forall id id' t t', dTokens db !! id = Some t -> dTokens db !! id' = Some t' ->
    rtSelector t = rtSelector t' -> id = id';
}.

Definition holdsRow (L : list (authKey * lockMode)) (k : authKey) : Prop :=
  exists m, (k, m) ∈ L /\ m <> KeyShare.

(** [watch] is an OAuth state that no flow of the run begins with. *)
Record auth_rely (watch : option string) (L : list (authKey * lockMode)) (db db' : AuthDB) : Prop := {
  al_spent : forall id t, dTokens db !! id = Some t ->
    exists t', dTokens db' !! id = Some t' /\ rtSelector t' = rtSelector t /\
      (rtStatus t <> StatusActive -> rtStatus t' <> StatusActive);
  al_row : forall id, holdsRow L (AKToken id) -> dTokens db' !! id = dTokens db !! id;
  al_selector : forall sel id t, (AKSelector sel, ForUpdate) ∈ L -> dTokens db' !! id = Some t ->
    rtSelector t = sel -> exists t0, dTokens db !! id = Some t0 /\ rtSelector t0 = sel;
  al_flow : forall st, watch = Some st -> dFlows db !! st = None -> dFlows db' !! st = None;
}.

(** A write that is covered by the locks of its transaction: a token is spent,
    or it is new with an id and a selector that are free and locked. *)
Definition auth_covered (watch : option string) (L : list (authKey * lockMode)) (db : AuthDB) (w : authWrite) : Prop :=
  match w with
  | AWToken id t =>
      rtID t = id /\ holdsRow L (AKToken id) /\
      ((exists t0, dTokens db !! id = Some t0 /\ rtSelector t = rtSelector t0 /\ rtStatus t <> StatusActive) \/
       (dTokens db !! id = None /\ (AKSelector (rtSelector t), ForUpdate) ∈ L /\
        forall id' t', dTokens db !! id' = Some t' -> rtSelector t' <> rtSelector t))
  | AWFlow st (Some _) => watch <> Some st
  | _ => True
  end.

(** The requests that do not begin a flow with the watched state. *)
Definition auth_adm (watch : option string) (op : auth_tx) : bool :=
  match op with
  | TxBeginFlow f => negb (bool_decide (watch = Some (ofState f)))
  | _ => true
  end.

Section laws.
Context (watch : option string).
Implicit Types (L : list (authKey * lockMode)) (db : AuthDB) (w : authWrite).
Notation rely := (auth_rely watch).
Notation covered := (auth_covered watch).

Lemma auth_rely_refl L db : rely L db db.
Proof. split; [|done|intros sel id t _ Ht Hs; by exists t|done]. intros id t Ht. by exists t. Qed.

Lemma auth_rely_trans L a b c : rely L a b -> rely L b c -> rely L a c.
Proof.
  intros H1 H2. split.
  - intros id t Ht. destruct (al_spent _ _ _ _ H1 id t Ht) as (t1 & Ht1 & Hs1 & Ha1).
    destruct (al_spent _ _ _ _ H2 id t1 Ht1) as (t2 & Ht2 & Hs2 & Ha2). exists t2. split_and!; [done|congruence|auto].
  - intros id Hl. rewrite (al_row _ _ _ _ H2 id Hl). by apply (al_row _ _ _ _ H1).
  - intros sel id t Hl Ht Hs. destruct (al_selector _ _ _ _ H2 sel id t Hl Ht Hs) as (t1 & Ht1 & Hs1).
    by apply (al_selector _ _ _ _ H1 sel id t1).
  - intros st Hw Hn. apply (al_flow _ _ _ _ H2); [done|]. by apply (al_flow _ _ _ _ H1).
Qed.

Lemma auth_rely_fewer L L' a b : L ⊆ L' -> rely L' a b -> rely L a b.
Proof.
  intros HL [H1 H2 H3 H4]. split; [done| | |done].
  - intros id (m & Hm & Hn). apply H2. exists m. by split; [apply HL|].
  - intros sel id t Hl. by apply H3, HL.
Qed.

Lemma auth_covered_more L L' db w : L ⊆ L' -> covered L db w -> covered L' db w.
Proof.
  intros HL. destruct w as [| |st []]; try done. intros (Hid & (m & Hm & Hn) & Hc).
  split_and!; [done|exists m; by split; [apply HL|]|].
  destruct Hc as [?|(Hn' & Hl & Hf)]; [by left|right]. split_and!; [done|by apply HL|done].
Qed.

Lemma auth_covered_stable L db db' w :
  tokens_ok db -> tokens_ok db' -> rely L db db' -> covered L db w -> covered L db' w.
Proof.
  intros _ _ Hr. destruct w as [| |st []]; try done. intros (Hid & Hh & Hc). split_and!; [done..|].
  destruct Hc as [(t0 & Ht0 & Hs & Ha)|(Hn & Hl & Hf)].
  - left. destruct (al_spent _ _ _ _ Hr _ _ Ht0) as (t1 & Ht1 & Hs1 & _). exists t1. split_and!; [done|congruence|done].
  - right. split_and!; [by rewrite (al_row _ _ _ _ Hr _ Hh)|done|]. intros id' t' Ht' Hs'.
    destruct (al_selector _ _ _ _ Hr _ _ _ Hl Ht' Hs') as (t1 & Ht1 & Hs1). by apply (Hf id' t1).
Qed.

Lemma auth_covered_cong L db db' w :
  covered L db w -> rely L db db' -> rely L (applyAuthWrite w db) (applyAuthWrite w db').
Proof.
  intros _ [H1 H2 H3 H4]. destruct w as [id s|id t|st f].
  - done.
  - split; simpl; [| | |done].
    + intros j x. destruct (decide (id = j)) as [->|Hne].
      * rewrite !lookup_insert_eq. intros [= <-]. by exists t.
      * rewrite !lookup_insert_ne by done. apply H1.
    + intros j Hj. destruct (decide (id = j)) as [->|Hne].
      * by rewrite !lookup_insert_eq.
      * rewrite !lookup_insert_ne by done. by apply H2.
    + intros sel j x Hl. destruct (decide (id = j)) as [->|Hne].
      * rewrite !lookup_insert_eq. intros [= <-] Hs. by exists t.
      * rewrite !lookup_insert_ne by done. by apply H3.
  - split; [by destruct f|by destruct f|by destruct f|]. intros x Hw.
    destruct f as [f|]; simpl; destruct (decide (st = x)) as [->|Hne];
      rewrite ?lookup_insert_eq, ?lookup_insert_ne, ?lookup_delete_eq, ?lookup_delete_ne by done; auto.
Qed.

Lemma auth_covered_inv L db w : tokens_ok db -> covered L db w -> tokens_ok (applyAuthWrite w db).
Proof.
  intros [Hi Hs] Hc. destruct w as [id s|id t|st [f|]]; [by split| |by split|by split].
  destruct Hc as (Hid & _ & Hc). split; simpl.
  - intros j x. destruct (decide (id = j)) as [->|Hne]; [rewrite lookup_insert_eq; by intros [= <-]|].
    rewrite lookup_insert_ne by done. apply Hi.
  - assert (forall j x, id <> j -> dTokens db !! j = Some x -> rtSelector x <> rtSelector t) as Hf.
    { intros j x Hj Hx Heq. destruct Hc as [(t0 & Ht0 & Hs0 & _)|(_ & _ & Hf)]; [|by apply (Hf j x)].
      apply Hj. eapply Hs; [exact Ht0|exact Hx|congruence]. }
    intros j k x y. destruct (decide (id = j)) as [Hj|Hj], (decide (id = k)) as [Hk|Hk]; [congruence|..]; subst;
      rewrite ?lookup_insert_eq, ?lookup_insert_ne by done.
    + intros [= <-] Hy Heq. by destruct (Hf k y Hk Hy).
    + intros Hx [= <-] Heq. by destruct (Hf j x Hj Hx).
    + apply Hs.
Qed.

Lemma auth_covered_rely L L' db w :
  covered L db w -> clash L L' = false -> rely L' db (applyAuthWrite w db).
Proof.
  intros Hc Hcl. destruct w as [id s|id t|st [f|]]; [by destruct (auth_rely_refl L' db)| |..].
  - destruct Hc as (Hid & (m & Hm & Hn) & Hc). rewrite clash_false in Hcl. split; simpl; [| | |done].
    + intros j x. destruct (decide (id = j)) as [->|Hne].
      * rewrite lookup_insert_eq. intros Hx. exists t.
        destruct Hc as [(t0 & Ht0 & Hs & Ha)|(Hnone & _)]; [|congruence].
        split_and!; [done|congruence|done].
      * rewrite lookup_insert_ne by done. intros Hx. by exists x.
    + intros j (m' & Hm' & Hn'). destruct (decide (id = j)) as [->|Hne]; [|by rewrite lookup_insert_ne].
      specialize (Hcl _ _ _ Hm Hm'). by destruct m, m'.
    + intros sel j x Hl. destruct (decide (id = j)) as [->|Hne].
      * rewrite lookup_insert_eq. intros [= ->] <-.
        destruct Hc as [(t0 & Ht0 & Hs & Ha)|(_ & Hl' & _)]; [by exists t0|].
        by specialize (Hcl _ _ _ Hl' Hl).
      * rewrite lookup_insert_ne by done. intros Hx Hs. by exists x.
  - split; simpl; try done.
    + intros j x Hx. by exists x.
    + intros sel j x _ Hx Hs. by exists x.
    + intros x -> Hn. rewrite lookup_insert_ne; [done|]. intros ->. by apply Hc.
  - split; simpl; try done.
    + intros j x Hx. by exists x.
    + intros sel j x _ Hx Hs. by exists x.
    + intros x _ Hn. destruct (decide (st = x)) as [->|Hne]; [apply lookup_delete_eq|by rewrite lookup_delete_ne].
Qed.
End laws.

(** ** The transactions are well locked *)

Section locked.
Context `{Env} `{PgCitext} `{Hasher} `{Signer} (cfg : AuthConfig) (watch : option string).
Notation locked := (wellLocked tokens_ok (auth_covered watch)).

Lemma locked_queryRow {B} (f : AuthDB -> option B) g : locked (tmapErr g (tqueryRow f)).
Proof. apply wellLocked_mapErr, wellLocked_queryRow. Qed.
Lemma locked_now : locked tnow.
Proof. apply wellLocked_ask. Qed.
Lemma locked_id : locked tnewID.
Proof. apply wellLocked_ask. Qed.
Lemma locked_rand j : locked (trand j).
Proof. apply wellLocked_ask. Qed.
Lemma locked_lift {B} (f : nat -> res error B) : locked (tlift f).
Proof. apply wellLocked_ask. Qed.

Lemma locked_createSession s : locked (tCreateSession s).
Proof.
  apply wellLocked_mapErr, wellLocked_stmt. intros v l b ws _ E. by repeat case_match; simplify_eq/=.
Qed.
Lemma locked_lastSeen id t : locked (tUpdateLastSeen id t).
Proof.
  apply wellLocked_mapErr, wellLocked_stmt. intros v l b ws _ E. by repeat case_match; simplify_eq/=.
Qed.
Lemma locked_createToken t : locked (tCreateToken t).
Proof.
  apply wellLocked_mapErr, wellLocked_stmt. intros v l b ws _ E.
  destruct (_ <? _); [done|]. case_bool_decide as Hn; [done|]. apply eq_None_not_Some in Hn.
  destruct (existsb _ _) eqn:Ex; [done|]. destruct (dUsers v !! _); [|done]. destruct (dSessions v !! _); [|done].
  injection E as <- _ <-. split; [|done]. split_and!; [done|exists ForUpdate; by split; [left|]|].
  right. split_and!; [done|right; left|]. intros id' t' Ht' Hs.
  assert (existsb (fun kv => bool_decide (rtSelector kv.2 = rtSelector t)) (map_to_list (dTokens v)) = true); [|congruence].
  apply existsb_exists. exists (id', t'). split; [by apply list_elem_of_In, elem_of_map_to_list|].
  simpl. by rewrite bool_decide_true.
Qed.
Lemma locked_mark f id :
  (forall t, rtID (f t) = rtID t /\ rtSelector (f t) = rtSelector t /\ rtStatus (f t) <> StatusActive) ->
  forall g, locked (tmapErr g (tstmt (markToken f id))).
Proof.
  intros Hf g. apply wellLocked_mapErr, wellLocked_stmt. intros v l b ws Hv E. unfold markToken in E.
  destruct (dTokens v !! id) as [t|] eqn:Et; injection E as <- _ <-; [|done].
  destruct (Hf t) as (Hid & Hs & Ha). split; [|done].
  split_and!; [rewrite Hid; by apply (tk_id _ Hv)|exists NoKeyUpdate; by split; [left|]|]. left. by exists t.
Qed.
Lemma locked_markUsed id t : locked (tMarkUsed id t).
Proof. by apply locked_mark. Qed.
Lemma locked_markRevoked id t : locked (tMarkRevoked id t).
Proof. by apply locked_mark. Qed.

(** The rows of a family, one after the other. *)
Lemma covered_family L at_ (rows : list (string * RefreshToken)) db :
  NoDup rows.*1 ->
  (forall k t, (k, t) ∈ rows -> dTokens db !! k = Some t /\ rtID t = k /\ (AKToken k, NoKeyUpdate) ∈ L) ->
  coveredBy (auth_covered watch) L (map (fun kv => AWToken kv.1 (MarkCompromised at_ kv.2)) rows) db.
Proof.
  revert db. induction rows as [|[k t] rows IH]; intros db Hnd Hr; [done|].
  apply NoDup_cons in Hnd as [Hk Hnd]. destruct (Hr k t) as (Ht & Hid & Hl); [by left|]. simpl. split.
  - split_and!; [done|exists NoKeyUpdate; by split|]. left. by exists t.
  - apply IH; [done|]. intros j x Hj. destruct (Hr j x) as (Hx & Hidx & Hlx); [by right|]. split_and!; [|done..].
    simpl. rewrite lookup_insert_ne; [done|]. intros ->. apply Hk, list_elem_of_fmap. by exists (j, x).
Qed.
Lemma locked_revokeFamily fam t : locked (tRevokeFamily fam t).
Proof.
  intros ids. apply wellLocked_mapErr, wellLocked_stmt. intros v l b ws Hv [= <- _ <-].
  apply covered_family; [apply NoDup_keys_filter, familyRows_NoDup|]. intros k x Hk.
  assert (dTokens v !! k = Some x) as Hx.
  { apply list_elem_of_In, List.filter_In in Hk as [Hk _]. by apply list_elem_of_In, familyRows_elem in Hk as [? _]. }
  split_and!; [done|by apply (tk_id _ Hv)|]. apply list_elem_of_fmap. by exists (k, x).
Qed.
Lemma locked_createFlow f : auth_adm watch (TxBeginFlow f) = true -> locked (tCreateFlow f).
Proof.
  intros Hf. simpl in Hf. go_bool. apply wellLocked_mapErr, wellLocked_stmt. intros v l b ws _ E.
  repeat (case_match; [done|]). by injection E as <- _ <-.
Qed.
Lemma locked_consume st : locked (tGetAndConsume st).
Proof.
  apply wellLocked_bind; [apply locked_queryRow|]. intros f. apply wellLocked_bind; [|done].
  apply wellLocked_mapErr, wellLocked_stmt. intros v l b ws _ E. by repeat case_match; simplify_eq/=.
Qed.
End locked.

#[export] Hint Resolve locked_queryRow locked_now locked_id locked_rand locked_lift locked_createSession
  locked_lastSeen locked_createToken locked_markUsed locked_markRevoked locked_revokeFamily locked_createFlow
  locked_consume : locked.

Ltac locked_tac := repeat first
  [ progress intros
  | done
  | solve [auto with locked nocore]
  | apply wellLocked_bind
  | apply wellLocked_mapErr
  | apply wellLocked_try
  | match goal with |- wellLocked _ _ (match ?x with _ => _ end) => destruct x end ].

Section bodies.
Context `{Env} `{PgCitext} `{Hasher} `{Signer} (cfg : AuthConfig) (watch : option string).

Lemma auth_body_locked op :
  auth_adm watch op = true -> wellLocked tokens_ok (auth_covered watch) (auth_body cfg op).
Proof.
  intros Ha. destruct op as [e p d|s v|s|f|st]; apply wellLocked_bind; try done.
  - unfold loginBody, tUserByEmail, issueSessionBody, newRefreshTokenBody, issueAccessTokenBody. locked_tac.
  - unfold refreshBody, tTokenBySelector, rotateBody, tUserByID, tSessionByID, newRefreshTokenBody,
      issueAccessTokenBody. locked_tac.
  - unfold logoutBody, tTokenBySelector. locked_tac.
  - by apply locked_createFlow.
  - unfold consumeBody. locked_tac.
Qed.

Definition any_two (a b : auth_tx) : bool := true.

Lemma auth_body_ok op db :
  auth_adm watch op = true -> tokens_ok db ->
  keepsOk tokens_ok any_two (fun _ => auth_rely watch) op (auth_body cfg op) [] [] db.
Proof.
  intros Ha Hi. eapply wellLocked_keepsOk;
    [apply auth_rely_refl|apply auth_rely_trans|apply auth_rely_fewer|apply auth_covered_more
    |apply auth_covered_stable|apply auth_covered_cong|apply auth_covered_inv|apply auth_covered_rely
    |by apply auth_body_locked|done|done].
Qed.
End bodies.

(** ** Refusals *)

Lemma answersOk_all {DB K W A} `{Rows DB K W} (J : DB -> Prop) (Post : A -> Prop) (p : prog DB K W A) ws :
  (forall a, Post a) -> answersOk J Post p ws.
Proof.
  intros HP. revert ws. induction p as [a|e|B f k IH|B f k IH|B f k IH]; intros ws; simpl; [done..|by auto|by auto|].
  intros db _. destruct (f _) as [l [[b w]|e]]; [by apply IH|done].
Qed.

Lemma answersOk_mono {DB K W A} `{Rows DB K W} (J : DB -> Prop) (Post Post' : A -> Prop) (p : prog DB K W A) ws :
  (forall a, Post a -> Post' a) -> answersOk J Post p ws -> answersOk J Post' p ws.
Proof.
  intros HP. revert ws. induction p as [a|e|B f k IH|B f k IH|B f k IH]; intros ws; simpl; [by auto|done|by auto|by auto|].
  intros Hk db HJ. specialize (Hk db HJ). destruct (f _) as [l [[b w]|e]]; [by apply IH|done].
Qed.

(** Flows with state [st] do not begin. *)
Definition noFlow (st : string) (evs : list (event auth_tx)) : bool :=
  forallb (fun ev => match ev with Begin _ op => auth_adm (Some st) op | _ => true end) evs.

Lemma noFlow_app st evs evs' : noFlow st (evs ++ evs') = true -> noFlow st evs = true /\ noFlow st evs' = true.
Proof. unfold noFlow. rewrite forallb_app. apply andb_prop. Qed.

Section refusals.
Context `{Env} `{PgCitext} `{Hasher} `{Signer} (cfg : AuthConfig).
Notation run := (sys_run (auth_body cfg)).

Lemma apart_tokens s evs : apart (auth_body cfg) (auth_adm None) any_two s evs = true.
Proof.
  revert s. induction evs as [|ev evs IH]; intros s; [done|]. simpl. rewrite IH, andb_true_r.
  destruct ev as [i op|i|i e]; [|done..]. simpl. rewrite andb_true_iff. split.
  - by destruct op.
  - by apply forallb_forall.
Qed.
Lemma apart_flows st s evs : noFlow st evs = true -> apart (auth_body cfg) (auth_adm (Some st)) any_two s evs = true.
Proof.
  revert s. induction evs as [|ev evs IH]; intros s; [done|]. simpl. intros [He Hevs]%andb_prop.
  rewrite IH, andb_true_r by done. destruct ev as [i op|i|i e]; [|done..]. simpl. rewrite He. by apply forallb_forall.
Qed.

(** The token [id] with selector [sel] is spent. *)
Definition spent (id sel : string) (db : AuthDB) : Prop :=
  tokens_ok db /\ exists t, dTokens db !! id = Some t /\ rtSelector t = sel /\ rtStatus t <> StatusActive.

Lemma spent_found id sel db t :
  spent id sel db -> findRow (fun t => bool_decide (rtSelector t = sel)) (dTokens db) = Some t ->
  rtStatus t <> StatusActive.
Proof.
  intros [Hok (t0 & Ht0 & Hs0 & Ha)] Hf. unfold findRow in Hf. apply fmap_Some in Hf as ([k x] & Hf & ->).
  apply List.find_some in Hf as [Hin Hb]. apply list_elem_of_In, elem_of_map_to_list in Hin. simpl in *. go_bool.
  assert (id = k) as <- by (eapply (tk_selector _ Hok); [exact Ht0|exact Hin|congruence]). congruence.
Qed.

Lemma ClassifyUse_spent now t : rtStatus t <> StatusActive -> (ClassifyUse now t).1 <> UseOutcomeRotate.
Proof.
  intros Ha. unfold ClassifyUse. repeat case_match; go_bool; done.
Qed.

Lemma spent_refresh_refused id sel v :
  answersOk (spent id sel) (fun _ => False) (auth_body cfg (TxRefresh sel v)) [].
Proof.
  simpl. intros db HJ. cbn [applyAll foldl].
  destruct (findRow _ _) as [rt|] eqn:Ef; [|done]. pose proof (spent_found _ _ _ _ HJ Ef) as Ha. simpl.
  destruct (negb _); [done|]. intros n. simpl.
  pose proof (ClassifyUse_spent (env_now n) rt Ha) as Hc.
  destruct (ClassifyUse (env_now n) rt) as [[] o]; simpl in *; done.
Qed.

Lemma consume_refused st :
  answersOk (fun db => dFlows db !! st = None) (fun _ => False) (auth_body cfg (TxConsume st)) [].
Proof. simpl. intros db HJ. cbn [applyAll foldl]. by rewrite HJ. Qed.

Lemma auth_run_ok watch evs s :
  sys_ok tokens_ok any_two (fun _ => auth_rely watch) s ->
  apart (auth_body cfg) (auth_adm watch) any_two s evs = true ->
  sys_ok tokens_ok any_two (fun _ => auth_rely watch) (run s evs).
Proof.
  intros Hs Ha. eapply sys_run_ok; [intros; apply auth_rely_refl|intros; by eapply auth_rely_trans|done
    |intros; by apply auth_body_ok|done|done].
Qed.

Lemma auth_always watch (J : AuthDB -> Prop) evs s :
  sys_ok tokens_ok any_two (fun _ => auth_rely watch) s ->
  apart (auth_body cfg) (auth_adm watch) any_two s evs = true ->
  (forall db, tokens_ok db -> auth_rely watch [] (yDB s) db -> J db) -> always (auth_body cfg) J s evs.
Proof.
  intros Hs Ha HJ. eapply (always_rely _ tokens_ok (auth_adm watch) any_two (fun _ => auth_rely watch));
    [intros; apply auth_rely_refl|intros; by eapply auth_rely_trans|done|intros; by apply auth_body_ok
    |done|done|done|exact HJ]. Unshelve. exact (TxLogout "").
Qed.

(** C6. Spent credentials are refused under every interleaving: take any number
    of log-ins, rotations, log-outs and OAuth flows whose statements interleave
    as Postgres allows, with any failures.  A presentation of a refresh token
    that begins when the token is committed as used, revoked or compromised is
    never answered with new tokens, and the consumption of an OAuth state that
    begins when the state is gone fails (no other flow having that state); so a
    token rotates, and a state is consumed, at most by requests that overlap
    with the first. *)
Theorem spent_credentials_refused db n evs1 evs2 i op r :
  tokens_ok db ->
  let s1 := run (sys_start db n) evs1 in
  yOpen s1 !! i = None -> yDone s1 !! i = None ->
  yDone (run s1 evs2) !! i = Some (op, r) ->
  (forall id t v, dTokens (yDB s1) !! id = Some t -> rtStatus t <> StatusActive ->
     op = TxRefresh (rtSelector t) v -> exists e, r = Err e) /\
  (forall st, noFlow st (evs1 ++ evs2) = true -> dFlows (yDB s1) !! st = None ->
     op = TxConsume st -> exists e, r = Err e).
Proof.
  intros Hdb s1 Ho Hd Hr. split.
  - intros id t v Ht Ha ->. destruct r as [a|e]; [|by eexists]. exfalso.
    assert (sys_ok tokens_ok any_two (fun _ => auth_rely None) s1) as Hs1
      by (apply auth_run_ok; [by apply sys_start_ok|apply apart_tokens]).
    eapply (answers_run (auth_body cfg) (spent id (rtSelector t))
      (fun op _ => forall v, op <> TxRefresh (rtSelector t) v)); [| |exact Ho|exact Hd|exact Hr|done].
    + intros op. destruct op as [e p d|s w|s|f|st]; try by apply answersOk_all.
      destruct (decide (s = rtSelector t)) as [->|Hne]; [|apply answersOk_all; intros; congruence].
      eapply answersOk_mono; [|apply spent_refresh_refused]. done.
    + eapply (auth_always None); [done|apply apart_tokens|]. intros db' Hdb' Hrel.
      destruct (al_spent _ _ _ _ Hrel id t Ht) as (t' & Ht' & Hs' & Ha'). split; [done|]. exists t'. split_and!; auto.
  - intros st [Hn1 Hn2]%noFlow_app Hst ->. destruct r as [a|e]; [|by eexists]. exfalso.
    assert (sys_ok tokens_ok any_two (fun _ => auth_rely (Some st)) s1) as Hs1
      by (apply auth_run_ok; [by apply sys_start_ok|by apply apart_flows]).
    eapply (answers_run (auth_body cfg) (fun db => dFlows db !! st = None)
      (fun op _ => op <> TxConsume st)); [| |exact Ho|exact Hd|exact Hr|done].
    + intros op. destruct op as [e p d|s w|s|f|st']; try by apply answersOk_all.
      destruct (decide (st' = st)) as [->|Hne]; [|apply answersOk_all; intros; congruence].
      eapply answersOk_mono; [|apply consume_refused]. done.
    + eapply (auth_always (Some st)); [done|by apply apart_flows|]. intros db' _ Hrel.
      by apply (al_flow _ _ _ _ Hrel).
Qed.
End refusals.

(** A request that overlaps with no other does what [Auth] and [OAuth] say. *)
Theorem auth_requests_alone `{Env} `{PgCitext} `{Hasher} `{Signer} cfg i op db n dn :
  dn !! i = None ->
  let '(r, s1) := withTx (auth_service cfg op) (mkSt db n false) in
  exists k, sys_run (auth_body cfg) (mkSys db n ∅ dn) (Begin i op :: replicate k (Next i)) =
    mkSys (sdb s1) (sn s1) ∅ (<[i := (op, r)]> dn).
Proof.
  intros Hi. pose proof (alone_serial (auth_body cfg) i op db n dn Hi) as Ha.
  by rewrite (agree_withTx _ _ (auth_body_agrees cfg op)) in Ha.
Qed.

(** ** Overlapping presentations: examples *)

#[local] Existing Instances authEnv prefixHasher constSigner exactCitext.

Definition demoToken : RefreshToken :=
  mkRT "t1" "f1" "u1" "s1" "sel" "h:val" "" StatusActive (500 * second) 0 time_zero time_zero.
Definition demoFlow : OAuthFlow := mkOAuthFlow "state" "spotify" "uri" "challenge" "" 0 (500 * second).
Definition demoCredentials : AuthDB :=
  mkAuthDB demoUsers {["s1" := mkSession "s1" "u1" "" "f1" 0 0 (500 * second)]} {["t1" := demoToken]}
    {["state" := demoFlow]} ∅ ∅ ∅ [].

Definition credentialRun (evs : list (event auth_tx)) : sys AuthDB authKey authWrite auth_tx auth_answer :=
  sys_run (auth_body demoAuthConfig) (sys_start demoCredentials 0) evs.

Definition presentation (i first last : nat) (op : auth_tx) : list (event auth_tx) * list (event auth_tx) :=
  (Begin i op :: replicate first (Next i), replicate last (Next i)).

(** Requests 0 and 1 begin and take [first] steps each, then run to their ends. *)
Definition overlap (op : auth_tx) (first : nat) : list (event auth_tx) :=
  let a := presentation 0 first 20 op in let b := presentation 1 first 20 op in a.1 ++ b.1 ++ a.2 ++ b.2.

(** Whether requests 0 and 1 succeeded, the active tokens of the family, and
    whether the flow is still there. *)
Definition credentialView (s : sys AuthDB authKey authWrite auth_tx auth_answer) : list (option bool) * nat * bool :=
  (map (fun i => is_Ok ∘ snd <$> yDone s !! i) [0; 1]%nat,
   length (List.filter (fun kv => rtStatus kv.2 =? StatusActive) (map_to_list (dTokens (yDB s)))),
   bool_decide (is_Some (dFlows (yDB s) !! "state"))).

(** One after the other: the second presentation is refused. *)
Example presentations_in_turn :
  credentialView (credentialRun (overlap (TxRefresh "sel" "val") 0)) = ([Some true; Some false], 1%nat, true) /\
  credentialView (credentialRun (overlap (TxConsume "state") 0)) = ([Some true; Some false], 1%nat, false).
Proof. split; vm_compute; reflexivity. Qed.

Lemma demoCredentials_ok : tokens_ok demoCredentials.
Proof.
  split.
  - intros id t. simpl. rewrite lookup_singleton_Some. by intros [<- <-].
  - intros id id' t t'. simpl. rewrite !lookup_singleton_Some. by intros [<- _] [<- _].
Qed.

(** The first rotation commits, then the token is presented again. *)
Lemma spent_credentials_refused_witness :
  exists e, yDone (sys_run (auth_body demoAuthConfig)
    (sys_run (auth_body demoAuthConfig) (sys_start demoCredentials 0) (Begin 0 (TxRefresh "sel" "val") :: replicate 20 (Next 0)))
    (Begin 1 (TxRefresh "sel" "val") :: replicate 20 (Next 1))) !! 1%nat = Some (TxRefresh "sel" "val", Err e).
Proof.
  pose proof (spent_credentials_refused demoAuthConfig demoCredentials 0
    (Begin 0 (TxRefresh "sel" "val") :: replicate 20 (Next 0)) (Begin 1 (TxRefresh "sel" "val") :: replicate 20 (Next 1))
    1 (TxRefresh "sel" "val")) as Hr. cbv zeta in Hr.
  set (s1 := sys_run (auth_body demoAuthConfig) (sys_start demoCredentials 0) _) in *.
  assert (yOpen s1 !! 1%nat = None) as Ho by (vm_compute; reflexivity).
  assert (yDone s1 !! 1%nat = None) as Hn by (vm_compute; reflexivity).
  assert ((fun t => (rtSelector t, rtStatus t)) <$> dTokens (yDB s1) !! "t1" = Some ("sel", StatusUsed)) as Ht
    by (vm_compute; reflexivity).
  set (s2 := sys_run (auth_body demoAuthConfig) s1 _) in *.
  assert (fst <$> yDone s2 !! 1%nat = Some (TxRefresh "sel" "val")) as Hd by (vm_compute; reflexivity).
  clearbody s2. clearbody s1.
  apply fmap_Some in Hd as ([op r] & Hd & Hop). apply fmap_Some in Ht as (t & Ht & Hst). simpl in Hop. subst op.
  injection Hst as Hsel Hstat.
  destruct (Hr r demoCredentials_ok Ho Hn Hd) as [Hr1 _].
  destruct (Hr1 "t1" t "val" Ht) as [e ->]; [by rewrite <- Hstat|by rewrite <- Hsel|].
  by exists e.
Defined.

(** ** Where the code falls short of its comments *)

(** Two presentations of one token that overlap both rotate it: the family has
    two active tokens. *)
Example double_rotation :
  credentialView (credentialRun (overlap (TxRefresh "sel" "val") 1)) = ([Some true; Some true], 2%nat, true).
Proof. vm_compute. reflexivity. Qed.

(** Two completions of one OAuth flow that overlap both get the flow. *)
Example double_consumption :
  credentialView (credentialRun (overlap (TxConsume "state") 1)) = ([Some true; Some true], 1%nat, false).
Proof. vm_compute. reflexivity. Qed.

(** A rotation that overlaps with the log-out of its token succeeds, and its
    new token is active after the log-out. *)
Example rotation_survives_logout :
  credentialView (credentialRun (
    (presentation 0 1 0 (TxRefresh "sel" "val")).1 ++ (presentation 1 20 0 (TxLogout "sel")).1 ++ replicate 20 (Next 0%nat))) =
  ([Some true; Some true], 1%nat, true).
Proof. vm_compute. reflexivity. Qed.
