(* ===== verification/AuthFrames.v ===== *)
(** * What the auth service's requests leave alone

    Frame lemmas: log-in, rotation and log-out touch only sessions and refresh
    tokens; OAuth flows, provider tokens and signing keys are changed by their
    own statements only. *)

From S2P Require Import Prelude GoNum Errors GoString GoUnicode Store RoomDomain Outbox AuthDomain Auth Register OAuth SigningKeys AuthRuns.

Open Scope Z_scope.

(** The database without the tables of one component. *)
Definition noSessions (db : AuthDB) := (dUsers db, dFlows db, dAccounts db, dProviderTokens db, dKeys db, dEvents db).
Definition noFlows (db : AuthDB) :=
  (dUsers db, dSessions db, dTokens db, dAccounts db, dProviderTokens db, dKeys db, dEvents db).
Definition noProviderTokens (db : AuthDB) :=
  (dUsers db, dSessions db, dTokens db, dFlows db, dAccounts db, dKeys db, dEvents db).
Definition noKeys (db : AuthDB) :=
  (dUsers db, dSessions db, dTokens db, dFlows db, dAccounts db, dProviderTokens db, dEvents db).

Section sessions.
Context `{Env} `{PgCitext} `{Hasher} `{Signer}.
Context (cfg : AuthConfig).

Lemma issueSession_frame u label : commits (keeps noSessions) (issueSessionForUser cfg u label).
Proof.
  unfold issueSessionForUser, SessionRepo_Create, RefreshRepo_Create, newRefreshToken, issueAccessToken. keep_tac.
Qed.
Hint Resolve issueSession_frame : vibe.

Lemma Login_frame e p d : relates (keeps noSessions) (Login cfg e p d).
Proof. unfold Login. keep_handler. unfold loginTx, UserRepo_GetByEmail. keep_tac. Qed.

Lemma Refresh_frame p : relates (keeps noSessions) (RefreshTokenRPC cfg p).
Proof.
  unfold RefreshTokenRPC, refreshUseCase. keep_handler.
  unfold refreshTx, rotate, RefreshRepo_GetBySelector, UserRepo_GetByID, RefreshRepo_MarkUsed, RefreshRepo_Create,
    newRefreshToken, SessionRepo_UpdateLastSeen, issueAccessToken, SessionRepo_GetByID, RefreshRepo_RevokeFamily.
  keep_tac.
Qed.

Lemma Logout_frame p : relates (keeps noSessions) (Logout p).
Proof.
  unfold Logout. keep_handler. unfold logoutTx, RefreshRepo_GetBySelector, RefreshRepo_MarkRevoked. keep_tac.
Qed.
End sessions.

Section accounts.
Context `{Env} `{PgCitext} `{Hasher} `{Signer} `{UnicodeLower} `{Cipher} `{TokenEndpoint} `{Jose}.
Context (cfg : AuthConfig) (registry : oauthRegistry).

Lemma quiet_lookupProvider name unknown : quiet (lookupProvider registry name unknown).
Proof. unfold lookupProvider, RegistryGet. quiet_tac. Qed.
Lemma quiet_refreshProviderToken p r : quiet (refreshProviderToken cfg p r).
Proof. unfold refreshProviderToken. quiet_tac. Qed.
Lemma quiet_generateKey now kid : quiet (GenerateSigningKey now kid).
Proof. unfold GenerateSigningKey. quiet_tac. Qed.
Lemma quiet_getActive : quiet SigningKeyRepo_GetActive.
Proof. unfold SigningKeyRepo_GetActive. quiet_tac. Qed.
Lemma quiet_listVerifiable : quiet SigningKeyRepo_ListVerifiable.
Proof. unfold SigningKeyRepo_ListVerifiable. quiet_tac. Qed.
Hint Resolve quiet_lookupProvider quiet_refreshProviderToken quiet_getActive quiet_listVerifiable
  quiet_generateKey : vibe.

Lemma BeginOAuth_frame p r c : relates (keeps noFlows) (BeginOAuth cfg registry p r c).
Proof. unfold BeginOAuth. keep_handler. unfold OAuthFlowRepo_Create. keep_tac. Qed.

Lemma consumeTx_frame state : commits (keeps noFlows) (consumeTx state).
Proof. unfold consumeTx, OAuthFlowRepo_GetAndConsume. keep_tac. Qed.

Lemma providerUpsert_frame t : commits (keeps noProviderTokens) (ProviderTokenRepo_Upsert t).
Proof. unfold ProviderTokenRepo_Upsert. keep_tac. Qed.
Hint Resolve providerUpsert_frame : vibe.

Lemma saveProviderTokens_frame p u t : commits (keeps noProviderTokens) (saveProviderTokens p u t).
Proof. unfold saveProviderTokens, encryptToken. keep_tac. Qed.

Lemma GetProviderToken_frame u p : relates (keeps noProviderTokens) (GetProviderToken cfg registry u p).
Proof.
  unfold GetProviderToken, freshToken, internally, encryptToken. keep_handler.
  unfold ProviderTokenRepo_Get. keep_tac.
Qed.

Lemma keyUpsert_frame k : commits (keeps noKeys) (SigningKeyRepo_Upsert k).
Proof. unfold SigningKeyRepo_Upsert. keep_tac. Qed.
Hint Resolve keyUpsert_frame : vibe.

Lemma RotateKeys_frame force g : relates (keeps noKeys) (RotateKeys cfg force g).
Proof.
  unfold RotateKeys, rotateSigningKey, internally. keep_handler.
  - unfold rotateTx, SigningKeyRepo_MarkRetired. keep_tac.
  - keep_tac.
Qed.

Lemma bootstrapSigner_frame : relates (keeps noKeys) bootstrapSigner.
Proof. unfold bootstrapSigner. keep_handler; [unfold bootstrapTx|]; keep_tac. Qed.
End accounts.

#[export] Hint Resolve quiet_lookupProvider quiet_refreshProviderToken quiet_getActive quiet_listVerifiable
  quiet_generateKey : vibe.

(** Registration and OAuth log-in keep the flows and the keys. *)
Section flows.
Context `{Env} `{PgCitext} `{Hasher} `{Signer} `{UnicodeLower} `{Cipher}.
Context (cfg : AuthConfig) (registry : oauthRegistry).

Definition flowsKeys (db : AuthDB) := (dFlows db, dKeys db).

Lemma issueSession_flows u label : commits (keeps flowsKeys) (issueSessionForUser cfg u label).
Proof. eapply commits_mono, issueSession_frame. intros a b [=]. unfold keeps, flowsKeys. congruence. Qed.
Lemma saveProviderTokens_flows p u t : commits (keeps flowsKeys) (saveProviderTokens p u t).
Proof. eapply commits_mono, saveProviderTokens_frame. intros a b [=]. unfold keeps, flowsKeys. congruence. Qed.
Hint Resolve issueSession_flows saveProviderTokens_flows : vibe.

Lemma Register_flows e u p n d : relates (keeps flowsKeys) (Register cfg e u p n d).
Proof.
  unfold Register. keep_handler. unfold registerTx, UserRepo_GetByEmail, UserRepo_Create, OutboxAppend, Append.
  simpl. keep_tac.
Qed.

Lemma completeOAuthTx_flows p prof label toks : commits (keeps flowsKeys) (completeOAuthTx cfg p prof label toks).
Proof.
  unfold completeOAuthTx, resolveUser, createOAuthUser, UserRepo_GetByID, UserRepo_GetByEmail,
    OAuthAccountRepo_GetByProvider, OAuthAccountRepo_Upsert, UserRepo_Create, OutboxAppend, Append.
  simpl. keep_tac.
Qed.
End flows.
