(* ===== verification/AuthSteps.v ===== *)
(** * The requests of the auth service as steps

    What a request does to the users, sessions and refresh tokens is a sequence
    of steps of a small state machine ([auth_step]): a log-in, a rotation, a
    log-out, a new user; whatever fails.  The invariant [auth_inv] is kept by
    every step. *)

From S2P Require Import Prelude GoNum GoFloat Errors GoString GoUnicode Store RoomDomain Outbox AuthDomain Auth Register OAuth SigningKeys AuthRuns AuthFrames.

Open Scope Z_scope.

(** ** The state machine *)

(** A token that can be inserted. *)
Definition fresh_token (db : AuthDB) (t : RefreshToken) : Prop :=
  dTokens db !! rtID t = None /\
  (forall k x, dTokens db !! k = Some x -> rtSelector x <> rtSelector t) /\
  rtStatus t = StatusActive.

(** The tables the state machine is about. *)
Definition core (db : AuthDB) := (dUsers db, dSessions db, dTokens db).

Inductive auth_step : AuthDB -> AuthDB -> Prop :=
| step_other db db' : core db' = core db -> auth_step db db'
| step_user db u : dUsers db !! uID u = None -> auth_step db (set_dUsers (insert (uID u) u) db)
| step_login db u sess t :
    dUsers db !! seUserID sess = Some u -> CanAuthenticate u = true ->
    dSessions db !! seID sess = None ->
    (forall k x, dSessions db !! k = Some x -> seFamilyID x <> seFamilyID sess) ->
    fresh_token db t -> rtUserID t = seUserID sess -> rtSessionID t = seID sess ->
    rtFamilyID t = seFamilyID sess -> rtRotatedFrom t = "" ->
    auth_step db (set_dTokens (insert (rtID t) t) (set_dSessions (insert (seID sess) sess) db))
| step_rotate db rt nt used seen :
    dTokens db !! rtID rt = Some rt -> rtStatus rt = StatusActive ->
    fresh_token db nt -> rtUserID nt = rtUserID rt -> rtSessionID nt = rtSessionID rt ->
    rtFamilyID nt = rtFamilyID rt -> rtRotatedFrom nt = rtID rt ->
    auth_step db (set_dTokens (fun m => <[rtID nt := nt]> (<[rtID rt := MarkUsed used rt]> m))
                    (set_dSessions (alter (touch seen) (rtSessionID rt)) db))
| step_logout db rt revoked :
    dTokens db !! rtID rt = Some rt -> rtStatus rt = StatusActive ->
    auth_step db (set_dTokens (insert (rtID rt) (MarkRevoked revoked rt)) db).

(** A request is a sequence of steps. *)
Definition auth_steps : AuthDB -> AuthDB -> Prop := rtc auth_step.

Lemma auth_steps_refl db : auth_steps db db.
Proof. constructor. Qed.
Lemma auth_steps_core db db' : core db' = core db -> auth_steps db db'.
Proof. intros. by apply rtc_once, step_other. Qed.
#[export] Hint Resolve auth_steps_refl auth_steps_core rtc_once : vibe.

(** ** The invariant *)

Record auth_inv (db : AuthDB) : Prop := {
  inv_users : forall k u, dUsers db !! k = Some u -> uID u = k;
  inv_sessions : forall k s, dSessions db !! k = Some s -> seID s = k;
  inv_families : forall k1 k2 s1 s2, dSessions db !! k1 = Some s1 -> dSessions db !! k2 = Some s2 ->
    seFamilyID s1 = seFamilyID s2 -> k1 = k2;
  inv_tokens : forall k t, dTokens db !! k = Some t -> rtID t = k;
  inv_session : forall k t, dTokens db !! k = Some t -> exists s, dSessions db !! rtSessionID t = Some s /\
    seFamilyID s = rtFamilyID t /\ seUserID s = rtUserID t;
  inv_selectors : forall k1 k2 t1 t2, dTokens db !! k1 = Some t1 -> dTokens db !! k2 = Some t2 ->
    rtSelector t1 = rtSelector t2 -> k1 = k2;
  inv_active : forall k1 k2 t1 t2, dTokens db !! k1 = Some t1 -> dTokens db !! k2 = Some t2 ->
    rtStatus t1 = StatusActive -> rtStatus t2 = StatusActive -> rtFamilyID t1 = rtFamilyID t2 -> k1 = k2;
  inv_parent : forall k t, dTokens db !! k = Some t -> rtRotatedFrom t <> "" ->
    exists p, dTokens db !! rtRotatedFrom t = Some p /\ rtStatus p <> StatusActive /\
      rtFamilyID p = rtFamilyID t;
  inv_children : forall k1 k2 t1 t2, dTokens db !! k1 = Some t1 -> dTokens db !! k2 = Some t2 ->
    rtRotatedFrom t1 <> "" -> rtRotatedFrom t1 = rtRotatedFrom t2 -> k1 = k2;
}.

(** Looking up after an insertion. *)
Ltac insert_cases :=
  repeat match goal with
  | H : <[?k := _]> _ !! ?k' = Some _ |- _ =>
      apply lookup_insert_Some in H; destruct H as [[? ?]|[? H]]; [subst|]
  end; simplify_eq/=.

(** The fields of a token that never change. *)
Definition token_identity (t : RefreshToken) :=
  (rtID t, rtFamilyID t, rtUserID t, rtSessionID t, rtSelector t, rtValidatorHash t, rtRotatedFrom t,
   rtExpiresAt t, rtCreatedAt t).

(** An active token that stops being active. *)
Lemma auth_inv_retire db rt rt' :
  auth_inv db -> dTokens db !! rtID rt = Some rt -> token_identity rt' = token_identity rt ->
  rtStatus rt' <> StatusActive ->
  auth_inv (set_dTokens (insert (rtID rt) rt') db).
Proof.
  intros I Hrt Hid Hst. unfold token_identity in Hid. injection Hid as E1 E2 E3 E4 E5 E6 E7 E8 E9.
  destruct I. split; simpl; try done.
  - intros k t Ht. insert_cases; [done|eauto].
  - intros k t Ht. insert_cases; [|eauto]. rewrite E2, E3, E4. eauto.
  - intros k1 k2 t1 t2 H1 H2 Hs. insert_cases; [done|..]; rewrite ?E5 in Hs; eauto.
  - intros k1 k2 t1 t2 H1 H2 A1 A2 Hf. insert_cases; eauto.
  - assert (forall k t, dTokens db !! k = Some t -> rtRotatedFrom t <> "" -> exists p,
      <[rtID rt := rt']> (dTokens db) !! rtRotatedFrom t = Some p /\ rtStatus p <> StatusActive /\
      rtFamilyID p = rtFamilyID t) as Hp.
    { intros k t Ht Hne. destruct (inv_parent0 k t Ht Hne) as (p & Hp & Hps & Hf).
      destruct (decide (rtRotatedFrom t = rtID rt)) as [E|E].
      - exists rt'. rewrite E, lookup_insert_eq. split; [done|]. split; [done|]. congruence.
      - exists p. by rewrite lookup_insert_ne. }
    intros k t Ht Hne. insert_cases; [|eauto]. rewrite E7, E2 in *. eauto.
  - intros k1 k2 t1 t2 H1 H2 Hne Hr. insert_cases; [done|..]; rewrite ?E7 in *; eauto.
Qed.

(** A new token in a family that has no active one. *)
Lemma auth_inv_add db t sess :
  auth_inv db -> fresh_token db t ->
  dSessions db !! rtSessionID t = Some sess -> seFamilyID sess = rtFamilyID t -> seUserID sess = rtUserID t ->
  (forall k x, dTokens db !! k = Some x -> rtStatus x = StatusActive -> rtFamilyID x <> rtFamilyID t) ->
  (rtRotatedFrom t <> "" ->
   (exists p, dTokens db !! rtRotatedFrom t = Some p /\ rtStatus p <> StatusActive /\
      rtFamilyID p = rtFamilyID t) /\
   forall k x, dTokens db !! k = Some x -> rtRotatedFrom x <> rtRotatedFrom t) ->
  auth_inv (set_dTokens (insert (rtID t) t) db).
Proof.
  intros I (Hid & Hsel & Hact) Hs Hf Hu Hna Hrot. destruct I. split; simpl; try done.
  - intros k x Hx. insert_cases; [done|eauto].
  - intros k x Hx. insert_cases; eauto.
  - intros k1 k2 t1 t2 H1 H2 E. insert_cases; [done|..|eauto].
    + by destruct (Hsel _ _ H1).
    + by destruct (Hsel _ _ H2).
  - intros k1 k2 t1 t2 H1 H2 A1 A2 E. insert_cases; [done|..|eauto].
    + by destruct (Hna _ _ H1).
    + by destruct (Hna _ _ H2).
  - intros k x Hx Hne. insert_cases.
    + destruct (Hrot Hne) as [(p & Hp & Hps) _]. exists p. rewrite lookup_insert_ne; [done|congruence].
    + destruct (inv_parent0 k x) as (p & Hp & Hps); [done..|]. exists p.
      rewrite lookup_insert_ne; [done|congruence].
  - intros k1 k2 t1 t2 H1 H2 Hne E. insert_cases; [done|..|eauto].
    + rewrite E in Hne. destruct (Hrot Hne) as [_ Hc]. by destruct (Hc _ _ H1).
    + destruct (Hrot Hne) as [_ Hc]. by destruct (Hc _ _ H2).
Qed.

(** A new session in a family of its own. *)
Lemma auth_inv_session db sess :
  auth_inv db -> dSessions db !! seID sess = None ->
  (forall k x, dSessions db !! k = Some x -> seFamilyID x <> seFamilyID sess) ->
  auth_inv (set_dSessions (insert (seID sess) sess) db).
Proof.
  intros I Hid Hfam. destruct I. split; simpl; try done.
  - intros k s Hs. insert_cases; [done|eauto].
  - intros k1 k2 s1 s2 H1 H2 E. insert_cases; [done|..|eauto].
    + by destruct (Hfam _ _ H1).
    + by destruct (Hfam _ _ H2).
  - intros k t Ht. destruct (inv_session0 k t Ht) as (s & Hs & Hst). exists s.
    rewrite lookup_insert_ne; [done|congruence].
Qed.

Lemma auth_inv_touch db id seen :
  auth_inv db -> auth_inv (set_dSessions (alter (touch seen) id) db).
Proof.
  intros I. destruct I.
  assert (forall k s, alter (touch seen) id (dSessions db) !! k = Some s -> exists s0,
    dSessions db !! k = Some s0 /\ seID s = seID s0 /\ seFamilyID s = seFamilyID s0) as Hal.
  { intros k s Hs. apply lookup_alter_Some in Hs as [(-> & s0 & Hs0 & ->)|[_ Hs]]; eauto. }
  split; simpl; try done.
  - intros k s Hs. destruct (Hal _ _ Hs) as (s0 & Hs0 & -> & _). eauto.
  - intros k1 k2 s1 s2 H1 H2 E. destruct (Hal _ _ H1) as (a & Ha & _ & Ea), (Hal _ _ H2) as (b & Hb & _ & Eb).
    rewrite Ea, Eb in E. eauto.
  - intros k t Ht. destruct (inv_session0 k t Ht) as (s & Hs & Hst).
    destruct (decide (rtSessionID t = id)) as [<-|Hne].
    + exists (touch seen s). by rewrite lookup_alter_eq, Hs.
    + exists s. by rewrite lookup_alter_ne by done.
Qed.

Lemma auth_inv_core db db' : core db' = core db -> auth_inv db -> auth_inv db'.
Proof.
  intros [= E1 E2 E3] I. destruct I. split; rewrite ?E1, ?E2, ?E3; done.
Qed.

Lemma auth_inv_user db u :
  auth_inv db -> dUsers db !! uID u = None -> auth_inv (set_dUsers (insert (uID u) u) db).
Proof.
  intros I Hu. destruct I. split; simpl; try done. intros k x Hx. insert_cases; [done|eauto].
Qed.

Lemma auth_step_inv db db' : auth_step db db' -> auth_inv db -> auth_inv db'.
Proof.
  intros [db0 db1 Hcore|db0 u Hu|db0 u sess t Hu Hc Hs Hfam Hfr Htu Hts Htf Htr
         |db0 rt nt used seen Hrt Hact Hfr Hnu Hns Hnf Hnr|db0 rt revoked Hrt Hact] I; [by eapply auth_inv_core|by apply auth_inv_user|..].
  - apply (auth_inv_add _ t sess);
      [by apply auth_inv_session|done|by rewrite Hts; simpl; rewrite lookup_insert_eq|done..| |done].
    intros k x Hx _ E. destruct (inv_session _ I _ _ Hx) as (s & Hs' & Hf & _).
    apply (Hfam _ _ Hs'). congruence.
  - set (db1 := set_dTokens (insert (rtID rt) (MarkUsed used rt)) db0).
    assert (auth_inv db1) as I1 by (by apply auth_inv_retire).
    destruct (inv_session _ I _ _ Hrt) as (sess & Hs & Hf & Hsu).
    destruct Hfr as (Hid & Hsel & Hst).
    change (auth_inv (set_dTokens (insert (rtID nt) nt)
      (set_dSessions (alter (touch seen) (rtSessionID rt)) db1))).
    apply (auth_inv_add _ nt (touch seen sess)).
    + by apply auth_inv_touch.
    + split_and!; simpl; [|intros k x Hx; insert_cases; eauto|done].
      rewrite lookup_insert_ne; [done|congruence].
    + simpl. by rewrite Hns, lookup_alter_eq, Hs.
    + simpl. congruence.
    + simpl. congruence.
    + simpl. intros k x Hx Hxa E. insert_cases.
      rewrite Hnf in E. by pose proof (inv_active _ I _ _ _ _ Hx Hrt Hxa Hact E).
    + intros Hne. rewrite Hnr in *. simpl. split.
      * eexists. rewrite lookup_insert_eq. split; [done|]. by split.
      * intros k x Hx E. insert_cases.
        -- rewrite <- E in Hne at 1. destruct (inv_parent _ I _ _ Hrt Hne) as (p & Hp & Hps & _).
           rewrite E in Hp. congruence.
        -- rewrite <- E in Hne. destruct (inv_parent _ I _ _ Hx Hne) as (p & Hp & Hps & _).
           rewrite E in Hp. congruence.
  - by apply auth_inv_retire.
Qed.

Lemma auth_steps_inv db db' : auth_steps db db' -> auth_inv db -> auth_inv db'.
Proof. induction 1 as [|x y z Hs _ IH]; [done|]. intros I. by eapply IH, auth_step_inv. Qed.

(** ** The transactions are steps *)

Lemma findRow_Some {A} (P : A -> bool) (m : gmap string A) x :
  findRow P m = Some x -> exists k, m !! k = Some x /\ P x = true.
Proof.
  unfold findRow. destruct (List.find _ _) as [[k y]|] eqn:E; [|done]. intros [= ->].
  apply find_some in E as [Hin HP]. exists k. split; [|done].
  apply elem_of_map_to_list. by apply list_elem_of_In.
Qed.

Lemma findRow_None {A} (P : A -> bool) (m : gmap string A) k x :
  findRow P m = None -> m !! k = Some x -> P x = false.
Proof.
  unfold findRow. destruct (List.find _ _) as [|] eqn:E; [done|]. intros _ Hk.
  apply (find_none _ _ E (k, x)). by apply list_elem_of_In, elem_of_map_to_list.
Qed.

(** A column that no row has yet. *)
Lemma existsb_none {K A} `{Countable K} (P : A -> bool) (m : gmap K A) k x :
  existsb (fun kv => P kv.2) (map_to_list m) = false -> m !! k = Some x -> P x = false.
Proof.
  intros E Hk. destruct (P x) eqn:Ep; [|done]. exfalso.
  assert (existsb (fun kv => P kv.2) (map_to_list m) = true) as Ht; [|congruence].
  apply existsb_exists. exists (k, x). split; [by apply list_elem_of_In, elem_of_map_to_list|done].
Qed.

Lemma alter_present {A} (f : A -> A) (m : gmap string A) k x :
  m !! k = Some x -> alter f k m = <[k := f x]> m.
Proof.
  intros Hk. apply map_eq. intros i. destruct (decide (i = k)) as [->|Hne].
  - by rewrite lookup_alter_eq, lookup_insert_eq, Hk.
  - by rewrite lookup_alter_ne, lookup_insert_ne.
Qed.

Section steps.
Context `{Env} `{PgCitext} `{Hasher} `{Signer}.
Context (cfg : AuthConfig).

Lemma RefreshRepo_Create_Ok t s s' :
  RefreshRepo_Create t s = (Ok tt, s') -> rtStatus t = StatusActive ->
  fresh_token (sdb s) (storedToken t) /\
  sdb s' = set_dTokens (insert (rtID t) (storedToken t)) (sdb s) /\ saborted s' = false.
Proof.
  intros E Ha. apply smapErr_Ok, stmt_Ok in E as [E Hab]. destruct (_ <? _); [done|].
  destruct (bool_decide (is_Some _)) eqn:Ei; [done|]. apply bool_decide_eq_false in Ei.
  destruct (existsb _ _) eqn:Es; [done|].
  destruct (dUsers (sdb s) !! rtUserID t); [|done]. destruct (dSessions (sdb s) !! rtSessionID t); [|done]. injection E as <-.
  split; [|done]. split_and!; [by apply eq_None_not_Some| |done].
  intros k x Hk. apply (existsb_none (fun x => bool_decide (rtSelector x = rtSelector t)) _ _ _ Es) in Hk.
  by apply bool_decide_eq_false in Hk.
Qed.

Lemma newRefreshToken_Ok now id fam uid sid from s rv s' :
  newRefreshToken cfg now id fam uid sid from s = (Ok rv, s') ->
  sdb s' = sdb s /\ (rtID rv.1, rtFamilyID rv.1, rtUserID rv.1, rtSessionID rv.1, rtRotatedFrom rv.1,
    rtStatus rv.1) = (id, fam, uid, sid, from, StatusActive).
Proof.
  intros E. apply sbind_Ok in E as (sel & s1 & [= <- <-] & E).
  apply sbind_Ok in E as (v & s2 & [= <- <-] & E). unfold lift, NewRefreshToken in E.
  destruct (hashPassword _ _); [|done]. by injection E as <- <-.
Qed.

Lemma issueAccessToken_Ok u s x s' : issueAccessToken cfg u s = (Ok x, s') -> sdb s' = sdb s.
Proof.
  intros E. apply sbind_Ok in E as (now & s1 & [= <- <-] & E). unfold lift in E. by injection E as _ <-.
Qed.

Lemma SessionRepo_Create_Ok se s s' :
  SessionRepo_Create se s = (Ok tt, s') ->
  dSessions (sdb s) !! seID se = None /\
  (forall k x, dSessions (sdb s) !! k = Some x -> seFamilyID x <> seFamilyID se) /\
  sdb s' = set_dSessions (insert (seID se) (storedSession se)) (sdb s).
Proof.
  intros E. apply smapErr_Ok, stmt_Ok in E as [E Hab]. destruct (_ <? _); [done|].
  destruct (bool_decide (is_Some _)) eqn:Ei; [done|]. apply bool_decide_eq_false in Ei.
  destruct (existsb _ _) eqn:Es; [done|]. destruct (dUsers (sdb s) !! seUserID se); [|done]. injection E as <-.
  split_and!; [by apply eq_None_not_Some| |done].
  intros k x Hk. apply (existsb_none (fun x => bool_decide (seFamilyID x = seFamilyID se)) _ _ _ Es) in Hk.
  by apply bool_decide_eq_false in Hk.
Qed.

Lemma issueSession_step user u0 label s x s' :
  issueSessionForUser cfg user label s = (Ok x, s') ->
  dUsers (sdb s) !! uID user = Some u0 -> CanAuthenticate u0 = true ->
  auth_step (sdb s) (sdb s').
Proof.
  intros E Hu Hc. unfold issueSessionForUser in E. ok_pure E.
  apply sbind_Ok in E as ([] & s4 & Hse & E). apply SessionRepo_Create_Ok in Hse as (Hid & Hfam & Hs4).
  apply sbind_Ok in E as (tid & s5 & [= <- <-] & E). apply sbind_Ok in E as (rv & s6 & Hrv & E).
  apply newRefreshToken_Ok in Hrv as [Hs6 Hf]. injection Hf as F1 F2 F3 F4 F5 F6.
  apply sbind_Ok in E as ([] & s7 & Hc7 & E). apply RefreshRepo_Create_Ok in Hc7 as (Hfr & Hs7 & _); [|done].
  apply sbind_Ok in E as (acc & s8 & Ha & E). apply issueAccessToken_Ok in Ha.
  injection E as _ <-. rewrite Ha, Hs7, Hs6. simpl. rewrite Hs4. rewrite Hs6 in Hfr. simpl in Hfr.
  rewrite Hs4 in Hfr. simpl in *.
  exact (step_login (sdb s) u0 (storedSession (NewSession (env_now (sn s)) (env_id (S (sn s)))
    (uID user) (env_id (S (S (sn s)))) (acSessionTTL cfg) label)) (storedToken rv.1)
    Hu Hc Hid Hfam Hfr F3 F4 F2 F5).
Qed.

(** The session is the user's. *)
Lemma issueSession_user user label s x s' :
  issueSessionForUser cfg user label s = (Ok x, s') -> seUserID x.1 = uID user.
Proof.
  intros E. unfold issueSessionForUser in E. ok_pure E.
  apply sbind_Ok in E as ([] & s4 & _ & E). ok_pure E. apply sbind_Ok in E as (rv & s6 & _ & E).
  apply sbind_Ok in E as ([] & s7 & _ & E). apply sbind_Ok in E as (acc & s8 & _ & E). by injection E as <- _.
Qed.

Lemma loginTx_step email password label s x s' :
  auth_inv (sdb s) -> loginTx cfg email password label s = (Ok x, s') -> auth_step (sdb s) (sdb s').
Proof.
  intros I E. apply sbind_Ok in E as (user & s1 & Hu & E).
  apply smapErr_Ok, (reads_Ok (fun db => findRow (fun u => citextEq (uEmail u) email) (dUsers db))) in Hu
    as [Hu Hs1]; [|unfold UserRepo_GetByEmail; auto with vibe].
  apply findRow_Some in Hu as (k & Hk & _). pose proof (inv_users _ I _ _ Hk) as <-.
  destruct (negb (HasPassword user)); [done|]. destruct (negb (comparePassword _ _)); [done|].
  destruct (CanAuthenticate user) eqn:Ec; [|done]. simpl in E. rewrite <- Hs1.
  eapply issueSession_step; [exact E|by rewrite Hs1|done].
Qed.

(** The token a selector finds. *)
Lemma getBySelector_Ok sel s rt s' :
  auth_inv (sdb s) -> RefreshRepo_GetBySelector sel s = (Ok rt, s') ->
  dTokens (sdb s) !! rtID rt = Some rt /\ rtSelector rt = sel /\ sdb s' = sdb s.
Proof.
  intros I E. apply (reads_Ok (fun db => findRow (fun t => bool_decide (rtSelector t = sel)) (dTokens db)))
    in E as [Hf Hs]; [|unfold RefreshRepo_GetBySelector; auto with vibe].
  apply findRow_Some in Hf as (k & Hk & Hsel). apply bool_decide_eq_true in Hsel.
  by rewrite (inv_tokens _ I _ _ Hk).
Qed.

Lemma rotate_step rt now s x s' :
  auth_inv (sdb s) -> dTokens (sdb s) !! rtID rt = Some rt -> rtStatus rt = StatusActive ->
  rotate cfg rt now s = (Ok x, s') ->
  auth_step (sdb s) (sdb s') /\
  dTokens (sdb s') !! rtID rt = Some (MarkUsed (pgTime now) rt).
Proof.
  intros I Hrt Hact E. apply sbind_Ok in E as (user & s1 & Hu & E).
  apply smapErr_Ok, (reads_Ok (fun db => dUsers db !! rtUserID rt)) in Hu
    as [Hu Hs1]; [|unfold UserRepo_GetByID; auto with vibe].
  pose proof (inv_users _ I _ _ Hu) as Huid.
  destruct (negb (CanAuthenticate user)); [done|].
  apply sbind_Ok in E as ([] & s2 & Hm & E). apply smapErr_Ok, stmt_Ok in Hm as [[= Hs2] _].
  apply sbind_Ok in E as (nid & s3 & [= <- <-] & E). apply sbind_Ok in E as (rv & s4 & Hrv & E).
  apply newRefreshToken_Ok in Hrv as [Hs4 Hf]. injection Hf as F1 F2 F3 F4 F5 F6.
  apply sbind_Ok in E as ([] & s5 & Hc & E). apply RefreshRepo_Create_Ok in Hc as (Hfr & Hs5 & _); [|done].
  apply sbind_Ok in E as ([] & s6 & Hl & E). apply smapErr_Ok, stmt_Ok in Hl as [[= Hs6] _].
  apply sbind_Ok in E as (acc & s7 & Ha & E). apply issueAccessToken_Ok in Ha.
  apply sbind_Ok in E as (sess & s8 & Hg & E).
  apply (reads_Ok (fun db => dSessions db !! rtSessionID rt)) in Hg as [_ Hs8];
    [|unfold SessionRepo_GetByID; auto with vibe].
  injection E as _ <-. rewrite Hs8, Ha, <- Hs6, Hs5, Hs4. simpl. simpl in Hs4. rewrite Hs4 in Hfr.
  rewrite <- Hs2, Hs1 in Hfr |- *. simpl in *.
  assert (alter (MarkUsed (pgTime now)) (rtID rt) (dTokens (sdb s)) =
          <[rtID rt := MarkUsed (pgTime now) rt]> (dTokens (sdb s))) as Halt
    by (by apply alter_present).
  destruct Hfr as (Hid & Hsel & Hst). simpl in Hid, Hsel. rewrite Halt in Hid, Hsel |- *.
  apply lookup_insert_None in Hid as [Hid Hne].
  split; [|rewrite lookup_insert_ne by congruence; apply lookup_insert_eq].
  assert (fresh_token (sdb s) (storedToken rv.1)) as Hfr.
  { split_and!; [done| |done]. intros k y Hy. destruct (decide (k = rtID rt)) as [->|Hk].
    - rewrite Hrt in Hy. injection Hy as <-.
      apply (Hsel (rtID rt) (MarkUsed (pgTime now) rt)), lookup_insert_eq.
    - apply (Hsel k). by rewrite lookup_insert_ne. }
  unfold set_dSessions, set_dTokens. cbn [dTokens dUsers dSessions]. rewrite Halt.
  exact (step_rotate (sdb s) rt (storedToken rv.1) (pgTime now) (pgTime now) Hrt Hact Hfr
    (eq_trans F3 Huid) F4 F2 F5).
Qed.

(** A presented token that is not active is refused without a change. *)
Lemma refreshTx_Ok sel val s x s' :
  auth_inv (sdb s) -> refreshTx cfg sel val s = (Ok x, s') ->
  exists rt now, dTokens (sdb s) !! rtID rt = Some rt /\ rtSelector rt = sel /\
    rtStatus rt = StatusActive /\ now < rtExpiresAt rt /\ comparePassword (rtValidatorHash rt) val = true /\
    auth_step (sdb s) (sdb s') /\
    dTokens (sdb s') !! rtID rt = Some (MarkUsed (pgTime now) rt).
Proof.
  intros I E. apply sbind_Ok in E as (rt & s1 & Hg & E). apply smapErr_Ok in Hg.
  apply getBySelector_Ok in Hg as (Hrt & Hsel & Hs1); [|done].
  destruct (comparePassword _ _) eqn:Ec; [|done]. simpl in E.
  apply sbind_Ok in E as (now & s2 & [= <- <-] & E).
  unfold ClassifyUse in E. destruct (_ =? StatusCompromised); [done|].
  destruct (_ =? StatusRevoked); [done|]. destruct (Z.ltb_spec (env_now (sn s1)) (rtExpiresAt rt)); [|done].
  simpl in E. destruct (_ =? StatusUsed).
  { simpl in E. apply sbind_Ok in E as (n & s3 & _ & E). done. }
  destruct (Z.eqb_spec (rtStatus rt) StatusActive); [|done]. simpl in E.
  exists rt, (env_now (sn s1)). rewrite <- Hs1. change (sdb s1) with (sdb (step_n s1)).
  eapply rotate_step in E as [Hst Hused]; [|by simpl; rewrite Hs1|simpl; by rewrite Hs1|done].
  split_and!; try done. simpl. by rewrite Hs1.
Qed.

Lemma logoutTx_Ok sel s b s' :
  auth_inv (sdb s) -> logoutTx sel s = (Ok b, s') -> saborted s' = false ->
  if b then exists rt now, dTokens (sdb s) !! rtID rt = Some rt /\ rtSelector rt = sel /\
              rtStatus rt = StatusActive /\
              sdb s' = set_dTokens (insert (rtID rt) (MarkRevoked (pgTime now) rt)) (sdb s)
  else sdb s' = sdb s.
Proof.
  intros I E Hab. apply sbind_Ok in E as (r & s1 & Hg & E). unfold stry in Hg.
  destruct (RefreshRepo_GetBySelector sel s) as [r' s0] eqn:Eg. injection Hg as -> ->.
  destruct r as [rt|e].
  - apply getBySelector_Ok in Eg as (Hrt & Hsel & Hs1); [|done].
    destruct (Z.eqb_spec (rtStatus rt) StatusActive) as [Ha|Ha].
    2:{ injection E as <- <-. done. }
    apply sbind_Ok in E as (now & s2 & [= <- <-] & E). apply sbind_Ok in E as ([] & s3 & Hm & E).
    apply smapErr_Ok, stmt_Ok in Hm as [[= Hs3] _]. injection E as <- <-.
    exists rt, (env_now (sn s1)). split_and!; try done. rewrite <- Hs3, Hs1. unfold set_dTokens.
    by rewrite (alter_present _ _ _ _ Hrt).
  - assert (sdb s1 = sdb s) as Hs1.
    { assert (reads (fun db => findRow (fun t => bool_decide (rtSelector t = sel)) (dTokens db))
        (RefreshRepo_GetBySelector sel)) as [_ Hr] by (unfold RefreshRepo_GetBySelector; auto with vibe).
      destruct (Hr s) as [Hd _]. by rewrite Eg in Hd. }
    destruct (isNotFound e); [|done]. by injection E as <- <-.
Qed.

(** ** The requests are steps *)

Lemma RefreshTokenRPC_cases p s :
  auth_inv (sdb s) ->
  let out := RefreshTokenRPC cfg p s in
  (sdb out.2 = sdb s /\ exists e, out.1 = Err e) \/
  exists rt now, dTokens (sdb s) !! rtID rt = Some rt /\ rtSelector rt = (splitSelectorValidator p).1 /\
    rtStatus rt = StatusActive /\ now < rtExpiresAt rt /\
    comparePassword (rtValidatorHash rt) (splitSelectorValidator p).2 = true /\
    auth_step (sdb s) (sdb out.2) /\
    dTokens (sdb out.2) !! rtID rt = Some (MarkUsed (pgTime now) rt).
Proof.
  intros I out. destruct out as [r s'] eqn:E. subst out. cbn [fst snd]. unfold RefreshTokenRPC in E.
  unfold sbind at 1, ctxDone in E. destruct (env_ctx (sn s)); [injection E as <- <-; left; eauto|].
  destruct (bool_decide (p = "")); [injection E as <- <-; left; eauto|]. unfold refreshUseCase in E.
  destruct (splitSelectorValidator p) as [sel val]. cbn [fst snd].
  destruct (_ || _); [injection E as <- <-; left; eauto|]. unfold sbind in E.
  destruct (withTx _ _) as [r1 s1] eqn:Ew. apply withTx_cases in Ew as [[Hs [e ->]]|(a & s2 & Ha & _ & Hs1 & Hr)].
  { injection E as <- <-. left. eauto. }
  right. assert (s' = s1) as -> by (destruct Hr as [->|[e ->]]; by injection E).
  rewrite Hs1. by apply refreshTx_Ok in Ha.
Qed.

Lemma Logout_cases p s :
  auth_inv (sdb s) ->
  let out := Logout p s in
  (sdb out.2 = sdb s /\ out.1 <> Ok true) \/
  exists rt now, dTokens (sdb s) !! rtID rt = Some rt /\ rtSelector rt = (splitSelectorValidator p).1 /\
    rtStatus rt = StatusActive /\
    sdb out.2 = set_dTokens (insert (rtID rt) (MarkRevoked (pgTime now) rt)) (sdb s).
Proof.
  intros I out. destruct out as [r s'] eqn:E. subst out. cbn [fst snd]. unfold Logout in E.
  unfold sbind at 1, ctxDone in E. destruct (env_ctx (sn s)); [injection E as <- <-; by left|].
  destruct (bool_decide (p = "")); [injection E as <- <-; by left|].
  destruct (bool_decide _); [injection E as <- <-; by left|].
  apply withTx_cases in E as [[Hs [e ->]]|(a & s2 & Ha & Hab & Hs1 & Hr)]; [by left|].
  apply logoutTx_Ok in Ha; [|done..]. simpl in *. rewrite Hs1. destruct a; [by right|].
  left. split; [done|]. destruct Hr as [->|[e ->]]; done.
Qed.

(** What a request does, given the invariant. *)
Definition authR (db db' : AuthDB) : Prop := auth_inv db -> auth_steps db db'.

Lemma authR_refl db : authR db db.
Proof. intros _. constructor. Qed.
Lemma authR_trans a b c : authR a b -> authR b c -> authR a c.
Proof. intros Hab Hbc I. etransitivity; [by apply Hab|]. apply Hbc. by eapply auth_steps_inv, I; apply Hab. Qed.
Lemma authR_core db db' : core db' = core db -> authR db db'.
Proof. intros Hc _. by apply auth_steps_core. Qed.

(** A statement on another table. *)
Lemma commits_core {A} g (f : AuthDB -> res error (A * AuthDB)) :
  (forall db a db', f db = Ok (a, db') -> core db' = core db) -> commits authR (smapErr g (stmt f)).
Proof.
  intros Hf s a s' E. apply smapErr_Ok, stmt_Ok in E as [E _]. apply authR_core. by eapply Hf.
Qed.

Lemma relates_login email password label : relates authR (Login cfg email password label).
Proof.
  apply relates_bind_l; [apply authR_refl|auto with vibe|intros []]. destruct (_ || _).
  - apply relates_quiet; [apply authR_refl|auto with vibe].
  - apply relates_bind_r; [|intros; auto with vibe]. apply relates_commits; [apply authR_refl|].
    intros s a s' E I. apply rtc_once. by eapply loginTx_step.
Qed.
End steps.

(** ** Statements that succeed *)

Section statements.
Context `{Env} `{PgCitext}.

Lemma UserRepo_Create_Ok u s s' :
  UserRepo_Create u s = (Ok tt, s') ->
  dUsers (sdb s) !! uID u = None /\
  (forall k x, dUsers (sdb s) !! k = Some x -> citextEq (uEmail x) (uEmail u) = false /\ uUsername x <> uUsername u) /\
  sdb s' = set_dUsers (insert (uID u) (storedUser u)) (sdb s).
Proof.
  intros E. apply smapErr_Ok, stmt_Ok in E as [E _]. destruct (userColumnsOk u); [done|].
  destruct (bool_decide (is_Some _)) eqn:Ei; [done|]. apply bool_decide_eq_false in Ei.
  destruct (existsb _ _) eqn:Ee; [done|]. destruct (existsb (fun kv => bool_decide _) _) eqn:Eu; [done|].
  injection E as <-. split_and!; [by apply eq_None_not_Some| |done]. intros k x Hk. split.
  - by apply (existsb_none (fun x => citextEq (uEmail x) (uEmail u)) _ _ _ Ee Hk).
  - apply (existsb_none (fun x => bool_decide (uUsername x = uUsername u)) _ _ _ Eu) in Hk.
    by apply bool_decide_eq_false in Hk.
Qed.

Lemma UserRepo_Create_step u s s' : UserRepo_Create u s = (Ok tt, s') -> auth_step (sdb s) (sdb s').
Proof.
  intros E. apply UserRepo_Create_Ok in E as (Hn & _ & ->). exact (step_user (sdb s) (storedUser u) Hn).
Qed.

Lemma OutboxAppend_Ok e s s' :
  OutboxAppend [e] s = (Ok tt, s') ->
  oeID e ∉ map (fun r => oeID (orEvent r)) (dEvents (sdb s)) /\
  sdb s' = set_dEvents (fun rows => rows ++ [mkOutRow (storedEvent e) false]) (sdb s).
Proof.
  intros E. unfold OutboxAppend, Append in E. simpl in E. destruct (bool_decide (oeTopic e = "")); [done|].
  apply sbind_Ok in E as ([] & s1 & E & [= <-]). apply smapErr_Ok, stmt_Ok in E as [E _].
  unfold insertEvent in E. destruct (bool_decide _) eqn:Ei; [done|]. apply bool_decide_eq_false in Ei.
  injection E as <-. by destruct (sdb s).
Qed.

(** A link is new, or it is there already. *)
Lemma OAuthAccountRepo_Upsert_Ok a s s' :
  OAuthAccountRepo_Upsert a s = (Ok tt, s') ->
  (exists old, dAccounts (sdb s) !! (oaProvider a, oaProviderUserID a) = Some old /\ sdb s' = sdb s) \/
  (dAccounts (sdb s) !! (oaProvider a, oaProviderUserID a) = None /\
   (forall k x, dAccounts (sdb s) !! k = Some x -> ~ (oaUserID x = oaUserID a /\ oaProvider x = oaProvider a)) /\
   is_Some (dUsers (sdb s) !! oaUserID a) /\
   sdb s' = set_dAccounts (insert (oaProvider a, oaProviderUserID a) (storedAccount a)) (sdb s)).
Proof.
  intros E. apply smapErr_Ok, stmt_Ok in E as [E _]. destruct (32 <? _); [done|]. destruct (255 <? _); [done|].
  destruct (dAccounts (sdb s) !! _) as [old|]; [left; exists old; by injection E as <-|right].
  destruct (existsb _ _) eqn:Ex; [done|]. destruct (dUsers (sdb s) !! oaUserID a) eqn:Eu; [|done].
  injection E as <-. split_and!; [done| |done|done]. intros k x Hk [E1 E2].
  apply (existsb_none (fun x => bool_decide (oaUserID x = oaUserID a) && bool_decide (oaProvider x = oaProvider a))
    _ _ _ Ex) in Hk. rewrite !bool_decide_true in Hk by done. done.
Qed.

Lemma UserRepo_GetByID_Ok id s u s' :
  UserRepo_GetByID id s = (Ok u, s') -> dUsers (sdb s) !! id = Some u /\ sdb s' = sdb s.
Proof. apply (reads_Ok (fun db => dUsers db !! id)). unfold UserRepo_GetByID. auto with vibe. Qed.

(** The rows a look-up without an early return finds. *)
Lemma GetByEmail_try email s r s' :
  stry (UserRepo_GetByEmail email) s = (Ok r, s') ->
  sdb s' = sdb s /\ (saborted s = true -> saborted s' = true) /\
  match r with
  | Ok u => exists k, dUsers (sdb s) !! k = Some u /\ citextEq (uEmail u) email = true
  | Err _ => saborted s' = true \/ forall k u, dUsers (sdb s) !! k = Some u -> citextEq (uEmail u) email = false
  end.
Proof.
  intros E. apply stry_Ok in E.
  assert (reads (fun db => findRow (fun u => citextEq (uEmail u) email) (dUsers db)) (UserRepo_GetByEmail email))
    as [Hst Hr] by (unfold UserRepo_GetByEmail; auto with vibe).
  specialize (Hst s). specialize (Hr s). rewrite E in Hst, Hr. destruct Hr as [Hdb Hr]. split_and!; [done..|].
  destruct r as [u|e]; [by apply findRow_Some in Hr|]. destruct Hr as [?|Hr]; [by left|right].
  intros k u Hk. by apply (findRow_None (fun u => citextEq (uEmail u) email) _ _ _ Hr Hk).
Qed.

Lemma GetByProvider_try p id s r s' :
  stry (OAuthAccountRepo_GetByProvider p id) s = (Ok r, s') ->
  sdb s' = sdb s /\
  match r with
  | Ok a => dAccounts (sdb s) !! (p, id) = Some a
  | Err _ => saborted s' = true \/ dAccounts (sdb s) !! (p, id) = None
  end.
Proof.
  intros E. apply stry_Ok in E.
  assert (reads (fun db => dAccounts db !! (p, id)) (OAuthAccountRepo_GetByProvider p id)) as [_ Hr]
    by (unfold OAuthAccountRepo_GetByProvider; auto with vibe).
  specialize (Hr s). by rewrite E in Hr.
Qed.
End statements.

(** ** Registration and OAuth *)

(** Handlers are binds of parts that leave the database alone and of
    transactions. *)
Ltac authR_follow := repeat first
  [ progress intros
  | apply relates_bind_l; [apply authR_refl|solve [auto with vibe]|]
  | apply relates_bind_r; [|solve [intros; auto with vibe]]
  | apply relates_bind; [apply authR_trans| |]
  | apply relates_mapErr
  | apply relates_quiet; [apply authR_refl|solve [auto with vibe]]
  | apply relates_commits; [apply authR_refl|]
  | match goal with |- relates _ (match ?x with _ => _ end) => destruct x eqn:? end ].

Section accounts.
Context `{Env} `{PgCitext} `{Hasher} `{Signer} `{UnicodeLower} `{Cipher}.
Context (cfg : AuthConfig) (registry : oauthRegistry).

Lemma NewUser_Ok now p u :
  NewUser now p = Ok u -> uID u = "" /\ CanAuthenticate u = true /\ uSystemRole u = SYSTEM_USER.
Proof.
  unfold NewUser. repeat match goal with |- context [if ?b then _ else _] => destruct b end; try done;
    by intros [= <-].
Qed.

(** The row of a user who may log in. *)
Lemma storedUser_login u : CanAuthenticate u = true -> CanAuthenticate (storedUser u) = true.
Proof. unfold CanAuthenticate, CanLogin. simpl. intros Hc. go_bool. by rewrite Hc. Qed.

Lemma registerTx_commits email username password display label :
  commits authR (registerTx cfg email username password display label).
Proof.
  intros s x s' E I. unfold registerTx in E. ok_pure E.
  destruct (NewUser _ _) as [u|] eqn:En; [|done]. apply NewUser_Ok in En as (_ & Hc & _).
  apply sbind_Ok in E as (hash & s1 & Hh & E). apply smapErr_Ok in Hh. injection Hh as _ <-.
  ok_pure E. apply sbind_Ok in E as (found & s2 & Hf & E). apply GetByEmail_try in Hf as (Hs2 & _ & _).
  destruct found; [done|]. destruct (negb _); [done|]. ok_pure E.
  apply sbind_Ok in E as ([] & s3 & Hu & E). apply smapErr_Ok in Hu.
  apply UserRepo_Create_step in Hu as Hst. apply UserRepo_Create_Ok in Hu as (Hnew & _ & Hs3). ok_pure E.
  apply sbind_Ok in E as ([] & s4 & Ho & E). apply OutboxAppend_Ok in Ho as [_ Hs4].
  simpl in Hnew, Hs3, Hs2, Hs4. rewrite Hs2 in Hnew, Hs3.
  simpl in Hst. rewrite Hs2 in Hst. eapply rtc_l; [exact Hst|]. eapply rtc_l; [apply (step_other _ (sdb s4)); by rewrite Hs4|]. apply rtc_once.
  eapply issueSession_step; [exact E| |].
  - rewrite Hs4, Hs3. simpl. apply lookup_insert_eq.
  - by apply storedUser_login.
Qed.

(** The user of a provider identity is a user of the table. *)
Lemma resolveUser_Ok p prof s u s' :
  auth_inv (sdb s) -> resolveUser p prof s = (Ok u, s') ->
  auth_steps (sdb s) (sdb s') /\
  exists u0, dUsers (sdb s') !! uID u = Some u0 /\ (CanAuthenticate u = true -> CanAuthenticate u0 = true).
Proof.
  intros I E. unfold resolveUser in E. apply sbind_Ok in E as (link & s1 & Hl & E).
  apply GetByProvider_try in Hl as [Hs1 _]. destruct link as [link|e].
  { apply UserRepo_GetByID_Ok in E as [Hu Hs']. rewrite Hs', Hs1 in *. split; [constructor|].
    exists u. by rewrite (inv_users _ I _ _ Hu). }
  destruct (negb _); [done|]. apply sbind_Ok in E as (found & s2 & Hf & E).
  apply GetByEmail_try in Hf as (Hs2 & _ & Hf). rewrite Hs1 in Hs2, Hf. destruct found as [u1|e1].
  { destruct Hf as (k & Hk & _). ok_pure E. apply sbind_Ok in E as ([] & s3 & Ha & [= -> ->]).
    pose proof (inv_users _ I _ _ Hk) as Hid.
    assert (core (sdb s') = core (sdb s)) as Hcore.
    { apply OAuthAccountRepo_Upsert_Ok in Ha as [(old & _ & Hs3)|(_ & _ & _ & Hs3)]; rewrite Hs3; simpl; by rewrite Hs2. }
    split; [by apply auth_steps_core|]. exists u. injection Hcore as -> _ _. by rewrite Hid. }
  destruct (negb _); [done|]. unfold createOAuthUser in E. ok_pure E.
  destruct (NewUser _ _) as [nu|] eqn:En; [|done]. apply NewUser_Ok in En as (_ & Hc & _). ok_pure E.
  apply sbind_Ok in E as ([] & s3 & Hu & E).
  apply UserRepo_Create_step in Hu as Hst. apply UserRepo_Create_Ok in Hu as (Hnew & _ & Hs3).
  apply sbind_Ok in E as ([] & s4 & Ha & E). ok_pure E. apply sbind_Ok in E as ([] & s5 & Ho & [= <- <-]).
  apply OutboxAppend_Ok in Ho as [_ Hs5]. simpl in Hnew, Hs3, Hs5. rewrite Hs2 in Hnew, Hs3.
  assert (core (sdb s5) = core (sdb s3)) as Hcore.
  { rewrite Hs5. apply OAuthAccountRepo_Upsert_Ok in Ha as [(old & _ & ->)|(_ & _ & _ & ->)]; done. }
  split.
  - simpl in Hst. rewrite Hs2 in Hst. eapply rtc_l; [exact Hst|]. by apply auth_steps_core.
  - injection Hcore as -> _ _. rewrite Hs3. simpl. eexists. split; [apply lookup_insert_eq|].
    intros _. by apply storedUser_login.
Qed.

Lemma completeOAuthTx_commits p prof label toks : commits authR (completeOAuthTx cfg p prof label toks).
Proof.
  intros s x s' E I. unfold completeOAuthTx in E. apply sbind_Ok in E as (u & s1 & Hu & E).
  apply resolveUser_Ok in Hu as (Hst & u0 & Hu0 & Hc); [|done].
  destruct (CanAuthenticate u) eqn:Ec; [|done]. cbn [negb] in E.
  apply sbind_Ok in E as ([] & s2 & Hsave & E).
  apply saveProviderTokens_frame in Hsave.
  assert (core (sdb s2) = core (sdb s1)) as Hcore by (injection Hsave; unfold core; congruence).
  etransitivity; [exact Hst|]. eapply rtc_l; [apply step_other; exact Hcore|]. apply rtc_once.
  injection Hcore as Hus _ _. eapply issueSession_step; [exact E|by rewrite Hus|by apply Hc].
Qed.

Lemma relates_register e u p n d : relates authR (Register cfg e u p n d).
Proof. unfold Register. authR_follow. apply registerTx_commits. Qed.

Lemma relates_beginOAuth p r c : relates authR (BeginOAuth cfg registry p r c).
Proof. eapply relates_mono, BeginOAuth_frame. intros a b [=]. apply authR_core. unfold core. congruence. Qed.

Lemma consumeTx_Ok state s f s' :
  consumeTx state s = (Ok f, s') ->
  dFlows (sdb s) !! state = Some f /\ sdb s' = set_dFlows (delete state) (sdb s).
Proof.
  intros E. apply smapErr_Ok in E. apply sbind_Ok in E as (f0 & s1 & Hf & E).
  apply smapErr_Ok, (reads_Ok (fun db => dFlows db !! state)) in Hf as [Hf Hs1]; [|auto with vibe].
  apply sbind_Ok in E as ([] & s2 & Hd & [= <- <-]). apply smapErr_Ok, stmt_Ok in Hd as [[= <-] _].
  by rewrite Hs1.
Qed.

Lemma relates_completeOAuth p st c v : relates authR (CompleteOAuth cfg registry p st c v).
Proof.
  unfold CompleteOAuth, finishOAuth. authR_follow; [|apply completeOAuthTx_commits].
  intros s f s' E. apply authR_core. apply consumeTx_Ok in E as [_ ->]. done.
Qed.
End accounts.

(** ** Every request *)

Section requests.
Context `{Env} `{PgCitext} `{Hasher} `{Signer} `{UnicodeLower} `{Cipher} `{TokenEndpoint} `{Jose}.
Context (cfg : AuthConfig) (registry : oauthRegistry).

Lemma auth_exec_steps o s : auth_inv (sdb s) -> auth_steps (sdb s) (sdb (auth_exec cfg registry o s)).
Proof.
  intros I. destruct o; simpl.
  - by apply relates_login.
  - destruct (RefreshTokenRPC_cases cfg presented s I) as [[-> _]|(rt & now & _ & _ & _ & _ & _ & Hst & _)];
      [constructor|by apply rtc_once].
  - destruct (Logout_cases presented s I) as [[-> _]|(rt & now & Hrt & _ & Ha & ->)];
      [constructor|by apply rtc_once; constructor].
  - by apply relates_register.
  - by apply relates_beginOAuth.
  - by apply relates_completeOAuth.
  - apply auth_steps_core. pose proof (GetProviderToken_frame cfg registry userID provider s) as [=].
    unfold core. congruence.
  - apply auth_steps_core. pose proof (RotateKeys_frame cfg force signer s) as [=]. unfold core. congruence.
  - apply auth_steps_core. pose proof (bootstrapSigner_frame s) as [=]. unfold core. congruence.
Qed.

Lemma auth_exec_inv o s : auth_inv (sdb s) -> auth_inv (sdb (auth_exec cfg registry o s)).
Proof. intros I. by eapply auth_steps_inv, I; apply auth_exec_steps. Qed.

Lemma auth_run_inv ops s : auth_inv (sdb s) -> auth_inv (sdb (auth_run cfg registry ops s)).
Proof.
  revert s. induction ops as [|o ops IH]; intros s I; [done|]. apply (IH (auth_exec cfg registry o s)).
  by apply auth_exec_inv.
Qed.
End requests.

Lemma auth_inv_start users :
  (forall k u, users !! k = Some u -> uID u = k) -> auth_inv (sdb (authStart users)).
Proof. intros Hu. by split. Qed.
