(* ===== verification/AccountSteps.v ===== *)
(** * Users, links and their events under every request

    The invariant of the users, the provider links and the outbox of the auth
    service ([acct_inv]), and that every request keeps it and only adds users
    and links, whatever fails. *)

From S2P Require Import Prelude GoNum Errors GoString GoRegexp GoUnicode GoTime Store RoomDomain Outbox AuthDomain Auth Register OAuth SigningKeys AuthRuns AuthFrames AuthSteps.

Open Scope Z_scope.

(** How Postgres compares [CITEXT] values: an equivalence. *)
Class CitextLaws (C : PgCitext) : Prop := {
  citext_refl : forall a, citextEq a a = true;
  citext_sym : forall a b, citextEq a b = citextEq b a;
  citext_trans : forall a b c, citextEq a b = true -> citextEq b c = true -> citextEq a c = true;
}.

(** A user as registration makes it: an ordinary, active user with a valid
    address, user name and display name. *)
Definition wellFormed (u : User) : Prop :=
  MatchString emailRe (uEmail u) = true /\ MatchString usernameRe (uUsername u) = true /\
  0 < slen (uDisplayName u) <= 100 /\ uSystemRole u = SYSTEM_USER /\ uStatus u = UserStatusActive.

(** The event that announces a user. *)
Definition announces (e : OutEvent Payload) (u : User) : Prop :=
  oeTopic e = createdTopic /\ oeAggregateID e = uID u /\ oeKey e = uID u /\
  exists now provider, uCreatedAt u = pgTime now /\ oePayload e = oePayload (userCreatedEvent "" u provider now).

Definition announced (db : AuthDB) : list string := map (fun r => oeAggregateID (orEvent r)) (dEvents db).

Section inv.
Context `{PgCitext}.
Context (users0 : gmap string User).

Record acct_inv (db : AuthDB) : Prop := {
  ai_keyed : forall k u, dUsers db !! k = Some u -> uID u = k;
  ai_origin : forall k u, dUsers db !! k = Some u -> users0 !! k = Some u \/ (users0 !! k = None /\ wellFormed u);
  ai_email : forall k1 k2 u1 u2, dUsers db !! k1 = Some u1 -> dUsers db !! k2 = Some u2 ->
    citextEq (uEmail u1) (uEmail u2) = true -> k1 = k2;
  ai_username : forall k1 k2 u1 u2, dUsers db !! k1 = Some u1 -> dUsers db !! k2 = Some u2 ->
    uUsername u1 = uUsername u2 -> k1 = k2;
  ai_links : forall p i a, dAccounts db !! (p, i) = Some a ->
    oaProvider a = p /\ oaProviderUserID a = i /\ is_Some (dUsers db !! oaUserID a);
  ai_one_link : forall k1 k2 a1 a2, dAccounts db !! k1 = Some a1 -> dAccounts db !! k2 = Some a2 ->
    oaUserID a1 = oaUserID a2 -> oaProvider a1 = oaProvider a2 -> k1 = k2;
  ai_nodup : NoDup (announced db);
  ai_announced : forall k, k ∈ announced db <-> is_Some (dUsers db !! k) /\ users0 !! k = None;
  ai_events : forall r, r ∈ dEvents db -> exists u, dUsers db !! oeAggregateID (orEvent r) = Some u /\
    announces (orEvent r) u;
  ai_initial : users0 ⊆ dUsers db;
}.

(** The tables the invariant is about. *)
Definition core2 (db : AuthDB) := (dUsers db, dAccounts db, dEvents db).

Lemma acct_inv_core db db' : core2 db' = core2 db -> acct_inv db -> acct_inv db'.
Proof.
  intros [= E1 E2 E3] I. destruct I. split; unfold announced in *; rewrite ?E1, ?E2, ?E3; done.
Qed.

Context `{!CitextLaws _}.

(** A new user with its event. *)
Lemma acct_inv_user db u e :
  acct_inv db -> dUsers db !! uID u = None -> wellFormed u ->
  (forall k x, dUsers db !! k = Some x -> citextEq (uEmail x) (uEmail u) = false /\ uUsername x <> uUsername u) ->
  announces e u ->
  acct_inv (set_dEvents (fun rows => rows ++ [mkOutRow e false]) (set_dUsers (insert (uID u) u) db)).
Proof.
  intros I Hn Hw Hu Han. assert (oeAggregateID e = uID u) as Hag by apply Han.
  assert (uID u ∉ announced db) as Hna. { intros Hin. apply (ai_announced _ I) in Hin as [[x Hx] _]. congruence. }
  assert (users0 !! uID u = None) as H0.
  { destruct (users0 !! uID u) eqn:E; [|done]. apply (lookup_weaken _ (dUsers db)) in E; [congruence|apply I]. }
  destruct I. split; unfold announced in *; simpl.
  - intros k x Hx. insert_cases; [done|eauto].
  - intros k x Hx. insert_cases; [by right|eauto].
  - intros k1 k2 x1 x2 H1 H2 E. insert_cases; [done|..|eauto].
    + destruct (Hu _ _ H1) as [E' _]. congruence.
    + destruct (Hu _ _ H2) as [E' _]. rewrite citext_sym in E. congruence.
  - intros k1 k2 x1 x2 H1 H2 E. insert_cases; [done|..|eauto].
    + by destruct (Hu _ _ H1) as [_ []].
    + by destruct (Hu _ _ H2) as [_ []].
  - intros p i a Ha. destruct (ai_links0 p i a Ha) as (? & ? & Hx). split_and!; [done..|].
    rewrite lookup_insert_is_Some'. by right.
  - done.
  - rewrite map_app. apply NoDup_app. split_and!; [done| |apply NoDup_singleton].
    intros k Hk Hk'. apply list_elem_of_singleton in Hk'. simpl in Hk'. rewrite Hag in Hk'. by subst.
  - intros k. rewrite map_app, elem_of_app. simpl. rewrite list_elem_of_singleton, Hag, lookup_insert_is_Some', ai_announced0.
    split; [intros [[? ?]| ->]; [split; [by right|done]|split; [by left|done]]|].
    intros [[<-|Hk] Hk0]; [by right|by left].
  - intros r Hr. apply elem_of_app in Hr as [Hr|Hr].
    + destruct (ai_events0 r Hr) as (x & Hx & Hax). exists x. split; [|done]. rewrite lookup_insert_ne; [done|congruence].
    + apply list_elem_of_singleton in Hr as ->. exists u. simpl. rewrite Hag, lookup_insert_eq. done.
  - by apply insert_subseteq_r.
Qed.

(** A new link to a user. *)
Lemma acct_inv_link db a :
  acct_inv db -> dAccounts db !! (oaProvider a, oaProviderUserID a) = None ->
  (forall k x, dAccounts db !! k = Some x -> ~ (oaUserID x = oaUserID a /\ oaProvider x = oaProvider a)) ->
  is_Some (dUsers db !! oaUserID a) ->
  acct_inv (set_dAccounts (insert (oaProvider a, oaProviderUserID a) a) db).
Proof.
  intros I Hn Hu Hs. destruct I. split; simpl; try done.
  - intros p i x Hx. apply lookup_insert_Some in Hx as [[[= <- <-] <-]|[_ Hx]]; eauto.
  - intros k1 k2 x1 x2 H1 H2 E1 E2. insert_cases; [done|..|eauto].
    + by destruct (Hu _ _ H1).
    + destruct (Hu _ _ H2). by split.
Qed.
End inv.

(** ** Valid names *)

Lemma username_shape s :
  MatchString usernameRe s = true <->
  exists b l, bytes s = b :: l /\ isLower b = true /\ (2 <= length l <= 31)%nat /\ Forall (fun b => isWord b = true) l.
Proof.
  unfold MatchString, usernameRe. rewrite MatchAll_spec, accepts_seq. setoid_rewrite accepts_class.
  setoid_rewrite (fun l => accepts_repeat_class 2 31 isWord l ltac:(lia)). split.
  - intros (? & l & -> & (b & -> & Hb) & Hl & Hw). by exists b, l.
  - intros (b & l & -> & Hb & Hl & Hw). exists [b], l. split; [done|]. split; [by exists b|done].
Qed.

(** A valid user name has 3 to 32 bytes and is lower-case ASCII. *)
Lemma username_length s : MatchString usernameRe s = true -> 3 <= slen s <= 32.
Proof.
  intros (b & l & E & _ & Hl & _)%username_shape. unfold slen. rewrite <- length_bytes, E. simpl. lia.
Qed.

Lemma isWord_lower b : isWord b = true -> lowerASCII b = true.
Proof.
  unfold isWord, isLower, lowerASCII, within. rewrite !orb_true_iff, !andb_true_iff, negb_true_iff, andb_false_iff.
  rewrite !Z.leb_le, !Z.leb_gt, Z.ltb_lt, Z.eqb_eq. lia.
Qed.

Lemma username_lower s : MatchString usernameRe s = true -> Forall (fun b => lowerASCII b = true) (bytes s).
Proof.
  intros (b & l & -> & Hb & _ & Hw)%username_shape. constructor.
  - apply isWord_lower. unfold isWord. by rewrite Hb.
  - eapply Forall_impl; [exact Hw|]. apply isWord_lower.
Qed.

Section requests.
Context `{Env} `{PgCitext} `{!CitextLaws _} `{Hasher} `{Signer} `{UnicodeLower} `{Cipher} `{TokenEndpoint} `{Jose}.
Context (cfg : AuthConfig) (registry : oauthRegistry) (users0 : gmap string User).

(** The user that registration makes. *)
Lemma NewUser_wellFormed now p u :
  NewUser now p = Ok u -> wellFormed u /\ uCreatedAt u = now /\ uEmail u = TrimSpace (ToLower (npEmail p)).
Proof using Type.
  unfold NewUser. destruct (MatchString emailRe _) eqn:He; [|done].
  destruct (MatchString usernameRe _) eqn:Hu; [|done]. cbn [negb].
  destruct (Z.ltb_spec 100 (slen (TrimSpace (npDisplayName p)))) as [|Hd]; [done|]. intros [= <-].
  split; [|done]. split_and!; try done; cbn [uDisplayName];
    case_bool_decide as Hem; try lia; try (apply username_length in Hu; lia).
  unfold slen. destruct (TrimSpace (npDisplayName p)); [done|]. simpl. lia.
Qed.

Lemma wellFormed_stored u : wellFormed u -> wellFormed (storedUser u).
Proof using Type.
  intros (? & ? & ? & Hr & Hs). split_and!; try done; simpl; try lia; by rewrite ?Hr, ?Hs.
Qed.

Lemma announces_stored id u provider now :
  uCreatedAt u = now -> announces (storedEvent (userCreatedEvent id u provider now)) (storedUser u).
Proof using Type.
  intros Hc. split_and!; [done..|simpl; by case_bool_decide|]. exists now, provider. split; [|done].
  simpl. by rewrite Hc.
Qed.

(** What a request does to users and links, given the invariant: they are only
    added to. *)
Definition acctR (db db' : AuthDB) : Prop :=
  acct_inv users0 db -> acct_inv users0 db' /\ dUsers db ⊆ dUsers db' /\ dAccounts db ⊆ dAccounts db'.

Lemma acctR_refl db : acctR db db.
Proof using Type. intros I. done. Qed.
Lemma acctR_trans a b c : acctR a b -> acctR b c -> acctR a c.
Proof using Type.
  intros Hab Hbc I. destruct (Hab I) as (I1 & ? & ?). destruct (Hbc I1) as (I2 & ? & ?).
  split; [done|]. split; by etransitivity.
Qed.
Lemma acctR_core db db' : core2 db' = core2 db -> acctR db db'.
Proof using Type.
  intros Hc I. split; [by eapply acct_inv_core|]. by injection Hc as -> -> _.
Qed.

Lemma createUser_acctR u eid provider now s s1 s2 s3 :
  UserRepo_Create u s = (Ok tt, s1) -> sdb s2 = sdb s1 ->
  OutboxAppend [userCreatedEvent eid u provider now] s2 = (Ok tt, s3) ->
  wellFormed u -> uCreatedAt u = now -> acctR (sdb s) (sdb s3).
Proof using CitextLaws0.
  intros Hc Hs2 Ha Hw Hnow I. apply UserRepo_Create_Ok in Hc as (Hn & Hu & Hs1).
  apply OutboxAppend_Ok in Ha as [_ Hs3]. rewrite Hs3, Hs2, Hs1. split.
  - apply (acct_inv_user users0 (sdb s) (storedUser u)); [done|done|by apply wellFormed_stored|done|].
    by apply announces_stored.
  - simpl. split; [by apply insert_subseteq|done].
Qed.

Lemma registerTx_acctR e u p n d : commits acctR (registerTx cfg e u p n d).
Proof using CitextLaws0.
  intros s x s' E. unfold registerTx in E. ok_pure E.
  destruct (NewUser _ _) as [u1|] eqn:En; [|done]. apply NewUser_wellFormed in En as (Hw & Hnow & _).
  apply sbind_Ok in E as (hash & s1 & Hh & E). apply smapErr_Ok in Hh. injection Hh as _ <-.
  ok_pure E. apply sbind_Ok in E as (found & s2 & Hf & E). apply GetByEmail_try in Hf as (Hs2 & _ & _).
  destruct found; [done|]. destruct (negb _); [done|]. ok_pure E.
  apply sbind_Ok in E as ([] & s3 & Hu & E). apply smapErr_Ok in Hu. ok_pure E.
  apply sbind_Ok in E as ([] & s4 & Ho & E). apply issueSession_frame in E.
  eapply acctR_trans; [|apply (acctR_core (sdb s4)); injection E; unfold core2; congruence].
  eapply createUser_acctR in Ho; [|exact Hu|done|exact Hw|exact Hnow].
  simpl in Ho. by rewrite Hs2 in Ho.
Qed.

(** A link to a user. *)
Lemma link_acctR a s s' :
  OAuthAccountRepo_Upsert a s = (Ok tt, s') -> acctR (sdb s) (sdb s') /\
  (dAccounts (sdb s) !! (oaProvider a, oaProviderUserID a) = None ->
   dAccounts (sdb s') !! (oaProvider a, oaProviderUserID a) = Some (storedAccount a)).
Proof using Type.
  intros E. apply OAuthAccountRepo_Upsert_Ok in E as [(old & Hold & ->)|(Hn & Hone & Hsome & ->)].
  - split; [apply acctR_refl|congruence].
  - split; [|intros _; apply lookup_insert_eq]. intros I.
    split; [by apply (acct_inv_link users0 (sdb s) (storedAccount a))|]. split; [done|by apply insert_subseteq].
Qed.

(** A new user with its link. *)
Lemma createOAuthUser_acctR p prof s u s' :
  acct_inv users0 (sdb s) -> (saborted s = false -> dAccounts (sdb s) !! (p, ppProviderUserID prof) = None) ->
  createOAuthUser p prof s = (Ok u, s') -> acctR (sdb s) (sdb s') /\
  exists a, dAccounts (sdb s') !! (p, ppProviderUserID prof) = Some a /\ oaUserID a = uID u.
Proof using CitextLaws0.
  intros I Hno E. unfold createOAuthUser in E. ok_pure E.
  destruct (NewUser _ _) as [nu|] eqn:En; [|done]. apply NewUser_wellFormed in En as (Hw & Hnow & _). ok_pure E.
  apply sbind_Ok in E as ([] & s3 & Hu & E). apply sbind_Ok in E as ([] & s4 & Ha & E). ok_pure E.
  apply sbind_Ok in E as ([] & s5 & Ho & [= <- <-]).
  apply stmt_live in Hu as Hab. simpl in Hab. specialize (Hno Hab).
  apply UserRepo_Create_Ok in Hu as (Hn & Hun & Hs3). apply OutboxAppend_Ok in Ho as [_ Hs5].
  apply OAuthAccountRepo_Upsert_Ok in Ha as [(old & Hold & _)|(_ & Hone & _ & Hs4)].
  { exfalso. rewrite Hs3 in Hold. simpl in Hold. congruence. }
  simpl in *. rewrite Hs3 in Hone, Hs4. rewrite Hs4 in Hs5. simpl in Hone.
  split; [|eexists; rewrite Hs5; split; [apply lookup_insert_eq|done]].
  intros _. set (nu' := set_uID (env_id (S (sn s))) nu) in *. set (acc := storedAccount _) in Hs5.
  assert (acct_inv users0 (set_dEvents (fun rows => rows ++ [mkOutRow (storedEvent (userCreatedEvent (env_id (sn s4)) nu' p (env_now (sn s)))) false])
    (set_dUsers (insert (uID nu') (storedUser nu')) (sdb s)))) as I1.
  { apply (acct_inv_user users0 (sdb s) (storedUser nu')); [done|done|by apply wellFormed_stored|done|].
    by apply announces_stored. }
  rewrite Hs5. split_and!; simpl; [|by apply insert_subseteq|by apply insert_subseteq].
  eapply (acct_inv_link users0 _ acc I1); [done|done|]. simpl. rewrite lookup_insert_eq. by eexists.
Qed.

(** The user of a provider identity is the one the identity is linked to. *)
Lemma resolveUser_acctR p prof s u s' :
  acct_inv users0 (sdb s) -> resolveUser p prof s = (Ok u, s') -> acctR (sdb s) (sdb s') /\
  exists a, dAccounts (sdb s') !! (p, ppProviderUserID prof) = Some a /\ oaUserID a = uID u.
Proof using CitextLaws0.
  intros I E. unfold resolveUser in E. apply sbind_Ok in E as (link & s1 & Hl & E).
  apply GetByProvider_try in Hl as [Hs1 Hl]. destruct link as [link|e].
  { apply UserRepo_GetByID_Ok in E as [Hu ->]. rewrite Hs1 in *. split; [apply acctR_refl|].
    exists link. split; [done|]. by rewrite (ai_keyed _ _ I _ _ Hu). }
  destruct (negb _); [done|]. apply sbind_Ok in E as (found & s2 & Hf & E).
  apply GetByEmail_try in Hf as (Hs2 & Hst & Hf). rewrite Hs1 in Hs2, Hf.
  assert (saborted s2 = false -> dAccounts (sdb s2) !! (p, ppProviderUserID prof) = None) as Hno.
  { intros Ha. rewrite Hs2. destruct Hl as [Hab|Hn]; [|done]. by rewrite Hst in Ha. }
  rewrite <- Hs2 in I |- *. destruct found as [u1|e1].
  - ok_pure E. apply sbind_Ok in E as ([] & s3 & Ha & [= -> ->]).
    apply stmt_live in Ha as Hab. apply link_acctR in Ha as [Hr Hlk].
    split; [exact Hr|]. eexists. split; [apply Hlk; by apply Hno|done].
  - destruct (negb _); [done|]. by apply createOAuthUser_acctR in E.
Qed.

Lemma completeOAuthTx_Ok p prof label toks s x s' :
  acct_inv users0 (sdb s) -> completeOAuthTx cfg p prof label toks s = (Ok x, s') ->
  acctR (sdb s) (sdb s') /\
  exists a, dAccounts (sdb s') !! (p, ppProviderUserID prof) = Some a /\ oaUserID a = seUserID x.1.
Proof using CitextLaws0.
  intros I E. unfold completeOAuthTx in E. apply sbind_Ok in E as (u & s1 & Hu & E).
  apply resolveUser_acctR in Hu as (Hr & a & Ha & Hau); [|done].
  destruct (negb _); [done|]. apply sbind_Ok in E as ([] & s2 & Hsave & E).
  apply saveProviderTokens_frame in Hsave. apply issueSession_frame in E as Hf.
  injection Hsave as E1 _ _ _ E2 _ E3. injection Hf as F1 _ F2 _ _ F3. split.
  - eapply acctR_trans; [exact Hr|]. apply acctR_core. unfold core2. congruence.
  - exists a. rewrite F2, E2. split; [done|]. rewrite Hau. by apply issueSession_user in E.
Qed.

(** Every request. *)
Lemma auth_exec_acctR o s : acctR (sdb s) (sdb (auth_exec cfg registry o s)).
Proof using CitextLaws0.
  destruct o; simpl.
  - apply acctR_core. pose proof (Login_frame cfg email password deviceLabel s) as [=]. unfold core2. congruence.
  - apply acctR_core. pose proof (Refresh_frame cfg presented s) as [=]. unfold core2. congruence.
  - apply acctR_core. pose proof (Logout_frame presented s) as [=]. unfold core2. congruence.
  - assert (relates acctR (Register cfg email username password displayName deviceLabel)) as Hr; [|apply Hr].
    apply relates_bind_l; [apply acctR_refl|auto with vibe|intros []].
    destruct (_ || _ || _); [apply relates_quiet; [apply acctR_refl|auto with vibe]|].
    destruct (_ <? _); [apply relates_quiet; [apply acctR_refl|auto with vibe]|].
    apply relates_bind_r; [|intros; auto with vibe]. apply relates_commits; [apply acctR_refl|].
    apply registerTx_acctR.
  - apply acctR_core. pose proof (BeginOAuth_frame cfg registry provider redirectURI codeChallenge s) as [=].
    unfold core2. congruence.
  - assert (relates acctR (CompleteOAuth cfg registry provider state code codeVerifier)) as Hr; [|apply Hr].
    apply relates_bind_l; [apply acctR_refl|auto with vibe|intros []].
    apply relates_bind_l; [apply acctR_refl|auto with vibe|intros prov].
    apply relates_bind; [apply acctR_trans| |intros flow].
    + apply relates_commits; [apply acctR_refl|]. eapply commits_mono, consumeTx_frame. intros a b [=].
      apply acctR_core. unfold core2. congruence.
    + unfold finishOAuth. apply relates_bind_l; [apply acctR_refl|auto with vibe|intros toks].
      apply relates_bind_l; [apply acctR_refl|auto with vibe|intros prof].
      destruct (_ || _); [apply relates_quiet; [apply acctR_refl|auto with vibe]|].
      apply relates_bind_r; [|intros; auto with vibe]. apply relates_commits; [apply acctR_refl|].
      intros s0 x s1 E I. apply completeOAuthTx_Ok in E as [Hr _]; [by apply Hr|done].
  - apply acctR_core. pose proof (GetProviderToken_frame cfg registry userID provider s) as [=].
    unfold core2. congruence.
  - apply acctR_core. pose proof (RotateKeys_frame cfg force signer s) as [=]. unfold core2. congruence.
  - apply acctR_core. pose proof (bootstrapSigner_frame s) as [=]. unfold core2. congruence.
Qed.

Lemma auth_run_acctR ops s : acctR (sdb s) (sdb (auth_run cfg registry ops s)).
Proof using CitextLaws0.
  revert s. induction ops as [|o ops IH]; intros s; [apply acctR_refl|].
  eapply acctR_trans; [apply (auth_exec_acctR o)|apply IH].
Qed.
End requests.
