(* ===== verification/KeySteps.v ===== *)
(** * Steps of the signing keys

    What requests do to the table of signing keys: nothing, or the first active
    key, or a rotation that retires the active key and adds another. *)

From S2P Require Import Prelude GoNum Errors GoString GoUnicode Store RoomDomain Outbox AuthDomain Auth Register OAuth SigningKeys AuthRuns AuthFrames AuthSteps.

Open Scope Z_scope.

Section advancing.
Context `{Env} `{PgCitext} `{Hasher} `{Signer} `{UnicodeLower} `{Cipher} `{TokenEndpoint} `{Jose}.
Context (cfg : AuthConfig) (registry : oauthRegistry).

Lemma advances_OutboxAppend es : advances (OutboxAppend es).
Proof. unfold OutboxAppend, Append. generalize O. induction es as [|e es IH]; intros i; simpl; advance_tac. Qed.
Hint Resolve advances_OutboxAppend : vibe.

Lemma auth_exec_advances o s : (sn s <= sn (auth_exec cfg registry o s))%nat.
Proof.
  destruct o; simpl; match goal with |- (_ <= sn (?m ?s).2)%nat => enough (advances m) as Ha by apply Ha end; clear s;
    advance_tac.
Qed.
End advancing.

(** ** What happens to the keys *)

Section keys.
Context `{Env} `{PgCitext} `{Hasher} `{Signer} `{UnicodeLower} `{Cipher} `{TokenEndpoint} `{Jose}.
Context (cfg : AuthConfig) (registry : oauthRegistry).

(** A key whose private and public parts are those of one key pair. *)
Definition genuine (k : SigningKey) : Prop :=
  exists priv der n, pkcs8Encode priv = Ok der /\ encryptBytes n der = Ok (skPrivateEncrypted k) /\
    jwkMarshal (rsaPublic priv) = Ok (skPublicJWK k).

(** An id drawn at an interaction from [n0] on and before [n1]. *)
Definition drawn (n0 n1 : nat) (kid : string) : Prop :=
  exists n, (n0 <= n < n1)%nat /\ kid = NewKID (env_rand n 8).

Definition noActive (keys : gmap string SigningKey) : Prop :=
  forall kid k, keys !! kid = Some k -> activeKey k = false.

(** The table before and after a request that spans the interactions [n0] to
    [n1]. *)
Inductive key_step (n0 n1 : nat) (keys : gmap string SigningKey) : gmap string SigningKey -> Prop :=
| key_same : key_step n0 n1 keys keys
| key_first k :
    noActive keys -> genuine k -> drawn n0 n1 (skKID k) -> skStatus k = SigningKeyStatusActive ->
    key_step n0 n1 keys (<[skKID k := upsertedKey (keys !! skKID k) k]> keys)
| key_rotate kid prev at_ k :
    keys !! kid = Some prev -> activeKey prev = true -> genuine k -> drawn n0 n1 (skKID k) ->
    skStatus k = SigningKeyStatusActive ->
    let keys' := alter (Retire at_) (skKID prev) keys in
    key_step n0 n1 keys (<[skKID k := upsertedKey (keys' !! skKID k) k]> keys').

Lemma key_step_mono n0 n1 m0 m1 keys keys' :
  key_step n0 n1 keys keys' -> (m0 <= n0)%nat -> (n1 <= m1)%nat -> key_step m0 m1 keys keys'.
Proof using Type.
  assert (forall kid, (m0 <= n0)%nat -> (n1 <= m1)%nat -> drawn n0 n1 kid -> drawn m0 m1 kid) as Hd.
  { intros kid ? ? (n & Hn & ->). exists n. split; [lia|done]. }
  intros [|k ? ? ? ?|kid prev at_ k ? ? ? ? ?] ? ?; [apply key_same|apply key_first|eapply key_rotate]; eauto.
Qed.

Lemma GetActive_try s r s' :
  stry SigningKeyRepo_GetActive s = (Ok r, s') ->
  sdb s' = sdb s /\
  match r with
  | Ok k => exists kid, dKeys (sdb s) !! kid = Some k /\ activeKey k = true
  | Err _ => saborted s' = true \/ noActive (dKeys (sdb s))
  end.
Proof using Type.
  intros E. apply stry_Ok in E.
  assert (reads (fun db => findRow activeKey (dKeys db)) SigningKeyRepo_GetActive) as [Hst Hr]
    by (unfold SigningKeyRepo_GetActive; auto with vibe).
  specialize (Hr s). rewrite E in Hr. destruct Hr as [Hdb Hr]. split; [done|].
  destruct r as [u|e]; [by apply findRow_Some in Hr|]. destruct Hr as [?|Hr]; [by left|right].
  intros k u Hk. by apply (findRow_None activeKey _ _ _ Hr Hk).
Qed.

Lemma KeyUpsert_Ok k s x s' :
  SigningKeyRepo_Upsert k s = (Ok x, s') ->
  saborted s = false /\ sdb s' = set_dKeys (insert (skKID k) (upsertedKey (dKeys (sdb s) !! skKID k) k)) (sdb s).
Proof using Type.
  intros E. pose proof (stmt_live _ _ _ _ _ E) as Hl. split; [done|].
  apply smapErr_Ok, stmt_Ok in E as [Hf _]. destruct (negb _); [done|]. destruct (_ && _); [done|]. by injection Hf as <-.
Qed.

Lemma GenerateSigningKey_Ok now kid s x s' :
  GenerateSigningKey now kid s = (Ok x, s') ->
  sdb s' = sdb s /\ saborted s' = saborted s /\ skKID x.1 = kid /\ skStatus x.1 = SigningKeyStatusActive /\
  exists der n, pkcs8Encode x.2 = Ok der /\ encryptBytes n der = Ok (skPrivateEncrypted x.1) /\
    jwkMarshal (rsaPublic x.2) = Ok (skPublicJWK x.1).
Proof using Type.
  unfold GenerateSigningKey. intros E.
  apply sbind_Ok in E as (priv & s1 & [= Hg <-] & E). apply sbind_Ok in E as (der & s2 & [= Hd <-] & E).
  apply sbind_Ok in E as (enc & s3 & [= He <-] & E). apply sbind_Ok in E as (jwk & s4 & [= Hj <-] & E).
  injection E as <- <-. split_and!; try done. eexists der, _. split_and!; [done|exact He|done].
Qed.

Lemma rotateTx_Ok now force k s s' :
  rotateTx cfg now force k s = (Ok tt, s') ->
  skStatus k = SigningKeyStatusActive -> genuine k -> forall n0 n1, drawn n0 n1 (skKID k) ->
  key_step n0 n1 (dKeys (sdb s)) (dKeys (sdb s')).
Proof using Type.
  intros E Ha Hg n0 n1 Hd. unfold rotateTx in E. apply sbind_Ok in E as (prev & s1 & Hp & E).
  apply GetActive_try in Hp as [Hs1 Hp]. destruct prev as [prev|e].
  - destruct Hp as (kid & Hk & Hact). destruct (_ && _); [done|]. apply sbind_Ok in E as ([] & s2 & Hm & E).
    apply smapErr_Ok, stmt_Ok in Hm as [[= Hs2] _]. apply KeyUpsert_Ok in E as [_ ->]. rewrite <- Hs2, Hs1. cbn [dKeys set_dKeys].
    by eapply key_rotate.
  - destruct (negb _); [done|]. apply KeyUpsert_Ok in E as [Hl ->]. destruct Hp as [Hab|Hno]; [congruence|].
    rewrite Hs1. by apply key_first.
Qed.

(** A computation that ends by interaction [n1] makes at most one step. *)
Definition spans {A} (n0 n1 : nat) (m : SM AuthDB A) (s : st AuthDB) : Prop :=
  (sn (m s).2 <= n1)%nat -> key_step n0 n1 (dKeys (sdb s)) (dKeys (sdb (m s).2)).

Lemma spans_quiet {A} n0 n1 (m : SM AuthDB A) s : quiet m -> spans n0 n1 m s.
Proof using Type. intros Hq _. rewrite (Hq s). apply key_same. Qed.

Lemma spans_bind_l {A B} n0 n1 (m : SM AuthDB A) (k : A -> SM AuthDB B) s :
  quiet m -> (forall a s', m s = (Ok a, s') -> sdb s' = sdb s -> spans n0 n1 (k a) s') -> spans n0 n1 (sbind m k) s.
Proof using Type.
  intros Hq Hk. unfold spans, sbind. specialize (Hq s). destruct (m s) as [[a|e] s'] eqn:Em; simpl in *; rewrite <- Hq.
  - by apply (Hk a s').
  - intros _. apply key_same.
Qed.

Lemma spans_bind_r {A B} n0 n1 (m : SM AuthDB A) (k : A -> SM AuthDB B) s :
  spans n0 n1 m s -> (forall a, quiet (k a)) -> (forall a, advances (k a)) -> spans n0 n1 (sbind m k) s.
Proof using Type.
  intros Hm Hq Ha. unfold spans, sbind in *. destruct (m s) as [[a|e] s'] eqn:Em; simpl in *; [|done].
  rewrite (Hq a s'). intros Hn. apply Hm. etrans; [apply (Ha a)|exact Hn].
Qed.

Lemma spans_withTx {A} n0 n1 (fn : SM AuthDB A) s :
  (forall a s1, fn (mkSt (sdb s) (S (sn s)) false) = (Ok a, s1) -> (sn s1 <= n1)%nat ->
     key_step n0 n1 (dKeys (sdb s)) (dKeys (sdb s1))) ->
  spans n0 n1 (withTx fn) s.
Proof using Type.
  intros Hf. unfold spans, withTx. destruct (env_begin _); [intros _; apply key_same|].
  destruct (fn _) as [[a|e] s1]; [|intros _; apply key_same]. specialize (Hf a s1 eq_refl).
  destruct (saborted s1); [intros _; apply key_same|].
  destruct (env_commit _) as [[e []]|]; simpl; intros Hn; first [apply key_same|apply Hf; lia].
Qed.

Lemma rotate_keys method force g s :
  let s' := (rotateSigningKey cfg method force g s).2 in
  key_step (sn s) (sn s') (dKeys (sdb s)) (dKeys (sdb s')).
Proof using Type.
  enough (spans (sn s) (sn (rotateSigningKey cfg method force g s).2) (rotateSigningKey cfg method force g) s) as Hs by by apply Hs.
  generalize (sn (rotateSigningKey cfg method force g s).2) as n1. intros n1. unfold rotateSigningKey at 1.
  apply spans_bind_l; [quiet_tac|]. intros now s1 [= <- <-] _.
  apply spans_bind_l; [quiet_tac|]. intros rnd s2 [= <- <-] _.
  apply spans_bind_l; [unfold internally; quiet_tac|]. intros [k priv] s3 Hg _.
  assert (S (S (sn s)) <= sn s3)%nat as Hn3.
  { assert (advances (internally "KEY_GEN_FAILED" (GenerateSigningKey (env_now (sn s)) (NewKID (env_rand (S (sn s)) 8)))))
      as Ha by advance_tac. specialize (Ha (step_n (step_n s))). cbn [sn step_n] in Hg, Ha. by rewrite Hg in Ha. }
  apply smapErr_Ok, GenerateSigningKey_Ok in Hg as (_ & _ & Hkid & Hact & der & n & Hp & He & Hj). simpl in Hkid, Hact, Hp, He, Hj.
  apply spans_bind_r; [| |].
  - apply spans_withTx. intros [] s4 Hr Hn4. apply (rotateTx_Ok _ _ _ _ _ Hr Hact); [by exists priv, der, n|].
    assert (advances (rotateTx cfg (env_now (sn s)) force k)) as Ha by advance_tac.
    specialize (Ha (mkSt (sdb s3) (S (sn s3)) false)). rewrite Hr in Ha. simpl in Ha.
    exists (S (sn s)). split; [lia|done].
  - intros []. destruct (isReloader method); [|quiet_tac]. unfold internally.
    apply quiet_bind; [apply quiet_withTx; auto with vibe|quiet_tac].
  - intros []. destruct (isReloader method); advance_tac.
Qed.

(** The key a restart signs with: the stored active one, or a new one. *)
Lemma bootstrapTx_Ok now s x s' n0 n1 :
  bootstrapTx now s = (Ok x, s') -> (n0 <= sn s)%nat -> (sn s' <= n1)%nat ->
  (sdb s' = sdb s /\ (exists kid, dKeys (sdb s) !! kid = Some x.1 /\ activeKey x.1 = true) /\
   exists der, decryptBytes (skPrivateEncrypted x.1) = Ok der /\ pkcs8Decode der = Ok x.2) \/
  (noActive (dKeys (sdb s)) /\ drawn n0 n1 (skKID x.1) /\ skStatus x.1 = SigningKeyStatusActive /\
   (exists der n, pkcs8Encode x.2 = Ok der /\ encryptBytes n der = Ok (skPrivateEncrypted x.1) /\
      jwkMarshal (rsaPublic x.2) = Ok (skPublicJWK x.1)) /\
   dKeys (sdb s') = <[skKID x.1 := upsertedKey (dKeys (sdb s) !! skKID x.1) x.1]> (dKeys (sdb s))).
Proof using Type.
  intros E Hn0 Hn1. unfold bootstrapTx in E. apply sbind_Ok in E as (prev & s1 & Hp & E).
  assert (sn s <= sn s1)%nat as Hn. { assert (advances (stry SigningKeyRepo_GetActive)) as Ha by advance_tac.
    specialize (Ha s). by rewrite Hp in Ha. }
  apply GetActive_try in Hp as [Hs1 Hp]. destruct prev as [prev|e].
  - left. destruct Hp as (kid & Hk & Hact). apply sbind_Ok in E as (der & s2 & Hd & E). apply smapErr_Ok in Hd. injection Hd as Hd <-.
    apply sbind_Ok in E as (priv & s3 & Hq & E). apply smapErr_Ok in Hq. injection Hq as Hq <-. injection E as <- <-.
    split_and!; [done|by exists kid|by exists der].
  - right. destruct (negb (isNoRows e) && _); [done|]. apply sbind_Ok in E as (rnd & s2 & [= <- <-] & E).
    apply sbind_Ok in E as (kp & s3 & Hg & E). apply sbind_Ok in E as ([] & s4 & Hu & [= <- <-]).
    assert (S (sn s1) <= sn s3 /\ sn s3 <= sn s4)%nat as [Hn3 Hn4].
    { assert (advances (GenerateSigningKey now (NewKID (env_rand (sn s1) 8)))) as Ha by advance_tac.
      assert (advances (SigningKeyRepo_Upsert kp.1)) as Hb by advance_tac. specialize (Ha (step_n s1)). specialize (Hb s3).
      rewrite Hg in Ha. rewrite Hu in Hb. done. }
    apply GenerateSigningKey_Ok in Hg as (Hs3 & Hab3 & Hkid & Hact & Hg). apply KeyUpsert_Ok in Hu as [Hl Hs4].
    assert (sdb s3 = sdb s) as Hdb by by rewrite Hs3.
    split_and!; [|exists (sn s1); split; [lia|done]|done..|by rewrite Hs4, Hdb].
    destruct Hp as [Hab|?]; [|done]. simpl in Hab3. congruence.
Qed.

Lemma bootstrap_keys s :
  let s' := (bootstrapSigner s).2 in key_step (sn s) (sn s') (dKeys (sdb s)) (dKeys (sdb s')).
Proof using Type.
  enough (spans (sn s) (sn (bootstrapSigner s).2) bootstrapSigner s) as Hs by by apply Hs.
  generalize (sn (bootstrapSigner s).2) as n1. intros n1. unfold bootstrapSigner at 1.
  apply spans_bind_l; [quiet_tac|]. intros now s1 [= <- <-] _. apply spans_bind_r.
  - apply spans_withTx. intros x s2 Hb Hn2. apply (bootstrapTx_Ok _ _ _ _ (sn s) n1) in Hb; [|simpl; lia|done].
    destruct Hb as [(-> & _)|(Hno & Hd & Ha & (der & n & Hp & He & Hj) & ->)]; [apply key_same|].
    apply key_first; try done. by exists x.2, der, n.
  - intros x. apply quiet_bind; [apply quiet_withTx; auto with vibe|quiet_tac].
  - intros x. advance_tac.
Qed.

Lemma CompleteOAuth_keys p state c v : relates (keeps dKeys) (CompleteOAuth cfg registry p state c v).
Proof using Type.
  assert (forall prof label toks name, commits (keeps dKeys) (completeOAuthTx cfg name prof label toks)) as Hc.
  { intros. eapply commits_mono, completeOAuthTx_flows. by intros a b [= _ E]. }
  assert (commits (keeps dKeys) (consumeTx state)) as Hf.
  { eapply commits_mono, consumeTx_frame. by intros a b [=]. }
  unfold CompleteOAuth, finishOAuth. keep_handler; auto.
Qed.

(** Every request makes at most one step. *)
Lemma auth_exec_keys o s :
  let s' := auth_exec cfg registry o s in key_step (sn s) (sn s') (dKeys (sdb s)) (dKeys (sdb s')).
Proof using Type.
  assert (forall s', dKeys (sdb s') = dKeys (sdb s) -> key_step (sn s) (sn s') (dKeys (sdb s)) (dKeys (sdb s'))) as Hsame
    by (intros s' ->; apply key_same).
  destruct o; simpl.
  - apply Hsame. pose proof (Login_frame cfg email password deviceLabel s) as [=]. congruence.
  - apply Hsame. pose proof (Refresh_frame cfg presented s) as [=]. congruence.
  - apply Hsame. pose proof (Logout_frame presented s) as [=]. congruence.
  - apply Hsame. pose proof (Register_flows cfg email username password displayName deviceLabel s) as [=]. congruence.
  - apply Hsame. pose proof (BeginOAuth_frame cfg registry provider redirectURI codeChallenge s) as [=]. congruence.
  - apply Hsame, CompleteOAuth_keys.
  - apply Hsame. pose proof (GetProviderToken_frame cfg registry userID provider s) as [=]. congruence.
  - unfold RotateKeys, sbind. pose proof (quiet_ctxDone s) as Hq. pose proof (advances_ctxDone s) as Ha.
    destruct (ctxDone s) as [[[]|e] s1]; simpl in *; [|by apply Hsame; rewrite Hq].
    eapply key_step_mono; [rewrite <- Hq; apply rotate_keys|done|done].
  - apply bootstrap_keys.
Qed.

(** ** The invariant *)

Record key_inv (n : nat) (keys : gmap string SigningKey) : Prop := {
  ki_keyed : forall kid k, keys !! kid = Some k -> skKID k = kid;
  ki_genuine : forall kid k, keys !! kid = Some k -> genuine k;
  ki_drawn : forall kid k, keys !! kid = Some k -> drawn 0 n kid;
  ki_status : forall kid k, keys !! kid = Some k ->
    skStatus k = SigningKeyStatusActive \/ skStatus k = SigningKeyStatusRetired;
  ki_one : forall kid1 kid2 k1 k2, keys !! kid1 = Some k1 -> keys !! kid2 = Some k2 ->
    activeKey k1 = true -> activeKey k2 = true -> kid1 = kid2;
}.

Definition hasActive (keys : gmap string SigningKey) : Prop :=
  exists kid k, keys !! kid = Some k /\ activeKey k = true.

(** Keys are kept with their public parts. *)
Definition keptKeys (keys keys' : gmap string SigningKey) : Prop :=
  forall kid k, keys !! kid = Some k -> exists k', keys' !! kid = Some k' /\ skPublicJWK k' = skPublicJWK k.

Lemma keptKeys_trans a b c : keptKeys a b -> keptKeys b c -> keptKeys a c.
Proof using Type.
  intros Hab Hbc kid k Hk. destruct (Hab _ _ Hk) as (k1 & Hk1 & E1). destruct (Hbc _ _ Hk1) as (k2 & Hk2 & E2).
  exists k2. split; [done|congruence].
Qed.

(** No key id is drawn twice before interaction [N]. *)
Definition kids_distinct (N : nat) : Prop :=
  forall n m, (n < N)%nat -> (m < N)%nat -> NewKID (env_rand n 8) = NewKID (env_rand m 8) -> n = m.

Lemma drawn_mono n0 n1 m0 m1 kid : drawn n0 n1 kid -> (m0 <= n0)%nat -> (n1 <= m1)%nat -> drawn m0 m1 kid.
Proof using Type. intros (n & Hn & ->) ? ?. exists n. split; [lia|done]. Qed.

Lemma drawn_fresh N n0 n1 keys k :
  kids_distinct N -> (n1 <= N)%nat -> key_inv n0 keys -> drawn n0 n1 (skKID k) -> keys !! skKID k = None.
Proof using Type.
  intros Hd HN I (n & Hn & Ek). destruct (keys !! skKID k) as [old|] eqn:Eo; [|done]. exfalso.
  destruct (ki_drawn _ _ I _ _ Eo) as (m & Hm & Em). enough (n = m) by lia. apply Hd; [lia..|congruence].
Qed.

(** A new active key, when no other is active. *)
Lemma key_inv_insert N n0 n1 keys k :
  kids_distinct N -> (n0 <= n1 <= N)%nat -> key_inv n0 keys -> noActive keys -> genuine k -> drawn n0 n1 (skKID k) ->
  skStatus k = SigningKeyStatusActive ->
  let keys' := <[skKID k := upsertedKey (keys !! skKID k) k]> keys in
  key_inv n1 keys' /\ keptKeys keys keys' /\ hasActive keys'.
Proof using Type.
  intros HN Hn I Hno Hg Hd Ha. rewrite (drawn_fresh N n0 n1 keys k) by (done || lia). cbn [upsertedKey].
  assert (forall kid k0, keys !! kid = Some k0 -> skKID k <> kid) as Hne.
  { intros kid k0 Hk E. subst kid. pose proof (drawn_fresh N n0 n1 keys k HN ltac:(lia) I Hd). congruence. }
  assert (activeKey (storedKey k) = true) as Hact by (unfold activeKey; simpl; by rewrite Ha).
  split_and!.
  - split.
    + intros kid k0 Hk. insert_cases; [done|by apply (ki_keyed _ _ I)].
    + intros kid k0 Hk. insert_cases; [done|by apply (ki_genuine _ _ I) in Hk].
    + intros kid k0 Hk. insert_cases; [by eapply drawn_mono; [exact Hd|lia|]|].
      eapply drawn_mono; [by apply (ki_drawn _ _ I _ _ Hk)|lia..].
    + intros kid k0 Hk. insert_cases; [left; simpl; by rewrite Ha|by apply (ki_status _ _ I) in Hk].
    + intros kid1 kid2 k1 k2 Hk1 Hk2 Ha1 Ha2. insert_cases; try done;
        repeat match goal with Hk : keys !! _ = Some _ |- _ => apply Hno in Hk end; congruence.
  - intros kid k0 Hk. exists k0. rewrite lookup_insert_ne by by apply (Hne kid k0). done.
  - exists (skKID k), (storedKey k). by rewrite lookup_insert_eq.
Qed.

(** The active key retires. *)
Lemma key_inv_retire n keys kid prev at_ :
  key_inv n keys -> keys !! kid = Some prev -> activeKey prev = true ->
  let keys' := alter (Retire at_) (skKID prev) keys in
  key_inv n keys' /\ keptKeys keys keys' /\ noActive keys'.
Proof using Type.
  intros I Hp Ha. rewrite (ki_keyed _ _ I _ _ Hp). intros keys'.
  assert (forall j k', keys' !! j = Some k' -> exists k, keys !! j = Some k /\ (j <> kid /\ k' = k \/ j = kid /\ k' = Retire at_ k)) as Hinv.
  { intros j k' Hj. subst keys'. destruct (decide (kid = j)) as [<-|Hne].
    - rewrite lookup_alter_eq in Hj. apply fmap_Some in Hj as (k & Hk & ->). exists k. auto.
    - rewrite lookup_alter_ne in Hj by done. exists k'. auto. }
  split_and!.
  - split.
    + intros j k' (k & Hk & [[Hne ->]|[-> ->]])%Hinv; by apply (ki_keyed _ _ I) in Hk.
    + intros j k' (k & Hk & [[Hne ->]|[-> ->]])%Hinv; by apply (ki_genuine _ _ I) in Hk.
    + intros j k' (k & Hk & _)%Hinv. by apply (ki_drawn _ _ I) in Hk.
    + intros j k' (k & Hk & [[Hne ->]|[-> ->]])%Hinv; [by apply (ki_status _ _ I) in Hk|by right].
    + intros j1 j2 k1 k2 (k & Hk & [[Hne ->]|[-> ->]])%Hinv (k' & Hk' & [[Hne' ->]|[-> ->]])%Hinv A1 A2; try done.
      by eapply (ki_one _ _ I).
  - intros j k Hk. subst keys'. destruct (decide (kid = j)) as [<-|Hne].
    + exists (Retire at_ k). by rewrite lookup_alter_eq, Hk.
    + exists k. by rewrite lookup_alter_ne.
  - intros j k' (k & Hk & [[Hne ->]|[-> ->]])%Hinv; [|done]. apply not_true_iff_false. intros Hk'.
    by pose proof (ki_one _ _ I _ _ _ _ Hk Hp Hk' Ha).
Qed.

Lemma key_step_inv N n0 n1 keys keys' :
  kids_distinct N -> (n0 <= n1 <= N)%nat -> key_inv n0 keys -> key_step n0 n1 keys keys' ->
  key_inv n1 keys' /\ keptKeys keys keys' /\ (hasActive keys -> hasActive keys').
Proof using Type.
  intros HN Hn I [|k Hno Hg Hd Hk|kid prev at_ k Hp Hact Hg Hd Hk ks].
  - split_and!; [|by intros ? k ?; exists k|done]. destruct I as [I1 I2 I3 I4 I5]. split; try done.
    intros kid k Hk. eapply drawn_mono; [by apply (I3 _ _ Hk)|lia..].
  - destruct (key_inv_insert N n0 n1 keys k) as (? & ? & ?); done.
  - destruct (key_inv_retire n0 keys kid prev at_ I Hp Hact) as (I1 & Hk1 & Hno). fold ks in I1, Hk1, Hno.
    destruct (key_inv_insert N n0 n1 ks k) as (? & ? & ?); try done. split_and!; [done| |done]. by eapply keptKeys_trans.
Qed.

Lemma auth_run_advances ops s : (sn s <= sn (auth_run cfg registry ops s))%nat.
Proof using Type.
  revert s. induction ops as [|o ops IH]; intros s; [done|]. etrans; [apply (auth_exec_advances cfg registry o)|apply IH].
Qed.

Lemma auth_run_keys ops s :
  let s' := auth_run cfg registry ops s in
  kids_distinct (sn s') -> key_inv (sn s) (dKeys (sdb s)) ->
  key_inv (sn s') (dKeys (sdb s')) /\ keptKeys (dKeys (sdb s)) (dKeys (sdb s')) /\
  (hasActive (dKeys (sdb s)) -> hasActive (dKeys (sdb s'))).
Proof using Type.
  revert s. induction ops as [|o ops IH]; intros s s' HN I.
  { split_and!; [done| |done]. intros kid k Hk. by exists k. }
  pose proof (auth_exec_advances cfg registry o s) as Ho. pose proof (auth_run_advances ops (auth_exec cfg registry o s)) as Hr.
  destruct (key_step_inv (sn s') _ _ _ _ HN ltac:(split; [exact Ho|exact Hr]) I (auth_exec_keys o s)) as (I1 & Hk1 & Ha1).
  destruct (IH (auth_exec cfg registry o s) HN I1) as (I2 & Hk2 & Ha2). split_and!; [done|by eapply keptKeys_trans|auto].
Qed.
End keys.
