(* ===== verification/KeyTheorems.v ===== *)
(** * Theorems about signing keys and access tokens

    At most one key is active and no key is lost, whatever the requests; a token
    is accepted until it expires by the signer that signed it and by the signer
    of every later start, rotations in between or not; the numbers of a
    published key can be read back. *)

From stdpp Require Import pretty.
From S2P Require Import Prelude GoNum Errors GoString GoUnicode Store RoomDomain Outbox AuthDomain Auth Register OAuth SigningKeys AuthRuns AuthDemo AuthFrames AuthSteps KeySteps.

Open Scope Z_scope.

(** ** Claims *)

(** The fields that are integers of limited width. *)
Definition claimsFit (j : jwtClaims) : Prop := in_s 32 (jcRole j) /\ in_s 64 (jcIat j) /\ in_s 64 (jcExp j).

Lemma claims_roundtrip j : claimsFit j -> unmarshalClaims (marshalClaims j) = Some j.
Proof.
  destruct j as [sub role scope jti iss aud iat exp]. intros (Hr & Hi & He). simpl in *.
  assert (forall o : jwtObject,
    o !! "sub" = Some (CStr sub) -> o !! "role" = Some (CInt role) -> o !! "jti" = Some (CStr jti) ->
    o !! "iss" = Some (CStr iss) -> o !! "iat" = Some (CInt iat) -> o !! "exp" = Some (CInt exp) ->
    strField "scope" o = Some scope -> strsField "aud" o = Some aud ->
    unmarshalClaims o = Some (mkJwtClaims sub role scope jti iss aud iat exp)) as Hgo.
  { intros o E1 E2 E3 E4 E5 E6 E7 E8. unfold unmarshalClaims. rewrite E7, E8. unfold strField, intField.
    rewrite E1, E2, E3, E4, E5, E6. by rewrite !decide_True by done. }
  unfold marshalClaims. simpl. case_bool_decide as Hs; [subst scope|]; destruct aud; apply Hgo; done.
Qed.

Section tokens.
Context `{J : Jose} `{!JoseLaws J}.

(** The claims a signer puts into a token, and what is read back: times are
    whole seconds. *)
Definition signedClaims (n : nat) (c : AccessTokenClaims) : jwtClaims :=
  mkJwtClaims (clSubject c) (clSystemRole c) (clScope c) (newUUID n) (clIssuer c) (clAudience c)
    (unixSeconds (clIssuedAt c)) (unixSeconds (clExpiresAt c)).
Definition readClaims (c : AccessTokenClaims) : AccessTokenClaims :=
  mkClaims (clSubject c) (clSystemRole c) (clIssuer c) (clAudience c) (unixSeconds (clIssuedAt c) * Second)
    (unixSeconds (clExpiresAt c) * Second) (clScope c).

(** What a signer that has the key says of a token. *)
Lemma Verify_signed now n g g' c t :
  Sign n g c = Ok t -> jsVerifiers g' !! jsActiveKID g = Some (rsaPublic (jsKey g)) -> claimsFit (signedClaims n c) ->
  Verify now g' t = if unixSeconds (clExpiresAt c) <=? unixSeconds now then Err (EVb (Unauthenticated "TOKEN_EXPIRED"))
                    else Ok (readClaims c, newUUID n).
Proof using JoseLaws0.
  intros Hs Hv Hfit. unfold Sign in Hs. apply sign_verify in Hs as (b & Hp & Hb).
  unfold Verify. rewrite Hp, Hv, Hb. simpl. fold (signedClaims n c). by rewrite (claims_roundtrip _ Hfit).
Qed.

(** ** Loading keys *)

Lemma loadVerifiable_spec ctx a keys m m' :
  loadVerifiable ctx a keys m = Ok m' ->
  forall kid, (m' !! kid = m !! kid /\ (kid = a \/ kid ∉ map fst keys)) \/
    exists jwk pub, (kid, jwk) ∈ keys /\ kid <> a /\ jwkUnmarshal jwk = Ok pub /\ m' !! kid = Some pub.
Proof using Type.
  revert m. induction keys as [|[k jwk] keys IH]; simpl; intros m E kid.
  { injection E as <-. left. split; [done|]. right. apply not_elem_of_nil. }
  case_bool_decide as Hk.
  - destruct (IH _ E kid) as [[Hm Hor]|(j & p & Hin & Hr)].
    + left. split; [done|]. destruct Hor as [?|Hn]; [by left|].
      destruct (decide (kid = a)); [by left|right]. apply not_elem_of_cons. split; [congruence|done].
    + right. exists j, p. split; [by apply elem_of_cons; right|done].
  - destruct (jwkUnmarshal jwk) as [pub|] eqn:Ej; [|done]. destruct (IH _ E kid) as [[Hm Hor]|(j & p & Hin & Hr)].
    + destruct (decide (kid = k)) as [->|Hne].
      * right. exists jwk, pub. rewrite lookup_insert_eq in Hm. split_and!; try done. apply elem_of_cons. by left.
      * left. rewrite lookup_insert_ne in Hm by done. split; [done|]. destruct Hor as [?|Hn]; [by left|right].
        by apply not_elem_of_cons.
    + right. exists j, p. split; [by apply elem_of_cons; right|done].
Qed.
End tokens.

(** ** The signer of a start *)

Section start.
Context `{Env} `{C : Cipher} `{J : Jose} `{!JoseLaws J}.
Hypothesis cipher_roundtrip : forall n v enc, encryptBytes n v = Ok enc -> decryptBytes enc = Ok v.

(** A signer that verifies with every stored key and signs with an active one. *)
Definition signerFor (g : JWTSigner) (keys : gmap string SigningKey) : Prop :=
  (forall kid k, keys !! kid = Some k -> exists pub, jwkUnmarshal (skPublicJWK k) = Ok pub /\ jsVerifiers g !! kid = Some pub) /\
  exists k, keys !! jsActiveKID g = Some k /\ activeKey k = true /\ jwkMarshal (rsaPublic (jsKey g)) = Ok (skPublicJWK k).

(** The private key that is stored belongs to the public one. *)
Lemma stored_pair k der priv :
  genuine k -> decryptBytes (skPrivateEncrypted k) = Ok der -> pkcs8Decode der = Ok priv ->
  jwkMarshal (rsaPublic priv) = Ok (skPublicJWK k).
Proof using JoseLaws0 cipher_roundtrip.
  intros (p & d & n & Hp & He & Hj) Hd Hk. apply cipher_roundtrip in He. apply pkcs8_roundtrip in Hp.
  rewrite Hd in He. injection He as ->. rewrite Hp in Hk. by injection Hk as <-.
Qed.

(** What [otherKeys] lists of a table. *)
Lemma elem_of_otherKeys (keys : gmap string SigningKey) kid a jwk :
  (kid, jwk) ∈ otherKeys a (merge_sort newerKey (filter verifiableStatus (map snd (map_to_list keys)))) <->
  kid <> a /\ exists j k, keys !! j = Some k /\ verifiableStatus k /\ skKID k = kid /\ skPublicJWK k = jwk.
Proof using Type.
  unfold otherKeys. rewrite list_elem_of_In, in_map_iff. split.
  - intros (k & [= <- <-] & Hin). apply list_elem_of_In, list_elem_of_filter in Hin as [Hne Hin].
    rewrite merge_sort_Permutation in Hin. apply list_elem_of_filter in Hin as [Hv Hin].
    apply list_elem_of_In, in_map_iff in Hin as ([j k'] & <- & Hin). apply list_elem_of_In, elem_of_map_to_list in Hin.
    split; [done|]. by exists j, k'.
  - intros (Hne & j & k & Hk & Hv & <- & <-). exists k. split; [done|].
    apply list_elem_of_In, list_elem_of_filter. split; [done|]. rewrite merge_sort_Permutation.
    apply list_elem_of_filter. split; [done|]. apply list_elem_of_In, in_map_iff. exists (j, k). split; [done|].
    by apply list_elem_of_In, elem_of_map_to_list.
Qed.

Lemma NewJWTSigner_covers key priv keys g n :
  key_inv n keys ->
  NewJWTSigner key (Some priv) (otherKeys (skKID key) (merge_sort newerKey (filter verifiableStatus (map snd (map_to_list keys))))) = Ok g ->
  (exists k, keys !! skKID key = Some k /\ activeKey k = true /\ jwkMarshal (rsaPublic priv) = Ok (skPublicJWK k)) ->
  signerFor g keys.
Proof using JoseLaws0.
  intros I E (ka & Hka & Hact & Hj). unfold NewJWTSigner in E. destruct (loadVerifiable _ _ _ _) as [m|] eqn:El; [|done].
  injection E as <-. split; [|by exists ka]. cbn [jsVerifiers]. intros kid k Hk.
  destruct (loadVerifiable_spec _ _ _ _ _ El kid) as [[Hm Hor]|(jwk & pub & Hin & Hne & Hp & Hm)].
  - destruct (decide (kid = skKID key)) as [->|Hne].
    + rewrite Hka in Hk. injection Hk as <-. apply jwk_roundtrip in Hj. exists (rsaPublic priv). split; [done|].
      rewrite Hm. apply lookup_singleton_eq.
    + destruct Hor as [?|Hn]; [done|]. exfalso. apply Hn. apply list_elem_of_In, in_map_iff.
      exists (kid, skPublicJWK k). split; [done|]. apply list_elem_of_In, elem_of_otherKeys. split; [done|].
      exists kid, k. split_and!; [done| |by apply (ki_keyed _ _ I)|done]. unfold verifiableStatus. by apply (ki_status _ _ I) in Hk.
  - apply elem_of_otherKeys in Hin as (_ & j & k' & Hk' & _ & Hkid & Hjwk).
    rewrite (ki_keyed _ _ I _ _ Hk') in Hkid. subst j. rewrite Hk in Hk'. injection Hk' as <-. exists pub. by rewrite Hjwk.
Qed.

Lemma bootstrapSigner_Ok s g s' :
  key_inv (sn s) (dKeys (sdb s)) -> bootstrapSigner s = (Ok g, s') -> kids_distinct (sn s') ->
  signerFor g (dKeys (sdb s')) /\ key_inv (sn s') (dKeys (sdb s')) /\ keptKeys (dKeys (sdb s)) (dKeys (sdb s')).
Proof using JoseLaws0 cipher_roundtrip.
  intros I E HN. pose proof (bootstrap_keys s) as Hstep. assert (advances bootstrapSigner) as Hadv by advance_tac.
  specialize (Hadv s). simpl in Hstep, Hadv. rewrite E in Hstep, Hadv. simpl in Hstep, Hadv.
  destruct (key_step_inv (sn s') _ _ _ _ HN (conj Hadv (le_n _)) I Hstep) as (I' & Hkept & _). split; [|done]. clear Hstep Hkept Hadv.
  unfold bootstrapSigner in E. rewrite run_now in E. apply sbind_Ok in E as (kp & s1 & Hb & E).
  apply sbind_Ok in E as (stored & s2 & Hl & E). injection E as E <-.
  apply withTx_cases in Hl as [[_ [e [=]]]|(a & s3 & Hl & _ & Hs2 & [[= <-]|[e [=]]])].
  apply smapErr_Ok, stmt_Ok in Hl as [[= Hst Hs3] _]. simpl in Hst, Hs3. rewrite <- Hst in E. clear Hst.
  assert (sdb s2 = sdb s1) as Hdb by (rewrite Hs2, <- Hs3; done). cbn [sdb sn step_n] in *. rewrite Hdb in *. clear Hs2 Hs3 Hdb.
  eapply NewJWTSigner_covers; [done|exact E|]. clear E.
  apply withTx_cases in Hb as [[_ [e [=]]]|(x & s4 & Hb & _ & Hs1 & [[= <-]|[e [=]]])]. rewrite Hs1 in *. clear Hs1.
  apply (bootstrapTx_Ok _ _ _ _ 0 (sn s4)) in Hb; [|lia|done].
  destruct Hb as [(Hdb & (kid & Hk & Ha) & der & Hd & Hp)|(Hno & Hd & Ha & (der & n & Hp & He & Hj) & Hdb)]; simpl in *.
  - exists kp.1. rewrite Hdb in *. rewrite (ki_keyed _ _ I' _ _ Hk). split_and!; [done..|].
    eapply stored_pair; [by apply (ki_genuine _ _ I' _ _ Hk)|done|done].
  - exists (upsertedKey (dKeys (sdb s) !! skKID kp.1) kp.1). rewrite Hdb, lookup_insert_eq. split_and!; [done| |].
    + unfold activeKey, upsertedKey. destruct (dKeys (sdb s) !! _); simpl; by rewrite Ha.
    + by destruct (dKeys (sdb s) !! skKID kp.1).
Qed.

(** Signers of the same keys agree: one has the key of the other. *)
Lemma signerFor_verifies g g' keys keys' :
  signerFor g keys -> keptKeys keys keys' -> signerFor g' keys' ->
  jsVerifiers g' !! jsActiveKID g = Some (rsaPublic (jsKey g)).
Proof using JoseLaws0.
  intros (_ & k & Hk & _ & Hj) Hkept [Hg' _]. destruct (Hkept _ _ Hk) as (k' & Hk' & Ejwk).
  destruct (Hg' _ _ Hk') as (pub & Hp & ->). rewrite Ejwk in Hp. apply jwk_roundtrip in Hj. congruence.
Qed.
End start.

(** ** Theorems *)

Lemma key_inv_start `{Env} `{Cipher} `{Jose} n users : key_inv n (dKeys (sdb (authStart users))).
Proof. by split; intros *; rewrite ?lookup_empty. Qed.

(** C17. Signing keys are sound: after any requests, whatever failed, at most one
    key is active, keys are either active or retired, and from then on no
    request removes a key, changes its public part or leaves the table without
    an active key once it had one, as long as no key id is drawn twice. *)
Theorem signing_keys_sound `{Env} `{PgCitext} `{Hasher} `{Signer} `{UnicodeLower} `{Cipher} `{TokenEndpoint} `{Jose}
    cfg registry users ops later :
  let s := auth_run cfg registry ops (authStart users) in
  let s' := auth_run cfg registry later s in
  kids_distinct (sn s') ->
  (forall kid1 kid2 k1 k2, dKeys (sdb s) !! kid1 = Some k1 -> dKeys (sdb s) !! kid2 = Some k2 ->
     activeKey k1 = true -> activeKey k2 = true -> kid1 = kid2) /\
  (forall kid k, dKeys (sdb s) !! kid = Some k ->
     (skStatus k = SigningKeyStatusActive \/ skStatus k = SigningKeyStatusRetired) /\
     exists k', dKeys (sdb s') !! kid = Some k' /\ skPublicJWK k' = skPublicJWK k) /\
  (hasActive (dKeys (sdb s)) -> hasActive (dKeys (sdb s'))).
Proof.
  intros s s' HN. pose proof (auth_run_advances cfg registry later s) as Hadv. fold s' in Hadv.
  destruct (auth_run_keys cfg registry ops (authStart users)) as (I & _); [|apply key_inv_start|].
  { intros n m Hn Hm. apply HN; fold s in Hn, Hm; lia. }
  fold s in I. destruct (auth_run_keys cfg registry later s HN I) as (_ & Hk & Ha). split_and!; [apply I| |done].
  intros kid k Hkk. split; [by apply (ki_status _ _ I) in Hkk|by apply Hk].
Qed.

(** C25. Tokens outlive rotations and restarts: a token signed by the signer of
    one start is read back, with its times in whole seconds, by that signer and
    by the signer of any later start, whatever requests (key rotations among
    them) come in between, until it expires; then both refuse it as expired.
    This relies on what go-jose and the cipher promise and on key ids not being
    drawn twice. *)
Theorem tokens_outlive_rotation `{Env} `{PgCitext} `{Hasher} `{Signer} `{UnicodeLower} `{Cipher} `{TokenEndpoint}
    `{J : Jose} `{!JoseLaws J} cfg registry users ops later g s1 n c t g' s3 now :
  (forall n v enc, encryptBytes n v = Ok enc -> decryptBytes enc = Ok v) ->
  bootstrapSigner (auth_run cfg registry ops (authStart users)) = (Ok g, s1) -> Sign n g c = Ok t ->
  bootstrapSigner (auth_run cfg registry later s1) = (Ok g', s3) -> kids_distinct (sn s3) ->
  claimsFit (signedClaims n c) ->
  let outcome := if unixSeconds (clExpiresAt c) <=? unixSeconds now then Err (EVb (Unauthenticated "TOKEN_EXPIRED"))
                 else Ok (readClaims c, newUUID n) in
  Verify now g t = outcome /\ Verify now g' t = outcome.
Proof.
  intros Hc Hb1 Hs Hb2 HN Hfit. set (s0 := auth_run cfg registry ops (authStart users)) in *.
  set (s2 := auth_run cfg registry later s1) in *.
  assert (sn s0 <= sn s1 /\ sn s1 <= sn s2 /\ sn s2 <= sn s3)%nat as (A1 & A2 & A3).
  { pose proof (auth_exec_advances cfg registry ARestart s0) as A1. pose proof (auth_exec_advances cfg registry ARestart s2) as A3.
    simpl in A1, A3. rewrite Hb1 in A1. rewrite Hb2 in A3. split_and!; [done|apply auth_run_advances|done]. }
  assert (forall N, (N <= sn s3)%nat -> kids_distinct N) as HN' by (intros N HNN n1 m1 Hn1 Hm1; apply HN; lia).
  destruct (auth_run_keys cfg registry ops (authStart users)) as (I0 & _); [apply HN'; fold s0; lia|apply key_inv_start|].
  fold s0 in I0. destruct (bootstrapSigner_Ok Hc s0 g s1 I0 Hb1) as (G1 & I1 & _); [apply HN'; lia|].
  destruct (auth_run_keys cfg registry later s1) as (I2 & K2 & _); [apply HN'; fold s2; lia|done|]. fold s2 in I2, K2.
  destruct (bootstrapSigner_Ok Hc s2 g' s3 I2 Hb2 HN) as (G3 & _ & K3).
  split; (eapply Verify_signed; [exact Hs| |done]).
  - eapply signerFor_verifies; [exact G1| |exact G1]. intros kid k Hk. by exists k.
  - eapply signerFor_verifies; [exact G1| |exact G3]. by eapply keptKeys_trans.
Qed.

(** ** The numbers of a published key *)

(** The number that bytes spell, most significant first (RFC 7518). *)
Definition fromBytes (l : list Z) : Z := fold_left (fun a b => a * 256 + b) l 0.

Lemma fromBytes_app l1 l2 : fromBytes (l1 ++ l2) = fold_left (fun a b => a * 256 + b) l2 (fromBytes l1).
Proof. apply fold_left_app. Qed.

(** Minimal: no leading zero byte. *)
Definition minimal (l : list Z) : Prop := Forall isByte l /\ match l with b :: _ :: _ => b <> 0 | _ => True end.

(** The loop keeps the value; the fuel is enough because every round divides
    the number by 256. *)
Lemma bigBytes_value fuel z acc :
  0 <= z < 2 ^ Z.of_nat fuel ->
  exists l, bigBytes fuel z acc = l ++ acc /\ fromBytes l = z /\ Forall isByte l /\ match l with b :: _ => b <> 0 | [] => z = 0 end.
Proof.
  revert z acc. induction fuel as [|fuel IH]; intros z acc Hz.
  { exists []. split_and!; try done; simpl in *; unfold fromBytes; simpl; lia. }
  simpl. destruct (Z.eqb_spec z 0) as [->|Hne]; [by exists []|].
  pose proof (Z.div_mod z 256 ltac:(lia)) as Hdm. pose proof (Z.mod_pos_bound z 256 ltac:(lia)) as Hb.
  rewrite Nat2Z.inj_succ, Z.pow_succ_r in Hz by lia.
  destruct (IH (z / 256) (z mod 256 :: acc)) as (l & -> & Hv & Hbs & Hl); [split; [apply Z.div_pos; lia|apply Z.div_lt_upper_bound; lia]|].
  exists (l ++ [z mod 256]). rewrite <- app_assoc, fromBytes_app, Hv. split_and!; [done|simpl; lia| |].
  - apply Forall_app. split; [done|]. constructor; [unfold isByte; lia|done].
  - destruct l as [|b l]; simpl; [lia|done].
Qed.

Lemma byteAt_spec v n : 0 <= n -> byteAt v n = (v / 2 ^ n) mod 256.
Proof. intros Hn. unfold byteAt. rewrite Z.shiftr_div_pow2 by done. change 255 with (Z.ones 8). by rewrite Z.land_ones by lia. Qed.

Lemma byteAt_range v n : 0 <= n -> isByte (byteAt v n).
Proof. intros Hn. rewrite byteAt_spec by done. unfold isByte. apply Z.mod_pos_bound. lia. Qed.

Lemma dropZeros_spec l : l <> [] -> Forall isByte l -> minimal (dropZeros l) /\ fromBytes (dropZeros l) = fromBytes l.
Proof.
  intros Hne Hl. induction Hl as [|b [|c rest] Hb Hl IH]; [done| |].
  - simpl. split; [|done]. split; [by constructor|done].
  - cbn [dropZeros]. destruct (Z.eqb_spec b 0) as [->|Hb0].
    + destruct IH as [Hm Hv]; [done|]. split; [exact Hm|exact Hv].
    + split; [|done]. split; [by constructor|done].
Qed.

(** A published key can be read back: the bytes of the modulus and of the
    exponent spell the number they encode, most significant first and without
    leading zeros, for every modulus and every exponent of at most 32 bits. *)
Theorem jwk_numbers_roundtrip `{Jose} (p : rsaPub) :
  0 <= rsaN p -> 0 <= rsaE p < 2 ^ 32 ->
  fromBytes (bigIntBytes (rsaN p)) = rsaN p /\ minimal (bigIntBytes (rsaN p)) /\
  fromBytes (exponentBytes (rsaE p)) = rsaE p /\ minimal (exponentBytes (rsaE p)).
Proof.
  intros HN HE. unfold bigIntBytes, exponentBytes. generalize dependent (rsaE p). generalize dependent (rsaN p). intros z Hz v Hv.
  destruct (bigBytes_value (S (Z.to_nat (Z.log2 z))) z []) as (l & -> & Hl & Hb & Hh).
  { rewrite Nat2Z.inj_succ, Z2Nat.id by apply Z.log2_nonneg. destruct (Z.eq_dec z 0) as [->|]; [done|].
    pose proof (Z.log2_spec z ltac:(lia)). lia. }
  rewrite app_nil_r. split; [done|]. split; [split; [done|by destruct l as [|? [|? ?]]]|]. clear l Hl Hb Hh.
  set (bs := if v =? 0 then _ else _).
  assert (bs <> [] /\ Forall isByte bs /\ fromBytes bs = v) as (Hne & Hbs & Hval).
  { subst bs. unfold fromBytes. destruct (Z.eqb_spec v 0) as [->|Hv0]; [split_and!; try done; by constructor|].
    destruct (Z.ltb_spec v 256); [|destruct (Z.ltb_spec v 65536)]; (split; [done|]);
      (split; [repeat (apply Forall_cons; split; [by apply byteAt_range|]); done|]); simpl; rewrite !byteAt_spec by done; simpl;
      Z.to_euclidean_division_equations; lia. }
  destruct (dropZeros_spec bs Hne Hbs) as [Hm Hd]. by rewrite Hd.
Qed.

(** ** Witnesses *)

#[local] Existing Instances authEnv authEnv_Calm prefixHasher constSigner exactCitext idLower markCipher echoEndpoint toyJose toyJose_laws.

Lemma demo_kids N : (N <= 255)%nat -> kids_distinct N.
Proof.
  intros HN n m Hn Hm E.
  assert (NoDup (map (fun n => NewKID (env_rand n 8)) (seq 0 255))) as Hnd by (apply (bool_decide_eq_true_1 _); by vm_compute).
  assert (forall k, (k < 255)%nat -> map (fun n => NewKID (env_rand n 8)) (seq 0 255) !! k = Some (NewKID (env_rand k 8))) as Hl.
  { intros k Hk. rewrite list_lookup_fmap, lookup_seq_lt by done. done. }
  eapply NoDup_lookup; [exact Hnd|apply Hl; lia|]. rewrite E. apply Hl. lia.
Qed.

(** A start, a forced rotation and another start. *)
Definition firstStart := bootstrapSigner (auth_run demoAuthConfig demoRegistry [] (authStart demoUsers)).
Definition noSigner : JWTSigner := mkJWTSigner "" (0 : rsaPriv) ∅ ∅.
Definition signerOf (r : res error JWTSigner) : JWTSigner := match r with Ok g => g | Err _ => noSigner end.
Lemma signerOf_ok (p : res error JWTSigner * st AuthDB) : is_Ok p.1 = true -> p = (Ok (signerOf p.1), p.2).
Proof. by destruct p as [[g|e] s]. Qed.
Definition rotation : list auth_op := [ARotateKeys true (signerOf firstStart.1)].
Definition secondStart := bootstrapSigner (auth_run demoAuthConfig demoRegistry rotation firstStart.2).
Definition demoClaims : AccessTokenClaims := mkClaims "u1" SYSTEM_USER "vibesync" [] (5 * second + 7) (900 * second) "".
Definition demoToken : string := match Sign 9 (signerOf firstStart.1) demoClaims with Ok t => t | Err _ => "" end.

Lemma signing_keys_sound_witness :
  size (dKeys (sdb secondStart.2)) = 2%nat /\
  (forall kid1 kid2 k1 k2, dKeys (sdb secondStart.2) !! kid1 = Some k1 -> dKeys (sdb secondStart.2) !! kid2 = Some k2 ->
     activeKey k1 = true -> activeKey k2 = true -> kid1 = kid2).
Proof.
  split; [by vm_compute|].
  destruct (signing_keys_sound demoAuthConfig demoRegistry demoUsers ([ARestart] ++ rotation ++ [ARestart]) []) as [Hone _];
    [apply demo_kids; vm_compute; lia|exact Hone].
Defined.

Lemma firstStart_ok : is_Ok firstStart.1 = true.
Proof. by vm_compute. Qed.
Lemma secondStart_ok : is_Ok secondStart.1 = true.
Proof. by vm_compute. Qed.
Lemma demoToken_signed : Sign 9 (signerOf firstStart.1) demoClaims = Ok demoToken.
Proof. by vm_compute. Qed.
Lemma demoClaims_fit : claimsFit (signedClaims 9 demoClaims).
Proof. by vm_compute. Qed.
Lemma secondStart_kids : kids_distinct (sn secondStart.2).
Proof. apply demo_kids. vm_compute. lia. Qed.

Lemma substring_short v n : String.substring 0 (n + String.length v) v = v.
Proof. revert n. induction v as [|a v IH]; intros n; [by destruct n|]. simpl. by rewrite Nat.add_succ_r, IH. Qed.

Lemma markCipher_roundtrip n v enc : encryptBytes n v = Ok enc -> decryptBytes enc = Ok v.
Proof.
  intros [= <-]. unfold decryptBytes, markCipher. simpl. rewrite bool_decide_true by (by destruct v).
  f_equal. apply (substring_short v 2).
Qed.

Lemma tokens_outlive_rotation_witness :
  Verify (6 * second) (signerOf secondStart.1) demoToken = Ok (readClaims demoClaims, newUUID 9) /\
  Verify (900 * second) (signerOf secondStart.1) demoToken = Err (EVb (Unauthenticated "TOKEN_EXPIRED")).
Proof.
  pose proof (fun now => proj2 (tokens_outlive_rotation demoAuthConfig demoRegistry demoUsers [] rotation (signerOf firstStart.1)
    firstStart.2 9 demoClaims demoToken (signerOf secondStart.1) secondStart.2 now markCipher_roundtrip
    (signerOf_ok _ firstStart_ok) demoToken_signed (signerOf_ok _ secondStart_ok) secondStart_kids demoClaims_fit)) as Hv.
  split; [exact (Hv (6 * second))|exact (Hv (900 * second))].
Defined.

Definition demoPub : @rsaPub toyJose := 70000.

Lemma jwk_numbers_roundtrip_witness :
  bigIntBytes (rsaN demoPub) = [1; 17; 112] /\ exponentBytes (rsaE demoPub) = [1; 0; 1] /\
  fromBytes (exponentBytes (rsaE demoPub)) = 65537.
Proof.
  split; [by vm_compute|]. split; [by vm_compute|].
  destruct (jwk_numbers_roundtrip demoPub) as (_ & _ & -> & _); [by vm_compute|by vm_compute|done].
Defined.

(** ** Where the code differs from its comments *)

(** A rotation does not reach the running signer: [Reload] of [JWTSigner] has
    another signature than the interface the use case asks for, so the signer
    keeps signing with the retired key until the service restarts. *)
Example rotation_not_reloaded :
  isReloader JWTSigner_Reload = false /\
  match RotateKeys demoAuthConfig true (signerOf firstStart.1) firstStart.2 with
  | (Ok (newKID, g), s') =>
      bool_decide (jsActiveKID g = newKID) = false /\ bool_decide (is_Some (jsVerifiers g !! newKID)) = false /\
      option_map skStatus (dKeys (sdb s') !! jsActiveKID g) = Some SigningKeyStatusRetired
  | _ => False
  end.
Proof. by vm_compute. Qed.

(** Introspecting a token that is not valid is an error, and not the inactive
    answer: the type assertion of [isAuthErr] never holds. *)
Example introspect_invalid_is_error :
  (forall e, isAuthErr e = false) /\
  match Introspect (signerOf firstStart.1) "x" firstStart.2 with
  | (Err e, _) => wireCode e = CodeUnauthenticated
  | _ => False
  end.
Proof. split; [by intros []|by vm_compute]. Qed.

(** A token of another issuer that was signed with a known key is accepted. *)
Example issuer_not_checked :
  match Sign 9 (signerOf firstStart.1) (mkClaims "u1" SYSTEM_USER "elsewhere" [] 0 (900 * second) "") with
  | Ok t => is_Ok (Verify (6 * second) (signerOf firstStart.1) t) = true
  | Err _ => False
  end.
Proof. by vm_compute. Qed.
