(* ===== verification/AuthTheorems.v ===== *)
(** * Theorems about refresh tokens

    From the steps of [AuthSteps]: a family never has two usable tokens, a token
    is rotated at most once, and a token that was used or logged out is refused
    for ever, whatever other requests the service handles.  Then the outcome of
    presenting a token, on every branch. *)

From stdpp Require Import pretty.
From S2P Require Import Prelude GoNum GoFloat Errors GoString GoUnicode Store RoomDomain Outbox AuthDomain Auth Register OAuth SigningKeys AuthRuns AuthSteps AuthDemo.

Open Scope Z_scope.

(** ** What happens to a token *)

(** A token keeps its row and its identity, and only an active token changes. *)
Definition evolves (t t' : RefreshToken) : Prop :=
  token_identity t' = token_identity t /\
  (t' = t \/ (rtStatus t = StatusActive /\ (rtStatus t' = StatusUsed \/ rtStatus t' = StatusRevoked))).

Lemma auth_step_evolves db db' k t :
  auth_step db db' -> dTokens db !! k = Some t ->
  exists t', dTokens db' !! k = Some t' /\ evolves t t'.
Proof.
  assert (evolves t t) as Hsame by (split; [done|by left]).
  intros [db0 db1 [= _ _ Hcore]|db0 u Hu|db0 u sess x _ _ _ _ (Hid & _) _ _ _ _
         |db0 rt nt used seen Hrt Hact (Hid & _) _ _ _ _|db0 rt revoked Hrt Hact] Ht; simpl.
  - rewrite Hcore. by exists t.
  - by exists t.
  - exists t. by rewrite lookup_insert_ne by congruence.
  - rewrite lookup_insert_ne by congruence. destruct (decide (k = rtID rt)) as [->|Hne].
    + rewrite lookup_insert_eq. eexists. split; [done|]. rewrite Ht in Hrt. injection Hrt as ->.
      split; [done|]. right. split; [done|by left].
    + exists t. by rewrite lookup_insert_ne.
  - destruct (decide (k = rtID rt)) as [->|Hne].
    + rewrite lookup_insert_eq. eexists. split; [done|]. rewrite Ht in Hrt. injection Hrt as ->.
      split; [done|]. right. split; [done|by right].
    + exists t. by rewrite lookup_insert_ne.
Qed.

Section runs.
Context `{Env} `{PgCitext} `{Hasher} `{Signer} `{UnicodeLower} `{Cipher} `{TokenEndpoint} `{Jose}.
Context (cfg : AuthConfig) (registry : oauthRegistry).

(** A token that is not active never changes again. *)
Lemma auth_steps_final db db' k t :
  auth_steps db db' -> dTokens db !! k = Some t -> rtStatus t <> StatusActive -> dTokens db' !! k = Some t.
Proof.
  induction 1 as [|x y z Hs _ IH]; [done|]. intros Ht Hst. apply IH; [|done].
  destruct (auth_step_evolves _ _ _ _ Hs Ht) as (t' & Ht' & _ & [->|[? _]]); done.
Qed.

Lemma auth_run_final ops s k t :
  auth_inv (sdb s) -> dTokens (sdb s) !! k = Some t -> rtStatus t <> StatusActive ->
  dTokens (sdb (auth_run cfg registry ops s)) !! k = Some t.
Proof.
  revert s. induction ops as [|o ops IH]; intros s I Ht Hst; [done|].
  apply (IH (auth_exec cfg registry o s)); [by apply auth_exec_inv| |done].
  eapply auth_steps_final; [by apply auth_exec_steps|done..].
Qed.

(** Presenting a token that is not active. *)
Lemma refresh_refused p s k t :
  auth_inv (sdb s) -> dTokens (sdb s) !! k = Some t -> rtSelector t = (splitSelectorValidator p).1 ->
  rtStatus t <> StatusActive ->
  let out := RefreshTokenRPC cfg p s in (exists e, out.1 = Err e) /\ sdb out.2 = sdb s.
Proof.
  intros I Ht Hsel Hst. destruct (RefreshTokenRPC_cases cfg p s I) as [[Hs He]|(rt & now & Hrt & Hs & Ha & _)];
    [done|].
  exfalso. pose proof (inv_selectors _ I _ _ _ _ Ht Hrt ltac:(congruence)) as ->.
  rewrite Hrt in Ht. injection Ht as <-. done.
Qed.
End runs.

(** ** Theorems *)

(** C4. A refresh token works at most once, when requests are served one after the
    other: once it has been exchanged for a new one, or its owner has logged out
    with it, every later attempt to use it is refused, whatever requests were
    served in between and whatever failed. *)
Theorem refresh_single_use `{Env} `{PgCitext} `{Hasher} `{Signer} `{UnicodeLower} `{Cipher} `{TokenEndpoint} `{Jose}
    cfg registry users ops p s1 later :
  (forall k u, users !! k = Some u -> uID u = k) ->
  let s := auth_run cfg registry ops (authStart users) in
  (exists x, RefreshTokenRPC cfg p s = (Ok x, s1)) \/ Logout p s = (Ok true, s1) ->
  let s2 := auth_run cfg registry later s1 in
  exists e, (RefreshTokenRPC cfg p s2).1 = Err e.
Proof.
  intros Hu s Hdone. assert (auth_inv (sdb s)) as I by (by apply auth_run_inv, auth_inv_start).
  assert (auth_inv (sdb s1) /\ exists k t, dTokens (sdb s1) !! k = Some t /\
    rtSelector t = (splitSelectorValidator p).1 /\ rtStatus t <> StatusActive) as (I1 & k & t & Ht & Hsel & Hst).
  { destruct Hdone as [[x Hx]|Hx].
    - pose proof (auth_exec_inv cfg registry (ARefresh p) s I) as I1. simpl in I1. rewrite Hx in I1. split; [exact I1|].
      pose proof (RefreshTokenRPC_cases cfg p s I) as Hc. rewrite Hx in Hc.
      destruct Hc as [[_ [e [=]]]|(rt & now & Hrt & Hsel & _ & _ & _ & _ & Hused)].
      by eexists _, _.
    - pose proof (auth_exec_inv cfg registry (ALogout p) s I) as I1. simpl in I1. rewrite Hx in I1. split; [exact I1|].
      pose proof (Logout_cases p s I) as Hc. rewrite Hx in Hc.
      destruct Hc as [[_ []]|(rt & now & Hrt & Hsel & Ha & Hs1)]; [done|]. simpl in Hs1. rewrite Hs1.
      exists (rtID rt). eexists. split; [apply lookup_insert_eq|done]. }
  intros s2. eapply refresh_refused; [|by apply auth_run_final|done..].
  by apply auth_run_inv.
Qed.

(** C20. Token families are chains, when requests are served one after the other:
    in every state such requests reach, whatever fails, a family has at most
    one usable token, every token belongs to a session of the same family and
    user, a token is the successor of at most one token and has at most one
    successor, and a token that has a successor is not usable. *)
Theorem token_families `{Env} `{PgCitext} `{Hasher} `{Signer} `{UnicodeLower} `{Cipher} `{TokenEndpoint} `{Jose}
    cfg registry users ops :
  (forall k u, users !! k = Some u -> uID u = k) ->
  let db := sdb (auth_run cfg registry ops (authStart users)) in
  (forall k1 k2 t1 t2, dTokens db !! k1 = Some t1 -> dTokens db !! k2 = Some t2 ->
     rtFamilyID t1 = rtFamilyID t2 -> rtStatus t1 = StatusActive -> rtStatus t2 = StatusActive -> k1 = k2) /\
  (forall k t, dTokens db !! k = Some t -> exists s, dSessions db !! rtSessionID t = Some s /\
     seFamilyID s = rtFamilyID t /\ seUserID s = rtUserID t) /\
  (forall k1 k2 t1 t2, dTokens db !! k1 = Some t1 -> dTokens db !! k2 = Some t2 ->
     rtRotatedFrom t1 <> "" -> rtRotatedFrom t1 = rtRotatedFrom t2 -> k1 = k2) /\
  (forall k t, dTokens db !! k = Some t -> rtRotatedFrom t <> "" -> exists p,
     dTokens db !! rtRotatedFrom t = Some p /\ rtStatus p <> StatusActive /\ rtFamilyID p = rtFamilyID t).
Proof.
  intros Hu db. assert (auth_inv db) as I by (by apply auth_run_inv, auth_inv_start). destruct I.
  split_and!; eauto.
Qed.

(** ** Presenting a token *)

Lemma charCount_slen s : charCount s <= slen s.
Proof.
  unfold charCount, slen. rewrite <- length_bytes. apply inj_le.
  induction (bytes s) as [|b l IH]; [done|]. rewrite filter_cons. case_decide; simpl; lia.
Qed.

(** Twelve bytes are sixteen characters. *)
Lemma selector_fits rnd : length rnd = selectorBytes -> charCount (randomURL rnd) <= 32.
Proof.
  intros Hl. etransitivity; [apply charCount_slen|]. unfold slen, randomURL. rewrite length_ofBytes.
  do 13 (destruct rnd as [|? rnd]; try done).
Qed.

(** [Reason] of the error a caller sees. *)
Definition reasonOf (e : error) : string := match e with EVb v => Reason v | _ => "" end.

(** The documented failure modes of [RefreshToken]. *)
Definition refusal (now : time) (t : RefreshToken) : option string :=
  if rtStatus t =? StatusCompromised then Some "FAMILY_COMPROMISED"
  else if rtStatus t =? StatusRevoked then Some "REVOKED"
  else if rtExpiresAt t <=? now then Some "EXPIRED"
  else if rtStatus t =? StatusUsed then Some "REUSE_DETECTED"
  else if rtStatus t =? StatusActive then None
  else Some "REVOKED".

Section outcomes.
Context `{E : Env} `{!Calm E} `{PgCitext} `{Hasher} `{Signer}.
Context (cfg : AuthConfig).

(** Ids and random bytes that are new from interaction [m] on, and working
    ports. *)
Definition fresh_supply (m : nat) (db : AuthDB) : Prop :=
  (forall n, (m <= n)%nat -> dTokens db !! env_id n = None) /\
  (forall n k x, (m <= n)%nat -> dTokens db !! k = Some x -> rtSelector x <> randomURL (env_rand n selectorBytes)) /\
  (forall n, length (env_rand n selectorBytes) = selectorBytes) /\
  (forall n v, exists h, hashPassword n v = Ok h) /\
  (forall n c, exists tok, signToken n c = Ok tok).

Lemma calm_findToken db t :
  auth_inv db -> dTokens db !! rtID t = Some t ->
  findRow (fun x => bool_decide (rtSelector x = rtSelector t)) (dTokens db) = Some t.
Proof.
  intros I Ht. destruct (findRow _ _) as [x|] eqn:Ef.
  - apply findRow_Some in Ef as (k & Hk & Hs). apply bool_decide_eq_true in Hs.
    pose proof (inv_selectors _ I _ _ _ _ Hk Ht Hs) as ->. congruence.
  - eapply findRow_None in Ef; [|exact Ht]. by apply bool_decide_eq_false in Ef.
Qed.

Lemma calm_newRefreshToken now id fam uid sid from m db n b :
  fresh_supply m db -> exists rv n',
  newRefreshToken cfg now id fam uid sid from (mkSt db n b) = (Ok rv, mkSt db n' b) /\
  rtID rv.1 = id /\ rtSelector rv.1 = randomURL (env_rand n selectorBytes) /\ rtUserID rv.1 = uid /\
  rtSessionID rv.1 = sid.
Proof.
  intros (_ & _ & _ & Hh & _). unfold newRefreshToken, sbind, srand, lift, NewRefreshToken, step_n. simpl.
  destruct (Hh (S (S n)) (randomURL (env_rand (S n) validatorBytes))) as [h ->]. by eexists _, _.
Qed.

Lemma calm_issue u (s : st AuthDB) :
  (forall n c, exists tok, signToken n c = Ok tok) ->
  exists tok n', issueAccessToken cfg u s = (Ok tok, mkSt (sdb s) n' (saborted s)).
Proof.
  intros Hs. unfold issueAccessToken, sbind, snow, lift, step_n. simpl.
  match goal with |- context [signToken ?k ?c] => destruct (Hs k c) as [tok ->] end. by eexists _, _.
Qed.

(** The rotation succeeds. *)
Lemma calm_rotate rt now m db n u sess :
  fresh_supply m db -> (m <= n)%nat -> auth_inv db -> dTokens db !! rtID rt = Some rt ->
  dUsers db !! rtUserID rt = Some u -> CanAuthenticate u = true ->
  dSessions db !! rtSessionID rt = Some sess ->
  exists x s', rotate cfg rt now (mkSt db n false) = (Ok x, s') /\ saborted s' = false.
Proof.
  intros Hsup Hmn I Hrt Hu Hc Hs. pose proof Hsup as (Hid & Hsel & Hlen & _).
  unfold rotate, sbind at 1, UserRepo_GetByID, smapErr at 1 2. rewrite calm_queryRow, Hu, Hc. cbn [negb].
  unfold sbind at 1, RefreshRepo_MarkUsed, smapErr. rewrite calm_stmt.
  unfold set_dTokens. rewrite (alter_present _ _ _ _ Hrt).
  set (db1 := mkAuthDB _ _ _ _ _ _ _ _). assert (fresh_supply m db1) as Hsup1.
  { destruct Hsup as (_ & _ & ? & ? & ?). split_and!; [| |done..]; simpl.
    - intros k Hk. rewrite lookup_insert_ne; [by apply Hid|]. intros Hki. rewrite Hki in Hrt.
      by rewrite Hid in Hrt.
    - intros k k' x Hk Hx. apply lookup_insert_Some in Hx as [[<- <-]|[_ Hx]]; [exact (Hsel k _ _ Hk Hrt)|eauto]. }
  unfold sbind at 1, snewID, step_n. cbn [sn sdb saborted].
  unfold sbind at 1.
  destruct (calm_newRefreshToken now (env_id (S (S n))) (rtFamilyID rt) (uID u) (rtSessionID rt) (rtID rt)
    m db1 (S (S (S n))) false Hsup1) as (rv & n1 & -> & F1 & F2 & F3 & F4).
  unfold sbind at 1, RefreshRepo_Create, smapErr. rewrite calm_stmt, F1, F2, F3, F4.
  destruct Hsup1 as (Hid1 & Hsel1 & _). rewrite Hid1 by lia.
  pose proof (selector_fits _ (Hlen (S (S (S n))))) as Hfit. apply Z.ltb_ge in Hfit. rewrite Hfit.
  rewrite bool_decide_false by (intros [? [=]]).
  destruct (existsb _ _) eqn:Ex.
  { exfalso. apply existsb_exists in Ex as ([k x] & Hin & Hx). apply bool_decide_eq_true in Hx.
    apply list_elem_of_In, elem_of_map_to_list in Hin. apply (Hsel1 (S (S (S n))) k x) in Hx; [done|lia|done]. }
  cbn [dUsers dSessions db1]. rewrite (inv_users _ I _ _ Hu), Hu, Hs.
  unfold sbind at 1, SessionRepo_UpdateLastSeen, smapErr. rewrite calm_stmt.
  unfold sbind at 1, set_dSessions, set_dTokens. cbn [dUsers dSessions dTokens db1].
  match goal with |- context [issueAccessToken cfg u ?s] =>
    destruct (calm_issue u s ltac:(apply Hsup)) as (tok & n2 & ->) end.
  unfold sbind at 1, SessionRepo_GetByID, smapErr. cbn [saborted sdb]. rewrite calm_queryRow. cbn [sdb dSessions saborted].
  rewrite lookup_alter_eq, Hs. simpl. by eexists _, _.
Qed.

(** Presenting a token reaches the transaction with the token in hand. *)
Lemma calm_refreshTx t val db n :
  auth_inv db -> dTokens db !! rtID t = Some t ->
  refreshTx cfg (rtSelector t) val (mkSt db n false) =
  if comparePassword (rtValidatorHash t) val then
    (match ClassifyUse (env_now (S n)) t with
     | (UseOutcomeRotate, _) => rotate cfg t (env_now (S n))
     | (UseOutcomeReuse, c) =>
         sbind (RefreshRepo_RevokeFamily (rtFamilyID t) (env_now (S n))) (fun _ =>
           sfail (because (WithMeta "family_id" (rtFamilyID t) (Unauthenticated "REUSE_DETECTED")) c))
     | (UseOutcomeCompromised, c) => sfail (because (Unauthenticated "FAMILY_COMPROMISED") c)
     | (UseOutcomeRevoked, c) => sfail (because (Unauthenticated "REVOKED") c)
     | (UseOutcomeExpired, c) => sfail (because (Unauthenticated "EXPIRED") c)
     | (UseOutcomeUnspecified, _) =>
         sfail (EVb (Internal "UNKNOWN_TOKEN_STATE" "unhandled refresh token state"))
     end) (mkSt db (S (S n)) false)
  else (Err (EVb (Unauthenticated "INVALID_REFRESH_TOKEN")), mkSt db (S n) false).
Proof.
  intros I Ht. unfold refreshTx, sbind at 1, smapErr at 1, RefreshRepo_GetBySelector, smapErr.
  rewrite calm_queryRow, (calm_findToken _ _ I Ht). destruct (comparePassword _ _); [|done]. cbn [negb].
  unfold sbind at 1, snow, step_n. cbn [sn sdb saborted].
  destruct (ClassifyUse _ t) as [[] c]; done.
Qed.

(** The refusals. *)
Lemma calm_refused t val db n reason :
  auth_inv db -> dTokens db !! rtID t = Some t -> comparePassword (rtValidatorHash t) val = true ->
  refusal (env_now (S n)) t = Some reason ->
  exists e s', refreshTx cfg (rtSelector t) val (mkSt db n false) = (Err e, s') /\
    wireCode e = CodeUnauthenticated /\ reasonOf e = reason.
Proof.
  intros I Ht Hc Hr. rewrite calm_refreshTx, Hc by done. unfold refusal in Hr. unfold ClassifyUse.
  rewrite Z.ltb_antisym, negb_involutive.
  repeat match type of Hr with (if ?b then _ else _) = _ => destruct b end; simplify_eq; try (by eexists _, _).
  unfold sbind, RefreshRepo_RevokeFamily, smapErr. rewrite calm_stmt. by eexists _, _.
Qed.
End outcomes.



Lemma refresh_spec `{E : Env} `{!Calm E} `{PgCitext} `{Hasher} `{Signer} cfg p t val s :
  auth_inv (sdb s) -> dTokens (sdb s) !! rtID t = Some t ->
  splitSelectorValidator p = (rtSelector t, val) -> rtSelector t <> "" -> val <> "" ->
  let now := env_now (S (S (S (sn s)))) in
  let out := RefreshTokenRPC cfg p s in
  if comparePassword (rtValidatorHash t) val then
    match refusal now t with
    | Some reason =>
        (exists e, out.1 = Err e /\ wireCode e = CodeUnauthenticated /\ reasonOf e = reason) /\
        sdb out.2 = sdb s
    | None =>
        forall u, dUsers (sdb s) !! rtUserID t = Some u ->
        if CanAuthenticate u then fresh_supply (sn s) (sdb s) -> exists x s', out = (Ok x, s')
        else (exists e, out.1 = Err e /\ wireCode e = CodePermissionDenied) /\ sdb out.2 = sdb s
    end
  else (exists e, out.1 = Err e /\ wireCode e = CodeUnauthenticated /\
          reasonOf e = "INVALID_REFRESH_TOKEN") /\ sdb out.2 = sdb s.
Proof.
  intros I Ht Hsp Hs0 Hv0 now out.
  assert (out = match withTx (refreshTx cfg (rtSelector t) val) (mkSt (sdb s) (S (sn s)) (saborted s)) with
                | (Ok sm, s') => (Ok (seUserID sm.1, sm.2), s')
                | (Err e, s') => (Err e, s')
                end) as Hout.
  { unfold out, RefreshTokenRPC, sbind at 1. rewrite calm_ctxDone. unfold refreshUseCase. rewrite Hsp.
    destruct (bool_decide (p = "")) eqn:Ep.
    { apply bool_decide_eq_true in Ep. subst p. by injection Hsp as <- <-. }
    rewrite !bool_decide_false by done. cbn [orb]. unfold sbind, step_n. by destruct (withTx _ _) as [[sm|e] s']. }
  rewrite calm_withTx in Hout.
  destruct (comparePassword (rtValidatorHash t) val) eqn:Ec.
  2:{ rewrite calm_refreshTx, Ec in Hout by done. rewrite Hout. split; [by eexists|done]. }
  destruct (refusal now t) as [reason|] eqn:Er.
  { destruct (calm_refused cfg t val (sdb s) (S (S (sn s))) reason I Ht Ec Er) as (e & s' & Htx & Hw & Hre).
    rewrite Htx in Hout. rewrite Hout. split; [by eexists|done]. }
  intros u Hu. rewrite calm_refreshTx, Ec in Hout by done.
  assert (ClassifyUse (env_now (S (S (S (sn s))))) t = (UseOutcomeRotate, None)) as Hcl.
  { unfold refusal in Er. unfold ClassifyUse. fold now. rewrite Z.ltb_antisym, negb_involutive.
    by repeat match type of Er with (if ?b then _ else _) = _ => destruct b end. }
  rewrite Hcl in Hout. destruct (CanAuthenticate u) eqn:Eu.
  - intros Hsup. destruct (inv_session _ I _ _ Ht) as (sess & Hse & _).
    destruct (calm_rotate cfg t (env_now (S (S (S (sn s))))) (sn s) (sdb s) (S (S (S (S (sn s))))) u sess
      Hsup ltac:(lia) I Ht Hu Eu Hse) as (x & s' & Hrot & Hab). rewrite Hrot, Hab in Hout. rewrite Hout. by eexists _, _.
  - unfold rotate, sbind, UserRepo_GetByID, smapErr in Hout. rewrite calm_queryRow, Hu, Eu in Hout.
    rewrite Hout. split; [by eexists|done].
Qed.


(** ** The wire form *)

Lemma base64Char_range v : 0 <= v -> isByte (base64Char v) /\ base64Char v <> 46.
Proof.
  intros Hv. unfold base64Char, isByte.
  repeat match goal with |- context [if ?b then _ else _] => destruct b eqn:? end; go_bool; lia.
Qed.

Lemma base64_range l : Forall isByte l -> Forall (fun b => isByte b /\ b <> 46) (base64RawURL l).
Proof.
  revert l. fix IH 1. intros [|a [|b [|c l]]] Hl; simpl.
  - constructor.
  - inversion_clear Hl as [|? ? Ha]. unfold isByte in Ha.
    repeat constructor; apply base64Char_range; rewrite ?Z.shiftl_nonneg, ?Z.shiftr_nonneg, ?Z.land_nonneg; lia.
  - inversion_clear Hl as [|? ? Ha Hl']. inversion_clear Hl' as [|? ? Hb]. unfold isByte in Ha, Hb.
    repeat constructor; apply base64Char_range;
      rewrite ?Z.lor_nonneg, ?Z.shiftl_nonneg, ?Z.shiftr_nonneg, ?Z.land_nonneg; lia.
  - inversion_clear Hl as [|? ? Ha Hl']. inversion_clear Hl' as [|? ? Hb Hl'']. inversion_clear Hl'' as [|? ? Hc Hr].
    unfold isByte in Ha, Hb, Hc.
    repeat (apply Forall_cons; split; [apply base64Char_range;
      rewrite ?Z.lor_nonneg, ?Z.shiftl_nonneg, ?Z.shiftr_nonneg, ?Z.land_nonneg; lia|]).
    by apply IH.
Qed.

Lemma indexDot_app l1 l2 : Forall (fun b => b <> 46) l1 -> indexDot (l1 ++ 46 :: l2) = Some (length l1).
Proof.
  induction 1 as [|b l1 Hb Hl IH]; [done|]. simpl. destruct (Z.eqb_spec b 46); [done|]. by rewrite IH.
Qed.

(** A token splits into the halves it was made of. *)
Lemma split_presentation a b :
  Forall isByte a -> Forall isByte b -> a <> [] -> b <> [] ->
  splitSelectorValidator (PresentationToken (mkVM (randomURL a) (randomURL b))) = (randomURL a, randomURL b).
Proof.
  intros Ha Hb Ha0 Hb0. apply base64_range in Ha as Ha'. apply base64_range in Hb as Hb'.
  unfold splitSelectorValidator, PresentationToken, randomURL. cbn [vmSelector vmValidator].
  rewrite !bytes_app, !bytes_ofBytes by (eapply Forall_impl; [eassumption|by intros ? []]).
  change (bytes ".") with [46]. cbn [app]. rewrite indexDot_app by (eapply Forall_impl; [exact Ha'|by intros ? []]).
  assert (length (base64RawURL a) <> 0%nat) as Hla by (destruct a as [|? [|? [|? ?]]]; done).
  assert (length (base64RawURL b) <> 0%nat) as Hlb by (destruct b as [|? [|? [|? ?]]]; done).
  rewrite length_app. cbn [length].
  destruct (Nat.eqb_spec (length (base64RawURL a)) 0); [done|].
  destruct (Nat.eqb_spec (length (base64RawURL a)) (length (base64RawURL a) + S (length (base64RawURL b)) - 1));
    [lia|]. cbn [orb].
  rewrite take_app_length, drop_app_ge by lia.
  replace (length (base64RawURL a) + 1 - length (base64RawURL a))%nat with 1%nat by lia. done.
Qed.

(** ** A token from a log-in can be used *)

Section issued.
Context `{E : Env} `{!Calm E} `{PgCitext} `{Hasher} `{Signer}.
Context (cfg : AuthConfig).

(** [t] is stored for the presentation token [p], made of random bytes. *)
Definition issued (db : AuthDB) (t : RefreshToken) (p : string) : Prop :=
  dTokens db !! rtID t = Some t /\ rtStatus t = StatusActive /\
  exists n1 n2 n3 n4, let sel := randomURL (env_rand n1 selectorBytes) in
    let val := randomURL (env_rand n2 validatorBytes) in
    rtSelector t = sel /\ hashPassword n3 val = Ok (rtValidatorHash t) /\
    p = PresentationToken (mkVM sel val) /\ rtExpiresAt t = pgTime (env_now n4 + acRefreshTokenTTL cfg).

Lemma issueSession_issued user label s sm s' :
  issueSessionForUser cfg user label s = (Ok sm, s') ->
  exists t, issued (sdb s') t (tmRefreshToken sm.2) /\ rtUserID t = uID user /\
    dUsers (sdb s') = dUsers (sdb s).
Proof.
  intros Es. apply sbind_Ok in Es as (now & s1 & [= <- <-] & Es).
  apply sbind_Ok in Es as (sid & s2 & [= <- <-] & Es). apply sbind_Ok in Es as (fam & s3 & [= <- <-] & Es).
  apply sbind_Ok in Es as ([] & s4 & Hse & Es). apply SessionRepo_Create_Ok in Hse as (_ & _ & Hs4).
  apply sbind_Ok in Es as (tid & s5 & [= <- <-] & Es). apply sbind_Ok in Es as (rv & s6 & Hrv & Es).
  pose proof (newRefreshToken_Ok cfg _ _ _ _ _ _ _ _ _ Hrv) as [Hs6 Hf]. injection Hf as F1 F2 F3 F4 F5 F6.
  apply sbind_Ok in Hrv as (sel & s61 & [= <- <-] & Hrv). apply sbind_Ok in Hrv as (val & s62 & [= <- <-] & Hrv).
  unfold lift, NewRefreshToken in Hrv. destruct (hashPassword _ _) as [h|] eqn:Eh; [|done].
  injection Hrv as Hrv _.
  apply sbind_Ok in Es as ([] & s7 & Hc7 & Es). apply RefreshRepo_Create_Ok in Hc7 as (_ & Hs7 & _); [|done].
  apply sbind_Ok in Es as (acc & s8 & Ha & Es). apply issueAccessToken_Ok in Ha.
  injection Es as <- <-. rewrite Ha, Hs7, Hs6. exists (storedToken rv.1). split; [|split; [done|simpl; by rewrite Hs4]].
  split; [simpl; apply lookup_insert_eq|]. split; [done|].
  rewrite <- Hrv. eexists _, _, _, _. split_and!; [done|exact Eh|done|done].
Qed.

Lemma Login_issued email password label s x s' :
  auth_inv (sdb s) -> Login cfg email password label s = (Ok x, s') ->
  exists t u, issued (sdb s') t (tmRefreshToken x.2) /\ dUsers (sdb s') !! rtUserID t = Some u /\
    CanAuthenticate u = true.
Proof.
  intros I Es. apply sbind_Ok in Es as ([] & s1 & Hc & Es).
  assert (sdb s1 = sdb s) as Hs1. { rewrite calm_ctxDone in Hc. by injection Hc as <-. }
  destruct (_ || _); [done|]. apply sbind_Ok in Es as (sm & s2 & Hw & Es).
  apply withTx_cases in Hw as [[_ [e [=]]]|(a & s3 & Ha & _ & Hs2 & [[= <-]|[e [=]]])].
  injection Es as <- <-. rewrite Hs2. apply sbind_Ok in Ha as (user & s4 & Hu & Ha).
  apply smapErr_Ok, (reads_Ok (fun db => findRow (fun u => citextEq (uEmail u) email) (dUsers db))) in Hu
    as [Hu Hs4]; [|unfold UserRepo_GetByEmail; auto with vibe].
  apply findRow_Some in Hu as (k & Hk & _). simpl in Hk, Hs4. rewrite Hs1 in Hk.
  pose proof (inv_users _ I _ _ Hk) as Hid.
  destruct (negb (HasPassword user)); [done|]. destruct (negb (comparePassword _ _)); [done|].
  destruct (CanAuthenticate user) eqn:Ec; [|done]. apply issueSession_issued in Ha as (t & Hiss & Htu & Husers).
  exists t, user. split; [exact Hiss|]. split; [|done]. by rewrite Husers, Hs4, Hs1, Htu, Hid.
Qed.

Lemma issued_works db n b t p u :
  auth_inv db -> issued db t p -> dUsers db !! rtUserID t = Some u -> CanAuthenticate u = true ->
  fresh_supply n db ->
  (forall k j, Forall isByte (env_rand k j) /\ length (env_rand k j) = j) ->
  (forall k v h, hashPassword k v = Ok h -> comparePassword h v = true) ->
  (forall k j, env_now k < pgTime (env_now j + acRefreshTokenTTL cfg)) ->
  exists x s', RefreshTokenRPC cfg p (mkSt db n b) = (Ok x, s').
Proof.
  intros I (Ht & Ha & n1 & n2 & n3 & n4 & Hsel & Hh & -> & Hexp) Hu Hc Hsup Hrand Hlaw Htime.
  assert (forall k j, j <> 0%nat -> env_rand k j <> []) as Hne.
  { intros k j Hj Hnil. destruct (Hrand k j) as [_ Hl]. rewrite Hnil in Hl. by subst j. }
  pose proof (split_presentation (env_rand n1 selectorBytes) (env_rand n2 validatorBytes)
    ltac:(apply Hrand) ltac:(apply Hrand) ltac:(by apply Hne) ltac:(by apply Hne)) as Hsp.
  assert (forall k j, j <> 0%nat -> randomURL (env_rand k j) <> "") as Hnn.
  { intros k j Hj Hnil. unfold randomURL in Hnil. apply (f_equal String.length) in Hnil.
    rewrite length_ofBytes in Hnil. specialize (Hne k j Hj).
    destruct (env_rand k j) as [|? [|? [|? ?]]]; done. }
  rewrite <- Hsel in Hsp at 2.
  pose proof (refresh_spec cfg _ t _ (mkSt db n b) I Ht Hsp ltac:(rewrite Hsel; by apply Hnn)
    ltac:(by apply Hnn)) as Hspec. cbn zeta in Hspec.
  rewrite (Hlaw _ _ _ Hh) in Hspec. unfold refusal in Hspec. rewrite Ha in Hspec. cbn [Z.eqb] in Hspec.
  change (StatusActive =? StatusCompromised) with false in Hspec.
  change (StatusActive =? StatusRevoked) with false in Hspec.
  change (StatusActive =? StatusUsed) with false in Hspec.
  change (StatusActive =? StatusActive) with true in Hspec.
  rewrite Hexp in Hspec. cbn [sn] in Hspec.
  destruct (Z.leb_spec (pgTime (env_now n4 + acRefreshTokenTTL cfg)) (env_now (S (S (S n))))) as [Hle|_];
    [specialize (Htime (S (S (S n))) n4); lia|].
  specialize (Hspec u Hu). rewrite Hc in Hspec. by apply Hspec.
Qed.
End issued.

(** The token of a log-in works: in a world where nothing fails, with a
    hasher that accepts what it hashed, unused random bytes and ids, and a clock
    within the token's lifetime, the refresh token that a successful log-in
    returned can be exchanged. *)
Theorem login_token_works `{E : Env} `{!Calm E} `{PgCitext} `{Hasher} `{Signer} `{UnicodeLower} `{Cipher}
    `{TokenEndpoint} `{Jose} cfg registry users ops email password label x s1 :
  (forall k u, users !! k = Some u -> uID u = k) ->
  Login cfg email password label (auth_run cfg registry ops (authStart users)) = (Ok x, s1) ->
  fresh_supply (sn s1) (sdb s1) ->
  (forall k j, Forall isByte (env_rand k j) /\ length (env_rand k j) = j) ->
  (forall k v h, hashPassword k v = Ok h -> comparePassword h v = true) ->
  (forall k j, env_now k < pgTime (env_now j + acRefreshTokenTTL cfg)) ->
  exists y s2, RefreshTokenRPC cfg (tmRefreshToken x.2) s1 = (Ok y, s2).
Proof.
  intros Hu Hl Hsup Hrand Hlaw Htime.
  assert (auth_inv (sdb (auth_run cfg registry ops (authStart users)))) as I by (by apply auth_run_inv, auth_inv_start).
  pose proof (auth_exec_inv cfg registry (ALogin email password label) _ I) as I1. simpl in I1. rewrite Hl in I1.
  destruct (Login_issued cfg _ _ _ _ _ _ I Hl) as (t & u & Hiss & Hut & Hc).
  destruct s1 as [db n b]. by eapply issued_works.
Qed.

(** No step marks a token as compromised. *)
Lemma auth_steps_not_burned db db' :
  auth_steps db db' ->
  (forall k t, dTokens db !! k = Some t -> rtStatus t <> StatusCompromised) ->
  forall k t, dTokens db' !! k = Some t -> rtStatus t <> StatusCompromised.
Proof.
  induction 1 as [|x y z Hs _ IH]; [done|]. intros Hdb. apply IH. clear IH.
  destruct Hs as [db db1 [= _ _ Hcore]|db u Hu|db u se t Hu Hc Hse Hfam (_ & _ & Hact)
    |db rt nt used seen Hrt Ha (_ & _ & Hact)|db rt revoked Hrt Ha]; simpl.
  - by rewrite Hcore.
  - done.
  - intros k t0 Ht. insert_cases; [by rewrite Hact|by eapply Hdb].
  - intros k t0 Ht. insert_cases; [by rewrite Hact|done|by eapply Hdb].
  - intros k t0 Ht. insert_cases; [done|by eapply Hdb].
Qed.

(** As written, reuse detection never burns a family: the revocation runs in
    the transaction that the refusal rolls back, so in no reachable state is a
    token compromised, however often used tokens are presented. *)
Theorem family_never_burned `{Env} `{PgCitext} `{Hasher} `{Signer} `{UnicodeLower} `{Cipher} `{TokenEndpoint} `{Jose}
    cfg registry users ops k t :
  (forall k u, users !! k = Some u -> uID u = k) ->
  dTokens (sdb (auth_run cfg registry ops (authStart users))) !! k = Some t -> rtStatus t <> StatusCompromised.
Proof.
  intros Hu. assert (forall s, auth_inv (sdb s) ->
    (forall k t, dTokens (sdb s) !! k = Some t -> rtStatus t <> StatusCompromised) ->
    forall k t, dTokens (sdb (auth_run cfg registry ops s)) !! k = Some t -> rtStatus t <> StatusCompromised) as Hrun.
  { induction ops as [|o ops IH]; intros s I Hs; [done|]. apply (IH (auth_exec cfg registry o s)).
    - by apply auth_exec_inv.
    - eapply auth_steps_not_burned; [by apply auth_exec_steps|done]. }
  apply Hrun; [by apply auth_inv_start|done].
Qed.

(** ** Witnesses *)

#[local] Existing Instances authEnv authEnv_Calm prefixHasher constSigner exactCitext idLower markCipher
  echoEndpoint toyJose toyJose_laws.

Definition afterLogin : st AuthDB :=
  auth_run demoAuthConfig demoRegistry [ALogin "ann@example.com" "secret12" ""] (authStart demoUsers).

(** The token a request answered. *)
Definition answered (r : res error (string * tokenMaterial)) : string :=
  match r with Ok x => tmRefreshToken x.2 | Err _ => "" end.
Definition token1 : string :=
  answered (Login demoAuthConfig "ann@example.com" "secret12" "" (authStart demoUsers)).1.
Definition token2 : string := answered (RefreshTokenRPC demoAuthConfig token1 afterLogin).1.

Lemma refresh_single_use_witness :
  exists e, (RefreshTokenRPC demoAuthConfig token1
    (auth_run demoAuthConfig demoRegistry [ARefresh token2] (RefreshTokenRPC demoAuthConfig token1 afterLogin).2)).1 = Err e.
Proof.
  destruct (RefreshTokenRPC demoAuthConfig token1 afterLogin) as [r s1] eqn:E1.
  apply (refresh_single_use demoAuthConfig demoRegistry demoUsers [ALogin "ann@example.com" "secret12" ""] token1 s1
    [ARefresh token2] demoUsers_keyed).
  left. destruct r as [x|e]; [exists x; exact E1|]. exfalso.
  assert (is_Ok (RefreshTokenRPC demoAuthConfig token1 afterLogin).1 = true) as Hok by by vm_compute.
  by rewrite E1 in Hok.
Defined.

Definition demoRotated : st AuthDB :=
  auth_run demoAuthConfig demoRegistry [ALogin "ann@example.com" "secret12" ""; ARefresh token1] (authStart demoUsers).
Definition activeKeys (db : AuthDB) : list string :=
  map fst (List.filter (fun kv => rtStatus kv.2 =? StatusActive) (map_to_list (dTokens db))).

Lemma token_families_witness :
  size (dTokens (sdb demoRotated)) = 2%nat /\ length (activeKeys (sdb demoRotated)) = 1%nat /\
  map_Forall (fun _ t => exists s, dSessions (sdb demoRotated) !! rtSessionID t = Some s /\
     seFamilyID s = rtFamilyID t /\ seUserID s = rtUserID t) (dTokens (sdb demoRotated)).
Proof.
  split; [by vm_compute|]. split; [by vm_compute|]. intros k t.
  apply (token_families demoAuthConfig demoRegistry demoUsers [ALogin "ann@example.com" "secret12" ""; ARefresh token1]
    demoUsers_keyed).
Defined.

(** The supply after the log-in: the only token has id ["7"] and a selector of
    the bytes drawn at interaction 8. *)
Definition onlyToken : RefreshToken :=
  mkRT "7" "5" "u1" "4" (randomURL (repeat 8 12)) ("h:" +:+ randomURL (repeat 9 32))%string "" StatusActive
    (3603 * second) (3 * second) time_zero time_zero.

Lemma afterLogin_tokens : dTokens (sdb afterLogin) = {["7" := onlyToken]}.
Proof. by vm_compute. Qed.

Lemma later_selectors n : (9 <= n)%nat -> randomURL (env_rand n selectorBytes) <> rtSelector onlyToken.
Proof.
  intros Hn. assert (Forall (fun a => randomURL (repeat (Z.of_nat a) 12) <> rtSelector onlyToken) (seq 9 247)) as Hf.
  { apply (bool_decide_eq_true_1 _). vm_compute. reflexivity. }
  rewrite Forall_forall in Hf. apply (Hf (Nat.min n 255)). apply elem_of_seq. lia.
Qed.

Lemma demo_supply : fresh_supply 9 (sdb afterLogin).
Proof.
  unfold fresh_supply. rewrite afterLogin_tokens. split_and!; [| | |by eexists|by eexists].
  - intros n Hn. apply lookup_singleton_ne. intros E. change "7" with (pretty 7%nat) in E.
    apply (inj pretty) in E. lia.
  - intros n k x Hn [<- <-]%lookup_singleton_Some. apply not_eq_sym. by apply later_selectors.
  - done.
Qed.

Lemma login_token_works_witness :
  exists y s2, RefreshTokenRPC demoAuthConfig token1 afterLogin = (Ok y, s2).
Proof.
  destruct (Login demoAuthConfig "ann@example.com" "secret12" "" (authStart demoUsers)) as [[x|e] s1] eqn:E.
  2:{ exfalso. assert (is_Ok (Login demoAuthConfig "ann@example.com" "secret12" "" (authStart demoUsers)).1 = true)
        as Hok by by vm_compute. by rewrite E in Hok. }
  assert (s1 = afterLogin) as ->. { unfold afterLogin. simpl. by rewrite E. }
  assert (token1 = tmRefreshToken x.2) as ->. { unfold token1. by rewrite E. }
  apply (login_token_works demoAuthConfig demoRegistry demoUsers [] "ann@example.com" "secret12" "" x afterLogin demoUsers_keyed E).
  - destruct demo_supply as (Hid & Hsel & Hr). assert (9 <= sn afterLogin)%nat as Hn by (vm_compute; lia).
    split_and!; [intros n Hm; apply Hid; lia|intros n k y Hm; apply Hsel; lia|apply Hr..].
  - intros k j. simpl. rewrite repeat_length. split; [|done].
    apply Forall_forall. intros z Hz. apply list_elem_of_In, repeat_spec in Hz as ->. unfold isByte. lia.
  - intros k v h [= <-]. simpl. by apply bool_decide_eq_true.
  - intros k j. pose proof (pgTime_close (env_now j + acRefreshTokenTTL demoAuthConfig)) as Hc.
    revert Hc. simpl. unfold second. lia.
Defined.


(** ** Where the code differs from its comments *)

(** A stolen token: after the owner rotated it, its reuse is detected and
    reported, but the family lives on and the owner's token, or the thief's,
    still works. *)
Example reuse_leaves_family :
  let s1 := (RefreshTokenRPC demoAuthConfig token1 afterLogin).2 in
  let reuse := RefreshTokenRPC demoAuthConfig token1 s1 in
  (match reuse.1 with Err e => reasonOf e = "REUSE_DETECTED" | Ok _ => False end) /\
  is_Ok (RefreshTokenRPC demoAuthConfig token2 reuse.2).1 = true.
Proof. by vm_compute. Qed.

(** Refreshing is documented not to extend a session past its lifetime; the
    lifetime is never looked at. *)
Example session_outlived :
  let s := mkSt (sdb afterLogin) 500 false in
  (forall k se, dSessions (sdb s) !! k = Some se -> SessionIsExpired (env_now (sn s)) se = true) /\
  is_Ok (RefreshTokenRPC demoAuthConfig token1 s).1 = true.
Proof.
  split; [|by vm_compute]. intros k se Hk. apply elem_of_map_to_list in Hk.
  assert (Forall (fun kv => SessionIsExpired (env_now 500) kv.2 = true) (map_to_list (dSessions (sdb afterLogin))))
    as Hf by (vm_compute; by repeat constructor).
  rewrite Forall_forall in Hf. exact (Hf _ Hk).
Qed.

(** [Logout] is documented to answer true for unknown tokens; it answers false,
    and it does not look at the validator: the selector alone logs out. *)
Example logout_selector_only :
  (Logout "unknown.token" afterLogin).1 = Ok false /\
  (Logout ((splitSelectorValidator token1).1 +:+ ".wrong") afterLogin).1 = Ok true.
Proof. by vm_compute. Qed.
