(* ===== verification/AccountTheorems.v ===== *)
(** * Theorems about accounts

    Registration and OAuth log-in: which users, links and events there can be
    after any sequence of requests, that a link never moves to another user,
    that the state of a flow is used once, and what registration answers. *)

From stdpp Require Import pretty.
From S2P Require Import Prelude GoNum Errors GoString GoRegexp GoUnicode GoTime Store RoomDomain Outbox AuthDomain Auth Register OAuth SigningKeys AuthRuns AuthFrames AuthSteps AccountSteps AuthDemo.

Open Scope Z_scope.

(** Users with ids, addresses and names of their own. *)
Record distinct_users `{PgCitext} (users : gmap string User) : Prop := {
  du_keyed : forall k u, users !! k = Some u -> uID u = k;
  du_email : forall k1 k2 u1 u2, users !! k1 = Some u1 -> users !! k2 = Some u2 ->
    citextEq (uEmail u1) (uEmail u2) = true -> k1 = k2;
  du_username : forall k1 k2 u1 u2, users !! k1 = Some u1 -> users !! k2 = Some u2 ->
    uUsername u1 = uUsername u2 -> k1 = k2;
}.

Lemma acct_inv_start `{PgCitext} users : distinct_users users -> acct_inv users (sdb (authStart users)).
Proof.
  intros [Hk He Hu]. split; simpl; try done.
  - intros k u Hx. by left.
  - constructor.
  - intros k. unfold announced. simpl. split; [by intros ?%elem_of_nil|]. intros [[u Hs] Hn]. congruence.
  - by intros r Hr%elem_of_nil.
Qed.

(** ** Theorems *)

(** C16. Accounts stay sound: after any requests, whatever failed, every user is
    one of the first or an ordinary, active user with a valid e-mail address,
    user name and display name (nobody registers as an administrator); user
    names and addresses are unique; every provider link belongs to an existing
    user, and a user has at most one link per provider. *)
Theorem accounts_sound `{Env} `{C : PgCitext} `{!CitextLaws C} `{Hasher} `{Signer} `{UnicodeLower} `{Cipher}
    `{TokenEndpoint} `{Jose} cfg registry users ops :
  distinct_users users ->
  let db := sdb (auth_run cfg registry ops (authStart users)) in
  (forall k u, dUsers db !! k = Some u -> uID u = k /\ (users !! k = Some u \/ wellFormed u)) /\
  (forall k1 k2 u1 u2, dUsers db !! k1 = Some u1 -> dUsers db !! k2 = Some u2 ->
     citextEq (uEmail u1) (uEmail u2) = true \/ uUsername u1 = uUsername u2 -> k1 = k2) /\
  (forall p i a, dAccounts db !! (p, i) = Some a -> is_Some (dUsers db !! oaUserID a)) /\
  (forall p i1 i2 a1 a2, dAccounts db !! (p, i1) = Some a1 -> dAccounts db !! (p, i2) = Some a2 ->
     oaUserID a1 = oaUserID a2 -> i1 = i2).
Proof.
  intros Hd db. destruct (auth_run_acctR cfg registry users ops (authStart users)) as [I _];
    [by apply acct_inv_start|]. fold db in I. split_and!.
  - intros k u Hu. split; [by apply (ai_keyed _ _ I)|]. destruct (ai_origin _ _ I _ _ Hu) as [?|[_ ?]]; auto.
  - intros k1 k2 u1 u2 Hx1 Hx2 [E|E]; [by eapply (ai_email _ _ I)|by eapply (ai_username _ _ I)].
  - intros p i a Ha. by apply (ai_links _ _ I) in Ha as (_ & _ & ?).
  - intros p i1 i2 a1 a2 Hx1 Hx2 E. enough ((p, i1) = (p, i2)) by congruence.
    eapply (ai_one_link _ _ I); [done..|]. destruct (ai_links _ _ I _ _ _ Hx1) as [-> _].
    by destruct (ai_links _ _ I _ _ _ Hx2) as [-> _].
Qed.

(** Every new user is announced exactly once: after any requests, whatever
    failed, the outbox holds one [user.created.v1] event for each user that was
    not there at the start and none for anybody else, and the event carries
    the id, the address and the user name of the user's row. *)
Theorem user_created_once `{Env} `{C : PgCitext} `{!CitextLaws C} `{Hasher} `{Signer} `{UnicodeLower} `{Cipher}
    `{TokenEndpoint} `{Jose} cfg registry users ops :
  distinct_users users ->
  let db := sdb (auth_run cfg registry ops (authStart users)) in
  NoDup (announced db) /\
  (forall k, k ∈ announced db <-> is_Some (dUsers db !! k) /\ users !! k = None) /\
  (forall r, r ∈ dEvents db -> exists u, dUsers db !! oeAggregateID (orEvent r) = Some u /\
     oeTopic (orEvent r) = createdTopic /\ oeKey (orEvent r) = uID u /\
     oePayload (orEvent r) !! "user_id" = Some (JStr (uID u)) /\
     oePayload (orEvent r) !! "email" = Some (JStr (uEmail u)) /\
     oePayload (orEvent r) !! "username" = Some (JStr (uUsername u))).
Proof.
  intros Hd db. destruct (auth_run_acctR cfg registry users ops (authStart users)) as [I _];
    [by apply acct_inv_start|]. fold db in I. split_and!; [apply I|apply I|].
  intros r Hr. destruct (ai_events _ _ I r Hr) as (u & Hu & Ht & _ & Hk & now & p & _ & Hp).
  exists u. rewrite Hp. done.
Qed.

(** ** Links *)

Section links.
Context `{Env} `{C : PgCitext} `{!CitextLaws C} `{Hasher} `{Signer} `{UnicodeLower} `{Cipher} `{TokenEndpoint} `{Jose}.
Context (cfg : AuthConfig) (registry : oauthRegistry) (users : gmap string User).

(** A log-in of a provider identity is a log-in of the user it is linked to; the
    identity is the one the provider gave for the tokens of this exchange. *)
Lemma CompleteOAuth_linked pname state code verifier s x s' :
  acct_inv users (sdb s) -> CompleteOAuth cfg registry pname state code verifier s = (Ok x, s') ->
  exists provider n1 redirect n2 toks prof, opExchange provider n1 code redirect verifier = Ok toks /\
    opProfile provider n2 toks = Ok prof /\
    (exists r, registry = RegistryOf (Some r) /\ r !! pname = Some provider) /\
    acctR users (sdb s) (sdb s') /\
    exists a, dAccounts (sdb s') !! (opName provider, ppProviderUserID prof) = Some a /\ oaUserID a = x.1.
Proof using CitextLaws0.
  intros I E. unfold CompleteOAuth in E. apply sbind_Ok in E as ([] & s1 & Hc & E).
  assert (sdb s1 = sdb s) as Hs1. { pose proof (quiet_ctxDone s) as Hq. by rewrite Hc in Hq. }
  apply sbind_Ok in E as (provider & s2 & Hl & E).
  assert (sdb s2 = sdb s1) as Hs2.
  { pose proof (quiet_lookupProvider registry pname "unknown or disabled OAuth provider" s1) as Hq. by rewrite Hl in Hq. }
  assert (exists r, registry = RegistryOf (Some r) /\ r !! pname = Some provider) as Hreg.
  { unfold lookupProvider, RegistryGet in Hl. destruct registry as [|[r|]]; [done| |done].
    apply sbind_Ok in Hl as (o & s0 & [= <- <-] & Hl). exists r. destruct (r !! pname); [|done]. by injection Hl as -> _. }
  apply sbind_Ok in E as (flow & s3 & Hw & E).
  apply withTx_cases in Hw as [[_ [e [=]]]|(f & s4 & Hf & _ & Hs3 & _)].
  apply consumeTx_Ok in Hf as [_ Hs4]. simpl in Hs4.
  assert (acctR users (sdb s) (sdb s3)) as Hr3.
  { apply acctR_core. rewrite Hs3, Hs4, Hs2, Hs1. done. }
  unfold finishOAuth in E. apply sbind_Ok in E as (toks & s5 & Ht & E). apply smapErr_Ok in Ht. injection Ht as Ht <-.
  apply sbind_Ok in E as (prof & s6 & Hp & E). apply smapErr_Ok in Hp. injection Hp as Hp <-.
  destruct (_ || _); [done|]. apply sbind_Ok in E as (sm & s7 & Hw & [= <- <-]).
  apply withTx_cases in Hw as [[_ [e [=]]]|(a & s8 & Ha & _ & Hs7 & [[= <-]|[e [=]]])].
  apply (completeOAuthTx_Ok cfg users) in Ha as [Hr8 Hlink]; [|by apply Hr3].
  eexists provider, _, _, _, toks, prof. split_and!; [exact Ht|exact Hp|done| |rewrite Hs7; exact Hlink].
  rewrite Hs7. eapply acctR_trans; [exact Hr3|exact Hr8].
Qed.
End links.

(** Links never move: once an identity of a provider is linked to a user, it
    stays linked to that user through any further requests, the user's row does
    not change, and a later OAuth log-in for which the provider reports that
    identity answers with a session of that user. *)
Theorem links_stable `{Env} `{C : PgCitext} `{!CitextLaws C} `{Hasher} `{Signer} `{UnicodeLower} `{Cipher}
    `{TokenEndpoint} `{Jose} cfg registry users ops later p i a u :
  distinct_users users ->
  let s := auth_run cfg registry ops (authStart users) in
  dAccounts (sdb s) !! (p, i) = Some a -> dUsers (sdb s) !! oaUserID a = Some u ->
  let s2 := auth_run cfg registry later s in
  dAccounts (sdb s2) !! (p, i) = Some a /\ dUsers (sdb s2) !! oaUserID a = Some u /\
  forall r provider state code verifier x s3,
    registry = RegistryOf (Some r) -> r !! p = Some provider -> opName provider = p ->
    (forall n toks prof, opProfile provider n toks = Ok prof -> ppProviderUserID prof = i) ->
    CompleteOAuth cfg registry p state code verifier s2 = (Ok x, s3) -> x.1 = oaUserID a.
Proof.
  intros Hd s Ha Hu s2.
  destruct (auth_run_acctR cfg registry users ops (authStart users)) as [I _]; [by apply acct_inv_start|].
  destruct (auth_run_acctR cfg registry users later s I) as (I2 & Hsu & Hsa). fold s2 in I2, Hsu, Hsa.
  assert (dAccounts (sdb s2) !! (p, i) = Some a) as Ha2 by by eapply lookup_weaken.
  split_and!; [done|by eapply lookup_weaken|]. intros r provider state code verifier x s3 Hreg Hp Hname Hid E.
  apply (CompleteOAuth_linked cfg registry users) in E as (pr & n1 & rd & n & toks & prof & _ & Hprof & (r' & Hr' & Hpr) & Hr & a' & Ha' & <-);
    [|done].
  rewrite Hreg in Hr'. injection Hr' as <-. rewrite Hp in Hpr. injection Hpr as <-.
  rewrite Hname, (Hid _ _ _ Hprof) in Ha'. destruct (Hr I2) as (_ & _ & Hsub).
  eapply lookup_weaken in Ha2; [|exact Hsub]. congruence.
Qed.

(** ** States of flows *)

Section states.
Context `{Env} `{PgCitext} `{Hasher} `{Signer} `{UnicodeLower} `{Cipher} `{TokenEndpoint} `{Jose}.
Context (cfg : AuthConfig) (registry : oauthRegistry).

(** A [BeginOAuth] of the run stores the state (again). *)
Fixpoint reissued (state : string) (ops : list auth_op) (s : st AuthDB) : Prop :=
  match ops with
  | [] => False
  | o :: ops =>
      let s' := auth_exec cfg registry o s in
      (match o with ABeginOAuth _ _ _ => is_Some (dFlows (sdb s') !! state) | _ => False end) \/
      reissued state ops s'
  end.

(** A computation that stores no flow for a state. *)
Definition noNewFlow (state : string) (db db' : AuthDB) : Prop :=
  dFlows db !! state = None -> dFlows db' !! state = None.

Lemma noNewFlow_refl state db : noNewFlow state db db.
Proof. by unfold noNewFlow. Qed.
Lemma noNewFlow_trans state a b c : noNewFlow state a b -> noNewFlow state b c -> noNewFlow state a c.
Proof. unfold noNewFlow. auto. Qed.
Lemma noNewFlow_keeps state db db' : dFlows db' = dFlows db -> noNewFlow state db db'.
Proof. unfold noNewFlow. by intros ->. Qed.

Lemma consume_noNewFlow state state' : commits (noNewFlow state) (consumeTx state').
Proof.
  intros s f s' E. apply consumeTx_Ok in E as [_ ->]. unfold noNewFlow. simpl. intros Hn.
  destruct (decide (state' = state)) as [->|Hne]; [apply lookup_delete_eq|by rewrite lookup_delete_ne].
Qed.

Lemma CompleteOAuth_noNewFlow state p st c v : relates (noNewFlow state) (CompleteOAuth cfg registry p st c v).
Proof.
  unfold CompleteOAuth, finishOAuth.
  repeat (apply relates_bind_l; [apply noNewFlow_refl|solve [auto with vibe]|intros ?]).
  apply relates_bind; [apply noNewFlow_trans| |intros flow].
  - apply relates_commits; [apply noNewFlow_refl|apply consume_noNewFlow].
  - repeat (apply relates_bind_l; [apply noNewFlow_refl|solve [auto with vibe]|intros ?]).
    destruct (_ || _); [apply relates_quiet; [apply noNewFlow_refl|auto with vibe]|].
    apply relates_bind_r; [|intros; auto with vibe]. apply relates_commits; [apply noNewFlow_refl|].
    eapply commits_mono, completeOAuthTx_flows. intros db db' [= E _]. by apply noNewFlow_keeps.
Qed.

Lemma auth_exec_noNewFlow state o s :
  (forall p r c, o <> ABeginOAuth p r c) -> noNewFlow state (sdb s) (sdb (auth_exec cfg registry o s)).
Proof.
  intros Hb. destruct o; simpl.
  - apply noNewFlow_keeps. pose proof (Login_frame cfg email password deviceLabel s) as [=]. congruence.
  - apply noNewFlow_keeps. pose proof (Refresh_frame cfg presented s) as [=]. congruence.
  - apply noNewFlow_keeps. pose proof (Logout_frame presented s) as [=]. congruence.
  - apply noNewFlow_keeps. pose proof (Register_flows cfg email username password displayName deviceLabel s) as [=].
    congruence.
  - by destruct (Hb provider redirectURI codeChallenge).
  - apply CompleteOAuth_noNewFlow.
  - apply noNewFlow_keeps. pose proof (GetProviderToken_frame cfg registry userID provider s) as [=]. congruence.
  - apply noNewFlow_keeps. pose proof (RotateKeys_frame cfg force signer s) as [=]. congruence.
  - apply noNewFlow_keeps. pose proof (bootstrapSigner_frame s) as [=]. congruence.
Qed.

Lemma auth_run_noNewFlow state ops s :
  ~ reissued state ops s -> noNewFlow state (sdb s) (sdb (auth_run cfg registry ops s)).
Proof.
  revert s. induction ops as [|o ops IH]; intros s Hr; [apply noNewFlow_refl|]. simpl in Hr. intros Hn.
  apply (IH (auth_exec cfg registry o s)); [tauto|].
  assert ((exists p r c, o = ABeginOAuth p r c) \/ forall p r c, o <> ABeginOAuth p r c) as [(p & r & c & ->)|Hb]
    by (destruct o; eauto; right; by intros).
  - apply eq_None_not_Some. intros Hs. apply Hr. by left.
  - by apply auth_exec_noNewFlow.
Qed.

(** Without its flow a completion is refused. *)
Lemma CompleteOAuth_no_flow p state c v s :
  dFlows (sdb s) !! state = None ->
  let out := CompleteOAuth cfg registry p state c v s in (exists e, out.1 = Err e) /\ sdb out.2 = sdb s.
Proof.
  intros Hn out. destruct out as [r s'] eqn:E. subst out. cbn [fst snd]. unfold CompleteOAuth, sbind at 1 in E.
  pose proof (quiet_ctxDone s) as Hq.
  destruct (ctxDone s) as [[[]|e] s1]; simpl in Hq; [|injection E as <- <-; by split; [eexists|]].
  unfold sbind at 1 in E. pose proof (quiet_lookupProvider registry p "unknown or disabled OAuth provider" s1) as Hl.
  destruct (lookupProvider _ _ _ s1) as [[pr|e] s2]; simpl in Hl;
    [|injection E as <- <-; split; [by eexists|congruence]].
  unfold sbind in E. destruct (withTx _ s2) as [r3 s3] eqn:Ew.
  apply withTx_cases in Ew as [[Hs [e ->]]|(f & s4 & Hf & _)]; [injection E as <- <-; split; [by eexists|congruence]|].
  apply consumeTx_Ok in Hf as [Hf _]. simpl in Hf. congruence.
Qed.

Lemma CompleteOAuth_consumes p state c v s x s' :
  CompleteOAuth cfg registry p state c v s = (Ok x, s') ->
  is_Some (dFlows (sdb s) !! state) /\ dFlows (sdb s') !! state = None.
Proof.
  intros E. split.
  { destruct (dFlows (sdb s) !! state) eqn:Ed; [done|]. exfalso.
    destruct (CompleteOAuth_no_flow p state c v s Ed) as [[e He] _]. by rewrite E in He. }
  unfold CompleteOAuth in E. apply sbind_Ok in E as ([] & s1 & _ & E). apply sbind_Ok in E as (pr & s2 & _ & E).
  apply sbind_Ok in E as (flow & s3 & Hw & E).
  apply withTx_cases in Hw as [[_ [e [=]]]|(f & s4 & Hf & _ & Hs3 & _)]. apply consumeTx_Ok in Hf as [_ Hs4].
  assert (dFlows (sdb s3) !! state = None) as Hn by (rewrite Hs3, Hs4; apply lookup_delete_eq).
  unfold finishOAuth in E. apply sbind_Ok in E as (toks & s5 & Ht & E). apply smapErr_Ok in Ht. injection Ht as _ <-.
  apply sbind_Ok in E as (prof & s6 & Hp & E). apply smapErr_Ok in Hp. injection Hp as _ <-.
  destruct (_ || _); [done|]. apply sbind_Ok in E as (sm & s7 & Hw & [= _ <-]).
  apply withTx_cases in Hw as [[_ [e [=]]]|(a & s8 & Ha & _ & Hs7 & _)].
  apply completeOAuthTx_flows in Ha. injection Ha as Hfl _. by rewrite Hs7, Hfl.
Qed.
End states.

(** C22. The state of an OAuth flow is used once, when requests are served one
    after the other: a completion that succeeds had a stored flow, and from then
    on every completion with the same state is refused and changes nothing,
    whatever requests come in between, unless a later [BeginOAuth] draws the same
    state again. *)
Theorem oauth_state_single_use `{Env} `{PgCitext} `{Hasher} `{Signer} `{UnicodeLower} `{Cipher} `{TokenEndpoint} `{Jose}
    cfg registry p state c v s x s1 later p' c' v' :
  CompleteOAuth cfg registry p state c v s = (Ok x, s1) -> ~ reissued cfg registry state later s1 ->
  is_Some (dFlows (sdb s) !! state) /\
  let s2 := auth_run cfg registry later s1 in
  let again := CompleteOAuth cfg registry p' state c' v' s2 in
  (exists e, again.1 = Err e) /\ sdb again.2 = sdb s2.
Proof.
  intros E Hr. apply CompleteOAuth_consumes in E as [Hs Hn]. split; [done|]. intros s2 again.
  apply CompleteOAuth_no_flow. by apply auth_run_noNewFlow.
Qed.

(** ** Witnesses *)

#[local] Existing Instances authEnv authEnv_Calm prefixHasher constSigner exactCitext idLower markCipher echoEndpoint toyJose.

#[local] Instance exactCitext_laws : CitextLaws exactCitext.
Proof.
  split; unfold citextEq, exactCitext.
  - intros a. by apply bool_decide_eq_true.
  - intros a b. apply bool_decide_ext. naive_solver.
  - intros a b c ->%bool_decide_eq_true. done.
Qed.

Lemma demoUsers_distinct : distinct_users demoUsers.
Proof. split; unfold demoUsers; intros; simplify_map_eq; by repeat match goal with H : {[_ := _]} !! _ = Some _ |- _ => apply lookup_singleton_Some in H as [<- <-] end. Qed.

(** A registration, and an OAuth log-in of somebody new. *)
Definition demoBegun : list auth_op :=
  [ARegister "Carl@Example.com" "carl" "longenough" "" "phone"; ABeginOAuth "spotify" "https://app/cb" ""].
Definition demoBegan : st AuthDB := auth_run demoAuthConfig demoRegistry demoBegun (authStart demoUsers).
Definition demoState : string :=
  match map_to_list (dFlows (sdb demoBegan)) with (k, _) :: _ => k | [] => "" end.
Definition demoOps : list auth_op := demoBegun ++ [ACompleteOAuth "spotify" demoState "bob" ""].
Definition demoDone : st AuthDB := auth_run demoAuthConfig demoRegistry demoOps (authStart demoUsers).

Lemma accounts_sound_witness :
  let db := sdb demoDone in
  size (dUsers db) = 3%nat /\ (exists a, dAccounts db !! ("spotify", "at-bob") = Some a) /\
  forall k1 k2 u1 u2, dUsers db !! k1 = Some u1 -> dUsers db !! k2 = Some u2 ->
    citextEq (uEmail u1) (uEmail u2) = true \/ uUsername u1 = uUsername u2 -> k1 = k2.
Proof.
  split; [by vm_compute|]. split; [eexists; by vm_compute|].
  apply (accounts_sound demoAuthConfig demoRegistry demoUsers demoOps demoUsers_distinct).
Defined.

Lemma user_created_once_witness :
  length (dEvents (sdb demoDone)) = 2%nat /\ NoDup (announced (sdb demoDone)).
Proof.
  split; [by vm_compute|]. apply (user_created_once demoAuthConfig demoRegistry demoUsers demoOps demoUsers_distinct).
Defined.

Definition bobLink : OAuthAccount :=
  default (mkOAuthAccount "" "" "" 0) (dAccounts (sdb demoDone) !! ("spotify", "at-bob")).
Definition bobRow : User :=
  default (mkUser "" "" "" "" "" "" 0 0 0 0) (dUsers (sdb demoDone) !! oaUserID bobLink).

Lemma bobLinked : dAccounts (sdb demoDone) !! ("spotify", "at-bob") = Some bobLink.
Proof. by vm_compute. Qed.
Lemma bobExists : dUsers (sdb demoDone) !! oaUserID bobLink = Some bobRow.
Proof. by vm_compute. Qed.

Lemma links_stable_witness :
  let s2 := auth_run demoAuthConfig demoRegistry [ARestart; ALogout "x"] demoDone in
  uUsername bobRow = "bob_smith" /\ dAccounts (sdb s2) !! ("spotify", "at-bob") = Some bobLink /\
  dUsers (sdb s2) !! oaUserID bobLink = Some bobRow.
Proof.
  split; [by vm_compute|].
  destruct (links_stable demoAuthConfig demoRegistry demoUsers demoOps [ARestart; ALogout "x"] "spotify" "at-bob"
    bobLink bobRow demoUsers_distinct bobLinked bobExists) as (Ha & Hu & _).
  split; [exact Ha|exact Hu].
Defined.

Lemma oauth_state_single_use_witness :
  let s2 := auth_run demoAuthConfig demoRegistry [ARestart] demoDone in
  let again := CompleteOAuth demoAuthConfig demoRegistry "google" demoState "eve" "" s2 in
  (exists e, again.1 = Err e) /\ sdb again.2 = sdb s2.
Proof.
  destruct (CompleteOAuth demoAuthConfig demoRegistry "spotify" demoState "bob" "" demoBegan) as [[x|e] s1] eqn:E.
  2:{ exfalso. assert (is_Ok (CompleteOAuth demoAuthConfig demoRegistry "spotify" demoState "bob" "" demoBegan).1 = true)
        as Hok by by vm_compute. by rewrite E in Hok. }
  assert (s1 = demoDone) as ->.
  { unfold demoDone, demoOps. unfold auth_run. rewrite fold_left_app. change (fold_left _ demoBegun _) with demoBegan.
    cbn [fold_left auth_exec]. by rewrite E. }
  destruct (oauth_state_single_use demoAuthConfig demoRegistry "spotify" demoState "bob" "" demoBegan x demoDone [ARestart]
    "google" "eve" "" E ltac:(by intros [[]|[]])) as [_ Hagain]. exact Hagain.
Defined.

(** ** Where the code differs from its comments *)

(** A flow that is past its time is completed all the same: nothing calls
    [IsExpired], and nothing deletes expired flows. *)
Example expired_flow_accepted :
  let cfg := mkAuthConfig (900 * second) (3600 * second) (10 * second) 0 (3600 * second) "vibesync" (mkOAuthConfig "" "" "" "") in
  let s1 := (BeginOAuth cfg demoRegistry "spotify" "https://app/cb" "" (authStart demoUsers)).2 in
  map (fun kv => FlowIsExpired (env_now (sn s1)) kv.2) (map_to_list (dFlows (sdb s1))) = [true] /\
  forallb (fun kv => is_Ok (CompleteOAuth cfg demoRegistry "spotify" kv.1 "bob" "" s1).1) (map_to_list (dFlows (sdb s1))) = true.
Proof. by vm_compute. Qed.

(** A flow that was begun with one provider is completed with another. *)
Example flow_provider_unchecked :
  option_map ofProvider (dFlows (sdb demoBegan) !! demoState) = Some "spotify" /\
  is_Ok (CompleteOAuth demoAuthConfig demoRegistry "google" demoState "bob" "" demoBegan).1 = true.
Proof. by vm_compute. Qed.

(** A provider that has not verified the address it reports logs its user in as
    the user with that address. *)
Example unverified_address_links :
  (exists toks prof, opExchange (demoProvider "spotify") 0 "eve" "" "" = Ok toks /\
     opProfile (demoProvider "spotify") 0 toks = Ok prof /\ ppEmailVerified prof = false) /\
  match CompleteOAuth demoAuthConfig demoRegistry "spotify" demoState "eve" "" demoBegan with
  | (Ok x, _) => x.1 = "u1"
  | _ => False
  end.
Proof. split; [by do 2 eexists|by vm_compute]. Qed.

(** With no provider enabled the registry is a nil pointer in a non-nil
    interface: the guard does not catch it. *)
Example disabled_oauth_panics :
  let registry := RegistryOf (buildOAuthRegistry false false (demoProvider "spotify") (demoProvider "google")) in
  (BeginOAuth demoAuthConfig registry "spotify" "https://app/cb" "" (authStart demoUsers)).1 = Err nilDereference.
Proof. by vm_compute. Qed.

(** A derived user name that somebody has is an internal error, and not the
    invalid argument the comment promises. *)
Example derived_name_taken :
  let s1 := auth_run demoAuthConfig demoRegistry
    [ARegister "bob@other.org" "bob_smith" "longenough" "" ""; ABeginOAuth "spotify" "https://app/cb" ""] (authStart demoUsers) in
  forallb (fun kv => match CompleteOAuth demoAuthConfig demoRegistry "spotify" kv.1 "bob" "" s1 with
                     | (Err e, _) => bool_decide (wireCode e = CodeInternal)
                     | _ => false
                     end) (map_to_list (dFlows (sdb s1))) = true.
Proof. by vm_compute. Qed.

(** A log-in for which the provider returns no refresh token overwrites the
    stored one, where the comment says that such tokens are skipped. *)
Example refresh_token_lost :
  let s1 := (withTx (saveProviderTokens "spotify" "u1" (mkProviderTokens "a1" "" "r1" 0)) (authStart demoUsers)).2 in
  let s2 := (withTx (saveProviderTokens "spotify" "u1" (mkProviderTokens "a2" "" "" 0)) s1).2 in
  ptRefreshTokenEnc <$> (dProviderTokens (sdb s1) !! ("spotify", "u1")) = Some "e:r1" /\
  ptRefreshTokenEnc <$> (dProviderTokens (sdb s2) !! ("spotify", "u1")) = Some "e:".
Proof. by vm_compute. Qed.
