(* ===== verification/OAuthProviders.v ===== *)
(** * The OAuth provider clients

    Model of [apps/auth-service/internal/infra/oauth]: [baseProvider] with its
    [Config] ([provider.go]), the Google client ([google.go]) and the Spotify
    client ([spotify.go]), as implementations of the port [OAuthProvider] of
    [OAuth].  The [oauth2] library, the HTTP client and the JSON decoder are
    parameters.

    A log-in is of the user linked to the identity the provider reports for the
    exchanged code; and with an authorization server that keeps RFC 7636, a code
    that was asked for with a challenge is of use only to the holder of the
    verifier. *)

From S2P Require Import Prelude GoNum Errors GoString GoUnicode GoTime Store RoomDomain Outbox Web AuthDomain Auth Register OAuth SigningKeys AuthRuns AuthFrames AuthSteps AccountSteps AuthDemo AccountTheorems.

Open Scope Z_scope.

(** ** What the clients call *)

(** [oauth2.Config]. *)
Record oauth2Config : Type := mkOauth2Config {
  o2ClientID : string;
  o2ClientSecret : string;
  o2AuthURL : string;
  o2TokenURL : string;
  o2RedirectURL : string;
  o2Scopes : list string;
}.

(** [oauth2.Token]; of [Extra], the values that are strings. *)
Record oauth2Token : Type := mkOauth2Token {
  o2AccessToken : string;
  o2Extra : gmap string string;
  o2Expiry : time;
}.

Record profileRequest : Type := mkProfileRequest { prMethod : string; prURL : string; prHeader : Header }.
Record profileResponse : Type := mkProfileResponse { psStatusCode : Z; psStatus : string; psBody : res error string }.

(** The subsets of the providers' answers that are decoded. *)
Record googleProfileJSON : Type := mkGoogleProfile {
  gpSub : string;
  gpEmail : string;
  gpEmailVerified : bool;
  gpName : string;
  gpPicture : string;
}.
Record spotifyProfileJSON : Type := mkSpotifyProfile {
  spID : string;
  spDisplayName : string;
  spEmail : string;
  spProduct : string;
  spImages : list string;      (* the URLs *)
}.

(** What a call answers may depend on the interaction. *)
Class OAuthWorld : Type := {
  ow_AuthCodeURL : oauth2Config -> string -> list (string * string) -> string;
  ow_Exchange : nat -> oauth2Config -> string -> list (string * string) -> res error oauth2Token;
  ow_NewRequest : string -> string -> option error;    (* the error of [http.NewRequest] *)
  ow_Do : nat -> profileRequest -> res error profileResponse;
  ow_now : nat -> time;
  ow_UnmarshalGoogle : string -> res error googleProfileJSON;
  ow_UnmarshalSpotify : string -> res error spotifyProfileJSON;
}.

(** ** The shared machinery *)

(** [Config].  The source passes the configuration to [ProfileFetch] too; no
    client sets that field. *)
Record Config : Type := mkConfig {
  cfName : string;
  cfClientID : string;
  cfClientSecret : string;
  cfScopes : list string;
  cfRedirectURL : string;
  cfAuthURL : string;
  cfTokenURL : string;
  cfProfileURL : string;
  cfProfileFetch : option (nat -> ProviderTokens -> res error ProviderProfile);
  cfMapProfile : option (string -> res error ProviderProfile);
}.

Record baseProvider : Type := mkBase { bpCfg : Config; bpOauthCfg : oauth2Config }.

Definition newBase (cfg : Config) : baseProvider :=
  mkBase cfg (mkOauth2Config (cfClientID cfg) (cfClientSecret cfg) (cfAuthURL cfg) (cfTokenURL cfg)
                (cfRedirectURL cfg) (cfScopes cfg)).

Section clients.
Context `{OAuthWorld}.

(** The parameters of the authorization URL. *)
Definition pkceParams (codeChallenge : string) : list (string * string) :=
  [("code_challenge", codeChallenge); ("code_challenge_method", "S256")].

Definition AuthorizationURL (b : baseProvider) (_redirectURI state codeChallenge : string) : res error string :=
  Ok (ow_AuthCodeURL (bpOauthCfg b) state (pkceParams codeChallenge)).

Definition providerTokensFromOauth2 (now : time) (t : oauth2Token) : ProviderTokens :=
  mkProviderTokens (o2AccessToken t) (default "" (o2Extra t !! "id_token")) (default "" (o2Extra t !! "refresh_token"))
    (if negb (time_IsZero (o2Expiry t)) then time_Sub (o2Expiry t) now else 0).

Definition Exchange (b : baseProvider) (n : nat) (code _redirectURI codeVerifier : string) : res error ProviderTokens :=
  let opts := if negb (bool_decide (codeVerifier = "")) then [("code_verifier", codeVerifier)] else [] in
  match ow_Exchange n (bpOauthCfg b) code opts with
  | Err e => Err e
  | Ok tok => Ok (providerTokensFromOauth2 (ow_now n) tok)
  end.

Definition profileRequestOf (cfg : Config) (tokens : ProviderTokens) : profileRequest :=
  mkProfileRequest "GET" (cfProfileURL cfg)
    (<["Accept" := "application/json"]> (<["Authorization" := "Bearer " +:+ tkAccessToken tokens]> ∅)).

Definition defaultProfileFetch (cfg : Config) (n : nat) (tokens : ProviderTokens) : res error ProviderProfile :=
  match cfMapProfile cfg with
  | Some mapProfile =>
      if bool_decide (cfProfileURL cfg = "") then Err (EMsg "oauth: profile URL or mapper missing")
      else
        match ow_NewRequest "GET" (cfProfileURL cfg) with
        | Some e => Err e
        | None =>
            match ow_Do n (profileRequestOf cfg tokens) with
            | Err e => Err e
            | Ok resp =>
                if negb (psStatusCode resp =? 200) then Err (EMsg ("oauth: profile fetch status " +:+ psStatus resp))
                else match psBody resp with
                     | Err e => Err e
                     | Ok raw => mapProfile raw
                     end
            end
        end
  | None => Err (EMsg "oauth: profile URL or mapper missing")
  end.

Definition Profile (b : baseProvider) (n : nat) (tokens : ProviderTokens) : res error ProviderProfile :=
  match cfProfileFetch (bpCfg b) with
  | Some fetch => fetch n tokens
  | None => defaultProfileFetch (bpCfg b) n tokens
  end.

(** The methods of a [baseProvider] as the port. *)
Definition providerOf (b : baseProvider) : OAuthProvider :=
  mkOAuthProvider (cfName (bpCfg b)) (fun _ => AuthorizationURL b) (Exchange b) (Profile b).

(** ** Google *)

Definition googleAuthURL : string := "https://accounts.google.com/o/oauth2/v2/auth".
Definition googleTokenURL : string := "https://oauth2.googleapis.com/token".
Definition googleProfileURL : string := "https://openidconnect.googleapis.com/v1/userinfo".

Definition mapGoogleProfile (raw : string) : res error ProviderProfile :=
  match ow_UnmarshalGoogle raw with
  | Err e => Err (EMsg ("google: parse profile: " +:+ errText e))
  | Ok p => Ok (mkProfile "google" (gpSub p) (gpEmail p) (gpEmailVerified p) (gpName p) (gpPicture p))
  end.

Definition NewGoogleProvider (cfg : Config) : OAuthProvider :=
  providerOf (newBase (mkConfig "google" (cfClientID cfg) (cfClientSecret cfg) (cfScopes cfg) (cfRedirectURL cfg)
    googleAuthURL googleTokenURL googleProfileURL (cfProfileFetch cfg) (Some mapGoogleProfile))).

(** ** Spotify *)

Definition spotifyAuthURL : string := "https://accounts.spotify.com/authorize".
Definition spotifyTokenURL : string := "https://accounts.spotify.com/api/token".
Definition spotifyProfileURL : string := "https://api.spotify.com/v1/me".

Definition mapSpotifyProfile (raw : string) : res error ProviderProfile :=
  match ow_UnmarshalSpotify raw with
  | Err e => Err (EMsg ("spotify: parse profile: " +:+ errText e))
  | Ok p =>
      let avatar := match spImages p with url :: _ => url | [] => "" end in
      Ok (mkProfile "spotify" (spID p) (spEmail p) true (spDisplayName p) avatar)
  end.

Definition NewSpotifyProvider (cfg : Config) : OAuthProvider :=
  providerOf (newBase (mkConfig "spotify" (cfClientID cfg) (cfClientSecret cfg) (cfScopes cfg) (cfRedirectURL cfg)
    spotifyAuthURL spotifyTokenURL spotifyProfileURL (cfProfileFetch cfg) (Some mapSpotifyProfile))).

(** The registry of the service: [buildOAuthRegistry] with the clients, each
    with its credentials from the environment and the one redirect URL. *)
Definition oauthClientConfig (clientID clientSecret : string) (scopes : list string) (redirectURIBase : string) : Config :=
  mkConfig "" clientID clientSecret scopes (redirectURIBase +:+ "/api/v1/oauth/callback") "" "" "" None None.
Definition serviceRegistry (spotifyEnabled googleEnabled : bool) (spotifyCfg googleCfg : Config) : oauthRegistry :=
  RegistryOf (buildOAuthRegistry spotifyEnabled googleEnabled (NewSpotifyProvider spotifyCfg) (NewGoogleProvider googleCfg)).

(** [Names]; its order is that of the map. *)
Definition Names (r : gmap string OAuthProvider) : list string := (map_to_list r).*1.
End clients.

(** ** The registry *)

Lemma serviceRegistry_lookup `{OAuthWorld} se ge scfg gcfg r name p :
  serviceRegistry se ge scfg gcfg = RegistryOf (Some r) -> r !! name = Some p ->
  (name = "spotify" /\ se = true /\ p = NewSpotifyProvider scfg) \/ (name = "google" /\ ge = true /\ p = NewGoogleProvider gcfg).
Proof.
  unfold serviceRegistry, buildOAuthRegistry, NewRegistry. intros [= Hr] Hl.
  destruct se, ge; simpl in Hr; try discriminate Hr; injection Hr as <-;
    repeat (apply lookup_insert_Some in Hl as [[<- <-]|[_ Hl]]; [auto|]); by rewrite lookup_empty in Hl.
Qed.

Lemma serviceRegistry_names `{OAuthWorld} se ge scfg gcfg r : serviceRegistry se ge scfg gcfg = RegistryOf (Some r) ->
  forall name, name ∈ Names r <-> (name = "spotify" /\ se = true) \/ (name = "google" /\ ge = true).
Proof.
  intros Hr name. unfold Names. rewrite list_elem_of_fmap. split.
  - intros ([k p] & -> & Hin). apply elem_of_map_to_list in Hin.
    destruct (serviceRegistry_lookup _ _ _ _ _ _ _ Hr Hin) as [(-> & -> & _)|(-> & -> & _)]; auto.
  - unfold serviceRegistry, buildOAuthRegistry, NewRegistry in Hr. injection Hr as Hr.
    destruct se, ge; simpl in Hr; try discriminate Hr; injection Hr as <-; intros [[-> Hb]|[-> Hb]]; try discriminate Hb;
      eexists (_, _); (split; [reflexivity|]); apply elem_of_map_to_list; by simplify_map_eq.
Qed.

(** ** RFC 7636 *)

(** The server remembers the parameters of the URL a code was asked for with;
    when they have a challenge made with [S256], it gives tokens only to a
    request whose verifier has that hash. *)
Class Pkce `{OAuthWorld} (S256 : string -> string) (authorizedWith : string -> option (list (string * string))) : Prop :=
  pkce_checked : forall n cfg code opts tok params challenge,
    ow_Exchange n cfg code opts = Ok tok -> authorizedWith code = Some params ->
    ("code_challenge", challenge) ∈ params -> ("code_challenge_method", "S256") ∈ params ->
    exists verifier, ("code_verifier", verifier) ∈ opts /\ S256 verifier = challenge.

Lemma Exchange_Ok `{OAuthWorld} b n code redirect verifier toks :
  Exchange b n code redirect verifier = Ok toks ->
  exists tok opts, ow_Exchange n (bpOauthCfg b) code opts = Ok tok /\ toks = providerTokensFromOauth2 (ow_now n) tok /\
    opts = (if bool_decide (verifier = "") then [] else [("code_verifier", verifier)]).
Proof.
  unfold Exchange. destruct (ow_Exchange _ _ _ _) as [tok|e] eqn:Ex; [|done]. intros [= <-].
  eexists tok, _. split; [exact Ex|]. split; [done|]. by case_bool_decide.
Qed.

Lemma Exchange_Pkce `{Pkce} b n code redirect verifier toks challenge :
  Exchange b n code redirect verifier = Ok toks -> authorizedWith code = Some (pkceParams challenge) ->
  verifier <> "" /\ S256 verifier = challenge.
Proof.
  intros (tok & opts & Ex & _ & ->)%Exchange_Ok Ha.
  destruct (pkce_checked _ _ _ _ _ _ challenge Ex Ha) as (v & Hin & Hv); [unfold pkceParams; set_solver..|].
  case_bool_decide as Eb; [by apply elem_of_nil in Hin|]. by apply list_elem_of_singleton in Hin as [= ->].
Qed.

Lemma defaultProfileFetch_Ok `{OAuthWorld} cfg n tokens prof : defaultProfileFetch cfg n tokens = Ok prof ->
  exists resp raw mapProfile, ow_Do n (profileRequestOf cfg tokens) = Ok resp /\ psStatusCode resp = 200 /\
    psBody resp = Ok raw /\ cfMapProfile cfg = Some mapProfile /\ mapProfile raw = Ok prof.
Proof.
  unfold defaultProfileFetch. destruct (cfMapProfile cfg) as [f|]; [|done]. destruct (bool_decide _); [done|].
  destruct (ow_NewRequest _ _); [done|]. destruct (ow_Do _ _) as [resp|]; [|done].
  destruct (negb _) eqn:Es; [done|]. destruct (psBody resp) as [raw|] eqn:Eb; [|done]. intros Hp.
  apply negb_false_iff, Z.eqb_eq in Es. by exists resp, raw, f.
Qed.

(** The profile came from the provider's own address, in a response of status 200
    to a request with the access token this code was exchanged for, and says
    what that response says. *)
Definition reported `{OAuthWorld} (se ge : bool) (pname code : string) (prof : ProviderProfile) : Prop :=
  exists n url accessToken resp raw, ow_Do n (mkProfileRequest "GET" url
      (<["Accept" := "application/json"]> (<["Authorization" := "Bearer " +:+ accessToken]> ∅))) = Ok resp /\
    psStatusCode resp = 200 /\ psBody resp = Ok raw /\ ppProvider prof = pname /\
    (exists m opts ocfg tok, ow_Exchange m ocfg code opts = Ok tok /\ o2AccessToken tok = accessToken) /\
    ((pname = "spotify" /\ se = true /\ url = spotifyProfileURL /\ mapSpotifyProfile raw = Ok prof) \/
     (pname = "google" /\ ge = true /\ url = googleProfileURL /\ mapGoogleProfile raw = Ok prof /\
      exists p, ow_UnmarshalGoogle raw = Ok p /\ ppEmailVerified prof = gpEmailVerified p /\ ppProviderUserID prof = gpSub p)).

Lemma fetched_reported `{OAuthWorld} se ge id1 secret1 scopes1 id2 secret2 scopes2 base r pname provider n1 n2 code redirect verifier toks prof :
  serviceRegistry se ge (oauthClientConfig id1 secret1 scopes1 base) (oauthClientConfig id2 secret2 scopes2 base) =
    RegistryOf (Some r) -> r !! pname = Some provider ->
  opExchange provider n1 code redirect verifier = Ok toks -> opProfile provider n2 toks = Ok prof ->
  opName provider = pname /\ reported se ge pname code prof.
Proof.
  intros Hr Hp Hx Hpr. unfold reported.
  destruct (serviceRegistry_lookup _ _ _ _ _ _ _ Hr Hp) as [(-> & -> & ->)|(-> & -> & ->)];
    (split; [done|]);
    destruct (Exchange_Ok _ _ _ _ _ _ Hx) as (tok & opts & Ht & -> & _);
    apply defaultProfileFetch_Ok in Hpr as (resp & raw & f & Hd & Hst & Hb & [= <-] & Hm);
    eexists n2, _, _, resp, raw; (split; [exact Hd|]).
  - split_and!; [done|done| |by eexists _, _, _, _|by left].
    unfold mapSpotifyProfile in Hm. destruct (ow_UnmarshalSpotify raw); [|done]. by injection Hm as <-.
  - assert (exists p, ow_UnmarshalGoogle raw = Ok p /\ prof = mkProfile "google" (gpSub p) (gpEmail p) (gpEmailVerified p) (gpName p) (gpPicture p))
      as (p & Hu & Hprof) by (unfold mapGoogleProfile in Hm; destruct (ow_UnmarshalGoogle raw) as [p|]; [exists p; by injection Hm as <-|done]).
    split_and!; [done|done|by rewrite Hprof|by eexists _, _, _, _|]. right. split_and!; [done..|]. exists p. by rewrite Hprof.
Qed.

(** What a challenge demands of the caller, whichever provider was asked. *)
Lemma fetched_Pkce `{Pkce} se ge scfg gcfg r pname provider n1 code redirect verifier toks challenge :
  serviceRegistry se ge scfg gcfg = RegistryOf (Some r) -> r !! pname = Some provider ->
  opExchange provider n1 code redirect verifier = Ok toks -> authorizedWith code = Some (pkceParams challenge) ->
  verifier <> "" /\ S256 verifier = challenge.
Proof.
  intros Hr Hp Hx Ha.
  by destruct (serviceRegistry_lookup _ _ _ _ _ _ _ Hr Hp) as [(-> & -> & ->)|(-> & -> & ->)];
    apply (Exchange_Pkce _ _ _ _ _ _ challenge Hx).
Qed.

(** C23. A log-in by a provider is bound to who started it and to whom the provider
    names.  When the service is configured with the two clients, in every state
    that requests served one after the other reach: the user a log-in answers is
    the one whose account is linked, in the database it leaves, to the provider
    that was asked and the identity of the profile, and was already the one
    linked if the identity was; that profile comes from the provider's own
    address, in a response of status 200 to a request with the access token of
    this code's exchange, and keeps Google's word on the identity and on whether
    the address is verified.  And when the providers keep RFC 7636, a code that
    was asked for with a challenge logs in only the caller who has the verifier
    with that hash. *)
Theorem oauth_login_bound `{OAuthWorld} `{!Pkce S256 authorizedWith} `{Env} `{C : PgCitext} `{!CitextLaws C} `{Hasher} `{Signer}
    `{UnicodeLower} `{Cipher} `{TokenEndpoint} `{Jose}
    acfg se ge id1 secret1 scopes1 id2 secret2 scopes2 base users ops pname state code verifier x s' :
  let registry := serviceRegistry se ge (oauthClientConfig id1 secret1 scopes1 base) (oauthClientConfig id2 secret2 scopes2 base) in
  let s := auth_run acfg registry ops (authStart users) in
  distinct_users users ->
  CompleteOAuth acfg registry pname state code verifier s = (Ok x, s') ->
  (exists prof a, reported se ge pname code prof /\
     dAccounts (sdb s') !! (pname, ppProviderUserID prof) = Some a /\ oaUserID a = x.1 /\
     (forall a0, dAccounts (sdb s) !! (pname, ppProviderUserID prof) = Some a0 -> oaUserID a0 = x.1)) /\
  (forall challenge, authorizedWith code = Some (pkceParams challenge) -> verifier <> "" /\ S256 verifier = challenge).
Proof.
  intros registry s Hd E.
  destruct (auth_run_acctR acfg registry users ops (authStart users)) as [I _]; [by apply acct_inv_start|].
  apply (CompleteOAuth_linked acfg registry users) in E
    as (provider & n1 & redirect & n2 & toks & prof & Hx & Hpr & (r & Hr & Hp) & Hacct & a & Ha & Hau); [|done].
  destruct (fetched_reported _ _ _ _ _ _ _ _ _ _ _ _ _ _ _ _ _ _ _ Hr Hp Hx Hpr) as [Hname Hrep]. rewrite Hname in Ha. split.
  - exists prof, a. split_and!; [done..|]. intros a0 Ha0. destruct (Hacct I) as (_ & _ & Hsub).
    eapply lookup_weaken in Ha0; [|exact Hsub]. congruence.
  - intros challenge Hch. by eapply fetched_Pkce.
Qed.

(** ** A provider *)

#[local] Existing Instances authEnv prefixHasher constSigner exactCitext exactCitext_laws idLower markCipher echoEndpoint toyJose.

(** It has issued the code [c1] for the challenge of the verifier [v1], and the
    code [c2] without a challenge. *)
Definition demoS256 (verifier : string) : string := "H:" +:+ verifier.
Definition demoAuthorized (code : string) : option (list (string * string)) :=
  if bool_decide (code = "c1") then Some (pkceParams "H:v1") else if bool_decide (code = "c2") then Some [] else None.

#[local] Instance demoWorld : OAuthWorld := {|
  ow_AuthCodeURL cfg state params := o2AuthURL cfg +:+ "?state=" +:+ state;
  ow_Exchange n cfg code opts :=
    if bool_decide (code = "c1" /\ opts = [("code_verifier", "v1")]) || bool_decide (code = "c2")
    then Ok (mkOauth2Token ("at-" +:+ code) ∅ time_zero) else Err (EMsg "invalid_grant");
  ow_NewRequest _ _ := None;
  ow_Do n rq := Ok (mkProfileResponse 200 "200 OK" (Ok (hGet (prHeader rq) "Authorization")));
  ow_now n := 0;
  ow_UnmarshalGoogle raw := Ok (mkGoogleProfile raw "bob.smith@example.com" false "Bob" "");
  ow_UnmarshalSpotify raw := Ok (mkSpotifyProfile raw "Bob" "bob.smith@example.com" "free" []);
|}.

#[local] Instance demoPkce : Pkce demoS256 demoAuthorized.
Proof.
  intros n cfg code opts tok params challenge. cbn [ow_Exchange demoWorld]. unfold demoAuthorized.
  destruct (bool_decide (code = "c1")) eqn:E1.
  - apply bool_decide_eq_true in E1 as ->. rewrite (bool_decide_false ("c1" = "c2")) by discriminate. rewrite orb_false_r.
    case_bool_decide as Hc; [|done]. destruct Hc as [_ ->]. intros _ [= <-] Hch _.
    exists "v1". split; [by apply list_elem_of_singleton|].
    unfold pkceParams in Hch. apply elem_of_cons in Hch as [[= ->]|Hch]; [done|]. by apply list_elem_of_singleton in Hch.
  - destruct (bool_decide (code = "c2")); intros He; [|destruct (bool_decide (code = "c1" /\ opts = [("code_verifier", "v1")])) eqn:E2 in He; [apply bool_decide_eq_true in E2 as [-> _]; discriminate E1|discriminate He]]. intros [= <-] Hch. by apply elem_of_nil in Hch.
Qed.

Definition demoService : oauthRegistry :=
  serviceRegistry true true (oauthClientConfig "id" "secret" [] "https://api") (oauthClientConfig "id" "secret" [] "https://api").
Definition demoOAuthBegan : st AuthDB := (BeginOAuth demoAuthConfig demoService "google" "https://app/cb" "H:v1" (authStart demoUsers)).2.
Definition demoOAuthState : string := match map_to_list (dFlows (sdb demoOAuthBegan)) with (k, _) :: _ => k | [] => "" end.
Definition demoLogin (code verifier : string) : res error (string * tokenMaterial) * st AuthDB :=
  CompleteOAuth demoAuthConfig demoService "google" demoOAuthState code verifier demoOAuthBegan.

Lemma demoLogin_ok : is_Ok (demoLogin "c1" "v1").1 = true.
Proof. by vm_compute. Qed.

Lemma oauth_login_bound_witness :
  is_Ok (demoLogin "c1" "v1").1 = true /\ is_Ok (demoLogin "c1" "stolen").1 = false /\ demoS256 "v1" = "H:v1" /\
  exists x prof a, (demoLogin "c1" "v1").1 = Ok x /\ reported true true "google" "c1" prof /\
    dAccounts (sdb (demoLogin "c1" "v1").2) !! ("google", ppProviderUserID prof) = Some a /\ oaUserID a = x.1.
Proof.
  pose proof demoLogin_ok as Hok. assert (is_Ok (demoLogin "c1" "stolen").1 = false) as Hst by (vm_compute; reflexivity).
  destruct (demoLogin "c1" "v1") as [[x|e] s'] eqn:E; [|discriminate Hok].
  split; [reflexivity|]. split; [exact Hst|]. unfold demoLogin in E.
  destruct (oauth_login_bound (S256 := demoS256) (authorizedWith := demoAuthorized) demoAuthConfig true true "id" "secret" [] "id" "secret" []
    "https://api" demoUsers [ABeginOAuth "google" "https://app/cb" "H:v1"] "google" demoOAuthState "c1" "v1" x s' demoUsers_distinct E)
    as [(prof & a & Hrep & Ha & Hau & _) Hch].
  split; [by apply (Hch "H:v1")|]. exists x, prof, a. split; [reflexivity|]. split; [exact Hrep|]. split; [exact Ha|exact Hau].
Defined.

(** PKCE is not enforced: a flow begins with no challenge and completes with no
    verifier, which is then not sent. *)
Example pkce_optional :
  let s1 := (BeginOAuth demoAuthConfig demoService "google" "https://app/cb" "" (authStart demoUsers)).2 in
  forallb (fun kv => is_Ok (CompleteOAuth demoAuthConfig demoService "google" kv.1 "c2" "" s1).1) (map_to_list (dFlows (sdb s1))) = true /\
  size (dFlows (sdb s1)) = 1%nat.
Proof. split; by vm_compute. Qed.

(** Every Spotify address counts as verified, and the redirect of the request
    is not used. *)
Example spotify_verified raw : match mapSpotifyProfile raw with Ok p => ppEmailVerified p = true | Err _ => False end.
Proof. done. Qed.
Example redirect_ignored b r1 r2 state challenge : AuthorizationURL b r1 state challenge = AuthorizationURL b r2 state challenge.
Proof. done. Qed.
