(* ===== verification/RegisterTheorems.v ===== *)
(** * Theorems about registration

    What [Register] answers on every branch and stores, that a registered user
    can log in, and which user names are derived for OAuth users. *)

From stdpp Require Import pretty.
From S2P Require Import Prelude GoNum GoFloat Errors GoString GoRegexp GoUnicode GoTime Store RoomDomain Outbox AuthDomain Auth Register OAuth SigningKeys AuthRuns AuthFrames AuthSteps AccountSteps AuthDemo AuthTheorems AccountTheorems.

Open Scope Z_scope.

(** ** Sessions can be issued *)

Section supply.
Context `{E : Env} `{!Calm E} `{PgCitext} `{Hasher} `{Signer} `{UnicodeLower}.
Context (cfg : AuthConfig).

(** Ids that are new from interaction [m] on, random bytes and working ports. *)
Definition session_supply (m : nat) (db : AuthDB) : Prop :=
  fresh_supply m db /\
  (forall n, (m <= n)%nat -> dSessions db !! env_id n = None) /\
  (forall n k x, (m <= n)%nat -> dSessions db !! k = Some x -> seFamilyID x <> env_id n).

Lemma session_supply_ext m m' db db' :
  session_supply m db -> (m <= m')%nat -> dSessions db' = dSessions db -> dTokens db' = dTokens db ->
  session_supply m' db'.
Proof using Type.
  intros ((F1 & F2 & F3) & F4 & F5) Hm Hs Ht. unfold session_supply, fresh_supply. rewrite Hs, Ht.
  split_and!; [| |apply F3..| |]; intros; eauto with lia.
Qed.

Lemma calm_issueSession u u0 label db n :
  session_supply n db -> dUsers db !! uID u = Some u0 -> charCount label <= 100 ->
  exists x db' n', issueSessionForUser cfg u label (mkSt db n false) = (Ok x, mkSt db' n' false) /\
    seUserID x.1 = uID u /\ noSessions db' = noSessions db.
Proof using Calm0.
  intros Hsup Hu Hlab. pose proof Hsup as (Hf & Hsid & Hfam).
  assert (exists x s', issueSessionForUser cfg u label (mkSt db n false) = (Ok x, s') /\ seUserID x.1 = uID u /\
    saborted s' = false) as (x & [db' n' b] & Hx & Hid & Hab).
  2:{ exists x, db', n'. simpl in Hab. subst b. split; [done|]. split; [done|].
      apply issueSession_frame in Hx. exact Hx. }
  unfold issueSessionForUser, snow, snewID, step_n. unfold sbind at 1 2 3. cbn [sn sdb saborted].
  unfold sbind at 1, SessionRepo_Create, smapErr. rewrite calm_stmt. cbn [NewSession seDeviceLabel seID seFamilyID seUserID].
  apply Z.ltb_ge in Hlab. rewrite Hlab, Hsid by lia. rewrite bool_decide_false by (intros [? [=]]).
  destruct (existsb _ _) eqn:Ex.
  { exfalso. apply existsb_exists in Ex as ([k y] & Hin & Hy). apply bool_decide_eq_true in Hy.
    apply list_elem_of_In, elem_of_map_to_list in Hin. by apply (Hfam (S (S n)) k y) in Hy; [|lia|]. }
  clear Ex. rewrite Hu. unfold sbind at 1. cbn [sn sdb saborted]. unfold sbind at 1.
  set (db1 := set_dSessions _ db). assert (fresh_supply n db1) as Hf1 by exact Hf.
  match goal with |- context [newRefreshToken cfg ?now ?id ?fam ?uid ?sid ?from (mkSt db1 ?k false)] =>
    destruct (calm_newRefreshToken cfg now id fam uid sid from n db1 k false Hf1)
      as (rv & n1 & -> & F1 & F2 & F3 & F4) end.
  unfold sbind at 1, RefreshRepo_Create, smapErr. rewrite calm_stmt, F1, F2, F3, F4.
  destruct Hf as (Hid1 & Hsel1 & Hlen & _ & Hsign). pose proof (selector_fits _ (Hlen (S (S (S (S (S n))))))) as Hfit.
  apply Z.ltb_ge in Hfit. rewrite Hfit. cbn [dTokens set_dSessions db1]. rewrite Hid1 by lia.
  rewrite bool_decide_false by (intros [? [=]]).
  destruct (existsb _ _) eqn:Ey.
  { exfalso. apply existsb_exists in Ey as ([k y] & Hin & Hy). apply bool_decide_eq_true in Hy.
    apply list_elem_of_In, elem_of_map_to_list in Hin. by apply (Hsel1 (S (S (S (S (S n))))) k y) in Hy; [|lia|]. }
  unfold db1. cbn [dUsers dSessions set_dSessions storedSession NewSession seID]. rewrite Hu, lookup_insert_eq. unfold sbind at 1.
  match goal with |- context [issueAccessToken cfg u ?s] => destruct (calm_issue cfg u s Hsign) as (tok & n2 & ->) end.
  by eexists _, _.
Qed.
End supply.

(** ** What registration answers *)

(** Somebody has the address or the user name. *)
Definition emailTaken `{PgCitext} (db : AuthDB) (email : string) : bool :=
  existsb (fun kv => citextEq (uEmail kv.2) email) (map_to_list (dUsers db)).
Definition usernameTaken (db : AuthDB) (username : string) : bool :=
  existsb (fun kv => bool_decide (uUsername kv.2 = username)) (map_to_list (dUsers db)).

(** The error of a refusal: its code and its reason. *)
Definition refused {A} (r : res error A) (c : Code) (reason : string) : Prop :=
  exists e, r = Err e /\ wireCode e = c /\ reasonOf e = reason.

Section registration.
Context `{E : Env} `{!Calm E} `{PgCitext} `{Hasher} `{Signer} `{UnicodeLower}.
Context (cfg : AuthConfig).

(** Ids for the user and its event too. *)
Definition account_supply (m : nat) (db : AuthDB) : Prop :=
  session_supply m db /\
  (forall n, (m <= n)%nat -> dUsers db !! env_id n = None) /\
  (forall n, (m <= n)%nat -> env_id n ∉ map (fun r => oeID (orEvent r)) (dEvents db)).

Lemma findRow_taken email db :
  emailTaken db email = match findRow (fun u => citextEq (uEmail u) email) (dUsers db) with Some _ => true | None => false end.
Proof using Type.
  unfold emailTaken, findRow. induction (map_to_list (dUsers db)) as [|[k u] l IH]; [done|]. simpl.
  by destruct (citextEq (uEmail u) email).
Qed.

Lemma wellFormed_columns u : wellFormed u -> userColumnsOk u = None.
Proof using Type.
  intros (_ & Hu & Hd & Hr & Hs). unfold userColumnsOk. apply username_length in Hu.
  pose proof (charCount_slen (uUsername u)). pose proof (charCount_slen (uDisplayName u)).
  replace (32 <? charCount (uUsername u)) with false by (symmetry; apply Z.ltb_ge; lia).
  replace (100 <? charCount (uDisplayName u)) with false by (symmetry; apply Z.ltb_ge; lia).
  by rewrite Hr, Hs.
Qed.

(** The transaction, for a user that passed validation. *)
Lemma calm_registerTx email username password display label db n u :
  NewUser (env_now n) (mkNewUserParams email username display "") = Ok u ->
  (forall k v, exists h, hashPassword k v = Ok h) ->
  let out := registerTx cfg email username password display label (mkSt db n false) in
  if emailTaken db (uEmail u) || usernameTaken db (uUsername u) then
    account_supply n db -> refused out.1 CodeAlreadyExists "ALREADY_EXISTS"
  else
    account_supply n db -> charCount label <= 100 ->
    exists x s', out = (Ok x, s') /\ saborted s' = false.
Proof using Calm0.
  intros Hu Hh. destruct (NewUser_wellFormed _ _ _ Hu) as (Hw & Hnow & _).
  destruct (Hh (S n) password) as [h Hhash].
  destruct (registerTx _ _ _ _ _ _ _) as [r s'] eqn:Er. cbn zeta. cbn [fst snd].
  unfold registerTx in Er. rewrite run_now in Er. cbn [sn] in Er. rewrite Hu in Er.
  erewrite run_ok in Er by (apply run_mapErr_ok; unfold lift; cbn [sn step_n]; by rewrite Hhash).
  rewrite run_now in Er. unfold step_n in Er. cbn [sn sdb saborted] in Er.
  set (u1 := SetPassword _ h u) in Er. change (uEmail u1) with (uEmail u) in Er.
  rewrite findRow_taken. destruct (findRow _ _) as [x|] eqn:Ef.
  { erewrite run_try in Er by (apply run_mapErr_ok; by rewrite calm_queryRow, Ef). injection Er as <- <-.
    intros _. by eexists. }
  erewrite run_try in Er by (apply run_mapErr_err; by rewrite calm_queryRow, Ef).
  cbv beta match in Er. change (negb (isNotFound (scanErr "user" "" "user_repo: scan" ENoRows))) with false in Er.
  cbv match in Er. cbn [orb].
  rewrite run_id in Er. unfold step_n in Er. cbn [sn sdb saborted] in Er. set (u2 := set_uID _ u1) in Er.
  assert (wellFormed u2) as Hw2 by exact Hw. assert (emailTaken db (uEmail u) = false) as Hmail by by rewrite findRow_taken, Ef.
  destruct (usernameTaken db (uUsername u)) eqn:Eu.
  { intros (_ & Hid & _). erewrite run_err in Er.
    2:{ apply run_mapErr_err, run_mapErr_err. rewrite calm_stmt, (wellFormed_columns _ Hw2). cbn [uID u2 set_uID].
        rewrite Hid by lia. rewrite bool_decide_false by (intros [? [=]]).
        change (uEmail u2) with (uEmail u). change (uUsername u2) with (uUsername u). unfold emailTaken in Hmail.
        unfold usernameTaken in Eu. by rewrite Hmail, Eu. }
    injection Er as <- <-. by eexists. }
  intros (Hsup & Hid & Hev) Hlab.
  erewrite run_ok in Er.
  2:{ apply run_mapErr_ok, run_mapErr_ok. rewrite calm_stmt, (wellFormed_columns _ Hw2). cbn [uID u2 set_uID].
      rewrite Hid by lia. rewrite bool_decide_false by (intros [? [=]]).
      change (uEmail u2) with (uEmail u). change (uUsername u2) with (uUsername u). unfold emailTaken in Hmail.
      unfold usernameTaken in Eu. by rewrite Hmail, Eu. }
  rewrite run_id in Er. unfold step_n in Er. cbn [sn sdb saborted] in Er.
  erewrite run_ok in Er.
  2:{ unfold OutboxAppend, Append. simpl. erewrite run_ok; [done|]. apply run_mapErr_ok. rewrite calm_stmt.
      unfold insertEvent. cbn [dEvents set_dUsers oeID userCreatedEvent]. rewrite bool_decide_false by (apply Hev; lia). done. }
  set (db2 := set_dEvents _ _) in Er.
  destruct (calm_issueSession cfg u2 (storedUser u2) label db2 (S (S (S (S (S (S (S (S n)))))))))
    as (x & db3 & n3 & Hiss & Hxid & Hfr); [by eapply session_supply_ext; [exact Hsup|lia|..]|apply lookup_insert_eq|done|].
  cbn [sn] in Er. rewrite Hiss in Er. injection Er as <- <-. by exists x, (mkSt db3 n3 false).
Qed.

(** A label that does not fit its column ends the transaction. *)
Lemma registerTx_label email username password display label s :
  100 < charCount label -> exists e, (registerTx cfg email username password display label s).1 = Err e.
Proof using Type.
  intros Hlab. destruct (registerTx _ _ _ _ _ _ _) as [[x|e] s'] eqn:Er; [|by exists e]. exfalso.
  unfold registerTx in Er. ok_pure Er. destruct (NewUser _ _); [|done]. apply sbind_Ok in Er as (h & s4 & _ & Er). ok_pure Er.
  apply sbind_Ok in Er as (found & s5 & _ & Er). destruct found; [done|]. destruct (negb _); [done|]. ok_pure Er.
  apply sbind_Ok in Er as ([] & s6 & _ & Er). ok_pure Er. apply sbind_Ok in Er as ([] & s7 & _ & Er).
  unfold issueSessionForUser in Er. ok_pure Er. apply sbind_Ok in Er as ([] & s8 & Hse & _).
  apply smapErr_Ok, stmt_Ok in Hse as [Hse _]. cbn [seDeviceLabel NewSession] in Hse.
  apply Z.ltb_lt in Hlab. by rewrite Hlab in Hse.
Qed.
End registration.

(** ** What registration stores *)

Section stored.
Context `{Env} `{PgCitext} `{Hasher} `{Signer} `{UnicodeLower}.
Context (cfg : AuthConfig).

(** A new session of the user and its first refresh token, the one the caller
    holds: its selector is the row's and the row has the hash of its validator. *)
Definition session_stored (uid label : string) (refreshToken : string) (db db' : AuthDB) : Prop :=
  exists now sid fid t v n,
    (rtUserID t, rtSessionID t, rtFamilyID t, rtRotatedFrom t, rtStatus t, rtExpiresAt t) =
      (uid, sid, fid, "", StatusActive, now + acRefreshTokenTTL cfg) /\
    refreshToken = PresentationToken v /\ vmSelector v = rtSelector t /\
    hashPassword n (vmValidator v) = Ok (rtValidatorHash t) /\
    db' = set_dTokens (insert (rtID t) (storedToken t))
            (set_dSessions (insert sid (storedSession (NewSession now sid uid fid (acSessionTTL cfg) label))) db).

Lemma issueSession_stored user label s x s' :
  issueSessionForUser cfg user label s = (Ok x, s') ->
  session_stored (uID user) label (tmRefreshToken x.2) (sdb s) (sdb s').
Proof using Type.
  intros E. unfold issueSessionForUser in E. ok_pure E.
  apply sbind_Ok in E as ([] & s4 & Hse & E). apply SessionRepo_Create_Ok in Hse as (_ & _ & Hs4).
  apply sbind_Ok in E as (tid & s5 & [= <- <-] & E). apply sbind_Ok in E as (rv & s6 & Hrv & E).
  apply newRefreshToken_Ok in Hrv as Hf. destruct Hf as [Hs6 Hf].
  apply sbind_Ok in E as ([] & s7 & Hc7 & E).
  apply RefreshRepo_Create_Ok in Hc7 as (_ & Hs7 & _); [|by injection Hf].
  apply sbind_Ok in E as (acc & s8 & Ha & E). apply issueAccessToken_Ok in Ha. injection E as <- <-.
  assert (exists n, hashPassword n (vmValidator rv.2) = Ok (rtValidatorHash rv.1) /\ vmSelector rv.2 = rtSelector rv.1 /\
    rtExpiresAt rv.1 = env_now (sn s) + acRefreshTokenTTL cfg) as (n & Hn & Hsel & Hexp).
  { unfold newRefreshToken in Hrv. ok_pure Hrv. unfold lift, NewRefreshToken in Hrv.
    destruct (hashPassword _ _) as [vh|] eqn:Eh; [|done]. injection Hrv as <- _. by eexists. }
  exists (env_now (sn s)), (env_id (S (sn s))), (env_id (S (S (sn s)))), rv.1, rv.2, n.
  injection Hf as F1 F2 F3 F4 F5 F6. rewrite F2, F3, F4, F5, F6, Hexp. repeat (split; [done|]).
  rewrite Ha, Hs7, Hs6. cbn [sdb step_n]. by rewrite Hs4.
Qed.

(** The user, the event that announces it, the session and the token, and
    nothing else. *)
Definition registered (u : User) (now at_ : time) (h label : string) (x : string * tokenMaterial) (db db' : AuthDB) : Prop :=
  let user := set_uID x.1 (SetPassword at_ h u) in
  exists eid, session_stored x.1 label (tmRefreshToken x.2)
    (set_dEvents (fun rows => rows ++ [mkOutRow (storedEvent (userCreatedEvent eid user "password" now)) false])
       (set_dUsers (insert x.1 (storedUser user)) db)) db'.

Lemma registerTx_stored email username password display label s x s' :
  registerTx cfg email username password display label s = (Ok x, s') ->
  exists u h at_, NewUser (env_now (sn s)) (mkNewUserParams email username display "") = Ok u /\
    hashPassword (S (sn s)) password = Ok h /\
    registered u (env_now (sn s)) at_ h label (seUserID x.1, x.2) (sdb s) (sdb s').
Proof using Type.
  intros Er. unfold registerTx in Er. ok_pure Er. destruct (NewUser _ _) as [u|] eqn:En; [|done].
  apply sbind_Ok in Er as (h & s4 & Hh & Er). apply smapErr_Ok in Hh. injection Hh as Hh <-. ok_pure Er.
  apply sbind_Ok in Er as (found & s5 & Hf & Er). apply GetByEmail_try in Hf as (Hs5 & _ & _).
  destruct found; [done|]. destruct (negb _); [done|]. ok_pure Er.
  apply sbind_Ok in Er as ([] & s6 & Hu & Er). apply smapErr_Ok, UserRepo_Create_Ok in Hu as (_ & _ & Hs6). ok_pure Er.
  apply sbind_Ok in Er as ([] & s7 & Ho & Er). apply OutboxAppend_Ok in Ho as [_ Hs7].
  apply issueSession_user in Er as Hid. apply issueSession_stored in Er.
  exists u, h. eexists. split_and!; [done|exact Hh|]. unfold registered. cbn [fst snd]. rewrite Hid.
  eexists. rewrite Hs7 in Er. cbn [sdb step_n] in Er. rewrite Hs6 in Er. cbn [sdb step_n] in Er. rewrite Hs5 in Er. exact Er.
Qed.
End stored.

(** C24. What registration answers and stores, when nothing fails, the hasher and
    the signer work and ids are new.  Missing fields, a short password and
    invalid fields are invalid arguments with their own reasons; an address or a
    user name that is taken already exists; a device label of more than 100
    characters is an error; each refusal leaves the database as it was.
    Otherwise the database gains exactly: the user, with the fields as [NewUser]
    normalised them and the hash of the password; one event that announces it; a
    session with the label; and the active refresh token of that session, which
    is the one the caller is given. *)
Theorem register_outcomes `{E : Env} `{!Calm E} `{PgCitext} `{Hasher} `{Signer} `{UnicodeLower}
    cfg email username password display label s :
  let out := Register cfg email username password display label s in
  if bool_decide (email = "") || bool_decide (username = "") || bool_decide (password = "") then
    refused out.1 CodeInvalidArgument "MISSING_FIELDS" /\ sdb out.2 = sdb s
  else if slen password <? 8 then
    refused out.1 CodeInvalidArgument "PASSWORD_TOO_SHORT" /\ sdb out.2 = sdb s
  else match NewUser (env_now (S (S (sn s)))) (mkNewUserParams email username display "") with
  | Err _ => refused out.1 CodeInvalidArgument "INVALID_FIELDS" /\ sdb out.2 = sdb s
  | Ok u =>
      account_supply (sn s) (sdb s) ->
      if emailTaken (sdb s) (uEmail u) || usernameTaken (sdb s) (uUsername u) then
        refused out.1 CodeAlreadyExists "ALREADY_EXISTS" /\ sdb out.2 = sdb s
      else if 100 <? charCount label then (exists e, out.1 = Err e) /\ sdb out.2 = sdb s
      else exists x s' h at_, out = (Ok x, s') /\ hashPassword (S (S (S (sn s)))) password = Ok h /\
        registered cfg u (env_now (S (S (sn s)))) at_ h label x (sdb s) (sdb s')
  end.
Proof.
  destruct (Register _ _ _ _ _ _ s) as [r s'] eqn:Er. cbn zeta. cbn [fst snd]. unfold Register in Er.
  erewrite run_ok in Er by apply calm_ctxDone.
  destruct (_ || _ || _); [injection Er as <- <-; split; [by eexists|done]|].
  destruct (_ <? 8); [injection Er as <- <-; split; [by eexists|done]|].
  destruct (NewUser _ _) as [u|e] eqn:En.
  2:{ erewrite run_err in Er.
      2:{ unfold step_n. rewrite calm_withTx. unfold registerTx. rewrite run_now. cbn [sn]. rewrite En. done. }
      injection Er as <- <-. split; [by eexists|done]. }
  intros Hsup.
  assert (account_supply (S (S (sn s))) (sdb s)) as Hsup2.
  { destruct Hsup as (Hs & H3 & H4). split_and!; [by eapply session_supply_ext; [exact Hs|lia|..]|..]; intros; auto with lia. }
  pose proof (calm_registerTx cfg email username password display label (sdb s) _ _ En) as Htx.
  destruct Hsup as (((_ & _ & _ & Hh & _) & _) & _). specialize (Htx Hh). cbn zeta in Htx.
  destruct (_ || _).
  - destruct (Htx Hsup2) as (e & He & Hc). destruct (registerTx _ _ _ _ _ _ _) as [r1 s1] eqn:Hr. simpl in He. subst r1.
    erewrite run_err in Er by (unfold step_n; by rewrite calm_withTx, Hr).
    injection Er as <- <-. split; [by exists e|done].
  - destruct (Z.ltb_spec 100 (charCount label)) as [Hlab|Hlab].
    + destruct (registerTx_label cfg email username password display label (mkSt (sdb s) (S (S (sn s))) false) Hlab) as [e He].
      destruct (registerTx _ _ _ _ _ _ _) as [r1 s1] eqn:Hr. simpl in He. subst r1.
      erewrite run_err in Er by (unfold step_n; by rewrite calm_withTx, Hr).
      injection Er as <- <-. split; [by exists e|done].
    + destruct (Htx Hsup2 Hlab) as (x & s1 & Hx & Hab). erewrite run_ok in Er.
      2:{ unfold step_n. rewrite calm_withTx, Hx, Hab. done. }
      injection Er as <- <-. apply registerTx_stored in Hx as (u' & h & at_ & Hu' & Hhash & Hreg).
      cbn [sn sdb] in *. rewrite En in Hu'. injection Hu' as <-. by eexists _, _, h, at_.
Qed.

(** ** Logging in after registering *)

(** The row of a user who registered. *)
Lemma Register_Ok `{Env} `{PgCitext} `{Hasher} `{Signer} `{UnicodeLower} cfg email username password display label s x s' :
  Register cfg email username password display label s = (Ok x, s') ->
  password <> "" /\ exists u n, dUsers (sdb s') !! x.1 = Some u /\ uID u = x.1 /\
    uEmail u = TrimSpace (ToLower email) /\ MatchString emailRe (uEmail u) = true /\
    hashPassword n password = Ok (uPasswordHash u) /\ CanAuthenticate u = true.
Proof.
  intros Er. unfold Register in Er. apply sbind_Ok in Er as ([] & s1 & _ & Er).
  destruct (bool_decide (email = "") || bool_decide (username = "")); [done|]. cbn [orb] in Er.
  destruct (bool_decide (password = "")) eqn:Ep; [done|]. apply bool_decide_eq_false in Ep. split; [done|].
  destruct (_ <? 8); [done|]. apply sbind_Ok in Er as (sm & s2 & Hw & [= <- <-]).
  apply withTx_cases in Hw as [[_ [e [=]]]|(a & s3 & Er & _ & -> & [[= <-]|[e [=]]])].
  unfold registerTx in Er. ok_pure Er. destruct (NewUser _ _) as [u|] eqn:En; [|done].
  pose proof (NewUser_Ok _ _ _ En) as (_ & Hc & _). apply NewUser_wellFormed in En as ((Hm & _) & _ & He).
  apply sbind_Ok in Er as (hash & s4 & Hh & Er). apply smapErr_Ok in Hh. injection Hh as Hh <-. ok_pure Er.
  apply sbind_Ok in Er as (found & s5 & Hf & Er). apply GetByEmail_try in Hf as (Hs5 & _ & _).
  destruct found; [done|]. destruct (negb _); [done|]. ok_pure Er.
  apply sbind_Ok in Er as ([] & s6 & Hu & Er). apply smapErr_Ok, UserRepo_Create_Ok in Hu as (_ & _ & Hs6). ok_pure Er.
  apply sbind_Ok in Er as ([] & s7 & Ho & Er). apply OutboxAppend_Ok in Ho as [_ Hs7].
  apply issueSession_frame in Er as Hfr. injection Hfr as Hus _ _ _ _ _.
  apply issueSession_user in Er. rewrite Er, Hus, Hs7. cbn [dUsers set_dEvents sdb step_n]. rewrite Hs6.
  cbn [dUsers set_dUsers]. eexists _, _. split; [apply lookup_insert_eq|]. simpl.
  split_and!; [done|exact He|exact Hm|exact Hh|]. by apply storedUser_login.
Qed.

(** The transaction of a log-in with the right password. *)
Lemma calm_loginTx `{E : Env} `{!Calm E} `{PgCitext} `{Hasher} `{Signer} `{UnicodeLower} cfg email password label u db n :
  findRow (fun u => citextEq (uEmail u) email) (dUsers db) = Some u -> dUsers db !! uID u = Some u ->
  uPasswordHash u <> "" -> comparePassword (uPasswordHash u) password = true -> CanAuthenticate u = true ->
  session_supply (S n) db -> charCount label <= 100 ->
  exists x s', loginTx cfg email password label (mkSt db n false) = (Ok x, s') /\ saborted s' = false /\ seUserID x.1 = uID u.
Proof.
  intros Hf Hu Hh Hc Ha Hsup Hlab. unfold loginTx.
  erewrite run_ok by (apply run_mapErr_ok, run_mapErr_ok; by rewrite calm_queryRow, Hf).
  unfold HasPassword. rewrite bool_decide_false by done. rewrite Hc, Ha. cbn [negb].
  destruct (calm_issueSession cfg u u label db (S n) Hsup Hu Hlab) as (x & db' & n' & -> & Hx & _). by eexists _, _.
Qed.

(** Whoever registered can log in: in a world where nothing fails, with a
    hasher that accepts what it hashed, a user who registered logs in with the
    password and the (normalised) address after any further requests, and the
    session is of the user the registration answered. *)
Theorem registered_can_login `{E : Env} `{!Calm E} `{C : PgCitext} `{!CitextLaws C} `{Hasher} `{Signer} `{UnicodeLower}
    `{Cipher} `{TokenEndpoint} `{Jose} cfg registry users ops email username password display label x s1 later label2 :
  distinct_users users ->
  Register cfg email username password display label (auth_run cfg registry ops (authStart users)) = (Ok x, s1) ->
  let s2 := auth_run cfg registry later s1 in
  (forall k v h, hashPassword k v = Ok h -> h <> "" /\ comparePassword h v = true) ->
  session_supply (sn s2) (sdb s2) -> charCount label2 <= 100 ->
  exists y s3, Login cfg (TrimSpace (ToLower email)) password label2 s2 = (Ok y, s3) /\ y.1 = x.1.
Proof.
  intros Hd Hr s2 Hlaw Hsup Hlab.
  destruct (auth_run_acctR cfg registry users ops (authStart users)) as [I _]; [by apply acct_inv_start|].
  pose proof (auth_exec_acctR cfg registry users (ARegister email username password display label) _ I) as [I1 _].
  simpl in I1. rewrite Hr in I1. destruct (auth_run_acctR cfg registry users later s1 I1) as (I2 & Hsub & _).
  fold s2 in I2, Hsub. apply Register_Ok in Hr as (Hp & u & k & Hu & Hid & Hmail & Hre & Hhash & Hc).
  destruct (Hlaw _ _ _ Hhash) as [Hne Hcmp]. eapply lookup_weaken in Hu; [|exact Hsub].
  rewrite <- Hmail. clear Hd Hmail I I1 Hsub. destruct s2 as [db n b] eqn:Es. clear Es s2. simpl in *.
  assert (findRow (fun v => citextEq (uEmail v) (uEmail u)) (dUsers db) = Some u) as Hf.
  { destruct (findRow _ _) as [v|] eqn:Ef.
    - apply findRow_Some in Ef as (k2 & Hv & Heq). pose proof (ai_email _ _ I2 _ _ _ _ Hv Hu Heq) as ->. congruence.
    - apply (findRow_None _ _ _ _ Ef) in Hu. by rewrite citext_refl in Hu. }
  unfold Login. erewrite run_ok by apply calm_ctxDone. rewrite !bool_decide_false; [|done|by intros E0; rewrite E0 in Hre].
  cbn [orb]. unfold step_n. cbn [sn sdb saborted].
  destruct (calm_loginTx cfg (uEmail u) password label2 u db (S (S n)) Hf) as (y & s3 & Hl & Hab & Hy); try done.
  { by rewrite Hid. }
  { eapply session_supply_ext; [exact Hsup|lia|done..]. }
  erewrite run_ok by (by rewrite calm_withTx, Hl, Hab). eexists _, _. split; [done|]. simpl. congruence.
Qed.

(** ** Derived user names *)

Notation words := (Forall (fun b => isWord b = true)).

Lemma isWord_spec b : isWord b = true <-> 97 <= b <= 122 \/ 48 <= b <= 57 \/ b = 95.
Proof. unfold isWord, isLower. rewrite !orb_true_iff, !andb_true_iff, !Z.leb_le, Z.eqb_eq. tauto. Qed.

Lemma sanitize1_words out c : words out -> words (sanitize1 out c) /\ (length (sanitize1 out c) <= S (length out))%nat.
Proof.
  intros Hw. assert (forall b, isWord b = true -> words (b :: out) /\ (length (b :: out) <= S (length out))%nat) as Hadd
    by (intros b Hb; split; [by constructor|done]).
  unfold sanitize1. destruct ((97 <=? c) && (c <=? 122)) eqn:E1; [go_bool; apply Hadd, isWord_spec; lia|].
  destruct ((65 <=? c) && (c <=? 90)) eqn:E2; [go_bool; apply Hadd, isWord_spec; lia|].
  destruct (_ || _) eqn:E3.
  { apply Hadd, isWord_spec. apply orb_prop in E3 as [?|?]; go_bool; lia. }
  destruct out as [|b out]; [by split; [|simpl; lia]|]. destruct (b =? 95); [by split; [|lia]|by apply Hadd].
Qed.

Lemma sanitizeLoop_words l out :
  words out -> (length out < 32)%nat -> words (sanitizeLoop out l) /\ (length (sanitizeLoop out l) <= 32)%nat.
Proof.
  revert out. induction l as [|c l IH]; intros out Hw Hl; [by split; [|simpl; lia]|].
  cbn [sanitizeLoop]. cbv zeta. destruct (sanitize1_words out c Hw) as [Hw1 Hl1]. destruct (Nat.leb_spec 32 (length (sanitize1 out c))); [by split; [|lia]|].
  by apply IH.
Qed.

Lemma trimLeft_words l : words l -> words (trimLeft l) /\ (length (trimLeft l) <= length l)%nat.
Proof.
  induction 1 as [|b l Hb Hl [IH1 IH2]]; [done|]. simpl. destruct (b =? 95); [by split; [|lia]|]. split; [by constructor|done].
Qed.

Lemma trimUnderscores_words l : words l -> words (trimUnderscores l) /\ (length (trimUnderscores l) <= length l)%nat.
Proof.
  intros Hl. unfold trimUnderscores. rewrite length_rev.
  destruct (trimLeft_words l Hl) as [Hw1 Hl1]. destruct (trimLeft_words (rev (trimLeft l))) as [Hw2 Hl2]; [by apply Forall_rev|].
  rewrite length_rev in Hl2. split; [by apply Forall_rev|lia].
Qed.

(** What the loop makes of the address. *)
Definition sanitized (p : ProviderProfile) : list Z :=
  trimUnderscores (rev (sanitizeLoop [] (localPart (bytes (ppEmail p))))).

Lemma sanitized_words p : words (sanitized p) /\ (length (sanitized p) <= 32)%nat.
Proof.
  unfold sanitized. destruct (sanitizeLoop_words (localPart (bytes (ppEmail p))) []) as [Hw Hl]; [done|simpl; lia|].
  destruct (trimUnderscores_words (rev (sanitizeLoop [] (localPart (bytes (ppEmail p)))))) as [Hw2 Hl2]; [by apply Forall_rev|].
  rewrite length_rev in Hl2. split; [done|lia].
Qed.

Lemma words_normal `{UnicodeLower} s : words (bytes s) -> TrimSpace (ToLower s) = s.
Proof.
  intros Hw. rewrite ToLower_fixed; [apply TrimSpace_graphic|].
  all: eapply Forall_impl; [exact Hw|]; intros b Hb.
  - apply isWord_spec in Hb. unfold graphic. lia.
  - by apply isWord_lower.
Qed.

(** The user name of a new OAuth user: when at least three characters of the
    address's local part survive sanitising, the derived name is one that
    [NewUser] leaves as it is, has at most 33 characters, and is accepted
    exactly when it has at most 32. *)
Theorem deriveUsername_valid `{UnicodeLower} p :
  (3 <= length (sanitized p))%nat ->
  let u := deriveUsername p in
  TrimSpace (ToLower u) = u /\ slen u <= 33 /\ MatchString usernameRe u = (slen u <=? 32).
Proof.
  intros Hlen. destruct (sanitized_words p) as [Hw Hmax]. unfold deriveUsername.
  rewrite bool_decide_false by (intros E; unfold sanitized in Hlen; rewrite E in Hlen; simpl in Hlen; lia).
  fold (sanitized p). destruct (Nat.ltb_spec (length (sanitized p)) 3); [lia|].
  destruct (sanitized p) as [|first out] eqn:Es; [simpl in Hlen; lia|].
  set (l := if _ : bool then 117 :: first :: out else first :: out).
  assert (exists b t, l = b :: t /\ isLower b = true /\ words t /\ (2 <= length t <= 32)%nat) as (b & t & El & Hb & Ht & Hn).
  { inversion Hw; subst. subst l. unfold isLower. simpl in Hlen, Hmax.
    destruct ((first <? 97) || (122 <? first)) eqn:Ef.
    - exists 117, (first :: out). split_and!; try done; simpl; lia.
    - apply orb_false_iff in Ef as [??]. go_bool. exists first, out.
      rewrite andb_true_iff, !Z.leb_le. split_and!; try done; lia. }
  clearbody l. subst l. assert (words (b :: t)) as Hws by (constructor; [unfold isWord; by rewrite Hb|done]).
  assert (bytes (ofBytes (b :: t)) = b :: t) as Hbs.
  { apply bytes_ofBytes. eapply Forall_impl; [exact Hws|]. intros z Hz%isWord_spec. unfold isByte. lia. }
  split; [apply words_normal; by rewrite Hbs|]. unfold slen. rewrite length_ofBytes. cbn [length]. split; [lia|].
  apply eq_bool_prop_intro. rewrite !Is_true_true, username_shape, Z.leb_le, Hbs. split.
  - intros (b0 & l0 & [= <- <-] & _ & Hl0 & _). lia.
  - intros Hle. exists b, t. split_and!; try done; lia.
Qed.

(** ** Witnesses *)

#[local] Existing Instances authEnv authEnv_Calm prefixHasher constSigner exactCitext idLower markCipher echoEndpoint toyJose.
#[local] Existing Instances exactCitext_laws.

(** An empty database offers all ids. *)
Lemma empty_distinct : distinct_users ∅.
Proof. split; intros *; rewrite lookup_empty; done. Qed.

Lemma empty_supply n : account_supply n (sdb (authStart ∅)).
Proof.
  unfold account_supply, session_supply, fresh_supply. simpl.
  split_and!; intros; try done; [by eexists..|by apply not_elem_of_nil].
Qed.

Definition demoRegistered : res error (string * tokenMaterial) * st AuthDB :=
  Register demoAuthConfig " Dora@Example.com" "dora" "longenough" "" "phone" (authStart ∅).

Lemma register_outcomes_witness :
  refused (Register demoAuthConfig "d@e.org" "dora" "short" "" "" (authStart ∅)).1 CodeInvalidArgument "PASSWORD_TOO_SHORT" /\
  exists x s' h at_, demoRegistered = (Ok x, s') /\ hashPassword 3 "longenough" = Ok h /\
    registered demoAuthConfig (mkUser "" "dora@example.com" "dora" "dora" "" "" SYSTEM_USER UserStatusActive (2 * second) (2 * second))
      (2 * second) at_ h "phone" x (sdb (authStart ∅)) (sdb s').
Proof.
  split; [apply (register_outcomes demoAuthConfig "d@e.org" "dora" "short" "" "" (authStart ∅))|].
  exact (register_outcomes demoAuthConfig " Dora@Example.com" "dora" "longenough" "" "phone" (authStart ∅) (empty_supply 0)).
Defined.

(** What the registration stored: a token with id ["14"] and a selector of the
    bytes drawn at interaction 15, and a session with id ["11"]. *)
Definition doraToken : RefreshToken :=
  mkRT "14" "12" "6" "11" (randomURL (repeat 15 12)) ("h:" +:+ randomURL (repeat 16 32))%string "" StatusActive
    (3610 * second) (10 * second) time_zero time_zero.
Definition doraSession : Session :=
  mkSession "11" "6" "phone" "12" (10 * second) (10 * second) (20 * second).

Lemma demoRegistered_tables :
  dTokens (sdb demoRegistered.2) = {["14" := doraToken]} /\ dSessions (sdb demoRegistered.2) = {["11" := doraSession]}.
Proof. by vm_compute. Qed.

Lemma pretty_later (n k : nat) : (k < n)%nat -> pretty k <> pretty n.
Proof. intros Hn E. apply (inj pretty) in E. lia. Qed.

Lemma demoRegistered_supply n : (22 <= n)%nat -> session_supply n (sdb demoRegistered.2).
Proof.
  intros Hn. unfold session_supply, fresh_supply. destruct demoRegistered_tables as [-> ->].
  split_and!; try (intros; by eexists).
  - intros m Hm. apply lookup_singleton_ne. by apply (pretty_later m 14); lia.
  - intros m k x Hm [<- <-]%lookup_singleton_Some.
    assert (Forall (fun a => rtSelector doraToken <> randomURL (repeat (Z.of_nat a) 12)) (seq 22 234)) as Hf
      by (apply (bool_decide_eq_true_1 _); by vm_compute).
    rewrite Forall_forall in Hf. apply (Hf (Nat.min m 255)). apply elem_of_seq. lia.
  - intros m Hm. apply lookup_singleton_ne. by apply (pretty_later m 11); lia.
  - intros m k x Hm [<- <-]%lookup_singleton_Some. by apply (pretty_later m 12); lia.
Qed.

Lemma registered_can_login_witness :
  exists y s3, Login demoAuthConfig "dora@example.com" "longenough" "tv" demoRegistered.2 = (Ok y, s3) /\ y.1 = "6".
Proof.
  destruct demoRegistered as [[x|e] s1] eqn:E; [|exfalso; by assert (is_Ok demoRegistered.1 = true) as Hok by (by vm_compute); rewrite E in Hok].
  assert (x.1 = "6") as <-. { assert (is_Ok demoRegistered.1 && match demoRegistered.1 with Ok x => bool_decide (x.1 = "6") | _ => false end = true) as Hx by by vm_compute. rewrite E in Hx. by apply bool_decide_eq_true in Hx. }
  assert (session_supply (sn s1) (sdb s1)) as Hsup.
  { pose proof (demoRegistered_supply 22) as Hs. assert (sn demoRegistered.2 = 22%nat) as Hn by by vm_compute.
    rewrite E in Hs, Hn. simpl in Hs, Hn. rewrite Hn. by apply Hs. }
  exact (registered_can_login demoAuthConfig demoRegistry ∅ [] " Dora@Example.com" "dora" "longenough" "" "phone" x s1 [] "tv"
    empty_distinct E ltac:(intros k v h [= <-]; split; [done|by apply bool_decide_eq_true]) Hsup ltac:(by vm_compute)).
Defined.

(** [Bob.Smith_2@x] gives [bob_smith_2]. *)
Lemma deriveUsername_valid_witness :
  let p := mkProfile "spotify" "1" ".Bob.Smith_2@x.org" true "" "" in
  deriveUsername p = "bob_smith_2" /\ MatchString usernameRe (deriveUsername p) = true.
Proof.
  intros p. split; [by vm_compute|]. destruct (deriveUsername_valid p) as (_ & _ & ->); [vm_compute; lia|by vm_compute].
Defined.

(** 32 characters that begin with a digit become 33, which [NewUser] refuses. *)
Example derived_name_too_long :
  let p := mkProfile "spotify" "1" "1234567890123456789012345678901234@x.org" true "" "" in
  slen (deriveUsername p) = 33 /\
  is_Ok (NewUser 0 (mkNewUserParams (ppEmail p) (deriveUsername p) "" "")) = false.
Proof. by vm_compute. Qed.
