(* ===== verification/UserService.v ===== *)
(** * The user service

    Model of [apps/user-service]: the projection of [domain/user.go], the
    repository [infra/postgres/user_repo.go] over the table of the migration,
    the consumer of [user.created.v1] ([app/consumer.go]) and the handlers of
    [app/handlers.go].  The table holds a read model of the auth service's users;
    its rows are named profiles here.  Ids are the 26-character ids of the
    [CHAR(26)] column. *)

From S2P Require Import Prelude GoNum Errors GoString GoUnicode GoTime Store RoomDomain Outbox Web RoomRepo AuthDomain.

Open Scope sm_scope.

(** ** The domain *)

(** [domain.User]. *)
Record Profile : Type := mkProfileRow {
  pfID : string;
  pfEmail : string;
  pfUsername : string;
  pfDisplayName : string;
  pfAvatarURL : string;
  pfSystemRole : SystemRole;
  pfCreatedAt : time;
  pfUpdatedAt : time;
}.

Record UserCreatedV1 : Type := mkUserCreated {
  ucUserID : string;
  ucEmail : string;
  ucUsername : string;
  ucProvider : string;
  ucCreatedAt : string;
}.

(** [json.Unmarshal] of a producer's payload: a missing member leaves the field
    empty, a member that is not a string is an error. *)
Definition stringMember (k : string) (p : Payload) : option string :=
  match p !! k with
  | None => Some ""
  | Some (JStr s) => Some s
  | Some (JTime t) => Some (FormatRFC3339 t)
  | Some (JInt _) => None
  end.

Definition unmarshalUserCreated (p : Payload) : option UserCreatedV1 :=
  id ← stringMember "user_id" p; email ← stringMember "email" p; username ← stringMember "username" p;
  provider ← stringMember "provider" p; created ← stringMember "created_at" p;
  Some (mkUserCreated id email username provider created).

Definition ErrInvalidEvent : error := EMsg "user: invalid user.created.v1 event".

Definition parseRFC3339 (s : string) (fallback : time) : time :=
  let s := TrimSpace s in
  if bool_decide (s = "") then fallback
  else match ParseRFC3339 s with
       | Some t => t
       | None => fallback
       end.

Definition ProjectFromEvent `{UnicodeLower} (e : UserCreatedV1) (now : time) : res error Profile :=
  if bool_decide (ucUserID e = "") || bool_decide (ucEmail e = "") || bool_decide (ucUsername e = "")
  then Err ErrInvalidEvent
  else
    let created := parseRFC3339 (ucCreatedAt e) now in
    let username := ToLower (TrimSpace (ucUsername e)) in
    Ok (mkProfileRow (ucUserID e) (ToLower (TrimSpace (ucEmail e))) username username "" SYSTEM_USER created created).

Definition ApplyUpdate (now : time) (displayName avatarURL : option string) (u : Profile) : Profile :=
  let name := match displayName with
              | Some d => let trimmed := TrimSpace d in
                          if bool_decide (trimmed = "") then pfDisplayName u else trimmed
              | None => pfDisplayName u
              end in
  let avatar := match avatarURL with
                | Some a => TrimSpace a
                | None => pfAvatarURL u
                end in
  mkProfileRow (pfID u) (pfEmail u) (pfUsername u) name avatar (pfSystemRole u) (pfCreatedAt u) now.

(** ** The repository *)

(** The table. *)
Notation UserDB := (gmap string Profile).

(** What the columns hold of a profile. *)
Definition storedProfile (u : Profile) : Profile :=
  mkProfileRow (pfID u) (pfEmail u) (pfUsername u) (pfDisplayName u) (pfAvatarURL u) (int16 (pfSystemRole u))
    (pgTime (pfCreatedAt u)) (pgTime (pfUpdatedAt u)).

(** The row after [ON CONFLICT (id) DO UPDATE]. *)
Definition upsertedProfile (old : option Profile) (u : Profile) : Profile :=
  match old with
  | None => storedProfile u
  | Some old => mkProfileRow (pfID old) (pfEmail u) (pfUsername u) (pfDisplayName old) (pfAvatarURL old)
                  (int16 (pfSystemRole u)) (pfCreatedAt old) (pgTime (pfUpdatedAt u))
  end.

Section repo.
Context `{Env} `{PgCitext}.

(** Another row has the address, or the user name. *)
Definition emailClash (u : Profile) (db : UserDB) : bool :=
  existsb (fun kv => citextEq (pfEmail kv.2) (pfEmail u) && negb (bool_decide (kv.1 = pfID u))) (map_to_list db).
Definition usernameClash (u : Profile) (db : UserDB) : bool :=
  existsb (fun kv => bool_decide (pfUsername kv.2 = pfUsername u) && negb (bool_decide (kv.1 = pfID u))) (map_to_list db).

Definition ProfileRepo_Upsert (u : Profile) : SM UserDB unit :=
  smapErr (EWrap "user_repo: upsert") (stmt (fun db : UserDB =>
    if 32 <? charCount (pfUsername u) then Err (EMsg "value too long for type character varying(32)")
    else if 100 <? charCount (pfDisplayName u) then Err (EMsg "value too long for type character varying(100)")
    else if emailClash u db then Err (EUniqueViolation "users_email_key")
    else if usernameClash u db then Err (EUniqueViolation "users_username_key")
    else Ok (tt, <[pfID u := upsertedProfile (db !! pfID u) u]> db))).

Definition ProfileRepo_GetByID (id : string) : SM UserDB Profile :=
  smapErr (scanErr "user" id "user_repo: scan") (queryRow (fun db : UserDB => db !! id)).

(** The columns [Update] writes. *)
Definition updateProfile (u old : Profile) : Profile :=
  mkProfileRow (pfID old) (pfEmail old) (pfUsername old) (pfDisplayName u) (pfAvatarURL u) (pfSystemRole old)
    (pfCreatedAt old) (pgTime (pfUpdatedAt u)).

(** The answer of the statement is the number of rows. *)
Definition ProfileRepo_Update (u : Profile) : SM UserDB unit :=
  n <- smapErr (EWrap "user_repo: update") (stmt (fun db : UserDB =>
         match db !! pfID u with
         | None => Ok (0, db)
         | Some old =>
             if 100 <? charCount (pfDisplayName u) then Err (EMsg "value too long for type character varying(100)")
             else Ok (1, <[pfID u := updateProfile u old]> db)
         end)) ;;
  if n =? 0 then sfail (ENotFound "user" (pfID u)) else sret tt.

Definition newerProfile (a b : Profile) : Prop := pfCreatedAt b <= pfCreatedAt a.
#[global] Instance newerProfile_dec a b : Decision (newerProfile a b).
Proof. unfold newerProfile. apply _. Defined.

(** The [WHERE] clause; [nameMatches] is Postgres's [ILIKE]. *)
Definition profileCond `{PgSearch} (cursor search : string) (u : Profile) : bool :=
  (bool_decide (search = "") || nameMatches search (pfUsername u)) &&
  (bool_decide (cursor = "") || strLt (pfID u) cursor).

(** Rows of the same creation time come in the order of the table. *)
Definition ProfileRepo_List `{PgSearch} (cursor : string) (limit : Z) (search : string)
    : SM UserDB (list Profile * string) :=
  let limit := pageLimit limit in
  rows <- smapErr (EWrap "user_repo: list") (query (fun db : UserDB =>
            take (Z.to_nat (limit + 1))
              (merge_sort newerProfile (List.filter (profileCond cursor search) (map snd (map_to_list db)))))) ;;
  sret (match rows !! Z.to_nat limit with
        | Some u => (take (Z.to_nat limit) rows, pfID u)
        | None => (rows, "")
        end).
End repo.

(** ** The consumer *)

Section service.
Context `{Env} `{PgCitext} `{UnicodeLower}.

(** [None] is a payload that is not JSON; a malformed or invalid event is
    skipped. *)
Definition UserCreatedHandler_Handle (msg : option UserCreatedV1) : SM UserDB unit :=
  match msg with
  | None => sret tt
  | Some event =>
      now <- snow ;;
      match ProjectFromEvent event now with
      | Err _ => sret tt
      | Ok user => withTx (ProfileRepo_Upsert user)
      end
  end.

(** ** The handlers *)

Definition GetUser (id : string) : SM UserDB Profile :=
  ctxDone ;;;
  if bool_decide (id = "")
  then sfail (EVb (InvalidArgumentFor "vibesync.user" "MISSING_ID" "user id required"))
  else
    smapErr (fun e => if isNotFound e then EVb (NotFound "user" id)
                      else EVb (WithCause e (Internal "GET_USER_FAILED" (errText e))))
      (withTx (ProfileRepo_GetByID id)).

Definition UpdateUser (h : Header) (id : string) (displayName avatarURL : option string) : SM UserDB Profile :=
  ctxDone ;;;
  if bool_decide (id = "")
  then sfail (EVb (InvalidArgumentFor "vibesync.user" "MISSING_ID" "user id required"))
  else
    let subject := subjectFromHeader h in
    if negb (bool_decide (sbUserID subject = id)) && (sbSystemRole subject <? SYSTEM_ADMINISTRATOR)
    then sfail (EVb (PermissionDenied "update_user" ("user:" +:+ id)))
    else
      smapErr (fun e => if isNotFound e then EVb (NotFound "user" id)
                        else EVb (WithCause e (Internal "UPDATE_USER_FAILED" (errText e))))
        (withTx (
          user <- ProfileRepo_GetByID id ;;
          now <- snow ;;
          let user := ApplyUpdate now displayName avatarURL user in
          ProfileRepo_Update user ;;;
          sret user)).

(** The page of the request is a cursor and a limit (uint32); the answer is the
    page, the next cursor and the total. *)
Definition ListUsers `{PgSearch} (h : Header) (page : option (string * Z)) (search : string)
    : SM UserDB (list Profile * string * Z) :=
  ctxDone ;;;
  let subject := subjectFromHeader h in
  if sbSystemRole subject <? SYSTEM_ADMINISTRATOR
  then sfail (EVb (PermissionDenied "view_users" "all"))
  else
    let cursor := match page with Some (c, _) => c | None => "" end in
    let limit := match page with Some (_, l) => if 0 <? l then l else 50 | None => 50 end in
    r <- smapErr (fun e => EVb (WithCause e (Internal "LIST_USERS_FAILED" (errText e))))
           (withTx (ProfileRepo_List cursor limit search)) ;;
    sret (r.1, r.2, Z.of_nat (length r.1)).
End service.

(** ** Runs *)

Inductive user_op : Type :=
| UEvent (msg : option UserCreatedV1)
| UUpdate (h : Header) (id : string) (displayName avatarURL : option string).

Section runs.
Context `{Env} `{PgCitext} `{UnicodeLower}.

Definition user_exec (o : user_op) (s : st UserDB) : st UserDB :=
  match o with
  | UEvent msg => (UserCreatedHandler_Handle msg s).2
  | UUpdate h id d a => (UpdateUser h id d a s).2
  end.

Definition user_run (ops : list user_op) (s : st UserDB) : st UserDB := fold_left (fun s o => user_exec o s) ops s.
End runs.
