(* ===== verification/UserTheorems.v ===== *)
(** * Theorems about the user service

    What events and requests do to the read model, and that the read model
    follows the auth service's users when its events are delivered at least
    once, in any order. *)

From stdpp Require Import pretty.
From S2P Require Import Prelude GoNum Errors GoString GoRegexp GoUnicode GoTime Store RoomDomain Outbox Web RoomRepo AuthDomain Auth Register OAuth SigningKeys AuthRuns AuthSteps AccountSteps AuthTheorems AuthDemo AccountTheorems RegisterTheorems UserService.

Open Scope Z_scope.

(** The caller is the user or an administrator. *)
Definition mayUpdate (h : Header) (id : string) : Prop :=
  sbUserID (subjectFromHeader h) = id \/ SYSTEM_ADMINISTRATOR <= sbSystemRole (subjectFromHeader h).

Section steps.
Context `{Env} `{PgCitext} `{UnicodeLower}.

(** What a request does: nothing, a projection, or an update. *)
Lemma user_exec_cases o s :
  let db := sdb s in let db' := sdb (user_exec o s) in
  db' = db \/
  (exists ev u now, o = UEvent (Some ev) /\ ProjectFromEvent ev now = Ok u /\ emailClash u db = false /\
     usernameClash u db = false /\ db' = <[pfID u := upsertedProfile (db !! pfID u) u]> db) \/
  (exists h id d a now u old, o = UUpdate h id d a /\ mayUpdate h id /\ db !! id = Some u /\ db !! pfID u = Some old /\
     db' = <[pfID u := updateProfile (ApplyUpdate now d a u) old]> db).
Proof.
  destruct o as [[ev|]|h id d a]; [|by left|]; simpl.
  - rewrite !run_now. destruct (ProjectFromEvent _ _) as [u|] eqn:Ep; [|by left].
    destruct (withTx _ _) as [r s'] eqn:E. simpl.
    apply withTx_cases in E as [[Hs _]|([] & s1 & Ha & _ & Hs & _)]; [by left|]. right. left.
    apply smapErr_Ok, stmt_Ok in Ha as [Ha _]. destruct (32 <? _); [done|]. destruct (100 <? _); [done|].
    destruct (emailClash _ _) eqn:Ee; [done|]. destruct (usernameClash _ _) eqn:Eu; [done|]. injection Ha as Ha.
    exists ev, u, (env_now (sn s)). split_and!; try done. by rewrite Hs, <- Ha.
  - destruct (UpdateUser h id d a s) as [r0 s'] eqn:E0. simpl. unfold UpdateUser, sbind at 1 in E0.
    pose proof (quiet_ctxDone s) as Hq.
    destruct (ctxDone s) as [[[]|e] s0]; simpl in Hq; [|injection E0 as <- <-; by left]. rewrite <- Hq. clear Hq s.
    destruct (bool_decide (id = "")); [injection E0 as <- <-; by left|].
    destruct (negb _ && _) eqn:Eg; [injection E0 as <- <-; by left|].
    assert (mayUpdate h id) as Hmay.
    { apply andb_false_iff in Eg as [Hc|Hc]; go_bool; [by left|by right]. }
    clear Eg. unfold smapErr at 1 in E0. destruct (withTx _ _) as [r s1'] eqn:E.
    assert (s1' = s') as -> by (destruct r; by injection E0). clear E0 r0.
    apply withTx_cases in E as [[Hs _]|(u' & s1 & Ha & _ & Hs & _)]; [by left|]. right. right.
    apply sbind_Ok in Ha as (u & s2 & Hg & Ha).
    apply smapErr_Ok, (reads_Ok (fun db : UserDB => db !! id)) in Hg as [Hg Hs2]; [|auto with vibe].
    rewrite run_now in Ha. apply sbind_Ok in Ha as ([] & s3 & Hup & [= <- <-]).
    apply sbind_Ok in Hup as (n & s4 & Hup & Hn). apply smapErr_Ok, stmt_Ok in Hup as [Hup _].
    cbn [sdb step_n pfID ApplyUpdate] in *. rewrite Hs2 in Hup. cbn [sdb] in Hup, Hg.
    destruct (sdb s0 !! pfID u) as [old|] eqn:Eo; [|injection Hup as <- _; done].
    destruct (100 <? _); [done|]. injection Hup as <- Hup. injection Hn as <-.
    eexists h, id, d, a, _, u, old. split_and!; try done.
    by rewrite Hs, <- Hup.
Qed.
End steps.

(** ** The invariant *)

Record read_inv `{PgCitext} (db : UserDB) : Prop := {
  ri_keyed : forall k u, db !! k = Some u -> pfID u = k;
  ri_email : forall k1 k2 u1 u2, db !! k1 = Some u1 -> db !! k2 = Some u2 ->
    citextEq (pfEmail u1) (pfEmail u2) = true -> k1 = k2;
  ri_username : forall k1 k2 u1 u2, db !! k1 = Some u1 -> db !! k2 = Some u2 ->
    pfUsername u1 = pfUsername u2 -> k1 = k2;
}.

Lemma clash_none `{PgCitext} (P : Profile -> bool) (db : UserDB) id k x :
  existsb (fun kv => P kv.2 && negb (bool_decide (kv.1 = id))) (map_to_list db) = false ->
  db !! k = Some x -> k <> id -> P x = false.
Proof.
  intros He Hk Hne. apply not_true_iff_false. intros Hp. apply not_true_iff_false in He. apply He, existsb_exists.
  exists (k, x). split; [by apply list_elem_of_In, elem_of_map_to_list|]. simpl. rewrite Hp. by rewrite bool_decide_false.
Qed.

Section invariant.
Context `{PgCitext} `{!CitextLaws _}.

Lemma upserted_fields old u :
  let r := upsertedProfile old u in
  pfEmail r = pfEmail u /\ pfUsername r = pfUsername u /\ (forall o, old = Some o -> pfID r = pfID o) /\
  (old = None -> pfID r = pfID u).
Proof using Type. destruct old as [o|]; simpl; split_and!; try done. by intros ? [= ->]. Qed.

Lemma read_inv_upsert db u :
  read_inv db -> emailClash u db = false -> usernameClash u db = false ->
  read_inv (<[pfID u := upsertedProfile (db !! pfID u) u]> db).
Proof using CitextLaws0.
  intros I He Hu. destruct (upserted_fields (db !! pfID u) u) as (Em & Un & Hs & Hn).
  assert (forall k x, db !! k = Some x -> pfID u <> k -> citextEq (pfEmail x) (pfEmail u) = false) as He'
    by (intros k x Hk Hne; by apply (clash_none (fun x => citextEq (pfEmail x) (pfEmail u)) db (pfID u) k)).
  assert (forall k x, db !! k = Some x -> pfID u <> k -> pfUsername x <> pfUsername u) as Hu'.
  { intros k x Hk Hne. apply (clash_none (fun x => bool_decide (pfUsername x = pfUsername u)) db (pfID u) k) in Hk; [|done..].
    by apply bool_decide_eq_false in Hk. }
  split.
  - intros k x Hk. insert_cases; [|by apply (ri_keyed _ I)].
    destruct (db !! pfID u) as [o|] eqn:Eo; [rewrite (Hs o eq_refl); by apply (ri_keyed _ I)|by apply Hn].
  - intros k1 k2 u1 u2 Hk1 Hk2 E. insert_cases; [done| | |by eapply (ri_email _ I)].
    + rewrite Em, (He' k1 u1) in E by done. done.
    + rewrite Em, citext_sym, (He' k2 u2) in E by done. done.
  - intros k1 k2 u1 u2 Hk1 Hk2 E. insert_cases; [done| | |by eapply (ri_username _ I)].
    + rewrite Un in E. by destruct (Hu' k1 u1).
    + rewrite Un in E. by destruct (Hu' k2 u2).
Qed.

Lemma read_inv_update db old u :
  read_inv db -> db !! pfID u = Some old ->
  read_inv (<[pfID u := updateProfile u old]> db).
Proof using Type.
  intros I Ho. split.
  - intros k x Hk. insert_cases; [|by apply (ri_keyed _ I)]. by apply (ri_keyed _ I) in Ho.
  - intros k1 k2 u1 u2 Hk1 Hk2 E. insert_cases; try done; by eapply (ri_email _ I).
  - intros k1 k2 u1 u2 Hk1 Hk2 E. insert_cases; try done; by eapply (ri_username _ I).
Qed.
End invariant.

(** The request is an update of the profile by its user or an administrator. *)
Definition updates (id : string) (o : user_op) : Prop :=
  match o with
  | UUpdate h i _ _ => i = id /\ mayUpdate h i
  | UEvent _ => False
  end.

Section runs.
Context `{Env} `{PgCitext} `{!CitextLaws _} `{UnicodeLower}.

Lemma user_exec_inv o s : read_inv (sdb s) -> read_inv (sdb (user_exec o s)).
Proof using CitextLaws0.
  intros I. destruct (user_exec_cases o s) as [->|[(ev & u & now & _ & _ & He & Hu & ->)|
    (h & id & d & a & now & u & old & _ & _ & Hg & Ho & ->)]]; [done|by apply read_inv_upsert|].
  apply (read_inv_update _ old (ApplyUpdate now d a u) I Ho).
Qed.

(** What a request does to one profile. *)
Lemma user_exec_profile o s id p :
  read_inv (sdb s) -> sdb s !! id = Some p ->
  exists p', sdb (user_exec o s) !! id = Some p' /\ pfCreatedAt p' = pfCreatedAt p /\
    (~ updates id o -> pfDisplayName p' = pfDisplayName p /\ pfAvatarURL p' = pfAvatarURL p).
Proof using Type.
  intros I Hp. destruct (user_exec_cases o s) as [->|[(ev & u & now & _ & _ & He & Hu & ->)|
    (h & i & d & a & now & u & old & -> & Hm & Hg & Ho & ->)]]; [by exists p| |].
  - destruct (decide (pfID u = id)) as [<-|Hne]; [|exists p; by rewrite lookup_insert_ne].
    rewrite Hp, lookup_insert_eq. by eexists.
  - pose proof (ri_keyed _ I _ _ Hg) as Hid. subst i.
    destruct (decide (pfID u = id)) as [<-|Hne]; [|exists p; by rewrite lookup_insert_ne].
    rewrite lookup_insert_eq. rewrite Ho in Hp. injection Hp as ->. eexists. split; [done|]. split; [done|].
    intros Hup. by destruct Hup.
Qed.

Lemma user_run_inv ops s : read_inv (sdb s) -> read_inv (sdb (user_run ops s)).
Proof using CitextLaws0.
  revert s. induction ops as [|o ops IH]; intros s I; [done|]. by apply (IH (user_exec o s)), user_exec_inv.
Qed.
End runs.

(** C27. Profiles belong to their users: whatever events are delivered (again, out
    of order, malformed) and whatever requests are made and fail, the read model
    keeps its keys, addresses and user names unique, and a profile is never lost
    and keeps its creation time; its display name and avatar stay as they are
    unless a request of the user itself or of an administrator updates them. *)
Theorem profiles_owned `{Env} `{C : PgCitext} `{!CitextLaws C} `{UnicodeLower} ops s id p :
  read_inv (sdb s) -> sdb s !! id = Some p ->
  let db := sdb (user_run ops s) in
  read_inv db /\ exists p', db !! id = Some p' /\ pfCreatedAt p' = pfCreatedAt p /\
    (Forall (fun o => ~ updates id o) ops -> pfDisplayName p' = pfDisplayName p /\ pfAvatarURL p' = pfAvatarURL p).
Proof.
  intros I Hp db. split; [by apply user_run_inv|]. subst db. revert s p I Hp.
  induction ops as [|o ops IH]; intros s p I Hp; [by exists p|].
  destruct (user_exec_profile o s id p I Hp) as (p1 & Hp1 & Hc1 & Hd1).
  destruct (IH (user_exec o s) p1) as (p2 & Hp2 & Hc2 & Hd2); [by apply user_exec_inv|done|].
  exists p2. split; [done|]. split; [congruence|]. intros [Ho Hops]%Forall_cons.
  destruct (Hd1 Ho), (Hd2 Hops). split; congruence.
Qed.

(** ** The read model of the auth service's users *)

Lemma parseRFC3339_formatted now fallback :
  formattable now -> parseRFC3339 (FormatRFC3339 now) fallback = now / Second * Second.
Proof.
  intros Hf. unfold parseRFC3339. pose proof (ParseRFC3339_Format now Hf) as Hp.
  assert (TrimSpace (FormatRFC3339 now) = FormatRFC3339 now) as ->.
  { apply TrimSpace_graphic, FormatRFC3339_graphic. done. }
  destruct (bool_decide _) eqn:E; [|by rewrite Hp]. apply bool_decide_eq_true in E. by rewrite E in Hp.
Qed.

Lemma pgTime_seconds t : pgTime t / Second = t / Second.
Proof. unfold pgTime, Second. Z.to_euclidean_division_equations. lia. Qed.
Lemma pgTime_second z : pgTime (z * Second) = z * Second.
Proof. unfold pgTime, Second. Z.to_euclidean_division_equations. lia. Qed.

(** The delivery of an outbox row. *)
Definition delivery (r : OutRow Payload) : user_op := UEvent (unmarshalUserCreated (oePayload (orEvent r))).

(** The address is as the projection normalises it. *)
Definition normalised `{UnicodeLower} (u : User) : Prop := ToLower (TrimSpace (uEmail u)) = uEmail u.

Section follows.
Context `{E : Env} `{!Calm E} `{C : PgCitext} `{!CitextLaws C} `{UnicodeLower}.
Context (users0 : gmap string User) (db : AuthDB).
Hypothesis Hinv : acct_inv users0 db.
Hypothesis Hnorm : forall k u, dUsers db !! k = Some u -> normalised u.

Hypothesis Hids : dUsers db !! "" = None.

(** A profile that is the projection of a user's row. *)
Definition projects (u : User) (p : Profile) : Prop :=
  pfID p = uID u /\ pfEmail p = uEmail u /\ pfUsername p = uUsername u /\
  (formattable (uCreatedAt u) -> pfCreatedAt p = uCreatedAt u / Second * Second).

Definition follows (rm : UserDB) : Prop :=
  forall k p, rm !! k = Some p -> exists u, dUsers db !! k = Some u /\ projects u p.

Lemma follows_email rm u k p :
  follows rm -> dUsers db !! uID u = Some u -> rm !! k = Some p -> k <> uID u -> citextEq (pfEmail p) (uEmail u) = false.
Proof using Hinv.
  intros Hf Hu Hk Hne. destruct (Hf _ _ Hk) as (v & Hv & _ & -> & _). apply not_true_iff_false. intros Hc.
  apply Hne. by eapply (ai_email _ _ Hinv).
Qed.

Lemma no_clash (P : Profile -> bool) (rm : UserDB) id :
  (forall k p, rm !! k = Some p -> k <> id -> P p = false) ->
  existsb (fun kv => P kv.2 && negb (bool_decide (kv.1 = id))) (map_to_list rm) = false.
Proof using Type.
  intros Hp. apply not_true_iff_false. intros ([k p] & Hin & Hb)%existsb_exists.
  apply list_elem_of_In, elem_of_map_to_list in Hin. simpl in Hb. apply andb_prop in Hb as [Hb Hne].
  apply negb_true_iff, bool_decide_eq_false in Hne. by rewrite (Hp k p Hin Hne) in Hb.
Qed.

(** The event of a user, projected. *)
Definition projected (u : User) (at_ : time) : Profile :=
  mkProfileRow (uID u) (uEmail u) (uUsername u) (uUsername u) "" SYSTEM_USER at_ at_.

Lemma username_normal s : MatchString usernameRe s = true -> TrimSpace s = s /\ ToLower s = s.
Proof using Type.
  intros Hs. split; [|by apply ToLower_fixed, username_lower].
  apply username_shape in Hs as (b & l & Hb & Hlow & _ & Hw). apply TrimSpace_graphic. rewrite Hb.
  assert (isWord b = true) as Hbw by (unfold isWord; by rewrite Hlow).
  constructor; [apply isWord_spec in Hbw; unfold graphic; lia|].
  eapply Forall_impl; [exact Hw|]. intros z Hz%isWord_spec. unfold graphic. lia.
Qed.

Lemma project_created u provider now at_ :
  uID u <> "" -> wellFormed u -> normalised u ->
  exists created, (formattable now -> created = now / Second * Second) /\
    ProjectFromEvent (mkUserCreated (uID u) (uEmail u) (uUsername u) provider (FormatRFC3339 now)) at_
    = Ok (projected u created).
Proof using Type.
  intros Hid (He & Hu & _) Hn. exists (parseRFC3339 (FormatRFC3339 now) at_). split; [apply parseRFC3339_formatted|].
  unfold ProjectFromEvent. cbn [ucUserID ucEmail ucUsername ucCreatedAt].
  rewrite !bool_decide_false; [|by intros E0; rewrite E0 in Hu|by intros E0; rewrite E0 in He|done]. cbn [orb].
  rewrite Hn. destruct (username_normal _ Hu) as [-> ->]. done.
Qed.

(** The row that announces a user: the projection succeeds. *)
Lemma deliver_row r rm n b :
  r ∈ dEvents db -> follows rm ->
  exists u created n', dUsers db !! oeAggregateID (orEvent r) = Some u /\ uID u = oeAggregateID (orEvent r) /\
    (formattable (uCreatedAt u) -> created = uCreatedAt u / Second * Second) /\
    wellFormed u /\
    user_exec (delivery r) (mkSt rm n b) =
      mkSt (<[uID u := upsertedProfile (rm !! uID u) (projected u created)]> rm) n' b.
Proof using Calm0 Hinv Hnorm Hids.
  intros Hr Hf. destruct (ai_events _ _ Hinv r Hr) as (u & Hu & _ & Hid & _ & now & provider & Hc & Hp).
  assert (oeAggregateID (orEvent r) ∈ announced db) as Hann by (apply list_elem_of_fmap; by exists r).
  rewrite Hid in Hu, Hann. apply (ai_announced _ _ Hinv) in Hann as [_ Hnew].
  destruct (ai_origin _ _ Hinv _ _ Hu) as [Hold|[_ Hw]]; [congruence|].
  assert (uID u <> "") as Hne by (intros E0; rewrite E0 in Hu; congruence).
  destruct (project_created u provider now (env_now n) Hne Hw (Hnorm _ _ Hu)) as (created & Hcr & Hpr).
  exists u, created. unfold delivery. rewrite Hp. cbn [user_exec UserCreatedHandler_Handle].
  change (unmarshalUserCreated _) with (Some (mkUserCreated (uID u) (uEmail u) (uUsername u) provider (FormatRFC3339 now))).
  cbv beta match. unfold UserCreatedHandler_Handle. rewrite run_now. cbn [sn]. rewrite Hpr. unfold step_n. cbn [sn sdb saborted].
  rewrite calm_withTx. unfold ProfileRepo_Upsert, smapErr. rewrite calm_stmt.
  destruct Hw as (Hm & Hun & Hrest). pose proof (username_length _ Hun) as Hl. pose proof (charCount_slen (uUsername u)).
  cbn [pfUsername pfDisplayName projected].
  replace (32 <? charCount (uUsername u)) with false by (symmetry; apply Z.ltb_ge; lia).
  replace (100 <? charCount (uUsername u)) with false by (symmetry; apply Z.ltb_ge; lia).
  assert (emailClash (projected u created) rm = false) as ->.
  { apply (no_clash (fun p => citextEq (pfEmail p) (uEmail u)) rm (uID u)). intros k p Hk Hkne. by eapply (follows_email rm u). }
  assert (usernameClash (projected u created) rm = false) as ->.
  { set (P := fun p : Profile => bool_decide (pfUsername p = uUsername u)). apply (no_clash P rm (uID u)). subst P. intros k p Hk Hkne.
    destruct (Hf _ _ Hk) as (v & Hv & _ & _ & Hpu & _). apply bool_decide_eq_false. rewrite Hpu. intros E1.
    apply Hkne. by eapply (ai_username _ _ Hinv). }
  cbn [saborted sdb sn pfID projected snd]. eexists. split; [by rewrite Hid|]. split; [done|].
  split; [unfold formattable in *; rewrite Hc, pgTime_seconds; exact Hcr|]. split; [done|]. reflexivity.
Qed.

(** What it leaves still follows the users, with the user of the row among the
    profiles. *)
Lemma deliver_follows r rm n b :
  r ∈ dEvents db -> follows rm ->
  exists rm' n', user_exec (delivery r) (mkSt rm n b) = mkSt rm' n' b /\ follows rm' /\
    forall k, is_Some (rm' !! k) <-> is_Some (rm !! k) \/ k = oeAggregateID (orEvent r).
Proof using Calm0 Hinv Hnorm Hids.
  intros Hr Hf. destruct (deliver_row r rm n b Hr Hf) as (u & created & n' & Hu & Hid & Hcr & Hw & He).
  eexists _, n'. split; [exact He|]. rewrite <- Hid in *. split.
  - intros k p Hk. insert_cases; [|by apply Hf]. exists u. split; [done|]. unfold projects, upsertedProfile.
    destruct (rm !! uID u) as [old|] eqn:Eo.
    + destruct (Hf _ _ Eo) as (v & Hv & Hpid & Hpe & Hpu & Hpc). rewrite Hu in Hv. injection Hv as <-. done.
    + cbn [pfID pfEmail pfUsername pfCreatedAt storedProfile projected]. split_and!; try done.
      intros Hfm. rewrite (Hcr Hfm). apply pgTime_second.
  - intros k. destruct (decide (k = uID u)) as [->|Hne].
    + rewrite lookup_insert_eq. split; [by right|intros _; by eexists].
    + rewrite lookup_insert_ne by done. split; [by left|]. by intros [?|?].
Qed.

Lemma deliveries_follow evs rm n b :
  (forall r, r ∈ evs -> r ∈ dEvents db) -> follows rm ->
  exists rm' n', user_run (map delivery evs) (mkSt rm n b) = mkSt rm' n' b /\ follows rm' /\
    forall k, is_Some (rm' !! k) <-> is_Some (rm !! k) \/ exists r, r ∈ evs /\ oeAggregateID (orEvent r) = k.
Proof using Calm0 Hinv Hnorm Hids.
  revert rm n. induction evs as [|r evs IH]; intros rm n Hevs Hf.
  { exists rm, n. split_and!; [done..|]. intros k. split; [by left|]. intros [?|(r & Hr%elem_of_nil & _)]; done. }
  destruct (deliver_follows r rm n b) as (rm1 & n1 & He1 & Hf1 & Hd1); [apply Hevs; by left|done|].
  destruct (IH rm1 n1) as (rm2 & n2 & He2 & Hf2 & Hd2); [intros; apply Hevs; by right|done|].
  exists rm2, n2. split; [|split; [done|]].
  - cbn [map user_run fold_left]. unfold user_run in He2. cbn [map fold_left]. by rewrite He1.
  - intros k. rewrite Hd2, Hd1. setoid_rewrite elem_of_cons. split.
    + intros [[?| ->]|(r' & Hr' & ?)]; [by left|right; by exists r; split; [left|]|right; exists r'; auto].
    + intros [?|(r' & [->|Hr'] & <-)]; [by left; left|by left; right|right; by exists r'].
Qed.
End follows.

(** C18. The read model follows the auth service: whatever requests the auth
    service served, and however often and in whatever order the rows of its
    outbox are delivered to the user service in a world where nothing fails,
    the profiles are those of exactly the users whose row was delivered, and
    each carries the id, address and user name of the user's row and its
    creation time in whole seconds; when all rows were delivered the profiles
    are those of all new users. *)
Theorem read_model_follows {E1 E : Env} `{!Calm E} `{C : PgCitext} `{!CitextLaws C} `{Hasher} `{Signer} `{UnicodeLower} `{Cipher}
    `{TokenEndpoint} `{Jose} cfg registry users ops evs n :
  let db := sdb (auth_run (H := E1) cfg registry ops (authStart users)) in
  distinct_users users -> dUsers db !! "" = None -> (forall k u, dUsers db !! k = Some u -> normalised u) ->
  (forall r, r ∈ evs -> r ∈ dEvents db) ->
  let rm := sdb (user_run (H := E) (map delivery evs) (mkSt ∅ n false)) in
  (forall k, is_Some (rm !! k) <-> exists r, r ∈ evs /\ oeAggregateID (orEvent r) = k) /\
  (forall k p, rm !! k = Some p -> exists u, dUsers db !! k = Some u /\ projects u p) /\
  ((forall r, r ∈ dEvents db -> r ∈ evs) -> forall k, is_Some (rm !! k) <-> is_Some (dUsers db !! k) /\ users !! k = None).
Proof.
  intros db Hd Hids Hn Hevs rm.
  destruct (auth_run_acctR (H := E1) cfg registry users ops (authStart users)) as [I _]; [by apply acct_inv_start|]. fold db in I.
  destruct (deliveries_follow users db I Hn Hids evs ∅ n false Hevs) as (rm' & n' & Hrun & Hf & Hdom).
  { intros k p. by rewrite lookup_empty. }
  assert (rm = rm') as -> by (unfold rm; by rewrite Hrun). clear Hrun.
  assert (forall k, is_Some (rm' !! k) <-> exists r, r ∈ evs /\ oeAggregateID (orEvent r) = k) as Hdom'.
  { intros k. rewrite Hdom. split; [intros [[? [=]]|?]; done|by right]. }
  split_and!; [done|exact Hf|]. intros Hall k. rewrite Hdom', <- (ai_announced _ _ I k). unfold announced.
  rewrite list_elem_of_fmap. split.
  - intros (r & Hr & <-). exists r. split; [done|by apply Hevs].
  - intros (r & -> & Hr). exists r. split; [by apply Hall|done].
Qed.

(** ** Witnesses *)

#[local] Existing Instances authEnv authEnv_Calm prefixHasher constSigner exactCitext exactCitext_laws idLower markCipher echoEndpoint toyJose.

(** The outbox of the two new users, delivered backwards and then again. *)
Definition demoRows : list (OutRow Payload) := dEvents (sdb demoDone) ++ rev (dEvents (sdb demoDone)).
Definition demoReadModel : UserDB := sdb (user_run (map delivery demoRows) (mkSt ∅ 0 false)).

#[local] Instance normalised_dec u : Decision (normalised u).
Proof. unfold normalised. apply _. Defined.

Lemma demoDone_normalised : map_Forall (fun _ u => normalised u) (dUsers (sdb demoDone)).
Proof. apply (bool_decide_eq_true_1 _). by vm_compute. Qed.

Lemma demoDone_ids : dUsers (sdb demoDone) !! "" = None.
Proof. by vm_compute. Qed.

Lemma read_model_follows_witness :
  size demoReadModel = 2%nat /\
  forall k, is_Some (demoReadModel !! k) <-> is_Some (dUsers (sdb demoDone) !! k) /\ demoUsers !! k = None.
Proof.
  split; [by vm_compute|].
  destruct (read_model_follows (E1 := authEnv) demoAuthConfig demoRegistry demoUsers demoOps demoRows 0 demoUsers_distinct demoDone_ids
    demoDone_normalised) as (_ & _ & Hall).
  - intros r [?|Hr]%elem_of_app; [done|]. by apply list_elem_of_In, in_rev, list_elem_of_In in Hr.
  - apply Hall. intros r Hr. apply elem_of_app. by left.
Defined.

Definition ownHeader (id : string) : Header := <["X-Vibesync-User-Id" := id]> ∅.
Definition adaProfile : Profile := mkProfileRow "a1" "ada@x.org" "ada" "ada" "" SYSTEM_USER 0 0.
Definition adaEvent : UserCreatedV1 := mkUserCreated "a1" "ada@x.org" "ada" "password" "1970-01-01T00:00:00Z".
Definition adaDB : st UserDB := mkSt {["a1" := adaProfile]} 0 false.

Lemma profiles_owned_witness :
  let s := user_run [UUpdate (ownHeader "b2") "a1" (Some "Eve") None; UEvent (Some adaEvent); UEvent None] adaDB in
  exists p, sdb s !! "a1" = Some p /\ pfDisplayName p = "ada".
Proof.
  destruct (profiles_owned [UUpdate (ownHeader "b2") "a1" (Some "Eve") None; UEvent (Some adaEvent); UEvent None] adaDB "a1" adaProfile)
    as (_ & p & Hp & _ & Hd).
  - split; simpl.
    + by intros k u [<- <-]%lookup_singleton_Some.
    + by intros k1 k2 u1 u2 [<- <-]%lookup_singleton_Some [<- <-]%lookup_singleton_Some.
    + by intros k1 k2 u1 u2 [<- <-]%lookup_singleton_Some [<- <-]%lookup_singleton_Some.
  - done.
  - exists p. split; [done|]. apply Hd. apply Forall_cons. split; [intros [_ [Hm|Hm]]; by vm_compute in Hm|].
    apply Forall_cons. split; [by intros []|]. apply Forall_cons. split; [by intros []|done].
Defined.

(** ** Where the code differs from its comments *)

(** A redelivered event does not produce the same row: the time of the event
    replaces the time of the user's last edit. *)
Example redelivery_rewinds_updated_at :
  let s1 := user_run [UUpdate (ownHeader "a1") "a1" (Some "Ada L.") None] (mkSt {["a1" := adaProfile]} 7 false) in
  let s2 := user_run [UEvent (Some adaEvent)] s1 in
  option_map pfUpdatedAt (sdb s1 !! "a1") = Some (10 * second) /\
  option_map (fun p => (pfDisplayName p, pfUpdatedAt p)) (sdb s2 !! "a1") = Some ("Ada L.", 0).
Proof. by vm_compute. Qed.

(** Pages skip a user: the cursor is the first row that is left out, and the next
    page asks for ids below it. *)
Definition threeProfiles : UserDB :=
  {["a" := mkProfileRow "a" "a@x.org" "aaa" "aaa" "" SYSTEM_USER 1000 0;
    "b" := mkProfileRow "b" "b@x.org" "bbb" "bbb" "" SYSTEM_USER 2000 0;
    "c" := mkProfileRow "c" "c@x.org" "ccc" "ccc" "" SYSTEM_USER 3000 0]}.
Example pages_skip_users :
  let search : PgSearch := fun _ _ => true in
  let page c := match ProfileRepo_List c 1 "" (mkSt threeProfiles 0 false) with
                | (Ok r, _) => (map pfID r.1, r.2)
                | _ => ([], "")
                end in
  page "" = (["c"], "b") /\ page "b" = (["a"], "").
Proof. by vm_compute. Qed.
