(* ===== verification/PlaybackFollows.v ===== *)
(** * Playback follows synchronisation

    The composition of the sync service with the playback service: the snapshot
    branch of a room's loop stages a [sync.updated.v1] event ([SyncService]), the
    relay publishes it ([Delivery]), the broker carries it, and the consumer of
    the playback service applies it to its cache ([Playback]).  The body is the
    JSON object of [stageOutbox], decoded into the [SyncUpdatedV1] of
    [apps/playback-service/internal/domain/playback.go]. *)

From S2P Require Import Prelude GoNum GoFloat SyncState Heartbeat Controller RoomSync RoomSyncEvolution RoomSyncTheorems Errors GoString Store Outbox Kafka Delivery RoomServiceTheorems RoomClient SyncService SyncServiceTheorems Playback.

Open Scope Z_scope.

(** ** The body of the event *)

(** Each key of the object has a field of its width on the other side; the rate
    of a room is finite, so the object has a JSON text. *)
Definition decodeUpdated (u : SyncUpdatedV1) : SyncUpdated :=
  mkSyncUpdated (uRoomID u) (uEpoch u) (uStatus u) (uMediaTime u) (uWallTime u) (uRate u) (uHostID u) (uDriftMs u) (uPeers u).

(** [SyncUpdatedHandler.Handle] on a Kafka message. *)
Definition handleUpdated `{Env} (m : Message SyncUpdatedV1) (p : PlaybackSvc) : PlaybackSvc :=
  SyncUpdatedHandler_Handle (Some (decodeUpdated (kValue m))) p.

(** A cached room has the fields of a state that the event carries: the status,
    the sample and its time, the rate, the epoch and the host.  The event does not
    carry the media and the token. *)
Definition mirrors (c : PlaybackRoom) (st : SyncState) : Prop :=
  prStatus c = Status st /\ prMediaTimeMs c = MediaTimeMs st /\ prWallTimeMs c = WallTimeMs st /\
  prPlaybackRate c = PlaybackRate st /\ prEpoch c = Epoch st /\ prHostID c = HostID st.

(** The body of a room's event. *)
Definition announces (u : SyncUpdatedV1) (room : string) (st : SyncState) : Prop :=
  uRoomID u = room /\ uEpoch u = Epoch st /\ uStatus u = Status st /\ uMediaTime u = MediaTimeMs st /\
  uWallTime u = WallTimeMs st /\ uRate u = PlaybackRate st /\ uHostID u = HostID st.

Lemma handleUpdated_mirrors `{Env} m p room st : announces (kValue m) room st -> room <> "" -> in_s 16 (Status st) ->
  mirrors (roomOrNew (pbCache (handleUpdated m p)) room) st /\
  forall other, other <> room -> pbCache (handleUpdated m p) !! other = pbCache p !! other.
Proof.
  intros (Hr & He & Hs & Hm & Hw & Hra & Hh) Hne Hst. unfold handleUpdated, SyncUpdatedHandler_Handle, decodeUpdated. cbn [suRoomID].
  rewrite Hr, bool_decide_false by done. cbn [pbCache]. unfold Cache_ApplyFromEvent. cbn [suRoomID].
  rewrite roomOrNew_insert, bool_decide_true by done. unfold ApplyFromEvent, mirrors. simpl.
  split_and!; try done; [unfold int16; by rewrite Hs, swrap_id|]. intros other Ho. by rewrite lookup_insert_ne.
Qed.

(** ** The event of a snapshot *)

Section snapshot.
Context `{Runtime}.

Lemma buildSnapshotLocked_state rs snap rs' : buildSnapshotLocked rs = Some (snap, rs') ->
  snState snap = stateToProto (roomID rs) (state rs).
Proof.
  unfold buildSnapshotLocked, stateToProtoLocked, clockNow, rangeOver, pbind, pget, liftOpt, pret. simpl.
  destruct (activeStats _ _ _) as [[active drifts] rtts]. destruct (MedianFloats rtts); [|done]. by intros [= <- _].
Qed.

Lemma broadcastSnapshot_room rs a rs' : broadcastSnapshot rs = Some (a, rs') -> roomID rs' = roomID rs.
Proof.
  intros E. unfold broadcastSnapshot, pbind in E. destruct (buildSnapshotLocked rs) as [[snap r1]|] eqn:E1; [|done].
  apply observes_buildSnapshotLocked in E1 as (_ & Hr & _). unfold clockNow, addToRingLocked, pmod, pbind, pget in E. simpl in E.
  apply observes_broadcastLocked in E as (_ & Hr' & _). by rewrite Hr', <- Hr.
Qed.

Lemma snapshotTick_event rs rs' : snapshotTick rs = Some (tt, rs') -> hasPersist rs = true ->
  exists ev, calls (world rs') = calls (world rs) ++ [CallStager ev; CallPersist (state rs)] /\
    evTopic ev = "sync.updated.v1" /\ evKey ev = roomID rs /\ evAggregateID ev = roomID rs /\
    announces (evPayload ev) (roomID rs) (state rs).
Proof.
  intros E Hp. unfold snapshotTick, pbind in E.
  destruct (broadcastSnapshot rs) as [[[] r1]|] eqn:E1; [|done].
  pose proof (keeps3_broadcastSnapshot _ _ _ E1) as H1. apply broadcastSnapshot_room in E1.
  unfold stageOutbox, pbind in E.
  destruct (buildSnapshotLocked r1) as [[snap r2]|] eqn:E2; [|done].
  pose proof (keeps3_buildSnapshotLocked _ _ _ E2) as H2. rewrite H1 in H2.
  pose proof (buildSnapshotLocked_state _ _ _ E2) as Hsnap. apply observes_buildSnapshotLocked in E2 as (_ & Hr2 & _).
  unfold quiet3 in H1, H2. injection H1 as Hs1 _ _. injection H2 as Hs Hh Hc. rewrite E1, Hs1 in Hsnap. rewrite E1 in Hr2.
  unfold pget, newID, clockNow, callExt, pmod, persistState, pbind, pget in E. simpl in E.
  rewrite Hh, Hp in E. simpl in E. unfold callExt, pmod in E. injection E as <-. simpl. rewrite Hc, Hs, Hr2, Hsnap.
  eexists. split; [by rewrite <- app_assoc|]. unfold announces. simpl. split_and!; try done. case_bool_decide as Hd; [done|]. simpl. by rewrite Hd.
Qed.
End snapshot.

(** The row that a snapshot adds to the outbox when nothing fails: it is not
    added only when the id drawn for it is taken. *)
Lemma roomSnapshotTick_stages `{Env} `{!Calm _} rts r s s1 rs :
  roomSnapshotTick rts r s = Some (tt, s1) -> svRooms s !! r = Some rs -> hasPersist rs = true -> svOutbox s1 <> svOutbox s ->
  exists e, svOutbox s1 = svOutbox s ++ [mkOutRow e false] /\ oeID e ∉ map (fun x => oeID (orEvent x)) (svOutbox s) /\
    oeTopic e = "sync.updated.v1" /\ oeAggregateID e = roomID rs /\ (roomID rs <> "" -> oeKey e = roomID rs) /\
    announces (oePayload e) (roomID rs) (state rs).
Proof.
  intros E Hr Hp Hne. unfold roomSnapshotTick, pbind, runRoom, pget in E.
  rewrite Hr in E. cbn [svRooms set_svRooms] in E. rewrite lookup_insert_eq in E.
  destruct (@snapshotTick (rts r) rs) as [[[] rs1]|] eqn:Es; [|done].
  cbn [svRooms set_svRooms] in E. rewrite lookup_insert_eq in E.
  destruct (snapshotTick_event rs rs1 Es Hp) as (ev & Hc & Ht & Hk & Ha & Hann). rewrite Hc in E.
  rewrite drop_app_length in E. cbn [runCalls] in E. unfold pbind at 1 in E.
  destruct (stager ev _) as [[x s0]|] eqn:Esg; [|done].
  assert (svOutbox s1 = svOutbox s0) as Hs1.
  { unfold pbind, persister, interaction, pbind, pget in E. simpl in E. rewrite calm_begin, calm_fault in E.
    destruct (SyncStateRepo_Upsert _ _ _); [|by injection E as <-]. rewrite calm_commit in E.
    unfold pbind, pmod, pret, pskip in E. by injection E as <-. }
  unfold stager, interaction, pbind, pget in Esg. simpl in Esg. rewrite calm_begin, calm_fault in Esg.
  unfold insertEvent in Esg. simpl in Esg. case_bool_decide as Hin.
  { injection Esg as _ <-. by rewrite Hs1 in Hne. }
  rewrite calm_commit in Esg. unfold pbind, pmod, pret in Esg. injection Esg as _ <-. rewrite Hs1. simpl.
  eexists. split; [reflexivity|]. simpl. split_and!; [exact Hin|done|done| |done].
  intros Hid. rewrite Hk. by rewrite bool_decide_false.
Qed.

(** C14. The playback service gets the state of a room that the sync service
    announces.  When a room's loop takes a snapshot and nothing fails, the event
    is staged under a new id, and the relay leads often enough for its backlog,
    the broker gets a message under the room's key; and whenever a consumer of
    the playback service handles that message, whatever it had cached and
    however the headers travelled, its cached room has the room's status, media
    time, wall time, rate, epoch and host, the fields the event carries, and the
    other rooms stay as they were. *)
Theorem playback_follows `{Env} `{!Calm _} `{RelayEnv} rts r s s1 rs batchSize turns trace n :
  roomSnapshotTick rts r s = Some (tt, s1) -> svRooms s !! r = Some rs -> hasPersist rs = true ->
  roomID rs = r -> r <> "" -> in_s 16 (Status (state rs)) ->
  svOutbox s1 <> svOutbox s -> ids_unique (svOutbox s) -> marks_sent (svOutbox s) trace ->
  works_from n -> Forall calm_turn turns -> (S (length (unpublished (svOutbox s))) <= batchSize * leaderTurns turns)%nat ->
  let relayed := RelayRun batchSize turns (mkRelay (svOutbox s1) trace n) in
  exists m0, m0 ∈ rsTrace relayed /\ omTopic m0 = "sync.updated.v1" /\ omKey m0 = r /\
    forall order m, ranges_over order (omHeaders m0) -> brokered (toKafka order m0) m ->
    forall (penv : Env) p, let p' := @handleUpdated penv (vbkafkaMessageFromKafkaGo m) p in
      mirrors (roomOrNew (pbCache p') r) (state rs) /\
      forall other, other <> r -> pbCache p' !! other = pbCache p !! other.
Proof.
  intros E Hr Hp Hid Hne Hst Hstaged Hu Hm Hw Hcalm Hb relayed.
  destruct (roomSnapshotTick_stages rts r s s1 rs E Hr Hp Hstaged) as (e & Hout & Hfresh & Ht & _ & Hk & Hann). rewrite Hid in Hk, Hann.
  destruct (staged_published batchSize (svOutbox s) e trace turns n) as [t Htr]; [done..|].
  exists (toMessage t e). split; [unfold relayed; rewrite Hout; exact Htr|]. split; [exact Ht|]. split.
  { unfold toMessage. simpl. rewrite (Hk Hne). by rewrite bool_decide_false. }
  intros order m _ (_ & _ & Hv & _) penv p p'.
  apply (@handleUpdated_mirrors penv (vbkafkaMessageFromKafkaGo m) p r (state rs)); [|done|done].
  simpl. rewrite Hv. exact Hann.
Qed.

(** ** A room that is followed *)

(** The host presses play; then the room takes a snapshot. *)
Definition playedSvc : Svc := match demoCommand "alice" CmdPlay 0 with Some (_, s) => s | None => emptySvc end.
Definition snappedSvc : Svc :=
  match @roomSnapshotTick demoEnv (fun _ => demoRuntime) demoRoomID playedSvc with Some (_, s) => s | None => emptySvc end.
Definition playedRoom : RoomSync :=
  match svRooms playedSvc !! demoRoomID with
  | Some rs => rs
  | None => NewRoomSync demoConfig "" (freshState "" "" "") false false emptyWorld
  end.

Lemma snappedSvc_eq : @roomSnapshotTick demoEnv (fun _ => demoRuntime) demoRoomID playedSvc = Some (tt, snappedSvc).
Proof.
  unfold snappedSvc. destruct (@roomSnapshotTick demoEnv _ demoRoomID playedSvc) as [[[] s]|] eqn:E; [reflexivity|].
  exfalso. assert (match @roomSnapshotTick demoEnv (fun _ => demoRuntime) demoRoomID playedSvc with Some _ => true | None => false end = true)
    as Hx by (vm_compute; reflexivity). rewrite E in Hx. discriminate Hx.
Qed.
Lemma playedRoom_eq : svRooms playedSvc !! demoRoomID = Some playedRoom.
Proof.
  unfold playedRoom. destruct (svRooms playedSvc !! demoRoomID) eqn:E; [reflexivity|].
  exfalso. assert (match svRooms playedSvc !! demoRoomID with Some _ => true | None => false end = true)
    as Hx by (vm_compute; reflexivity). rewrite E in Hx. discriminate Hx.
Qed.
Lemma snappedSvc_staged : length (svOutbox snappedSvc) = 1%nat /\ svOutbox playedSvc = [].
Proof. split; vm_compute; reflexivity. Qed.
Lemma playedRoom_facts : hasPersist playedRoom = true /\ roomID playedRoom = demoRoomID /\ Status (state playedRoom) = StatusPlaying /\
  Epoch (state playedRoom) = 1 /\ HostID (state playedRoom) = "alice".
Proof. split_and!; vm_compute; reflexivity. Qed.

Definition followed (m0 : OutMessage SyncUpdatedV1) : PlaybackSvc :=
  @handleUpdated demoEnv (vbkafkaMessageFromKafkaGo (toKafka (map_to_list (omHeaders m0)) m0)) demoPB.

Lemma playback_follows_witness :
  exists m0, m0 ∈ rsTrace (@RelayRun _ (worksAfter 0) 10 [TNotLeader; TLeader noLocks] (mkRelay (svOutbox snappedSvc) [] 0)) /\
    prHostID (roomOrNew (pbCache (followed m0)) demoRoomID) = "alice" /\
    prStatus (roomOrNew (pbCache (followed m0)) demoRoomID) = StatusPlaying /\
    prEpoch (roomOrNew (pbCache (followed m0)) demoRoomID) = 1.
Proof.
  destruct playedRoom_facts as (Hp & Hid & Hst & He & Hh). destruct snappedSvc_staged as [Hlen Hempty].
  destruct (@playback_follows demoEnv _ (worksAfter 0) (fun _ => demoRuntime) demoRoomID playedSvc snappedSvc playedRoom 10
    [TNotLeader; TLeader noLocks] [] 0 snappedSvc_eq playedRoom_eq Hp Hid) as (m0 & Hin & _ & _ & Hm).
  - discriminate.
  - rewrite Hst. split; vm_compute; [intros Hc; discriminate Hc|reflexivity].
  - intros Hc. rewrite Hc, Hempty in Hlen. discriminate Hlen.
  - rewrite Hempty. constructor.
  - rewrite Hempty. intros x Hx. apply elem_of_nil in Hx. destruct Hx.
  - intros k _. cbn [re_begin re_fetch re_publish re_mark re_commit worksAfter]. rewrite bool_decide_false by lia.
    split_and!; reflexivity.
  - apply Forall_cons. split; [by left|]. apply Forall_cons. split; [by right|]. apply Forall_nil. exact I.
  - rewrite Hempty. simpl. lia.
  - exists m0. split; [exact Hin|].
    destruct (Hm (map_to_list (omHeaders m0)) (toKafka (map_to_list (omHeaders m0)) m0) (Permutation_refl _)
      (conj eq_refl (conj eq_refl (conj eq_refl eq_refl))) demoEnv demoPB) as ((Hsta & _ & _ & _ & Hep & Hho) & _).
    split; [rewrite <- Hh; exact Hho|]. split; [rewrite <- Hst; exact Hsta|rewrite <- He; exact Hep].
Defined.

(** The media of a room is not followed: no event carries it, and nothing calls
    [ApplySyncCommand], which would. *)
Example media_not_followed env m p room : room <> "" -> uRoomID (kValue m) = room ->
  prMediaID (roomOrNew (pbCache (@handleUpdated env m p)) room) = prMediaID (roomOrNew (pbCache p) room).
Proof.
  intros Hne Hr. unfold handleUpdated, SyncUpdatedHandler_Handle, decodeUpdated. cbn [suRoomID]. rewrite Hr, bool_decide_false by done.
  cbn [pbCache]. unfold Cache_ApplyFromEvent. cbn [suRoomID]. by rewrite roomOrNew_insert, bool_decide_true.
Qed.
