(* ===== verification/RoomFollows.v ===== *)
(** * Synchronisation follows rooms

    The composition of the room service with the sync service: [CreateRoom]
    stages a [room.created.v1] event in the transaction that inserts the room
    ([RoomService]), the relay publishes it ([Delivery]), the broker carries it,
    and the consumer of the sync service makes the room live with its owner
    ([SyncService]), who then may command it.  The payload is the JSON object of
    [CreateRoom], decoded into the [RoomCreatedV1] of
    [apps/sync-service/internal/app/handlers.go]; texts are valid UTF-8. *)

From S2P Require Import Prelude GoNum GoFloat Errors GoString Store RoomDomain Outbox Web RoomRepo RoomService RoomServiceInv RoomServiceTheorems.
From S2P Require Import Kafka Delivery SyncState RoomSync RoomSyncEvolution RoomSyncRuns RoomSyncTheorems RoomClient SyncService SyncServiceTheorems.

Open Scope Z_scope.

(** ** The body of the event *)

(** [json.Unmarshal]: an absent key leaves the field zero, a value of another
    type is an error. *)
Definition jsonStr (p : Outbox.Payload) (k : string) : option string :=
  match p !! k with None => Some "" | Some (JStr s) => Some s | Some _ => None end.
Definition jsonInt (p : Outbox.Payload) (k : string) : option Z :=
  match p !! k with None => Some 0 | Some (JInt z) => Some z | Some _ => None end.

Definition decodeCreated (p : Outbox.Payload) : option RoomCreatedV1 :=
  match jsonStr p "room_id", jsonStr p "slug", jsonStr p "name", jsonStr p "owner_id", jsonInt p "visibility" with
  | Some id, Some slug, Some name, Some owner, Some vis => Some (mkRoomCreated id slug name owner vis)
  | _, _, _, _, _ => None
  end.

(** [RoomCreatedHandler.Handle] on a Kafka message. *)
Definition handleCreated (rts : string -> Runtime) (scfg : SyncConfig) (withPresence : bool) (m : Message Outbox.Payload)
    : PM Svc (option error) :=
  RoomCreatedHandler_Handle rts scfg withPresence (decodeCreated (kValue m)).

(** ** The event of a new room *)

(** The event announces the room. *)
Definition createdEvent (e : OutEvent Outbox.Payload) (id owner : string) : Prop :=
  oeTopic e = "room.created.v1" /\ oeAggregateID e = id /\ oeKey e = id /\
  exists slug name vis, decodeCreated (oePayload e) = Some (mkRoomCreated id slug name owner vis).

Section creation.
Context `{Env}.

(** The statements of the transaction before the last leave the outbox alone. *)
Definition keepsOutbox {A} (m : SM RoomDB A) : Prop :=
  forall o, establishes (fun db => dOutbox db = o) (fun db => dOutbox db = o) m.

Lemma stmt_keepsOutbox {A} g (f : RoomDB -> res error (A * RoomDB)) :
  (forall db a db', f db = Ok (a, db') -> dOutbox db' = dOutbox db) -> keepsOutbox (smapErr g (stmt f)).
Proof. intros Hf o. apply establishes_mapErr, establishes_stmt. intros db a db' <- E. by eapply Hf. Qed.

Lemma Create_keepsOutbox r : keepsOutbox (RoomRepo_Create r).
Proof. apply stmt_keepsOutbox. intros db a db' E. go_cases; done. Qed.
Lemma Upsert_keepsOutbox m : keepsOutbox (MemberRepo_Upsert m).
Proof. apply stmt_keepsOutbox. intros db a db' E. go_cases; done. Qed.
Lemma Increment_keepsOutbox r d : keepsOutbox (MemberRepo_IncrementRoomMemberCount r d).
Proof. apply stmt_keepsOutbox. intros db a db' E. go_cases; done. Qed.
Lemma Invite_keepsOutbox c r t : keepsOutbox (InviteRepo_Create c r t).
Proof. apply stmt_keepsOutbox. intros db a db' E. go_cases; done. Qed.

(** Appending one event. *)
Lemma append_row o e :
  establishes (fun db => dOutbox db = o)
    (fun db => dOutbox db = o ++ [mkOutRow (storedEvent e) false] /\ oeID e ∉ map (fun x => oeID (orEvent x)) o) (OutboxRepo_Append e).
Proof.
  unfold OutboxRepo_Append, Append. simpl. apply establishes_if; [apply establishes_fail|].
  eapply establishes_bind; [|intros _; apply establishes_ret].
  apply establishes_mapErr, establishes_stmt. intros db a db' <- E. unfold insertEvent in E. case_bool_decide; [done|].
  injection E as _ <-. done.
Qed.

Lemma createTx_row sub room o :
  establishes (fun db => dOutbox db = o)
    (fun db => exists e, dOutbox db = o ++ [mkOutRow e false] /\ oeID e ∉ map (fun x => oeID (orEvent x)) o /\
       createdEvent e (rID room) (rOwnerID room)) (createTx sub room).
Proof.
  unfold createTx. eapply establishes_bind; [apply Create_keepsOutbox|intros _]. est_pure.
  eapply establishes_bind; [apply Upsert_keepsOutbox|intros _].
  eapply establishes_bind; [apply Increment_keepsOutbox|intros _].
  eapply establishes_bind; [apply establishes_if; [est_pure; apply Invite_keepsOutbox|apply establishes_ret]|intros _].
  est_pure. eapply establishes_weaken; [apply append_row|intros db Hdb; exact Hdb|]. intros db [Ho Hid]. eexists. split_and!; [exact Ho|exact Hid|].
  split_and!; [done|done|simpl; by case_bool_decide|by do 3 eexists].
Qed.

(** A successful request adds the event of the room it answers with, owned by
    the caller. *)
Lemma CreateRoom_row h req s p s' :
  CreateRoom h req s = (Ok p, s') ->
  exists e, dOutbox (sdb s') = dOutbox (sdb s) ++ [mkOutRow e false] /\
    oeID e ∉ map (fun x => oeID (orEvent x)) (dOutbox (sdb s)) /\
    createdEvent e (prId p) (sbUserID (subjectFromHeader h)).
Proof.
  intros E. unfold CreateRoom in E. apply sbind_Ok in E as ([] & s1 & E1 & E).
  assert (sdb s1 = sdb s) as H1 by (unfold ctxDone in E1; destruct (env_ctx _); by simplify_eq).
  cbv zeta in E. destruct (sbSystemRole _ <? SYSTEM_USER); [done|].
  rewrite run_now, run_id, run_rand in E.
  destruct (NewRoom _ _ _ _ _) as [room|e] eqn:Enew; [|done].
  assert (rOwnerID room = sbUserID (subjectFromHeader h)) as Hown by (unfold NewRoom in Enew; by go_cases).
  apply sbind_Ok in E as ([] & s2 & E2 & E). injection E as <- <-. apply smapErr_Ok in E2.
  apply withTx_cases in E2 as [[_ [e' He']]|(a & s3 & E3 & Ha & Hdb & _)]; [done|].
  destruct (createTx_row (subjectFromHeader h) room (dOutbox (sdb s))) as [_ Hrow].
  pose proof (fun Hp => Hrow _ _ _ Hp E3 Ha) as Hrow1.
  destruct (Hrow1 (f_equal dOutbox H1)) as (e & Ho & Hid & Hc).
  exists e. rewrite Hdb, <- Hown. split_and!; [exact Ho|exact Hid|exact Hc].
Qed.
End creation.

(** ** The live room *)

(** Every channel of the room is as its loop and handlers leave it. *)
Definition wellKept (rs : RoomSync) : Prop := exists live closing, chans_ok live closing rs.

(** The room is not live, or live with no other owner. *)
Definition vacant (s : Svc) (r owner : string) : Prop :=
  forall rs, svRooms s !! r = Some rs -> wellKept rs /\ (OwnerID (state rs) = "" \/ OwnerID (state rs) = owner).

Lemma newRoom_kept scfg wp r st : wellKept (newRoom scfg wp r st).
Proof.
  exists ∅, ∅. unfold newRoom. split; cbn; [done|done|set_solver|by apply map_Forall_empty|by intros ? [? ?]].
Qed.

Lemma adopt_kept (rt : Runtime) o rs : o <> "" -> wellKept rs -> OwnerID (state rs) = "" \/ OwnerID (state rs) = o ->
  exists b rs', AdoptOwnerIfUnset o rs = Some (b, rs') /\ wellKept rs' /\ OwnerID (state rs') = o.
Proof.
  intros Ho (live & closing & Hok) Hown.
  destruct (@exec_other_safe rt live closing (OAdopt o) ltac:(done) rs Hok) as ([] & rs' & E & Hok').
  cbn [exec] in E. unfold discard, pbind at 1 in E. destruct (AdoptOwnerIfUnset o rs) as [[b r1]|] eqn:Ea; [|done].
  injection E as ->. exists b, rs'. split_and!; [done|by exists live, closing|]. rename Ea into E.
  unfold AdoptOwnerIfUnset in E. rewrite bool_decide_false in E by done.
  unfold modState, pmod, pbind at 1 2, pget in E.
  set (rs0 := upd_state _ rs) in E.
  assert (OwnerID (state rs0) = o) as H0 by (clear E; unfold rs0, upd_state; simpl; case_bool_decide; simpl; naive_solver).
  case_bool_decide; [by injection E as <- <-|].
  unfold pbind, modState, pmod, clockNow in E. simpl in E.
  match type of E with context [broadcastUpdateLocked ?r0] => destruct (broadcastUpdateLocked r0) as [[[] rs3]|] eqn:Eb; [|done] end.
  apply broadcastUpdateLocked_state in Eb. injection E as <- <-. by rewrite Eb.
Qed.

(** After the event the room is live and has its owner. *)
Lemma Init_vacant rts scfg wp r o s : o <> "" -> vacant s r o ->
  exists s1 rs1, Init rts scfg wp r o s = Some (tt, s1) /\ svRooms s1 !! r = Some rs1 /\ wellKept rs1 /\
    OwnerID (state rs1) = o /\ (svRooms s !! r = None -> HostID (state rs1) = o) /\
    forall other, other <> r -> svRooms s1 !! other = svRooms s !! other.
Proof.
  intros Ho Hv. unfold Init, pbind at 1, pget. destruct (svRooms s !! r) as [rs|] eqn:Er.
  - destruct (Hv rs Er) as [Hk Hown]. destruct (adopt_kept (rts r) o rs Ho Hk Hown) as (b & rs' & E & Hk' & Ho').
    unfold pbind, runRoom. rewrite Er, E. unfold pskip, pret. eexists _, rs'. split; [reflexivity|]. simpl.
    rewrite lookup_insert_eq. split_and!; try done. intros other Hne. by rewrite lookup_insert_ne.
  - rewrite addRoom_spec. eexists _, _. split; [reflexivity|]. simpl. rewrite lookup_insert_eq.
    split_and!; try done; [apply newRoom_kept|]. intros other Hne. by rewrite lookup_insert_ne.
Qed.

(** The owner of a live room commands it. *)
Lemma owner_commands `{Env} `{!Calm _} `{RoomPermissions} rts scfg wp s rs h req :
  svRooms s !! cqRoomID req = Some rs -> wellKept rs -> cqRoomID req <> "" ->
  sbUserID (subjectFromHeader h) = OwnerID (state rs) -> OwnerID (state rs) <> "" ->
  exists reply s', Command rts scfg wp h req s = Some (Ok reply, s') /\
    (crAccepted reply = true <-> FencingToken (state rs) <= cqFencingToken req).
Proof.
  intros Hr (live & closing & Hok) Hne Hu Ho. unfold Command, svDone, interaction, pbind at 1 2, pret at 1. rewrite calm_ctx.
  rewrite Hu, !bool_decide_false by done. unfold pbind at 1, GetOrCreate, pbind at 1, pget. cbn [svRooms set_svN]. rewrite Hr.
  unfold pskip, pret at 1. unfold authorizeCommand, pbind at 1 2, runRoom, getHostID, pget. cbn [svRooms set_svN]. rewrite Hr.
  unfold pbind at 1, getOwnerID, pget. cbn [svRooms set_svN set_svRooms]. rewrite lookup_insert_eq. cbn [svRooms set_svN set_svRooms].
  rewrite (bool_decide_true (OwnerID (state rs) = OwnerID (state rs))) by done. rewrite orb_true_r. unfold pret at 1.
  unfold pbind at 1. cbn [svRooms set_svN set_svRooms]. rewrite lookup_insert_eq.
  destruct (@safe_applyCommandLocked (rts (cqRoomID req)) live closing (int8 (cqKind req)) (cqSeekToMs req) (cqRate req) (cqMediaID req)
    (cqFencingToken req) rs Hok) as (reply & rs' & E & _).
  unfold ProcessCommandAuthorized. rewrite E. unfold pret. do 2 eexists. split; [reflexivity|].
  pose proof (authorized_room_command rts (cqRoomID req) (int8 (cqKind req)) (cqSeekToMs req) (cqRate req) (cqMediaID req)
    (cqFencingToken req) rs reply rs' E) as Hc.
  destruct (crAccepted reply); [by destruct Hc|]. destruct Hc as [Hc _]. split; [done|lia].
Qed.

(** ** A created room becomes live *)

(** C15. A room that was created is one its owner can control.  When [CreateRoom]
    succeeds, whatever fails, and the relay leads often enough for its backlog,
    the broker gets a message under the room's key; and whenever the consumer of
    the sync service handles that message, with the room not live or live
    without another owner, the room is live afterwards and owned by the caller,
    who is its host if it was not live; every command of the caller is then
    answered, and accepted exactly when its token is not stale. *)
Theorem room_follows `{E : Env} `{RelayEnv} h req s p s' batchSize turns trace n :
  CreateRoom h req s = (Ok p, s') -> sbUserID (subjectFromHeader h) <> "" -> prId p <> "" ->
  ids_unique (dOutbox (sdb s)) -> marks_sent (dOutbox (sdb s)) trace -> works_from n -> Forall calm_turn turns ->
  (S (length (unpublished (dOutbox (sdb s)))) <= batchSize * leaderTurns turns)%nat ->
  exists m0, m0 ∈ rsTrace (RelayRun batchSize turns (mkRelay (dOutbox (sdb s')) trace n)) /\
    omTopic m0 = "room.created.v1" /\ omKey m0 = prId p /\
    forall order m, ranges_over order (omHeaders m0) -> brokered (toKafka order m0) m ->
    forall rts scfg wp svc, vacant svc (prId p) (sbUserID (subjectFromHeader h)) ->
    exists svc1 rs1, handleCreated rts scfg wp (vbkafkaMessageFromKafkaGo m) svc = Some (None, svc1) /\
      svRooms svc1 !! prId p = Some rs1 /\ OwnerID (state rs1) = sbUserID (subjectFromHeader h) /\
      (svRooms svc !! prId p = None -> HostID (state rs1) = sbUserID (subjectFromHeader h)) /\
      (forall other, other <> prId p -> svRooms svc1 !! other = svRooms svc !! other) /\
      forall (cenv : Env) (perms : RoomPermissions) h' req', Calm cenv ->
        subjectFromHeader h' = subjectFromHeader h -> cqRoomID req' = prId p ->
        exists reply svc2, Command rts scfg wp h' req' svc1 = Some (Ok reply, svc2) /\
          (crAccepted reply = true <-> FencingToken (state rs1) <= cqFencingToken req').
Proof.
  intros Hc Hu Hid Huniq Hm Hw Hcalm Hb.
  apply CreateRoom_row in Hc as (e & Hout & Hfresh & Ht & _ & Hk & slug & name & vis & Hdec).
  destruct (staged_published batchSize (dOutbox (sdb s)) e trace turns n) as [t Htr]; [done..|].
  exists (toMessage t e). split; [rewrite Hout; exact Htr|]. split; [exact Ht|]. split.
  { unfold toMessage. simpl. rewrite Hk. by rewrite bool_decide_false. }
  intros order m _ (_ & _ & Hv & _) rts scfg wp svc Hvac.
  destruct (Init_vacant rts scfg wp (prId p) (sbUserID (subjectFromHeader h)) svc Hu Hvac)
    as (svc1 & rs1 & Hinit & Hr1 & Hk1 & Ho1 & Hh1 & Hother).
  exists svc1, rs1. split.
  { unfold handleCreated, RoomCreatedHandler_Handle. simpl. rewrite Hv. simpl. rewrite Hdec. cbn [rcRoomID rcOwnerID].
    rewrite !bool_decide_false by done. cbn [orb]. unfold pbind. by rewrite Hinit. }
  split_and!; [exact Hr1|exact Ho1|exact Hh1|exact Hother|]. intros cenv perms h' req' Hce Hsub Hreq.
  apply (owner_commands rts scfg wp svc1 rs1 h' req'); rewrite ?Hreq, ?Hsub, ?Ho1; done.
Qed.

(** ** A room that is followed *)

Definition createReq : CreateRoomRequest := mkCreateRoom "Movie night" None VisibilityPublic (Some 2).
Definition createdRun := @CreateRoom demoEnv (user "alice") createReq (roomStart 0).
Definition createdRows : list (OutRow Outbox.Payload) := dOutbox (sdb createdRun.2).

Lemma room_follows_witness :
  exists m0 svc1 rs1 reply svc2,
    m0 ∈ rsTrace (@RelayRun _ (worksAfter 0) 10 [TNotLeader; TLeader noLocks] (mkRelay createdRows [] 0)) /\
    handleCreated (fun _ => demoRuntime) demoConfig false (vbkafkaMessageFromKafkaGo (toKafka (map_to_list (omHeaders m0)) m0)) emptySvc
      = Some (None, svc1) /\
    svRooms svc1 !! demoRoomID = Some rs1 /\ HostID (state rs1) = "alice" /\
    @Command demoEnv (@roomServicePermissions demoEnv grantsDB) (fun _ => demoRuntime) demoConfig false (user "alice")
      (mkCmdReq demoRoomID CmdPlay None None "" 0) svc1 = Some (Ok reply, svc2).
Proof.
  destruct createdRun as [r s'] eqn:E.
  assert (match r with Ok p => prId p = demoRoomID | Err _ => False end) as Hr.
  { assert (match createdRun.1 with Ok p => prId p = demoRoomID | Err _ => False end) as Hx by (vm_compute; reflexivity).
    rewrite E in Hx. exact Hx. }
  destruct r as [p|e]; [|destruct Hr]. unfold createdRows. rewrite E. cbn [snd].
  destruct (@room_follows demoEnv (worksAfter 0) (user "alice") createReq (roomStart 0) p s' 10 [TNotLeader; TLeader noLocks] [] 0 E)
    as (m0 & Hin & _ & _ & Hm).
  - discriminate.
  - rewrite Hr. discriminate.
  - constructor.
  - intros x Hx. apply elem_of_nil in Hx. destruct Hx.
  - intros k _. cbn [re_begin re_fetch re_publish re_mark re_commit worksAfter]. rewrite bool_decide_false by lia.
    split_and!; reflexivity.
  - apply Forall_cons. split; [by left|]. apply Forall_cons. split; [by right|]. apply Forall_nil. exact I.
  - simpl. lia.
  - destruct (Hm (map_to_list (omHeaders m0)) (toKafka (map_to_list (omHeaders m0)) m0) (Permutation_refl _)
      (conj eq_refl (conj eq_refl (conj eq_refl eq_refl))) (fun _ => demoRuntime) demoConfig false emptySvc)
      as (svc1 & rs1 & Hh & Hr1 & _ & Hhost & _ & Hcmd); [intros rs Hrs; discriminate Hrs|].
    destruct (Hcmd demoEnv (@roomServicePermissions demoEnv grantsDB) (user "alice") (mkCmdReq demoRoomID CmdPlay None None "" 0) _ eq_refl)
      as (reply & svc2 & Hc & _); [symmetry; exact Hr|].
    rewrite Hr in Hr1. exists m0, svc1, rs1, reply, svc2. split; [exact Hin|]. split; [exact Hh|]. split; [exact Hr1|].
    split; [apply Hhost; reflexivity|exact Hc].
Defined.

(** ** Where the code differs from its documents *)

(** A room materialized before its event arrived, with a checkpoint at epoch 7
    and token 3; then the service restarted. *)
Definition checkpointed : Svc :=
  set_svTable (match SyncStateRepo_Upsert 0 (mkSyncState demoRoomID "m1" StatusPlaying 5000 0 (flit 1 1) 7 "bob" 3 time_zero "") ∅ with
               | Ok t => t | Err _ => ∅ end) emptySvc.

Definition tokenAfter (m : PM Svc unit) : option (Z * Z) :=
  match m checkpointed with
  | Some (_, s) => (fun rs => (Epoch (state rs), FencingToken (state rs))) <$> svRooms s !! demoRoomID
  | None => None
  end.

(** A request resumes the room from its checkpoint; the event, when it arrives
    first, starts it from nothing, and stale commands pass again. *)
Example late_event_forgets :
  tokenAfter (@GetOrCreate demoEnv demoConfig false demoRoomID) = Some (7, 3) /\
  tokenAfter (Init (fun _ => demoRuntime) demoConfig false demoRoomID "alice") = Some (0, 0).
Proof. split; vm_compute; reflexivity. Qed.
