(* ===== verification/Startup.v ===== *)
(** * Starting and stopping a service

    Model of [run] in [apps/*/cmd/*/main.go]: what a service opens, in which
    order, what it closes when it stops, and when.  A run is the trace of its
    effects; a [defer] pushes on a stack that is unwound when [run] returns.
    The outcomes of the steps, the listener and the signals are the
    environment's ([BootEnv]).  The listener's goroutine and the signal are the
    happenings between readiness and shutdown. *)

From stdpp Require Import pretty.
From S2P Require Import Prelude GoNum Errors.

Open Scope Z_scope.

(** ** Effects *)

Inductive resource : Type := RObs | RPool | RRedis | RConsumer | RProducer.
Inductive task : Type := TaskRelay | TaskConsumer (dedupe : bool) | TaskHTTP.

Inductive sys_event : Type :=
| EvOpen (r : resource)
| EvClose (r : resource)
| EvMigrated
| EvSpawn (t : task)
| EvReady
| EvListenFailed (e : error)
| EvSignal
| EvHTTPShutdown
| EvCancel
| EvShutdownCancel.

#[global] Instance resource_eq_dec : EqDecision resource.
Proof. solve_decision. Defined.

(** While the service runs: the listener fails, or a signal arrives. *)
Inductive happening : Type := ListenFails (e : error) | Signal.

Class BootEnv : Type := {
  be_config : option error;
  be_obs : option error;
  be_pool : option error;
  be_migrate : option error;
  be_redis : option error;
  be_brokers : bool;               (* brokers are configured *)
  be_topic : bool;                 (* and a topic to consume *)
  be_masterKey : bool;             (* the environment has a master key *)
  be_generateKey : option error;
  be_keycipher : option error;
  be_signer : option error;
  be_life : list happening;
  be_httpShutdown : option error;  (* logged *)
}.

(** ** The runs *)

Record proc : Type := mkProc { pcTrace : list sys_event; pcDefers : list sys_event }.

(** A step goes on, makes [run] return, or waits for ever. *)
Inductive bres (A : Type) : Type :=
| BOk (a : A)
| BErr (e : error)
| BWaits.
Arguments BOk {A} a.
Arguments BErr {A} e.
Arguments BWaits {A}.

Definition Boot (A : Type) : Type := proc -> bres A * proc.

Definition bret {A} (a : A) : Boot A := fun p => (BOk a, p).
Definition bbind {A B} (m : Boot A) (k : A -> Boot B) : Boot B := fun p =>
  match m p with
  | (BOk a, p') => k a p'
  | (BErr e, p') => (BErr e, p')
  | (BWaits, p') => (BWaits, p')
  end.
Notation "x <-b m ;; k" := (bbind m (fun x => k)) (at level 100, m at next level, right associativity) : boot_scope.
Notation "m ;;b k" := (bbind m (fun _ => k)) (at level 100, right associativity) : boot_scope.
Open Scope boot_scope.

Definition emit (l : list sys_event) : Boot unit := fun p => (BOk tt, mkProc (pcTrace p ++ l) (pcDefers p)).
Definition defer (l : list sys_event) : Boot unit := fun p => (BOk tt, mkProc (pcTrace p) (l ++ pcDefers p)).

(** [if err != nil { return fmt.Errorf("what: %w", err) }]. *)
Definition must (what : string) (err : option error) : Boot unit := fun p =>
  match err with Some e => (BErr (EWrap what e), p) | None => (BOk tt, p) end.

Section runs.
Context `{BootEnv}.

(** Steps 1 to 4 of every [run]; the answer says whether there is a Redis client. *)
Definition openBase : Boot bool :=
  defer [EvCancel] ;;b
  must "config" be_config ;;b
  must "observability" be_obs ;;b
  emit [EvOpen RObs] ;;b
  defer [EvClose RObs] ;;b
  must "postgres" be_pool ;;b
  emit [EvOpen RPool] ;;b
  defer [EvClose RPool] ;;b
  must "migrate" be_migrate ;;b
  emit [EvMigrated] ;;b
  let redis := match be_redis with None => true | Some _ => false end in
  emit (if redis then [EvOpen RRedis] else []) ;;b
  defer (if redis then [EvClose RRedis] else []) ;;b
  bret redis.

(** The producer, and the relay when there is a Redis client too. *)
Definition openProducer (redis : bool) : Boot unit :=
  emit (if be_brokers then [EvOpen RProducer] else []) ;;b
  defer (if be_brokers then [EvClose RProducer] else []) ;;b
  emit (if be_brokers && redis then [EvSpawn TaskRelay] else []).

Definition openConsumer : Boot bool :=
  let consumer := be_brokers && be_topic in
  emit (if consumer then [EvOpen RConsumer] else []) ;;b
  defer (if consumer then [EvClose RConsumer] else []) ;;b
  bret consumer.

Definition spawnConsumer (consumer redis : bool) : Boot unit :=
  emit (if consumer then [EvSpawn (TaskConsumer redis)] else []).

(** [<-sigCh]: the listener's goroutine cancels the context when it fails, which
    nobody here waits for. *)
Fixpoint awaitSignal (life : list happening) : Boot unit :=
  match life with
  | [] => fun p => (BWaits, p)
  | Signal :: _ => emit [EvSignal]
  | ListenFails e :: life => emit [EvListenFailed e; EvCancel] ;;b awaitSignal life
  end.

(** From the HTTP server on; [cancels] is the explicit [cancel()]. *)
Definition serve (cancels : bool) : Boot unit :=
  emit [EvSpawn TaskHTTP; EvReady] ;;b
  awaitSignal be_life ;;b
  defer [EvShutdownCancel] ;;b
  emit [EvHTTPShutdown] ;;b
  emit (if cancels then [EvCancel] else []).

(** The master key, the cipher and the signer of the auth service. *)
Definition openCrypto : Boot unit :=
  must "generate master key" (if be_masterKey then None else be_generateKey) ;;b
  must "keycipher" be_keycipher ;;b
  must "bootstrap signer" be_signer.

Definition run_auth : Boot unit := redis <-b openBase ;; openCrypto ;;b openProducer redis ;;b serve false.
Definition run_room : Boot unit := redis <-b openBase ;; openProducer redis ;;b serve true.
Definition run_media : Boot unit := redis <-b openBase ;; openProducer redis ;;b serve true.
Definition run_sync : Boot unit :=
  redis <-b openBase ;; consumer <-b openConsumer ;; openProducer redis ;;b spawnConsumer consumer redis ;;b serve true.
Definition run_user : Boot unit :=
  redis <-b openBase ;; consumer <-b openConsumer ;; spawnConsumer consumer redis ;;b serve true.
Definition run_playback : Boot unit :=
  redis <-b openBase ;; consumer <-b openConsumer ;; spawnConsumer consumer redis ;;b serve true.
Definition run_provider : Boot unit := openBase ;;b serve true.

(** The process: [None] when it is still running, or the error of [run]; and
    all its effects. *)
Definition process (run : Boot unit) : option (option error) * list sys_event :=
  match run (mkProc [] []) with
  | (BOk _, p) => (Some None, pcTrace p ++ pcDefers p)
  | (BErr e, p) => (Some (Some e), pcTrace p ++ pcDefers p)
  | (BWaits, p) => (None, pcTrace p)
  end.
End runs.

Inductive service : Type := SvcAuth | SvcRoom | SvcMedia | SvcSync | SvcUser | SvcPlayback | SvcProvider.
Definition run `{BootEnv} (s : service) : Boot unit :=
  match s with
  | SvcAuth => run_auth
  | SvcRoom => run_room
  | SvcMedia => run_media
  | SvcSync => run_sync
  | SvcUser => run_user
  | SvcPlayback => run_playback
  | SvcProvider => run_provider
  end.

(** ** Connection strings *)

Record DBConfig : Type := mkDB {
  dbUser : string; dbPassword : string; dbHost : string; dbPort : Z; dbDatabase : string; dbSSLMode : string;
  dbMaxConns : Z;
}.

Definition postgresURL (cfg : DBConfig) : string :=
  "postgres://" +:+ dbUser cfg +:+ ":" +:+ dbPassword cfg +:+ "@" +:+ dbHost cfg +:+ ":" +:+ pretty (dbPort cfg) +:+ "/" +:+
  dbDatabase cfg +:+ "?sslmode=" +:+ dbSSLMode cfg.

(** [strings.Replace(s, old, new, 1)] for a nonempty [old]. *)
Fixpoint replaceFirst (old new s : string) : string :=
  if String.prefix old s then new +:+ String.substring (String.length old) (String.length s - String.length old) s
  else match s with
       | EmptyString => EmptyString
       | String c s => String c (replaceFirst old new s)
       end.
Definition migrateURL (cfg : DBConfig) : string := replaceFirst "postgres://" "pgx5://" (postgresURL cfg).

(** ** What a trace shows *)

Fixpoint opensOf (tr : list sys_event) : list resource :=
  match tr with EvOpen r :: tr => r :: opensOf tr | _ :: tr => opensOf tr | [] => [] end.
Fixpoint closesOf (tr : list sys_event) : list resource :=
  match tr with EvClose r :: tr => r :: closesOf tr | _ :: tr => closesOf tr | [] => [] end.
Fixpoint spawnsOf (tr : list sys_event) : list task :=
  match tr with EvSpawn t :: tr => t :: spawnsOf tr | _ :: tr => spawnsOf tr | [] => [] end.

Definition isReady (e : sys_event) : bool := match e with EvReady => true | _ => false end.
Definition isCancel (e : sys_event) : bool := match e with EvCancel => true | _ => false end.
Definition isMigrated (e : sys_event) : bool := match e with EvMigrated => true | _ => false end.

(** What comes before the first event of a kind. *)
Fixpoint until (f : sys_event -> bool) (tr : list sys_event) : list sys_event :=
  match tr with e :: tr => if f e then [] else e :: until f tr | [] => [] end.
(** And from it on. *)
Fixpoint from (f : sys_event -> bool) (tr : list sys_event) : list sys_event :=
  match tr with e :: l => if f e then tr else from f l | [] => [] end.

(** The happenings up to the signal, if it comes. *)
Fixpoint lifeEvents (life : list happening) : list sys_event :=
  match life with
  | [] => []
  | Signal :: _ => [EvSignal]
  | ListenFails e :: life => EvListenFailed e :: EvCancel :: lifeEvents life
  end.
Definition signalled (life : list happening) : bool := existsb (fun h => match h with Signal => true | _ => false end) life.

Lemma awaitSignal_spec life p :
  awaitSignal life p = (if signalled life then BOk tt else BWaits, mkProc (pcTrace p ++ lifeEvents life) (pcDefers p)).
Proof.
  revert p. induction life as [|[e|] life IH]; intros p; simpl; [by rewrite app_nil_r; destruct p| |done].
  unfold bbind, emit. rewrite IH. simpl. by rewrite <- app_assoc.
Qed.

Lemma lifeEvents_plain life : opensOf (lifeEvents life) = [] /\ closesOf (lifeEvents life) = [] /\ spawnsOf (lifeEvents life) = [].
Proof. induction life as [|[e|] life IH]; simpl; done. Qed.

Lemma until_app_closes f l1 l2 : closesOf l1 = [] -> closesOf (until f l2) = [] -> closesOf (until f (l1 ++ l2)) = [].
Proof.
  induction l1 as [|e l1 IH]; simpl; [done|]. intros H1 H2. destruct (f e); [done|].
  destruct e; simpl in *; try done; auto.
Qed.

Lemma until_life f life l : closesOf (until f l) = [] -> closesOf (until f (lifeEvents life ++ l)) = [].
Proof. apply until_app_closes. by destruct (lifeEvents_plain life) as (_ & ? & _). Qed.
Lemma until_life_nil f life : closesOf (until f (lifeEvents life)) = [].
Proof. rewrite <- (app_nil_r (lifeEvents life)). by apply until_life. Qed.

Lemma from_until f tr : until f tr ++ from f tr = tr.
Proof. induction tr as [|e tr IH]; simpl; [done|]. destruct (f e); [done|]. simpl. by rewrite IH. Qed.

(** Every step whose failure stops the start has succeeded. *)
Definition mandatoryOk `{BootEnv} (s : service) : bool :=
  forallb (fun x : option error => match x with None => true | Some _ => false end)
    ([be_config; be_obs; be_pool; be_migrate] ++
     match s with SvcAuth => [if be_masterKey then None else be_generateKey; be_keycipher; be_signer] | _ => [] end).
Definition hasRelay (s : service) : bool :=
  match s with SvcAuth | SvcRoom | SvcMedia | SvcSync => true | _ => false end.
Definition hasConsumer (s : service) : bool := match s with SvcSync | SvcUser | SvcPlayback => true | _ => false end.

(** The tasks of a service that has started. *)
Definition tasksOf `{BootEnv} (s : service) : list task :=
  let redis := match be_redis with None => true | Some _ => false end in
  (if hasRelay s && be_brokers && redis then [TaskRelay] else []) ++
  (if hasConsumer s && be_brokers && be_topic then [TaskConsumer redis] else []) ++ [TaskHTTP].

(** What holds of a whole run. *)
Record run_sound `{BootEnv} (s : service) (r : option (option error)) (tr : list sys_event) : Prop := {
  rs_result : match r with
              | Some (Some _) => mandatoryOk s = false
              | Some None => mandatoryOk s = true /\ signalled be_life = true
              | None => mandatoryOk s = true /\ signalled be_life = false
              end;
  rs_closed : r <> None -> closesOf tr = rev (opensOf tr) /\ NoDup (opensOf tr);
  rs_ready : existsb isReady tr = mandatoryOk s;
  rs_before : mandatoryOk s = true -> existsb isMigrated (until isReady tr) = true /\ closesOf (until isReady tr) = [] /\
                spawnsOf (until isReady tr) = tasksOf s;
  rs_after : mandatoryOk s = true -> opensOf (from isReady tr) = [] /\ spawnsOf (from isReady tr) = [];
  rs_cancelled : mandatoryOk s = true -> s <> SvcAuth -> closesOf (until isCancel tr) = [];
}.

Lemma opensOf_app a b : opensOf (a ++ b) = opensOf a ++ opensOf b.
Proof. induction a as [|[] a IH]; simpl; by rewrite ?IH. Qed.
Lemma closesOf_app a b : closesOf (a ++ b) = closesOf a ++ closesOf b.
Proof. induction a as [|[] a IH]; simpl; by rewrite ?IH. Qed.
Lemma spawnsOf_app a b : spawnsOf (a ++ b) = spawnsOf a ++ spawnsOf b.
Proof. induction a as [|[] a IH]; simpl; by rewrite ?IH. Qed.

Ltac boot_cases :=
  repeat match goal with
  | |- context [match ?x with Some _ => _ | None => _ end] => is_var x; destruct x
  | |- context [if ?x then _ else _] => is_var x; destruct x
  end.

(** One run of a service: cases on the outcomes of its steps, and on whether a
    signal comes. *)
Ltac run_cases :=
  unfold process, run, run_auth, run_room, run_media, run_sync, run_user, run_playback, run_provider, openBase, openCrypto,
    openProducer, openConsumer, spawnConsumer, serve, bbind, emit, defer, must, bret; cbn;
  boot_cases; cbn; rewrite ?awaitSignal_spec; cbn;
  repeat match goal with |- context [signalled ?l] => destruct (signalled l) eqn:?; cbn end.
(** The parts of the trace beside what happened until the signal. *)
Ltac run_done :=
  split; unfold mandatoryOk, tasksOf; cbn;
  repeat match goal with H : _ (lifeEvents _) = [] |- _ => rewrite ?opensOf_app, ?closesOf_app, ?spawnsOf_app, ?H; cbn; revert H end;
  intros; split_and?; try done; try (apply (bool_decide_unpack _); vm_compute; exact I);
  rewrite <- ?app_assoc; try apply until_life_nil; try (apply until_life; done).

(** C32. Starting and stopping, for every service and whatever fails.  [run] returns
    an error exactly when a mandatory step fails; Redis and Kafka are optional.
    Otherwise the service becomes ready, after the migrations, with everything
    opened and exactly the tasks started that its configuration allows, and runs
    until a signal.  Whenever [run] returns, it has closed what it opened, each
    once, in the opposite order.  Except in the auth service, the context of the
    tasks is cancelled before anything they use is closed. *)
Theorem startup_sound `{BootEnv} s : run_sound s (process (run s)).1 (process (run s)).2.
Proof.
  destruct H as [c o pl mg rd br tp mk gk kc sg life hs]. destruct (lifeEvents_plain life) as (Ho & Hc & Hs).
  destruct s, br, tp; run_cases; run_done.
Qed.

(** The URL of the migrations is that of the pool under the other scheme. *)
Lemma prefix_app a b : String.prefix a (a +:+ b) = true.
Proof. induction a as [|c a IH]; simpl; [by destruct b|]. destruct (Ascii.ascii_dec c c); [exact IH|congruence]. Qed.
Lemma substring_all s : String.substring 0 (String.length s) s = s.
Proof. induction s as [|c s IH]; simpl; [done|]. by rewrite IH. Qed.
Lemma substring_app a b : String.substring (String.length a) (String.length (a +:+ b) - String.length a) (a +:+ b) = b.
Proof. induction a as [|c a IH]; [|exact IH]. change ("" +:+ b) with b. cbn. rewrite Nat.sub_0_r. apply substring_all. Qed.
Lemma replaceFirst_prefix old new rest : replaceFirst old new (old +:+ rest) = new +:+ rest.
Proof.
  pose proof (prefix_app old rest) as Hp. pose proof (substring_app old rest) as Hs.
  destruct (old +:+ rest); cbn [replaceFirst]; by rewrite Hp, Hs.
Qed.
Lemma migrateURL_scheme cfg : exists rest, postgresURL cfg = "postgres://" +:+ rest /\ migrateURL cfg = "pgx5://" +:+ rest.
Proof. eexists. split; [reflexivity|]. apply replaceFirst_prefix. Qed.

(** ** Where the code differs from what it means to do *)

(** A world where everything works. *)
Definition fineBoot (life : list happening) : BootEnv := {|
  be_config := None; be_obs := None; be_pool := None; be_migrate := None; be_redis := None; be_brokers := true; be_topic := true;
  be_masterKey := true; be_generateKey := None; be_keycipher := None; be_signer := None; be_life := life; be_httpShutdown := None;
|}.

(** The auth service has no explicit [cancel()]: the deferred one runs last, so
    the relay runs on while its producer, lock server and pool are closed. *)
Example auth_closes_before_cancel :
  closesOf (until isCancel (process (@run (fineBoot [Signal]) SvcAuth)).2) = [RProducer; RRedis; RPool; RObs] /\
  TaskRelay ∈ spawnsOf (until isReady (process (@run (fineBoot [Signal]) SvcAuth)).2).
Proof. split; [by vm_compute|]. vm_compute. apply elem_of_cons. by left. Qed.

(** A listener that fails (the address is in use) stops the background tasks,
    but the process neither serves nor ends. *)
Example listener_failure_hangs s :
  (process (@run (fineBoot [ListenFails (EMsg "address already in use")]) s)).1 = None.
Proof. by destruct s. Qed.

(** The parts of the connection string are not escaped: a password with an [@]
    names another host. *)
Example password_unescaped :
  postgresURL (mkDB "vb" "p@evil" "db" 5432 "rooms" "disable" 10) = postgresURL (mkDB "vb" "p" "evil@db" 5432 "rooms" "disable" 10).
Proof. by vm_compute. Qed.
