(* ===== verification/Observability.v ===== *)
(** * Logs and telemetry

    Model of [libs/log/log.go], [libs/telemetry/telemetry.go] and
    [libs/observability/observability.go]: what the logger of a service is built
    of, the providers [Start] registers and in which order, and their shutdown.
    The SDK's constructors are parameters that may fail ([Sdk]). *)

From S2P Require Import Prelude GoNum GoFloat GoString GoUnicode Errors.

Open Scope Z_scope.

(** ** Logs *)

Definition LevelDebug : Z := -4.
Definition LevelInfo : Z := 0.
Definition LevelWarn : Z := 4.
Definition LevelError : Z := 8.

Definition FormatJSON : string := "json".
Definition FormatConsole : string := "console".

Record LogOptions : Type := mkLogOptions { loFormat : string; loLevel : Z; loService : string; loVersion : string }.

(** A handler: text or JSON, the lowest level it lets through, its attributes. *)
Record handler : Type := mkHandler { hText : bool; hLevel : Z; hAttrs : list (string * string) }.

Section log.
Context `{UnicodeLower}.

Definition normalizeFormat (f : string) : string :=
  if bool_decide (ToLower f = FormatConsole) then FormatConsole else FormatJSON.

Definition ParseLevel (s : string) : Z :=
  let l := ToLower s in
  if bool_decide (l = "debug") then LevelDebug
  else if bool_decide (l = "warn" \/ l = "warning") then LevelWarn
  else if bool_decide (l = "error") then LevelError
  else LevelInfo.

Definition buildHandler (opts : LogOptions) : handler :=
  let level := if loLevel opts =? 0 then LevelInfo else loLevel opts in
  let attrs := if bool_decide (loService opts = "") then [] else [("service", loService opts)] in
  let attrs := attrs ++ (if bool_decide (loVersion opts = "") then [] else [("version", loVersion opts)]) in
  mkHandler (bool_decide (normalizeFormat (loFormat opts) = FormatConsole)) level attrs.

(** [Enabled]: whether a record of the level is written. *)
Definition enabled (h : handler) (level : Z) : bool := hLevel h <=? level.
End log.

(** The context: a logger, and the span if it is valid. *)
Record logCtx : Type := mkLogCtx { lcLogger : option handler; lcSpan : option (string * string) }.

Definition traceCorrelate (ctx : logCtx) (l : handler) : handler :=
  match lcSpan ctx with
  | None => l
  | Some (trace, span) => mkHandler (hText l) (hLevel l) (hAttrs l ++ [("trace_id", trace); ("span_id", span)])
  end.

Definition WithLogger (ctx : logCtx) (l : option handler) : logCtx := mkLogCtx l (lcSpan ctx).

(** [slog.Default()] is an argument. *)
Definition LogFrom (dflt : handler) (ctx : logCtx) : handler :=
  match lcLogger ctx with
  | Some l => traceCorrelate ctx l
  | None => traceCorrelate ctx dflt
  end.

(** ** Telemetry *)

Record TelOptions : Type := mkTelOptions {
  toServiceName : string; toServiceVersion : string; toOTLPEndpoint : string; toSampleRatio : float64;
  toShutdownTimeout : duration;
}.

Class Sdk : Type := {
  sdkResource : option error;
  sdkTraceExporter : string -> option error;
  sdkMetricExporter : string -> option error;
  sdkTracerShutdown : option error;
  sdkMeterShutdown : option error;
}.

(** What the package does to the process. *)
Inductive telEvent : Type :=
| TelPropagator
| TelTracer (service version endpoint : string) (ratio : float64)   (* built and registered *)
| TelMeter (endpoint : string)
| TelTracerShutdown
| TelMeterShutdown.

Record Telemetry : Type := mkTelemetry { tpSet : bool; mpSet : bool }.

Definition orDefault (s def : string) : string := if bool_decide (s = "") then def else s.

Definition telDefaults (opts : TelOptions) : TelOptions :=
  mkTelOptions (toServiceName opts) (toServiceVersion opts)
    (if bool_decide (toOTLPEndpoint opts = "") then "localhost:4317" else toOTLPEndpoint opts)
    (if fle (toSampleRatio opts) fzero then flit 1 1 else toSampleRatio opts)
    (if toShutdownTimeout opts <=? 0 then 10 * Second else toShutdownTimeout opts).

Section telemetry.
Context `{Sdk}.

Definition TelStart (opts : TelOptions) : res error Telemetry * list telEvent :=
  if bool_decide (toServiceName opts = "") then (Err (EMsg "telemetry: ServiceName is required"), [])
  else
    let opts := telDefaults opts in
    match sdkResource with
    | Some e => (Err (EWrap "telemetry: build resource" e), [])
    | None =>
        let tr := [TelPropagator] in
        match sdkTraceExporter (toOTLPEndpoint opts) with
        | Some e => (Err (EWrap "telemetry: trace exporter" e), tr)
        | None =>
            let tr := tr ++ [TelTracer (toServiceName opts) (orDefault (toServiceVersion opts) "0.0.0-dev")
                               (toOTLPEndpoint opts) (toSampleRatio opts)] in
            match sdkMetricExporter (toOTLPEndpoint opts) with
            | Some e => (Err (EWrap "telemetry: metric exporter" e), tr)
            | None => (Ok (mkTelemetry true true), tr ++ [TelMeter (toOTLPEndpoint opts)])
            end
        end
    end.

(** [errors.Join]: the errors that are not nil. *)
Definition TelShutdown (t : Telemetry) : list error * list telEvent :=
  let part (set : bool) what (err : option error) ev :=
    if set then (match err with Some e => [EWrap what e] | None => [] end, [ev]) else ([], []) in
  let '(e1, tr1) := part (tpSet t) "tracer" sdkTracerShutdown TelTracerShutdown in
  let '(e2, tr2) := part (mpSet t) "meter" sdkMeterShutdown TelMeterShutdown in
  (e1 ++ e2, tr1 ++ tr2).

(** ** Both *)

Record ObsOptions : Type := mkObsOptions {
  ooService : string; ooVersion : string; ooLogLevel : string; ooLogFormat : string; ooOTLPEndpoint : string;
  ooSampleRatio : float64;
}.

Record Handle : Type := mkHandle { hdTelemetry : option Telemetry; hdLogger : handler }.

Definition ObsStart `{UnicodeLower} (opts : ObsOptions) : res error Handle * list telEvent :=
  let logger := buildHandler (mkLogOptions (ooLogFormat opts) (ParseLevel (ooLogLevel opts)) (ooService opts) (ooVersion opts)) in
  let '(r, tr) := TelStart (mkTelOptions (ooService opts) (ooVersion opts) (ooOTLPEndpoint opts) (ooSampleRatio opts) 0) in
  (match r with Err e => Err e | Ok tel => Ok (mkHandle (Some tel) logger) end, tr).

(** On a nil handle, and on one without telemetry, nothing happens. *)
Definition ObsShutdown (h : option Handle) : list telEvent :=
  match h with
  | Some h => match hdTelemetry h with Some t => (TelShutdown t).2 | None => [] end
  | None => []
  end.
End telemetry.

(** ** What a service gets *)

(** A provider that is registered and not shut down. *)
Definition liveTracer (tr : list telEvent) : bool :=
  fold_left (fun live ev => match ev with TelTracer _ _ _ _ => true | TelTracerShutdown => false | _ => live end) tr false.
Definition liveMeter (tr : list telEvent) : bool :=
  fold_left (fun live ev => match ev with TelMeter _ => true | TelMeterShutdown => false | _ => live end) tr false.

(** A service that starts has both providers, and its shutdown stops both even
    when the first fails to; a service that fails to start has no meter.  Its
    logger lets through the levels from the configured one up, an unknown one
    being info, and every record carries the name of the service. *)
Theorem telemetry_sound `{UnicodeLower} `{Sdk} opts :
  match ObsStart opts with
  | (Ok h, tr) =>
      liveTracer tr = true /\ liveMeter tr = true /\
      liveTracer (tr ++ ObsShutdown (Some h)) = false /\ liveMeter (tr ++ ObsShutdown (Some h)) = false /\
      hLevel (hdLogger h) = ParseLevel (ooLogLevel opts) /\
      (forall level, enabled (hdLogger h) level = (ParseLevel (ooLogLevel opts) <=? level)) /\
      enabled (hdLogger h) LevelError = true /\
      head (hAttrs (hdLogger h)) = Some ("service", ooService opts)
  | (Err e, tr) =>
      (ooService opts = "" \/ sdkResource <> None \/ exists endpoint, sdkTraceExporter endpoint <> None \/ sdkMetricExporter endpoint <> None) /\
      liveMeter tr = false
  end.
Proof.
  unfold ObsStart, TelStart. cbn [toServiceName]. destruct (bool_decide_reflect (ooService opts = "")) as [|Hs]; [by split; [left|]|].
  set (o := telDefaults _). destruct sdkResource; [by split; [right; left|]|].
  destruct (sdkTraceExporter (toOTLPEndpoint o)) eqn:Et.
  { split; [|done]. do 2 right. exists (toOTLPEndpoint o). left. by rewrite Et. }
  destruct (sdkMetricExporter (toOTLPEndpoint o)) eqn:Em.
  { split; [|done]. do 2 right. exists (toOTLPEndpoint o). right. by rewrite Em. }
  assert (Hl : hLevel (buildHandler (mkLogOptions (ooLogFormat opts) (ParseLevel (ooLogLevel opts)) (ooService opts) (ooVersion opts)))
    = ParseLevel (ooLogLevel opts)).
  { simpl. by destruct (ParseLevel (ooLogLevel opts) =? 0) eqn:E; [apply Z.eqb_eq in E as ->|]. }
  split_and!; try done.
  - intros level. unfold enabled. cbn [hdLogger]. by rewrite Hl.
  - unfold enabled. cbn [hdLogger]. rewrite Hl. unfold ParseLevel. by repeat case_bool_decide.
  - simpl. by rewrite bool_decide_eq_false_2.
Qed.

(** The documents say a missing endpoint turns the exporters off; it is replaced
    by the local one. *)
Example no_endpoint_exports :
  toOTLPEndpoint (telDefaults (mkTelOptions "auth-service" "" "" (flit 1 1) 0)) = "localhost:4317".
Proof. reflexivity. Qed.

(** A ratio of zero samples everything. *)
Example zero_ratio_samples_all :
  toSampleRatio (telDefaults (mkTelOptions "auth-service" "" "" fzero 0)) = flit 1 1.
Proof. reflexivity. Qed.

(** When the second exporter fails, the first provider stays registered and the
    caller has no handle to stop it. *)
Example tracer_left_running `{UnicodeLower} :
  let S := Build_Sdk None (fun _ => None) (fun _ => Some (EMsg "refused")) None None in
  let '(r, tr) := @ObsStart S _ (mkObsOptions "auth-service" "dev" "info" "json" "" (flit 1 1)) in
  is_Ok r = false /\ liveTracer tr = true.
Proof. split; reflexivity. Qed.
