(* ===== verification/Config.v ===== *)
(** * Configuration

    Model of [libs/config/config.go] (the loader and its layers), of
    [internal/config/config.go] of the seven services (their defaults and the
    shape of their configuration) and of [loadConfig] in their [main.go].

    Viper, the file system and the environment are parameters: [Viper] has the
    calls the loader makes and [ViperLaws] what their documentation says, on the
    layers a Viper instance holds; [Decoder] is the conversion of a setting to
    the type of a field.  Settings are maps by dotted key. *)

From Stdlib Require Import Ascii.
From S2P Require Import Prelude GoNum GoFloat GoString Errors RoomSync Startup.

Open Scope Z_scope.

(** ** Settings, the environment and the files *)

Inductive cfgval : Type :=
| CStr (s : string)
| CInt (z : Z)
| CBool (b : bool)
| CFloat (f : float64)
| CStrs (l : list string).

Abbreviation Settings := (gmap string cfgval).

(** The errors of reading: Viper's [ConfigFileNotFoundError], [*os.PathError],
    any other, and [fmt.Errorf("what: %w", err)]. *)
Inductive cfgerr : Type :=
| CfgNotFound (msg : string)
| CfgPath (msg : string)
| CfgOther (msg : string)
| CfgWrap (what : string) (e : cfgerr).

Fixpoint cfgErrText (e : cfgerr) : string :=
  match e with
  | CfgNotFound msg | CfgPath msg | CfgOther msg => msg
  | CfgWrap what e => what +:+ ": " +:+ cfgErrText e
  end.

Class Process : Type := {
  getenv : string -> string;
  (** What a directory has under a name: nothing, a file, or one that fails. *)
  readYAML : string -> string -> option (res cfgerr Settings);
}.

(** [strings.Contains]. *)
Definition contains (s sub : string) : bool :=
  match String.index 0 sub s with Some _ => true | None => false end.

Fixpoint isCfgType (e : cfgerr) : bool :=
  match e with CfgNotFound _ | CfgPath _ => true | CfgOther _ => false | CfgWrap _ e => isCfgType e end.

Definition isNotFound (e : cfgerr) : bool :=
  isCfgType e || contains (cfgErrText e) "Not Found" || contains (cfgErrText e) "no such file or directory".

(** ** Viper *)

Record layers : Type := mkLayers {
  lyPrefix : string;
  lyReplacer : string -> string;
  lyAuto : bool;
  lyDefaults : Settings;
  lyConfig : Settings;
  lyOverrides : Settings;
  lyName : string;
  lyPaths : list string;
}.

Definition upperByte (c : Ascii.ascii) : Ascii.ascii :=
  let n := Ascii.nat_of_ascii c in
  if (97 <=? n)%nat && (n <=? 122)%nat then Ascii.ascii_of_nat (n - 32) else c.

Fixpoint mapString (f : Ascii.ascii -> Ascii.ascii) (s : string) : string :=
  match s with EmptyString => EmptyString | String c s => String (f c) (mapString f s) end.

(** The variable a key is read from. *)
Definition envName (prefix : string) (replacer : string -> string) (k : string) : string :=
  replacer (mapString upperByte (prefix +:+ "_" +:+ k)).

Definition orElse {A} (a b : option A) : option A := match a with Some x => Some x | None => b end.

(** [ReadInConfig] reads the first directory that has the file. *)
Definition firstFile `{Process} (paths : list string) (name : string) : option (res cfgerr Settings) :=
  foldr (fun dir rest => orElse (readYAML dir name) rest) None paths.

Section layers.
Context `{Process}.

Definition fromEnv (ly : layers) (k : string) : option cfgval :=
  if lyAuto ly then
    let s := getenv (envName (lyPrefix ly) (lyReplacer ly) k) in
    if bool_decide (s = "") then None else Some (CStr s)
  else None.

(** Explicit values, the environment, the configuration, the defaults. *)
Definition layered (ly : layers) (k : string) : option cfgval :=
  orElse (lyOverrides ly !! k) (orElse (fromEnv ly k) (orElse (lyConfig ly !! k) (lyDefaults ly !! k))).

(** The keys of which something is known beside the environment. *)
Definition knownKey (ly : layers) (k : string) : bool :=
  match orElse (lyOverrides ly !! k) (orElse (lyConfig ly !! k) (lyDefaults ly !! k)) with
  | Some _ => true
  | None => false
  end.
End layers.

Class Viper : Type := {
  vp : Type;
  vpNew : vp;
  vpSetEnvPrefix : string -> vp -> vp;
  vpSetEnvKeyReplacer : (string -> string) -> vp -> vp;
  vpAutomaticEnv : vp -> vp;
  vpSetDefault : string -> cfgval -> vp -> vp;
  vpSetConfigName : string -> vp -> vp;
  vpSetConfigType : string -> vp -> vp;
  vpAddConfigPath : string -> vp -> vp;
  vpReadInConfig : vp -> option cfgerr * vp;
  vpAllSettings : vp -> Settings;
  vpMergeConfigMap : Settings -> vp -> option cfgerr * vp;
  vpSet : string -> cfgval -> vp -> vp;
}.

(** What the documentation says of the calls, by the layers an instance holds.
    An instance that reads YAML finds files by [firstFile]; merging may fail. *)
Class ViperLaws `{Process} (V : Viper) : Type := {
  view : vp -> layers;
  new_view : view vpNew = mkLayers "" id false ∅ ∅ ∅ "" [];
  prefix_view p v : view (vpSetEnvPrefix p v) =
    let l := view v in mkLayers p (lyReplacer l) (lyAuto l) (lyDefaults l) (lyConfig l) (lyOverrides l) (lyName l) (lyPaths l);
  replacer_view f v : view (vpSetEnvKeyReplacer f v) =
    let l := view v in mkLayers (lyPrefix l) f (lyAuto l) (lyDefaults l) (lyConfig l) (lyOverrides l) (lyName l) (lyPaths l);
  auto_view v : view (vpAutomaticEnv v) =
    let l := view v in mkLayers (lyPrefix l) (lyReplacer l) true (lyDefaults l) (lyConfig l) (lyOverrides l) (lyName l) (lyPaths l);
  default_view k x v : view (vpSetDefault k x v) =
    let l := view v in
    mkLayers (lyPrefix l) (lyReplacer l) (lyAuto l) (<[k := x]> (lyDefaults l)) (lyConfig l) (lyOverrides l) (lyName l) (lyPaths l);
  name_view n v : view (vpSetConfigName n v) =
    let l := view v in mkLayers (lyPrefix l) (lyReplacer l) (lyAuto l) (lyDefaults l) (lyConfig l) (lyOverrides l) n (lyPaths l);
  type_view t v : view (vpSetConfigType t v) = view v;
  path_view d v : view (vpAddConfigPath d v) =
    let l := view v in
    mkLayers (lyPrefix l) (lyReplacer l) (lyAuto l) (lyDefaults l) (lyConfig l) (lyOverrides l) (lyName l) (lyPaths l ++ [d]);
  set_view k x v : view (vpSet k x v) =
    let l := view v in
    mkLayers (lyPrefix l) (lyReplacer l) (lyAuto l) (lyDefaults l) (lyConfig l) (<[k := x]> (lyOverrides l)) (lyName l) (lyPaths l);
  read_view v :
    match firstFile (lyPaths (view v)) (lyName (view v)) with
    | Some (Ok m) => (vpReadInConfig v).1 = None /\
        view (vpReadInConfig v).2 =
          let l := view v in
          mkLayers (lyPrefix l) (lyReplacer l) (lyAuto l) (lyDefaults l) m (lyOverrides l) (lyName l) (lyPaths l)
    | Some (Err e) => (vpReadInConfig v).1 = Some e /\ view (vpReadInConfig v).2 = view v
    | None => (exists msg, (vpReadInConfig v).1 = Some (CfgNotFound msg)) /\ view (vpReadInConfig v).2 = view v
    end;
  merge_view m v : (vpMergeConfigMap m v).1 = None ->
    view (vpMergeConfigMap m v).2 =
      let l := view v in
      mkLayers (lyPrefix l) (lyReplacer l) (lyAuto l) (lyDefaults l) (m ∪ lyConfig l) (lyOverrides l) (lyName l) (lyPaths l);
  all_view v k : vpAllSettings v !! k = if knownKey (view v) k then layered (view v) k else None;
}.

(** ** The loader *)

Record Options : Type := mkOptions {
  optService : string;
  optEnv : string;
  optConfigDirs : list string;
  optDefaults : list (string * cfgval);   (* maps, in the order of a range *)
  optOverrides : list (string * cfgval);
}.

Definition EnvLocal : string := "local".
Definition EnvDev : string := "dev".
Definition EnvProd : string := "prod".

Definition NewLoader (opts : Options) : Options :=
  mkOptions (if bool_decide (optService opts = "") then "vibesync" else optService opts)
    (if bool_decide (optEnv opts = "") then EnvLocal else optEnv opts)
    (optConfigDirs opts) (optDefaults opts) (optOverrides opts).

Definition searchDirs (opts : Options) : list string := ["./config"; "/etc/vibesync"] ++ optConfigDirs opts.

(** [strings.NewReplacer(".", "_", "-", "_")]. *)
Definition keyReplacer : string -> string :=
  mapString (fun c => if (Ascii.eqb c "." || Ascii.eqb c "-")%char then "_"%char else c).

Section loader.
Context `{Process} `{V : Viper}.

Definition setDefaults (l : list (string * cfgval)) (v : vp) : vp := fold_left (fun v kx => vpSetDefault kx.1 kx.2 v) l v.
Definition setOverrides (l : list (string * cfgval)) (v : vp) : vp := fold_left (fun v kx => vpSet kx.1 kx.2 v) l v.
Definition addPaths (l : list string) (v : vp) : vp := fold_left (fun v d => vpAddConfigPath d v) l v.

(** The overlay, merged over what the base file set, and the overrides. *)
Definition loadOverlay (opts : Options) (v : vp) : res cfgerr vp :=
  let overlay := vpSetConfigType "yaml" (vpSetConfigName (optService opts +:+ "." +:+ optEnv opts) vpNew) in
  let '(err, overlay) := vpReadInConfig (addPaths (searchDirs opts) overlay) in
  let finish v := Ok (setOverrides (optOverrides opts) v) in
  match err with
  | None =>
      let '(err, v) := vpMergeConfigMap (vpAllSettings overlay) v in
      match err with
      | Some e => Err (CfgWrap ("config: merge " +:+ optEnv opts +:+ " overlay") e)
      | None => finish v
      end
  | Some e => if isNotFound e then finish v else Err (CfgWrap ("config: read " +:+ optEnv opts +:+ " overlay") e)
  end.

Definition Load (opts : Options) : res cfgerr vp :=
  let v := vpAutomaticEnv (vpSetEnvKeyReplacer keyReplacer (vpSetEnvPrefix "VB" vpNew)) in
  let v := setDefaults (optDefaults opts) v in
  let v := vpSetConfigType "yaml" (vpSetConfigName (optService opts) v) in
  let v := addPaths (searchDirs opts) v in
  let '(err, v) := vpReadInConfig v in
  match err with
  | Some e => if isNotFound e then loadOverlay opts v else Err (CfgWrap "config: read base" e)
  | None => loadOverlay opts v
  end.

(** [None] is a panic. *)
Definition MustLoad (opts : Options) : option vp := match Load opts with Ok v => Some v | Err _ => None end.
End loader.

(** ** What a service finds under a key *)

Section spec.
Context `{Process}.

Definition baseFile (opts : Options) := firstFile (searchDirs opts) (optService opts).
Definition overlayFile (opts : Options) := firstFile (searchDirs opts) (optService opts +:+ "." +:+ optEnv opts).

(** A file that cannot be read, and is not taken for a missing one. *)
Definition broken (f : option (res cfgerr Settings)) : bool :=
  match f with Some (Err e) => negb (isNotFound e) | _ => false end.
Definition fileSettings (f : option (res cfgerr Settings)) : Settings :=
  match f with Some (Ok m) => m | _ => ∅ end.

Definition loadedLayers (opts : Options) : layers :=
  mkLayers "VB" keyReplacer true (list_to_map (optDefaults opts))
    (fileSettings (overlayFile opts) ∪ fileSettings (baseFile opts)) (list_to_map (optOverrides opts))
    (optService opts) (searchDirs opts).
End spec.
#[global] Arguments firstFile : simpl never.
#[global] Arguments searchDirs : simpl never.

Section load.
Context `{Process} {V : Viper} `{!ViperLaws V}.

Lemma list_to_map_insert (l : list (string * cfgval)) k x (m : Settings) : k ∉ l.*1 ->
  list_to_map l ∪ <[k := x]> m = <[k := x]> (list_to_map l : Settings) ∪ m.
Proof.
  intros Hk. etrans; [symmetry; apply insert_union_r|apply insert_union_l].
  by apply not_elem_of_list_to_map.
Qed.

Lemma setDefaults_view l v : NoDup l.*1 ->
  view (setDefaults l v) =
    let ly := view v in
    mkLayers (lyPrefix ly) (lyReplacer ly) (lyAuto ly) (list_to_map l ∪ lyDefaults ly) (lyConfig ly) (lyOverrides ly)
      (lyName ly) (lyPaths ly).
Proof.
  revert v. induction l as [|[k x] l IH]; intros v Hl.
  - simpl. rewrite (left_id_L ∅ _). by destruct (view v).
  - apply NoDup_cons in Hl as [Hk Hl]. unfold setDefaults in *. simpl. rewrite IH by done. rewrite default_view. simpl. f_equal.
    by apply list_to_map_insert.
Qed.

Lemma setOverrides_view l v : NoDup l.*1 ->
  view (setOverrides l v) =
    let ly := view v in
    mkLayers (lyPrefix ly) (lyReplacer ly) (lyAuto ly) (lyDefaults ly) (lyConfig ly) (list_to_map l ∪ lyOverrides ly)
      (lyName ly) (lyPaths ly).
Proof.
  revert v. induction l as [|[k x] l IH]; intros v Hl.
  - simpl. rewrite (left_id_L ∅ _). by destruct (view v).
  - apply NoDup_cons in Hl as [Hk Hl]. unfold setOverrides in *. simpl. rewrite IH by done. rewrite set_view. simpl. f_equal.
    by apply list_to_map_insert.
Qed.

Lemma addPaths_view l v :
  view (addPaths l v) =
    let ly := view v in
    mkLayers (lyPrefix ly) (lyReplacer ly) (lyAuto ly) (lyDefaults ly) (lyConfig ly) (lyOverrides ly) (lyName ly) (lyPaths ly ++ l).
Proof.
  revert v. induction l as [|d l IH]; intros v; unfold addPaths in *; simpl.
  - rewrite app_nil_r. by destruct (view v).
  - rewrite IH, path_view. simpl. by rewrite <- app_assoc.
Qed.

(** Reading a file: what the instance then holds, or an error that is not
    taken for a missing file. *)
Lemma read_spec v err v' : vpReadInConfig v = (err, v') ->
  let r := firstFile (lyPaths (view v)) (lyName (view v)) in
  if broken r then exists e, err = Some e /\ isNotFound e = false
  else
    (err = None /\ (exists m, r = Some (Ok m)) \/ (exists e, err = Some e /\ isNotFound e = true) /\ fileSettings r = ∅) /\
    view v' = let l := view v in
      mkLayers (lyPrefix l) (lyReplacer l) (lyAuto l) (lyDefaults l)
        (match r with Some (Ok m) => m | _ => lyConfig l end) (lyOverrides l) (lyName l) (lyPaths l).
Proof.
  intros E. pose proof (read_view v) as Hr. rewrite E in Hr. simpl in *.
  destruct (firstFile _ _) as [[m|e]|]; simpl in *.
  - destruct Hr as [-> ->]. split; [left; eauto|done].
  - destruct Hr as [-> ->]. destruct (isNotFound e) eqn:He; simpl; [|by eauto].
    split; [right; eauto|]. by destruct (view v).
  - destruct Hr as [[msg ->] ->]. split; [right; split; [by eexists|done]|]. by destruct (view v).
Qed.

(** The settings of an instance that has a configuration and nothing else. *)
Lemma fileOnly_settings v p r m n ps : view v = mkLayers p r false ∅ m ∅ n ps -> vpAllSettings v = m.
Proof.
  intros Hv. apply map_eq. intros k. rewrite all_view, Hv. unfold knownKey, layered, fromEnv. simpl.
  rewrite !lookup_empty. simpl. by destruct (m !! k).
Qed.

Definition mergeFails : Prop := exists m v, (vpMergeConfigMap m v).1 <> None.

Lemma loadOverlay_spec opts v ly :
  NoDup (optOverrides opts).*1 -> view v = ly -> lyOverrides ly = ∅ ->
  match loadOverlay opts v with
  | Ok v' => broken (overlayFile opts) = false /\
      view v' = mkLayers (lyPrefix ly) (lyReplacer ly) (lyAuto ly) (lyDefaults ly)
        (fileSettings (overlayFile opts) ∪ lyConfig ly) (list_to_map (optOverrides opts)) (lyName ly) (lyPaths ly)
  | Err _ => broken (overlayFile opts) = true \/ mergeFails
  end.
Proof.
  intros Hov Hv Hempty. unfold loadOverlay.
  destruct (vpReadInConfig _) as [err ov] eqn:Er. apply read_spec in Er. revert Er.
  rewrite addPaths_view, type_view, name_view, new_view. simpl. fold (overlayFile opts).
  assert (Hfin : forall v', view v' = mkLayers (lyPrefix ly) (lyReplacer ly) (lyAuto ly) (lyDefaults ly)
      (fileSettings (overlayFile opts) ∪ lyConfig ly) ∅ (lyName ly) (lyPaths ly) ->
    view (setOverrides (optOverrides opts) v') = mkLayers (lyPrefix ly) (lyReplacer ly) (lyAuto ly) (lyDefaults ly)
      (fileSettings (overlayFile opts) ∪ lyConfig ly) (list_to_map (optOverrides opts)) (lyName ly) (lyPaths ly)).
  { intros v' Hv'. rewrite setOverrides_view by done. rewrite Hv'. simpl. f_equal. apply (right_id_L ∅ (∪)). }
  destruct (broken (overlayFile opts)).
  { intros (e & -> & ->). by left. }
  intros [[[-> [m Em]]|[(e & -> & ->) Em]] Hov'].
  - rewrite Em in *. simpl in *. rewrite (fileOnly_settings _ _ _ _ _ _ Hov').
    pose proof (merge_view m v) as Hm. destruct (vpMergeConfigMap m v) as [[e|] v'] eqn:Emm; simpl in *.
    + right. exists m, v. by rewrite Emm.
    + split; [done|]. apply Hfin. rewrite Hm, Hv by done. simpl. by rewrite Hempty.
  - split; [done|]. apply Hfin. rewrite Hv, Em, (left_id_L ∅ (∪)), <- Hempty. by destruct ly.
Qed.

(** The layers of what is loaded: a load succeeds exactly when no file is broken
    (merging aside), and then a key has the explicit value, else that of its
    variable, else that of the overlay, else that of the base file, else its
    default; keys that only a variable sets are not there. *)
Lemma Load_spec opts :
  NoDup (optDefaults opts).*1 -> NoDup (optOverrides opts).*1 ->
  match Load opts with
  | Ok v =>
      broken (baseFile opts) = false /\ broken (overlayFile opts) = false /\
      forall k, vpAllSettings v !! k =
        if knownKey (loadedLayers opts) k then layered (loadedLayers opts) k else None
  | Err _ => broken (baseFile opts) = true \/ broken (overlayFile opts) = true \/ mergeFails
  end.
Proof.
  intros Hd Ho. unfold Load. destruct (vpReadInConfig _) as [err v] eqn:Er. apply read_spec in Er. revert Er.
  rewrite addPaths_view, type_view, name_view, setDefaults_view by done.
  rewrite auto_view, replacer_view, prefix_view, new_view. simpl. fold (baseFile opts).
  rewrite (right_id_L ∅ (∪)).
  destruct (broken (baseFile opts)). { intros (e & -> & ->). by left. }
  intros [Herr Hv]. assert (Hload : match loadOverlay opts v with
    | Ok v' => broken (overlayFile opts) = false /\ view v' = loadedLayers opts
    | Err _ => broken (overlayFile opts) = true \/ mergeFails end).
  { pose proof (loadOverlay_spec opts v _ Ho Hv eq_refl) as Hl. simpl in Hl.
    destruct (loadOverlay opts v); [|done]. destruct Hl as [Hb ->]. split; [done|].
    unfold loadedLayers. by destruct (baseFile opts) as [[]|]. }
  assert (E : match err with
    | Some e => if isNotFound e then loadOverlay opts v else Err (CfgWrap "config: read base" e)
    | None => loadOverlay opts v end = loadOverlay opts v).
  { by destruct Herr as [[-> _]|[(e & -> & ->) _]]. }
  rewrite E. destruct (loadOverlay opts v); [|by right]. destruct Hload as [Hb Hview].
  split_and!; [done..|]. intros k. by rewrite all_view, Hview.
Qed.
End load.
