(* ===== verification/ServiceConfig.v ===== *)
(** * The configuration of the services

    Model of [internal/config/config.go] of the seven services, their defaults
    and the shape of what they load, and of [loadConfig] and the addresses made
    from it in their [main.go], on the loader of [Config]: how the settings are
    layered, and what the services load with nothing but the defaults. *)

From S2P Require Import Prelude GoNum GoFloat GoString Errors RoomSync Register Startup Config.

Open Scope Z_scope.

(** ** The shapes *)

Record RedisConfig : Type := mkRedis { rdAddr : string; rdPassword : string; rdDB : Z }.
Record WebConfig : Type := mkWeb { wbAddr : string; wbCORSAllowOrigins : list string; wbRateLimitPerSecond : Z }.
Record LogConfig : Type := mkLog { lgLevel : string; lgFormat : string }.
Record OTelConfig : Type := mkOTel { otEndpoint : string; otSampleRatio : float64 }.

(** What every service has. *)
Record BaseConfig : Type := mkBase {
  cDB : DBConfig; cRedis : RedisConfig; cWeb : WebConfig; cLog : LogConfig; cOTel : OTelConfig;
}.

Record AuthSection : Type := mkAuthSection {
  asAccessTokenTTL : duration; asRefreshTokenTTL : duration; asSessionTTL : duration;
  asOAuthFlowTTL : duration; asKeyRotationInterval : duration;
  asKeyMasterEnv : string; asIssuer : string;
}.
Record ProviderSection : Type := mkProviderSection {
  psClientIDEnv : string; psClientSecretEnv : string; psScopes : list string; psEnabled : bool;
}.
Record OAuthSection : Type := mkOAuthSection {
  osRedirectURIBase : string; osSpotify : ProviderSection; osGoogle : ProviderSection;
}.
Record ProviderCredsConfig : Type := mkCreds { pcClientID : string; pcClientSecret : string; pcEnabled : bool }.

Record KafkaProducer : Type := mkKafkaProducer { kpBrokers : list string }.
Record KafkaConsumer : Type := mkKafkaConsumer { kcBrokers : list string; kcTopic : string; kcGroupID : string }.
Record KafkaTopic : Type := mkKafkaTopic { ktBrokers : list string; ktTopic : string }.

Record AuthServiceConfig : Type := mkAuthCfg {
  auBase : BaseConfig; auKafka : KafkaTopic; auAuth : AuthSection; auOAuth : OAuthSection;
}.
Record UserServiceConfig : Type := mkUserCfg { usBase : BaseConfig; usKafka : KafkaConsumer }.
Record PlaybackServiceConfig : Type := mkPlaybackCfg { pbBase : BaseConfig; pbKafka : KafkaConsumer }.
Record RoomServiceConfig : Type := mkRoomCfg { rmBase : BaseConfig; rmKafka : KafkaProducer }.
Record MediaServiceConfig : Type := mkMediaCfg { mdBase : BaseConfig; mdKafka : KafkaProducer; mdRoomServiceAddr : string }.
Record SyncServiceConfig : Type := mkSyncCfg {
  syBase : BaseConfig; syKafka : KafkaConsumer; sySync : SyncConfig; syRoomServiceAddr : string;
}.
Record ProviderServiceConfig : Type := mkProviderCfg {
  pvBase : BaseConfig; pvSpotify : ProviderCredsConfig; pvYouTube : ProviderCredsConfig; pvAuthServiceAddr : string;
}.

(** ** The defaults *)

Definition AuthDefaults : list (string * cfgval) := [
  ("db.host", CStr "localhost");
  ("db.port", CInt 5432);
  ("db.user", CStr "vibesync");
  ("db.database", CStr "auth");
  ("db.sslmode", CStr "disable");
  ("db.max_conns", CInt 10);
  ("redis.addr", CStr "localhost:6379");
  ("redis.db", CInt 0);
  ("kafka.brokers", CStrs ["localhost:9094"]);
  ("kafka.topic", CStr "vibesync");
  ("auth.access_ttl", CStr "15m");
  ("auth.refresh_ttl", CStr "720h");
  ("auth.session_ttl", CStr "720h");
  ("auth.oauth_flow_ttl", CStr "10m");
  ("auth.key_rotation_interval", CStr "168h");
  ("auth.key_master_env", CStr "VB_AUTH_KEY_MASTER");
  ("auth.issuer", CStr "https://auth.vibesync.local");
  ("oauth.redirect_uri_base", CStr "http://localhost:8080");
  ("oauth.spotify.client_id_env", CStr "VB_OAUTH_SPOTIFY_CLIENT_ID");
  ("oauth.spotify.client_secret_env", CStr "VB_OAUTH_SPOTIFY_CLIENT_SECRET");
  ("oauth.spotify.scopes", CStrs ["user-read-email"; "user-read-private"]);
  ("oauth.spotify.enabled", CBool false);
  ("oauth.google.client_id_env", CStr "VB_OAUTH_GOOGLE_CLIENT_ID");
  ("oauth.google.client_secret_env", CStr "VB_OAUTH_GOOGLE_CLIENT_SECRET");
  ("oauth.google.scopes", CStrs ["openid"; "email"; "profile"]);
  ("oauth.google.enabled", CBool false);
  ("web.addr", CStr ":8080");
  ("web.rate_limit_per_second", CInt 10);
  ("log.level", CStr "info");
  ("log.format", CStr "json");
  ("otel.endpoint", CStr "localhost:4317");
  ("otel.sample_ratio", CFloat (flit 1 1))].

Definition UserDefaults : list (string * cfgval) := [
  ("db.host", CStr "localhost");
  ("db.port", CInt 5432);
  ("db.user", CStr "vibesync");
  ("db.database", CStr "user");
  ("db.sslmode", CStr "disable");
  ("db.max_conns", CInt 10);
  ("redis.addr", CStr "localhost:6379");
  ("redis.db", CInt 0);
  ("kafka.brokers", CStrs ["localhost:9094"]);
  ("kafka.topic", CStr "user.created.v1");
  ("kafka.consumer_group_id", CStr "user-service");
  ("web.addr", CStr ":8081");
  ("web.rate_limit_per_second", CInt 10);
  ("log.level", CStr "info");
  ("log.format", CStr "json");
  ("otel.endpoint", CStr "localhost:4317");
  ("otel.sample_ratio", CFloat (flit 1 1))].

Definition RoomDefaults : list (string * cfgval) := [
  ("db.host", CStr "localhost");
  ("db.port", CInt 5432);
  ("db.user", CStr "vibesync");
  ("db.database", CStr "room");
  ("db.sslmode", CStr "disable");
  ("db.max_conns", CInt 10);
  ("redis.addr", CStr "localhost:6379");
  ("redis.db", CInt 0);
  ("kafka.brokers", CStrs ["localhost:9094"]);
  ("web.addr", CStr ":8082");
  ("web.rate_limit_per_second", CInt 10);
  ("log.level", CStr "info");
  ("log.format", CStr "json");
  ("otel.endpoint", CStr "localhost:4317");
  ("otel.sample_ratio", CFloat (flit 1 1))].

Definition SyncDefaults : list (string * cfgval) := [
  ("db.host", CStr "localhost");
  ("db.port", CInt 5432);
  ("db.user", CStr "vibesync");
  ("db.database", CStr "sync");
  ("db.sslmode", CStr "disable");
  ("db.max_conns", CInt 10);
  ("redis.addr", CStr "localhost:6379");
  ("redis.db", CInt 0);
  ("kafka.brokers", CStrs ["localhost:9094"]);
  ("kafka.consumer_topic", CStr "room.created.v1");
  ("kafka.consumer_group_id", CStr "sync-service");
  ("sync.heartbeat_interval", CStr "1s");
  ("sync.host_timeout", CStr "5s");
  ("sync.snapshot_interval", CStr "5s");
  ("sync.controller_kp", CFloat (flit 15 100));
  ("sync.controller_ki", CFloat (flit 2 100));
  ("sync.controller_integral_clamp_ms", CFloat (flit 200 1));
  ("sync.recover_ring_buffer_size", CInt 32);
  ("sync.discontinuity_threshold_ms", CFloat (flit 2000 1));
  ("sync.drift_correction_enabled", CBool false);
  ("room_service_addr", CStr "localhost:8082");
  ("web.addr", CStr ":8083");
  ("web.rate_limit_per_second", CInt 10);
  ("log.level", CStr "info");
  ("log.format", CStr "json");
  ("otel.endpoint", CStr "localhost:4317");
  ("otel.sample_ratio", CFloat (flit 1 1))].

Definition PlaybackDefaults : list (string * cfgval) := [
  ("db.host", CStr "localhost");
  ("db.port", CInt 5432);
  ("db.user", CStr "vibesync");
  ("db.database", CStr "playback");
  ("db.sslmode", CStr "disable");
  ("db.max_conns", CInt 10);
  ("redis.addr", CStr "localhost:6379");
  ("redis.db", CInt 0);
  ("kafka.brokers", CStrs ["localhost:9094"]);
  ("kafka.topic", CStr "sync.updated.v1");
  ("kafka.consumer_group_id", CStr "playback-service");
  ("web.addr", CStr ":8084");
  ("web.rate_limit_per_second", CInt 10);
  ("log.level", CStr "info");
  ("log.format", CStr "json");
  ("otel.endpoint", CStr "localhost:4317");
  ("otel.sample_ratio", CFloat (flit 1 1))].

Definition MediaDefaults : list (string * cfgval) := [
  ("db.host", CStr "localhost");
  ("db.port", CInt 5432);
  ("db.user", CStr "vibesync");
  ("db.database", CStr "media");
  ("db.sslmode", CStr "disable");
  ("db.max_conns", CInt 10);
  ("redis.addr", CStr "localhost:6379");
  ("redis.db", CInt 0);
  ("kafka.brokers", CStrs ["localhost:9094"]);
  ("web.addr", CStr ":8085");
  ("web.rate_limit_per_second", CInt 10);
  ("room_service_addr", CStr "localhost:8082");
  ("log.level", CStr "info");
  ("log.format", CStr "json");
  ("otel.endpoint", CStr "localhost:4317");
  ("otel.sample_ratio", CFloat (flit 1 1))].

Definition ProviderDefaults : list (string * cfgval) := [
  ("db.host", CStr "localhost");
  ("db.port", CInt 5432);
  ("db.user", CStr "vibesync");
  ("db.database", CStr "provider");
  ("db.sslmode", CStr "disable");
  ("db.max_conns", CInt 10);
  ("redis.addr", CStr "localhost:6379");
  ("redis.db", CInt 0);
  ("web.addr", CStr ":8086");
  ("web.rate_limit_per_second", CInt 10);
  ("log.level", CStr "info");
  ("log.format", CStr "json");
  ("otel.endpoint", CStr "localhost:4317");
  ("otel.sample_ratio", CFloat (flit 1 1));
  ("spotify.enabled", CBool false);
  ("youtube.enabled", CBool true);
  ("auth_service_addr", CStr "localhost:8080")].

(** ** Decoding

    [v.Unmarshal]: mapstructure fills a field from the setting under its key and
    leaves it zero when there is none; an error of any field fails the whole. *)

Class Decoder : Type := {
  dec_string : cfgval -> res cfgerr string;
  dec_int : cfgval -> res cfgerr Z;
  dec_int32 : cfgval -> res cfgerr Z;
  dec_bool : cfgval -> res cfgerr bool;
  dec_float : cfgval -> res cfgerr float64;
  dec_strings : cfgval -> res cfgerr (list string);
  dec_duration : cfgval -> res cfgerr duration;
}.

(** A value of the type of the field is taken as it is; a duration is parsed. *)
Class DecoderLaws (D : Decoder) : Prop := {
  string_law s : dec_string (CStr s) = Ok s;
  int_law z : Z.abs z < 2 ^ 63 -> dec_int (CInt z) = Ok z;
  int32_law z : Z.abs z < 2 ^ 31 -> dec_int32 (CInt z) = Ok z;
  bool_law b : dec_bool (CBool b) = Ok b;
  float_law f : dec_float (CFloat f) = Ok f;
  strings_law l : dec_strings (CStrs l) = Ok l;
  duration_law : Forall (fun sd => dec_duration (CStr sd.1) = Ok sd.2)
    [("1s", Second); ("5s", 5 * Second); ("10m", 600 * Second); ("15m", 900 * Second);
     ("168h", 604800 * Second); ("720h", 2592000 * Second)];
}.

Declare Scope config_scope.
Notation "x <-r m ;; k" := (res_bind m (fun x => k)) (at level 100, m at next level, right associativity) : config_scope.
Open Scope config_scope.

Section load.
Context `{Process} `{V : Viper} `{D : Decoder}.
Implicit Types m : Settings.

Definition field {A} (zero : A) (dec : cfgval -> res cfgerr A) m (k : string) : res cfgerr A :=
  match m !! k with None => Ok zero | Some x => dec x end.

Abbreviation fstr := (field "" dec_string).
Abbreviation fint := (field 0 dec_int).
Abbreviation fbool := (field false dec_bool).
Abbreviation ffloat := (field fzero dec_float).
Abbreviation fstrs := (field [] dec_strings).
Abbreviation fdur := (field 0 dec_duration).

Definition decodeDB m : res cfgerr DBConfig :=
  host <-r fstr m "db.host" ;; port <-r fint m "db.port" ;; user <-r fstr m "db.user" ;;
  password <-r fstr m "db.password" ;; database <-r fstr m "db.database" ;; sslmode <-r fstr m "db.sslmode" ;;
  maxConns <-r field 0 dec_int32 m "db.max_conns" ;;
  Ok (mkDB user password host port database sslmode maxConns).

Definition decodeBase m : res cfgerr BaseConfig :=
  db <-r decodeDB m ;;
  addr <-r fstr m "redis.addr" ;; password <-r fstr m "redis.password" ;; rdb <-r fint m "redis.db" ;;
  waddr <-r fstr m "web.addr" ;; cors <-r fstrs m "web.cors_allow_origins" ;; rate <-r fint m "web.rate_limit_per_second" ;;
  level <-r fstr m "log.level" ;; format <-r fstr m "log.format" ;;
  endpoint <-r fstr m "otel.endpoint" ;; ratio <-r ffloat m "otel.sample_ratio" ;;
  Ok (mkBase db (mkRedis addr password rdb) (mkWeb waddr cors rate) (mkLog level format) (mkOTel endpoint ratio)).

Definition decodeConsumer (topicKey : string) m : res cfgerr KafkaConsumer :=
  brokers <-r fstrs m "kafka.brokers" ;; topic <-r fstr m topicKey ;; group <-r fstr m "kafka.consumer_group_id" ;;
  Ok (mkKafkaConsumer brokers topic group).

Definition decodeAuthSection m : res cfgerr AuthSection :=
  access <-r fdur m "auth.access_ttl" ;; refresh <-r fdur m "auth.refresh_ttl" ;; session <-r fdur m "auth.session_ttl" ;;
  flow <-r fdur m "auth.oauth_flow_ttl" ;; rotation <-r fdur m "auth.key_rotation_interval" ;;
  master <-r fstr m "auth.key_master_env" ;; issuer <-r fstr m "auth.issuer" ;;
  Ok (mkAuthSection access refresh session flow rotation master issuer).

Definition decodeProvider (name : string) m : res cfgerr ProviderSection :=
  id <-r fstr m (name +:+ ".client_id_env") ;; secret <-r fstr m (name +:+ ".client_secret_env") ;;
  scopes <-r fstrs m (name +:+ ".scopes") ;; enabled <-r fbool m (name +:+ ".enabled") ;;
  Ok (mkProviderSection id secret scopes enabled).

Definition decodeOAuth m : res cfgerr OAuthSection :=
  redirect <-r fstr m "oauth.redirect_uri_base" ;;
  spotify <-r decodeProvider "oauth.spotify" m ;; google <-r decodeProvider "oauth.google" m ;;
  Ok (mkOAuthSection redirect spotify google).

Definition decodeSync m : res cfgerr SyncConfig :=
  heartbeat <-r fdur m "sync.heartbeat_interval" ;; timeout <-r fdur m "sync.host_timeout" ;;
  snapshot <-r fdur m "sync.snapshot_interval" ;; kp <-r ffloat m "sync.controller_kp" ;;
  ki <-r ffloat m "sync.controller_ki" ;; clamp <-r ffloat m "sync.controller_integral_clamp_ms" ;;
  ring <-r fint m "sync.recover_ring_buffer_size" ;; disc <-r ffloat m "sync.discontinuity_threshold_ms" ;;
  drift <-r fbool m "sync.drift_correction_enabled" ;;
  Ok (mkSyncConfig heartbeat timeout snapshot kp ki clamp ring disc drift).

Definition decodeCreds (name : string) m : res cfgerr ProviderCredsConfig :=
  id <-r fstr m (name +:+ ".client_id") ;; secret <-r fstr m (name +:+ ".client_secret") ;;
  enabled <-r fbool m (name +:+ ".enabled") ;;
  Ok (mkCreds id secret enabled).

(** ** Loading *)

(** [cfg.DB.Password] and [cfg.Redis.Password] come from the environment. *)
Definition withSecrets (b : BaseConfig) : BaseConfig :=
  let d := cDB b in let r := cRedis b in
  mkBase (mkDB (dbUser d) (getenv "VB_DB_PASSWORD") (dbHost d) (dbPort d) (dbDatabase d) (dbSSLMode d) (dbMaxConns d))
    (mkRedis (rdAddr r) (getenv "VB_REDIS_PASSWORD") (rdDB r)) (cWeb b) (cLog b) (cOTel b).

(** [LoadViper]. *)
Definition LoadViper (service what : string) (defaults : list (string * cfgval)) (env : string) (dirs : list string)
    : res cfgerr vp :=
  match Load (NewLoader (mkOptions service env dirs defaults [])) with
  | Err e => Err (CfgWrap what e)
  | Ok v => Ok v
  end.

Definition AuthLoadViper := LoadViper "auth-service" "auth config" AuthDefaults.
Definition UserLoadViper := LoadViper "user-service" "user config" UserDefaults.
Definition RoomLoadViper := LoadViper "room-service" "room config" RoomDefaults.
Definition SyncLoadViper := LoadViper "sync-service" "sync config" SyncDefaults.
Definition PlaybackLoadViper := LoadViper "playback-service" "playback config" PlaybackDefaults.
Definition MediaLoadViper := LoadViper "media-service" "media config" MediaDefaults.
Definition ProviderLoadViper := LoadViper "provider-service" "provider config" ProviderDefaults.

(** [loadConfig] with the decoding of a service. *)
Definition loadWith {C} (viper : res cfgerr vp) (decode : Settings -> res cfgerr C) : res cfgerr C :=
  v <-r viper ;;
  match decode (vpAllSettings v) with
  | Ok cfg => Ok cfg
  | Err e => Err (CfgWrap "unmarshal" e)
  end.

Definition loadAuthConfig : res cfgerr AuthServiceConfig :=
  cfg <-r loadWith (AuthLoadViper EnvLocal []) (fun m =>
    b <-r decodeBase m ;; brokers <-r fstrs m "kafka.brokers" ;; topic <-r fstr m "kafka.topic" ;;
    auth <-r decodeAuthSection m ;; oauth <-r decodeOAuth m ;;
    Ok (mkAuthCfg b (mkKafkaTopic brokers topic) auth oauth)) ;;
  Ok (mkAuthCfg (withSecrets (auBase cfg)) (auKafka cfg) (auAuth cfg) (auOAuth cfg)).

Definition loadUserConfig : res cfgerr UserServiceConfig :=
  cfg <-r loadWith (UserLoadViper EnvLocal []) (fun m =>
    b <-r decodeBase m ;; kafka <-r decodeConsumer "kafka.topic" m ;; Ok (mkUserCfg b kafka)) ;;
  Ok (mkUserCfg (withSecrets (usBase cfg)) (usKafka cfg)).

Definition loadRoomConfig : res cfgerr RoomServiceConfig :=
  cfg <-r loadWith (RoomLoadViper EnvLocal []) (fun m =>
    b <-r decodeBase m ;; brokers <-r fstrs m "kafka.brokers" ;; Ok (mkRoomCfg b (mkKafkaProducer brokers))) ;;
  Ok (mkRoomCfg (withSecrets (rmBase cfg)) (rmKafka cfg)).

Definition loadSyncConfig : res cfgerr SyncServiceConfig :=
  cfg <-r loadWith (SyncLoadViper EnvLocal []) (fun m =>
    b <-r decodeBase m ;; kafka <-r decodeConsumer "kafka.consumer_topic" m ;; sync <-r decodeSync m ;;
    addr <-r fstr m "room_service_addr" ;; Ok (mkSyncCfg b kafka sync addr)) ;;
  Ok (mkSyncCfg (withSecrets (syBase cfg)) (syKafka cfg) (sySync cfg) (syRoomServiceAddr cfg)).

Definition loadPlaybackConfig : res cfgerr PlaybackServiceConfig :=
  cfg <-r loadWith (PlaybackLoadViper EnvLocal []) (fun m =>
    b <-r decodeBase m ;; kafka <-r decodeConsumer "kafka.topic" m ;; Ok (mkPlaybackCfg b kafka)) ;;
  Ok (mkPlaybackCfg (withSecrets (pbBase cfg)) (pbKafka cfg)).

Definition loadMediaConfig : res cfgerr MediaServiceConfig :=
  cfg <-r loadWith (MediaLoadViper EnvLocal []) (fun m =>
    b <-r decodeBase m ;; brokers <-r fstrs m "kafka.brokers" ;; addr <-r fstr m "room_service_addr" ;;
    Ok (mkMediaCfg b (mkKafkaProducer brokers) addr)) ;;
  Ok (mkMediaCfg (withSecrets (mdBase cfg)) (mdKafka cfg) (mdRoomServiceAddr cfg)).

(** The credentials for Spotify are those of the environment when it has any. *)
Definition spotifySecrets (c : ProviderCredsConfig) : ProviderCredsConfig :=
  let or s v := if bool_decide (s = "") then v else s in
  mkCreds (or (getenv "VB_OAUTH_SPOTIFY_CLIENT_ID") (pcClientID c))
    (or (getenv "VB_OAUTH_SPOTIFY_CLIENT_SECRET") (pcClientSecret c)) (pcEnabled c).

Definition loadProviderConfig : res cfgerr ProviderServiceConfig :=
  cfg <-r loadWith (ProviderLoadViper EnvLocal []) (fun m =>
    b <-r decodeBase m ;; spotify <-r decodeCreds "spotify" m ;; youtube <-r decodeCreds "youtube" m ;;
    addr <-r fstr m "auth_service_addr" ;; Ok (mkProviderCfg b spotify youtube addr)) ;;
  Ok (mkProviderCfg (withSecrets (pvBase cfg)) (spotifySecrets (pvSpotify cfg)) (pvYouTube cfg) (pvAuthServiceAddr cfg)).
End load.

(** ** Addresses *)

(** The base addresses of the clients: of the room service in the sync and
    media services, and of the auth service in the provider service. *)
Definition syncRoomURL (cfg : SyncServiceConfig) : string := "http://" +:+ syRoomServiceAddr cfg.
Definition mediaRoomURL (cfg : MediaServiceConfig) : string := "http://" +:+ mdRoomServiceAddr cfg.
Definition providerAuthURL (cfg : ProviderServiceConfig) : string := "http://" +:+ pvAuthServiceAddr cfg.

(** Where a service listens, on the same machine. *)
Definition listenURL (b : BaseConfig) : string := "http://localhost" +:+ wbAddr (cWeb b).

(** ** What a service loads *)

Definition nameOf (svc : service) : string :=
  match svc with
  | SvcAuth => "auth-service" | SvcRoom => "room-service" | SvcMedia => "media-service" | SvcSync => "sync-service"
  | SvcUser => "user-service" | SvcPlayback => "playback-service" | SvcProvider => "provider-service"
  end.
Definition defaultsOf (svc : service) : list (string * cfgval) :=
  match svc with
  | SvcAuth => AuthDefaults | SvcRoom => RoomDefaults | SvcMedia => MediaDefaults | SvcSync => SyncDefaults
  | SvcUser => UserDefaults | SvcPlayback => PlaybackDefaults | SvcProvider => ProviderDefaults
  end.
Definition viperOf `{Process} `{Viper} (svc : service) : string -> list string -> res cfgerr vp :=
  match svc with
  | SvcAuth => AuthLoadViper | SvcRoom => RoomLoadViper | SvcMedia => MediaLoadViper | SvcSync => SyncLoadViper
  | SvcUser => UserLoadViper | SvcPlayback => PlaybackLoadViper | SvcProvider => ProviderLoadViper
  end.
Definition optionsOf (svc : service) (env : string) (dirs : list string) : Options :=
  NewLoader (mkOptions (nameOf svc) env dirs (defaultsOf svc) []).

Lemma defaults_NoDup svc : NoDup (defaultsOf svc).*1.
Proof. destruct svc; apply (bool_decide_unpack _); vm_compute; exact I. Qed.

(** Where the setting of a key comes from. *)
Definition settingOf `{Process} (svc : service) (env : string) (dirs : list string) (k : string) : option cfgval :=
  let opts := optionsOf svc env dirs in
  let file := orElse (fileSettings (overlayFile opts) !! k) (fileSettings (baseFile opts) !! k) in
  match orElse file ((list_to_map (defaultsOf svc) : Settings) !! k) with
  | None => None
  | Some x =>
      let s := getenv (envName "VB" keyReplacer k) in
      Some (if bool_decide (s = "") then x else CStr s)
  end.

Section loaded.
Context `{Process} {V : Viper} `{!ViperLaws V}.

Lemma viperOf_Load svc env dirs :
  match viperOf svc env dirs, Load (optionsOf svc env dirs) with
  | Ok v, Ok v' => v = v'
  | Err _, Err _ => True
  | _, _ => False
  end.
Proof.
  unfold optionsOf. destruct svc; simpl;
    unfold AuthLoadViper, RoomLoadViper, MediaLoadViper, SyncLoadViper, UserLoadViper, PlaybackLoadViper, ProviderLoadViper,
      LoadViper; by destruct (Load _).
Qed.

Lemma loadedLayers_setting svc env dirs k :
  (if knownKey (loadedLayers (optionsOf svc env dirs)) k then layered (loadedLayers (optionsOf svc env dirs)) k else None)
  = settingOf svc env dirs k.
Proof.
  unfold settingOf, knownKey, layered, fromEnv, loadedLayers. cbn [lyOverrides lyConfig lyDefaults lyAuto lyPrefix lyReplacer].
  rewrite lookup_union. change (optOverrides (optionsOf svc env dirs)) with (@nil (string * cfgval)).
  change (optDefaults (optionsOf svc env dirs)) with (defaultsOf svc). cbn [list_to_map foldr]. rewrite lookup_empty. cbn [orElse].
  set (a := fileSettings (overlayFile _) !! k). set (b := fileSettings (baseFile _) !! k).
  set (d := list_to_map _ !! k). case_bool_decide; by destruct a, b, d.
Qed.

Lemma viperOf_spec svc env dirs :
  match viperOf svc env dirs with
  | Ok v =>
      broken (baseFile (optionsOf svc env dirs)) = false /\ broken (overlayFile (optionsOf svc env dirs)) = false /\
      forall k, vpAllSettings v !! k = settingOf svc env dirs k
  | Err _ =>
      broken (baseFile (optionsOf svc env dirs)) = true \/ broken (overlayFile (optionsOf svc env dirs)) = true \/ mergeFails
  end.
Proof.
  pose proof (viperOf_Load svc env dirs) as E.
  pose proof (Load_spec (optionsOf svc env dirs) (defaults_NoDup svc) (NoDup_nil_2 (A := string))) as Hl.
  destruct (viperOf svc env dirs), (Load _); [|done..]. subst. destruct Hl as (Hb & Ho & Hk). split_and!; [done..|].
  intros k. by rewrite Hk, loadedLayers_setting.
Qed.
End loaded.

(** What every service loads of the sections they share. *)
Definition baseOf `{Process} `{Viper} `{Decoder} (svc : service) : res cfgerr BaseConfig :=
  match svc with
  | SvcAuth => c <-r loadAuthConfig ;; Ok (auBase c)
  | SvcRoom => c <-r loadRoomConfig ;; Ok (rmBase c)
  | SvcMedia => c <-r loadMediaConfig ;; Ok (mdBase c)
  | SvcSync => c <-r loadSyncConfig ;; Ok (syBase c)
  | SvcUser => c <-r loadUserConfig ;; Ok (usBase c)
  | SvcPlayback => c <-r loadPlaybackConfig ;; Ok (pbBase c)
  | SvcProvider => c <-r loadProviderConfig ;; Ok (pvBase c)
  end.

Lemma res_bind_Ok {E A B} (r : res E A) (k : A -> res E B) b : res_bind r k = Ok b -> exists a, r = Ok a /\ k a = Ok b.
Proof. destruct r; [by eauto|done]. Qed.

Lemma loadWith_Ok `{Process} `{Viper} {C} svc decode (c : C) :
  loadWith (viperOf svc EnvLocal []) decode = Ok c ->
  exists v, viperOf svc EnvLocal [] = Ok v /\ decode (vpAllSettings v) = Ok c.
Proof. intros (v & Hv & Hc)%res_bind_Ok. exists v. split; [done|]. by destruct (decode _). Qed.

Ltac res_inv := repeat match goal with
  | H : res_bind _ _ = Ok _ |- _ => apply res_bind_Ok in H as (? & ? & ?)
  | H : Ok _ = Ok _ |- _ => injection H as <-
  end.

Lemma baseOf_Ok `{Process} `{Viper} `{Decoder} svc b :
  baseOf svc = Ok b ->
  exists v b0, viperOf svc EnvLocal [] = Ok v /\ decodeBase (vpAllSettings v) = Ok b0 /\ b = withSecrets b0.
Proof.
  assert (Hgo : forall C (decode : Settings -> res cfgerr C) (proj : C -> BaseConfig) c0,
    loadWith (viperOf svc EnvLocal []) decode = Ok c0 ->
    (forall m c, decode m = Ok c -> decodeBase m = Ok (proj c)) ->
    exists v b0, viperOf svc EnvLocal [] = Ok v /\ decodeBase (vpAllSettings v) = Ok b0 /\
      withSecrets (proj c0) = withSecrets b0).
  { intros C decode proj c0 Hl Hd. apply loadWith_Ok in Hl as (v & Hv & Hc). exists v, (proj c0). eauto. }
  unfold baseOf. intros Hb.
  destruct svc; apply res_bind_Ok in Hb as (c & Hc & [= <-]); apply res_bind_Ok in Hc as (c0 & Hc & [= <-]);
    [apply (Hgo _ _ auBase _ Hc)|apply (Hgo _ _ rmBase _ Hc)|apply (Hgo _ _ mdBase _ Hc)|apply (Hgo _ _ syBase _ Hc)
    |apply (Hgo _ _ usBase _ Hc)|apply (Hgo _ _ pbBase _ Hc)|apply (Hgo _ _ pvBase _ Hc)];
    intros m c Hm; res_inv; done.
Qed.

(** The one file of a name in some directories, if there is one: where it is, it
    is the same. *)
Definition soleFile `{Process} (dirs : list string) (name : string) (f : option (res cfgerr Settings)) : Prop :=
  (forall dir, dir ∈ dirs -> readYAML dir name = None \/ readYAML dir name = f) /\
  (f <> None -> exists dir, dir ∈ dirs /\ readYAML dir name = f).

Definition wellFormed (f : option (res cfgerr Settings)) : Prop := forall e, f <> Some (Err e).
Definition malformed (f : option (res cfgerr Settings)) : Prop := exists e, f = Some (Err e) /\ isNotFound e = false.

Lemma soleFile_first `{Process} dirs name f : soleFile dirs name f -> firstFile dirs name = f.
Proof.
  intros [Hall Hex]. unfold firstFile. induction dirs as [|dir dirs IH]; simpl.
  - destruct f as [x|]; [|done]. destruct Hex as (dir & Hin & _); [done|]. by apply elem_of_nil in Hin.
  - destruct (Hall dir) as [E|E]; [apply list_elem_of_here|rewrite E; simpl; apply IH|].
    + intros dir' Hin. apply Hall. by apply list_elem_of_further.
    + intros Hne. destruct (Hex Hne) as (dir' & Hin & Hf). apply elem_of_cons in Hin as [->|Hin]; [congruence|by exists dir'].
    + rewrite E. destruct f as [x|]; [done|]. simpl. apply IH.
      * intros dir' Hin. apply Hall. by apply list_elem_of_further.
      * done.
Qed.

(** The layers of a key that has a default. *)
Definition expected `{Process} (base overlay : option (res cfgerr Settings)) (k : string) (d : cfgval) : cfgval :=
  let s := getenv (envName "VB" keyReplacer k) in
  if bool_decide (s <> "") then CStr s
  else default d (orElse (fileSettings overlay !! k) (fileSettings base !! k)).

Lemma settingOf_expected `{Process} svc env dirs k d : (k, d) ∈ defaultsOf svc ->
  settingOf svc env dirs k =
  Some (expected (baseFile (optionsOf svc env dirs)) (overlayFile (optionsOf svc env dirs)) k d).
Proof.
  intros Hin. unfold settingOf, expected. rewrite (elem_of_list_to_map_1 _ k d (defaults_NoDup svc) Hin).
  set (a := fileSettings (overlayFile _) !! k). set (b := fileSettings (baseFile _) !! k).
  assert (forall s x, (if bool_decide (s = "") then x else CStr s) = (if bool_decide (s <> "") then CStr s else x)) as Hs
    by (intros s x; by repeat case_bool_decide).
  destruct a as [x|]; [|destruct b as [x|]]; simpl; by rewrite Hs.
Qed.

(** C30. The configuration of every service is layered.  Where each of the service's
    two files (the base file and the overlay of the deployment) is in at most
    one of the directories that are searched: a file whose reading fails with an error
    the loader does not take for a missing file's (a syntax error) makes the load
    fail; and when the files that are there are well-formed, and Viper can
    merge them, the load succeeds and every setting that has a default is that
    of its variable if that is not empty, else of the overlay, else of the base
    file, else the default.  What a service runs with is decoded from the
    settings it loaded, except the passwords of the database and of Redis,
    which are the environment's whatever the files say. *)
Theorem config_layers `{Process} {V : Viper} `{!ViperLaws V} `{Decoder} svc env dirs base overlay :
  let opts := optionsOf svc env dirs in
  soleFile (searchDirs opts) (optService opts) base ->
  soleFile (searchDirs opts) (optService opts +:+ "." +:+ optEnv opts) overlay ->
  (malformed base \/ malformed overlay -> exists e, viperOf svc env dirs = Err e) /\
  (wellFormed base -> wellFormed overlay -> ~ mergeFails ->
     exists v, viperOf svc env dirs = Ok v /\
       forall k d, (k, d) ∈ defaultsOf svc -> vpAllSettings v !! k = Some (expected base overlay k d)) /\
  (forall b, baseOf svc = Ok b ->
     dbPassword (cDB b) = getenv "VB_DB_PASSWORD" /\ rdPassword (cRedis b) = getenv "VB_REDIS_PASSWORD" /\
     exists v b0, viperOf svc EnvLocal [] = Ok v /\ decodeBase (vpAllSettings v) = Ok b0 /\ b = withSecrets b0).
Proof.
  intros opts Hb Ho. pose proof (viperOf_spec svc env dirs) as Hs.
  assert (baseFile opts = base) as Eb by (by apply soleFile_first).
  assert (overlayFile opts = overlay) as Eo by (by apply soleFile_first).
  fold opts in Hs. split_and!.
  - intros Hm. destruct (viperOf svc env dirs) as [v|e]; [|by exists e]. destruct Hs as (H1 & H2 & _). rewrite Eb in H1. rewrite Eo in H2.
    destruct Hm as [(e & -> & He)|(e & -> & He)]; simpl in *; by rewrite He in *.
  - intros Wb Wo Hm. assert (broken base = false /\ broken overlay = false) as [Hbb Hbo].
    { unfold broken. split; [destruct base as [[|e]|]|destruct overlay as [[|e]|]]; try done;
        [by destruct (Wb e)|by destruct (Wo e)]. }
    rewrite Eb, Eo in Hs. destruct (viperOf svc env dirs) as [v|e].
    + exists v. split; [done|]. destruct Hs as (_ & _ & Hk). intros k d Hin. rewrite Hk.
      rewrite (settingOf_expected _ _ _ _ _ Hin). fold opts. by rewrite Eb, Eo.
    + exfalso. destruct Hs as [Hx|[Hx|Hx]]; [by rewrite Hbb in Hx|by rewrite Hbo in Hx|done].
  - intros b (v & b0 & Hv & Hd & ->)%baseOf_Ok. split_and!; [done..|]. by exists v, b0.
Qed.

(** ** The defaults *)

(** No configuration file, and none of the variables that override a default. *)
Definition onlyDefaults `{Process} : Prop :=
  (forall dir name, readYAML dir name = None) /\
  forall svc, Forall (fun k => getenv (envName "VB" keyReplacer k) = "") (defaultsOf svc).*1.

Section defaults.
Context `{Process} {V : Viper} `{!ViperLaws V}.

Lemma firstFile_none paths name : (forall dir n, readYAML dir n = None) -> firstFile paths name = None.
Proof. intros Hr. unfold firstFile. induction paths; simpl; [done|]. by rewrite Hr. Qed.

Lemma viperOf_defaults svc : onlyDefaults -> ~ mergeFails ->
  exists v, viperOf svc EnvLocal [] = Ok v /\ vpAllSettings v = list_to_map (defaultsOf svc).
Proof.
  intros [Hf He] Hm. pose proof (viperOf_spec svc EnvLocal []) as Hs. unfold baseFile, overlayFile in Hs.
  rewrite !firstFile_none in Hs by done. destruct (viperOf _ _ _) as [v|e]; [|naive_solver].
  destruct Hs as (_ & _ & Hk). exists v. split; [done|]. apply map_eq. intros k. rewrite Hk.
  unfold settingOf, baseFile, overlayFile. rewrite !firstFile_none by done. simpl. rewrite lookup_empty. simpl.
  destruct (list_to_map _ !! k) as [x|] eqn:Ex; [|done].
  apply elem_of_list_to_map_2, (list_elem_of_fmap_2 fst) in Ex.
  specialize (He svc). rewrite Forall_forall in He. specialize (He _ Ex). simpl in He. by rewrite He.
Qed.
End defaults.

(** Decoding the defaults: the settings are looked up and the fields follow the
    laws of the decoder. *)
Ltac decode_defaults :=
  repeat match goal with
  | |- context [field ?z ?d (list_to_map ?l) ?k] =>
      let v := eval vm_compute in ((list_to_map l : Settings) !! k) in
      let E := fresh in
      assert (E : (list_to_map l : Settings) !! k = v) by (vm_compute; reflexivity);
      replace (field z d (list_to_map l) k) with (match v with Some x => d x | None => Ok z end) by (unfold field; by rewrite E);
      clear E; cbn beta match
  | _ => progress cbn [res_bind]
  | |- context [dec_string (CStr _)] => rewrite string_law
  | |- context [dec_int (CInt _)] => rewrite int_law by done
  | |- context [dec_int32 (CInt _)] => rewrite int32_law by done
  | |- context [dec_bool (CBool _)] => rewrite bool_law
  | |- context [dec_float (CFloat _)] => rewrite float_law
  | |- context [dec_strings (CStrs _)] => rewrite strings_law
  | H : dec_duration (CStr ?s) = Ok _ |- context [dec_duration (CStr ?s)] => rewrite H
  end.

Section wired.
Context `{Process} {V : Viper} `{!ViperLaws V} {D : Decoder} `{!DecoderLaws D}.

Definition rawBase (database addr : string) : BaseConfig :=
  mkBase (mkDB "vibesync" "" "localhost" 5432 database "disable" 10) (mkRedis "localhost:6379" "" 0)
    (mkWeb addr [] 10) (mkLog "info" "json") (mkOTel "localhost:4317" (flit 1 1)).

Lemma load_default svc {C} (decode : Settings -> res cfgerr C) c : onlyDefaults -> ~ mergeFails ->
  decode (list_to_map (defaultsOf svc)) = Ok c -> loadWith (viperOf svc EnvLocal []) decode = Ok c.
Proof.
  intros Hd Hm Hc. destruct (viperOf_defaults svc Hd Hm) as (v & Hv & Hs). unfold loadWith. rewrite Hv. cbn.
  by rewrite Hs, Hc.
Qed.

Ltac by_defaults :=
  pose proof duration_law as Hdur; repeat (apply Forall_cons in Hdur as [? Hdur]); cbn [fst snd] in *;
  unfold decodeBase, decodeDB, decodeConsumer, decodeSync, decodeAuthSection, decodeOAuth, decodeProvider, decodeCreds;
  simpl defaultsOf; simpl String.append; decode_defaults; reflexivity.

Context (Honly : onlyDefaults) (Hmerge : ~ mergeFails).

Let brokers : list string := ["localhost:9094"].

Lemma loadAuthConfig_default :
  exists auth oauth,
    loadAuthConfig = Ok (mkAuthCfg (withSecrets (rawBase "auth" ":8080")) (mkKafkaTopic brokers "vibesync") auth oauth) /\
    asAccessTokenTTL auth = 900 * Second /\ asRefreshTokenTTL auth = 2592000 * Second /\
    asSessionTTL auth = asRefreshTokenTTL auth /\ psEnabled (osSpotify oauth) = false /\ psEnabled (osGoogle oauth) = false.
Proof.
  set (auth := mkAuthSection (900 * Second) (2592000 * Second) (2592000 * Second) (600 * Second) (604800 * Second)
    "VB_AUTH_KEY_MASTER" "https://auth.vibesync.local").
  set (oauth := mkOAuthSection "http://localhost:8080"
    (mkProviderSection "VB_OAUTH_SPOTIFY_CLIENT_ID" "VB_OAUTH_SPOTIFY_CLIENT_SECRET" ["user-read-email"; "user-read-private"] false)
    (mkProviderSection "VB_OAUTH_GOOGLE_CLIENT_ID" "VB_OAUTH_GOOGLE_CLIENT_SECRET" ["openid"; "email"; "profile"] false)).
  exists auth, oauth. split_and!; [|done..]. unfold loadAuthConfig.
  rewrite (load_default SvcAuth _ (mkAuthCfg (rawBase "auth" ":8080") (mkKafkaTopic brokers "vibesync") auth oauth));
    [done..|by_defaults].
Qed.

Lemma loadRoomConfig_default :
  loadRoomConfig = Ok (mkRoomCfg (withSecrets (rawBase "room" ":8082")) (mkKafkaProducer brokers)).
Proof.
  unfold loadRoomConfig. rewrite (load_default SvcRoom _ (mkRoomCfg (rawBase "room" ":8082") (mkKafkaProducer brokers)));
    [done..|by_defaults].
Qed.

Lemma loadMediaConfig_default :
  loadMediaConfig = Ok (mkMediaCfg (withSecrets (rawBase "media" ":8085")) (mkKafkaProducer brokers) "localhost:8082").
Proof.
  unfold loadMediaConfig.
  rewrite (load_default SvcMedia _ (mkMediaCfg (rawBase "media" ":8085") (mkKafkaProducer brokers) "localhost:8082"));
    [done..|by_defaults].
Qed.

Lemma loadUserConfig_default :
  loadUserConfig = Ok (mkUserCfg (withSecrets (rawBase "user" ":8081")) (mkKafkaConsumer brokers "user.created.v1" "user-service")).
Proof.
  unfold loadUserConfig.
  rewrite (load_default SvcUser _ (mkUserCfg (rawBase "user" ":8081") (mkKafkaConsumer brokers "user.created.v1" "user-service")));
    [done..|by_defaults].
Qed.

Lemma loadPlaybackConfig_default :
  loadPlaybackConfig =
    Ok (mkPlaybackCfg (withSecrets (rawBase "playback" ":8084")) (mkKafkaConsumer brokers "sync.updated.v1" "playback-service")).
Proof.
  unfold loadPlaybackConfig.
  rewrite (load_default SvcPlayback _
    (mkPlaybackCfg (rawBase "playback" ":8084") (mkKafkaConsumer brokers "sync.updated.v1" "playback-service")));
    [done..|by_defaults].
Qed.

Definition defaultSync : SyncConfig :=
  mkSyncConfig Second (5 * Second) (5 * Second) (flit 15 100) (flit 2 100) (flit 200 1) 32 (flit 2000 1) false.

Lemma loadSyncConfig_default :
  loadSyncConfig =
    Ok (mkSyncCfg (withSecrets (rawBase "sync" ":8083")) (mkKafkaConsumer brokers "room.created.v1" "sync-service")
      defaultSync "localhost:8082").
Proof.
  unfold loadSyncConfig.
  rewrite (load_default SvcSync _ (mkSyncCfg (rawBase "sync" ":8083") (mkKafkaConsumer brokers "room.created.v1" "sync-service")
      defaultSync "localhost:8082")); [done..|by_defaults].
Qed.

Lemma loadProviderConfig_default :
  loadProviderConfig =
    Ok (mkProviderCfg (withSecrets (rawBase "provider" ":8086")) (spotifySecrets (mkCreds "" "" false)) (mkCreds "" "" true)
      "localhost:8080").
Proof.
  unfold loadProviderConfig.
  rewrite (load_default SvcProvider _
    (mkProviderCfg (rawBase "provider" ":8086") (mkCreds "" "" false) (mkCreds "" "" true) "localhost:8080"));
    [done..|by_defaults].
Qed.
End wired.

(** ** An environment *)

Section demo.
(** A Viper that is its layers. *)
Definition demoViper `{Process} : Viper := {|
  vp := layers;
  vpNew := mkLayers "" id false ∅ ∅ ∅ "" [];
  vpSetEnvPrefix p l := mkLayers p (lyReplacer l) (lyAuto l) (lyDefaults l) (lyConfig l) (lyOverrides l) (lyName l) (lyPaths l);
  vpSetEnvKeyReplacer f l := mkLayers (lyPrefix l) f (lyAuto l) (lyDefaults l) (lyConfig l) (lyOverrides l) (lyName l) (lyPaths l);
  vpAutomaticEnv l := mkLayers (lyPrefix l) (lyReplacer l) true (lyDefaults l) (lyConfig l) (lyOverrides l) (lyName l) (lyPaths l);
  vpSetDefault k x l :=
    mkLayers (lyPrefix l) (lyReplacer l) (lyAuto l) (<[k := x]> (lyDefaults l)) (lyConfig l) (lyOverrides l) (lyName l) (lyPaths l);
  vpSetConfigName n l := mkLayers (lyPrefix l) (lyReplacer l) (lyAuto l) (lyDefaults l) (lyConfig l) (lyOverrides l) n (lyPaths l);
  vpSetConfigType _ l := l;
  vpAddConfigPath d l :=
    mkLayers (lyPrefix l) (lyReplacer l) (lyAuto l) (lyDefaults l) (lyConfig l) (lyOverrides l) (lyName l) (lyPaths l ++ [d]);
  vpReadInConfig l :=
    match firstFile (lyPaths l) (lyName l) with
    | Some (Ok m) =>
        (None, mkLayers (lyPrefix l) (lyReplacer l) (lyAuto l) (lyDefaults l) m (lyOverrides l) (lyName l) (lyPaths l))
    | Some (Err e) => (Some e, l)
    | None => (Some (CfgNotFound "Config File Not Found"), l)
    end;
  vpAllSettings l :=
    map_imap (fun k _ => layered l k) (lyOverrides l ∪ (lyConfig l ∪ lyDefaults l));
  vpMergeConfigMap m l :=
    (None, mkLayers (lyPrefix l) (lyReplacer l) (lyAuto l) (lyDefaults l) (m ∪ lyConfig l) (lyOverrides l) (lyName l) (lyPaths l));
  vpSet k x l :=
    mkLayers (lyPrefix l) (lyReplacer l) (lyAuto l) (lyDefaults l) (lyConfig l) (<[k := x]> (lyOverrides l)) (lyName l) (lyPaths l);
|}.

Definition demoLaws `{Process} : ViperLaws demoViper.
Proof.
  refine {| view := fun l : @vp demoViper => l |}; try done.
  - intros l. simpl. destruct (firstFile _ _) as [[m|e]|]; simpl; split; eauto.
  - intros l k. simpl. rewrite map_lookup_imap, !lookup_union. unfold knownKey, layered.
    destruct (lyOverrides l !! k), (lyConfig l !! k), (lyDefaults l !! k); done.
Defined.

Definition demoDecoder : Decoder := {|
  dec_string x := match x with CStr s => Ok s | _ => Err (CfgOther "string") end;
  dec_int x := match x with CInt z => Ok z | _ => Err (CfgOther "int") end;
  dec_int32 x := match x with CInt z => Ok z | _ => Err (CfgOther "int32") end;
  dec_bool x := match x with CBool b => Ok b | _ => Err (CfgOther "bool") end;
  dec_float x := match x with CFloat f => Ok f | _ => Err (CfgOther "float") end;
  dec_strings x := match x with CStrs l => Ok l | _ => Err (CfgOther "strings") end;
  dec_duration x :=
    match x with
    | CStr s =>
        match (list_to_map [("1s", Second); ("5s", 5 * Second); ("10m", 600 * Second); ("15m", 900 * Second);
                 ("168h", 604800 * Second); ("720h", 2592000 * Second)] : gmap string Z) !! s with
        | Some d => Ok d
        | None => Err (CfgOther "duration")
        end
    | _ => Err (CfgOther "duration")
    end;
|}.

Lemma demoDecoder_laws : DecoderLaws demoDecoder.
Proof. constructor; try done. repeat constructor. Qed.
End demo.

(** A process with the variables and the files of a list. *)
Definition demoProcess (env : list (string * string)) (files : list (string * string * res cfgerr Settings)) : Process := {|
  getenv k := default "" ((list_to_map env : gmap string string) !! k);
  readYAML dir name := (list_to_map files : gmap (string * string) (res cfgerr Settings)) !! (dir, name);
|}.

(** The variable of the address, an overlay and a base file. *)
Definition roomBase : Settings := {["web.addr" := CStr ":9001"; "log.level" := CStr "warn"; "db.host" := CStr "postgres"]}.
Definition roomOverlay : Settings := {["log.level" := CStr "debug"]}.
Definition layeredProcess : Process :=
  demoProcess [("VB_REDIS_PASSWORD", "secret"); ("VB_WEB_ADDR", ":9000")]
    [("./config", "room-service", Ok roomBase); ("./config", "room-service.local", Ok roomOverlay)].

Lemma config_layers_witness :
  exists v, @viperOf layeredProcess (@demoViper layeredProcess) SvcRoom EnvLocal [] = Ok v /\
    @vpAllSettings (@demoViper layeredProcess) v !! "web.addr" = Some (CStr ":9000") /\ @vpAllSettings (@demoViper layeredProcess) v !! "log.level" = Some (CStr "debug") /\
    @vpAllSettings (@demoViper layeredProcess) v !! "db.host" = Some (CStr "postgres") /\ @vpAllSettings (@demoViper layeredProcess) v !! "db.database" = Some (CStr "room").
Proof.
  destruct (@config_layers layeredProcess (@demoViper layeredProcess) (@demoLaws layeredProcess) demoDecoder SvcRoom EnvLocal [] (Some (Ok roomBase)) (Some (Ok roomOverlay)))
    as (_ & Hload & _).
  - split; [|intros _; exists "./config"; split; [apply list_elem_of_here|vm_compute; reflexivity]].
    intros dir Hin. apply elem_of_cons in Hin as [->|Hin]; [right; vm_compute; reflexivity|].
    apply list_elem_of_singleton in Hin as ->. left. vm_compute. reflexivity.
  - split; [|intros _; exists "./config"; split; [apply list_elem_of_here|vm_compute; reflexivity]].
    intros dir Hin. apply elem_of_cons in Hin as [->|Hin]; [right; vm_compute; reflexivity|].
    apply list_elem_of_singleton in Hin as ->. left. vm_compute. reflexivity.
  - destruct Hload as (v & Hv & Hk); [intros e; discriminate|intros e; discriminate|intros (m & l & Hm); apply Hm; reflexivity|].
    exists v. split; [exact Hv|].
    assert (forall k d, (list_to_map (defaultsOf SvcRoom) : Settings) !! k = Some d -> (k, d) ∈ defaultsOf SvcRoom) as Hin
      by (intros k d; apply elem_of_list_to_map_2).
    rewrite (Hk "web.addr" (CStr ":8082")), (Hk "log.level" (CStr "info")), (Hk "db.host" (CStr "localhost")),
      (Hk "db.database" (CStr "room")) by (apply Hin; vm_compute; reflexivity).
    split_and!; vm_compute; reflexivity.
Defined.

(** ** Where the code differs from its documents *)

(** A file that may not be read is taken for a missing one. *)
Example unreadable_ignored :
  let P := demoProcess [] [("./config", "sync-service", Err (CfgPath "open config/sync-service.yaml: permission denied"))] in
  is_Ok (@loadSyncConfig P demoViper demoDecoder) = true.
Proof. vm_compute. reflexivity. Qed.

(** A variable of a key without a default changes nothing. *)
Example env_only_ignored :
  let P := demoProcess [("VB_WEB_CORS_ALLOW_ORIGINS", "https://app")] [] in
  envName "VB" keyReplacer "web.cors_allow_origins" = "VB_WEB_CORS_ALLOW_ORIGINS" /\
  res_bind (@baseOf P demoViper demoDecoder SvcAuth) (fun b => Ok (wbCORSAllowOrigins (cWeb b))) = Ok [].
Proof. intros P. split; [reflexivity|]. vm_compute. reflexivity. Qed.

(** The first directory wins and the others are not read. *)
Example etc_not_merged :
  let P := demoProcess []
    [("./config", "sync-service", Ok {["log.level" := CStr "debug"]});
     ("/etc/vibesync", "sync-service", Ok {["db.host" := CStr "postgres"]})] in
  res_bind (@baseOf P demoViper demoDecoder SvcSync) (fun b => Ok (dbHost (cDB b))) = Ok "localhost".
Proof. vm_compute. reflexivity. Qed.

(** The deployment gives the address of the auth service with its scheme, and
    the provider service puts another before it. *)
Example scheme_twice :
  let P := demoProcess [("VB_AUTH_SERVICE_ADDR", "http://auth-service:8080")] [] in
  res_bind (@loadProviderConfig P demoViper demoDecoder) (fun c => Ok (providerAuthURL c)) = Ok "http://http://auth-service:8080".
Proof. vm_compute. reflexivity. Qed.

(** A secret in a file is used. *)
Example secret_from_file :
  let P := demoProcess [] [("./config", "provider-service", Ok {["spotify.client_secret" := CStr "s3cret"]})] in
  res_bind (@loadProviderConfig P demoViper demoDecoder) (fun c => Ok (pcClientSecret (pvSpotify c))) = Ok "s3cret".
Proof. vm_compute. reflexivity. Qed.
