(* ===== verification/Wiring.v ===== *)
(** * The services together

    With the configuration a service has by default ([ServiceConfig]), what the
    services that stage events write to their outboxes ([Register], [OAuth],
    [RoomService], [RoomSync]) is what the consumers of the others read, and the
    clients call where the services listen. *)

From S2P Require Import Prelude GoNum GoFloat GoString Errors GoUnicode Store Outbox RoomDomain Web RoomRepo RoomService RoomFollows.
From S2P Require Import AuthDomain Auth Register OAuth AuthSteps RegisterTheorems RoomSync PlaybackFollows Startup Config ServiceConfig.

Open Scope Z_scope.

(** ** What the producers stage *)

(** Every user that is made, by a registration or by a log-in with a provider,
    adds one event of the topic to the outbox of the auth service. *)
Definition stagesUsers (topic : string) : Prop :=
  forall `{Env} `{PgCitext} `{Hasher} `{Signer} `{UnicodeLower},
  (forall cfg email username password display label s x s',
     Register cfg email username password display label s = (Ok x, s') ->
     exists e, dEvents (sdb s') = dEvents (sdb s) ++ [mkOutRow e false] /\ oeTopic e = topic) /\
  (forall p prof s u s', createOAuthUser p prof s = (Ok u, s') ->
     exists e, dEvents (sdb s') = dEvents (sdb s) ++ [mkOutRow e false] /\ oeTopic e = topic).

(** Every room that is made adds one event of the topic to the outbox of the room
    service. *)
Definition stagesRooms (topic : string) : Prop :=
  forall `{Env} h req s p s', CreateRoom h req s = (Ok p, s') ->
  exists e, dOutbox (sdb s') = dOutbox (sdb s) ++ [mkOutRow e false] /\ oeTopic e = topic.

(** Every snapshot of a room that is kept gives the stager of the sync service one
    event of the topic. *)
Definition stagesUpdates (topic : string) : Prop :=
  forall `{Runtime} rs rs', snapshotTick rs = Some (tt, rs') -> hasPersist rs = true ->
  exists ev rest, calls (world rs') = calls (world rs) ++ CallStager ev :: rest /\ evTopic ev = topic.

Lemma users_staged : stagesUsers "user.created.v1".
Proof.
  intros ?????. split.
  - intros cfg email username password display label s x s' E. unfold Register in E. apply sbind_Ok in E as ([] & s1 & Hc & E).
    assert (sdb s1 = sdb s) as Hs1 by (pose proof (quiet_ctxDone s) as Hq; by rewrite Hc in Hq).
    destruct (_ || _ || _); [done|]. destruct (_ <? 8); [done|]. apply sbind_Ok in E as (sm & s2 & Hw & [= <- <-]).
    apply withTx_cases in Hw as [[_ [e [=]]]|(a & s3 & Er & _ & -> & _)].
    apply registerTx_stored in Er as (u & h & at_ & _ & _ & (eid & now & sid & fid & t & v & n & _ & _ & _ & _ & ->)).
    cbn [sdb] in *. eexists. cbn [dEvents set_dTokens set_dSessions set_dEvents set_dUsers]. by rewrite Hs1.
  - intros p prof s u s' E. unfold createOAuthUser in E. ok_pure E. destruct (NewUser _ _) as [nu|]; [|done]. ok_pure E.
    apply sbind_Ok in E as ([] & s3 & Hu & E). apply UserRepo_Create_Ok in Hu as (_ & _ & Hs3).
    apply sbind_Ok in E as ([] & s4 & Ha & E). ok_pure E. apply sbind_Ok in E as ([] & s5 & Ho & [= <- <-]).
    apply OutboxAppend_Ok in Ho as [_ Hs5].
    assert (dEvents (sdb s4) = dEvents (sdb s)) as Hs4
      by (apply OAuthAccountRepo_Upsert_Ok in Ha as [(old & _ & ->)|(_ & _ & _ & ->)]; by rewrite Hs3).
    eexists. rewrite Hs5. cbn [dEvents set_dEvents sdb step_n]. by rewrite Hs4.
Qed.

Lemma rooms_staged : stagesRooms "room.created.v1".
Proof. intros E h req s p s' (e & He & _ & Ht & _)%CreateRoom_row. by exists e. Qed.

Lemma updates_staged : stagesUpdates "sync.updated.v1".
Proof. intros R rs rs' E Hp. destruct (snapshotTick_event rs rs' E Hp) as (ev & Hc & Ht & _). by eexists ev, _. Qed.

(** ** The default configuration *)

(** C31. With the defaults alone the services find one another: the user service
    reads the topic that registrations and first provider log-ins stage to, the
    sync service the topic that new rooms are staged to, and the playback service
    the topic that the snapshots of a room are staged to, all on the brokers the
    producers write to; the clients of the room and auth services call where
    these listen; no two services listen on one port or share a database; and
    access tokens end before sessions, which last as long as refresh tokens. *)
Theorem defaults_wired `{Process} {V : Viper} `{!ViperLaws V} {D : Decoder} `{!DecoderLaws D} :
  onlyDefaults -> ~ mergeFails ->
  exists a r m s u p v,
    loadAuthConfig = Ok a /\ loadRoomConfig = Ok r /\ loadMediaConfig = Ok m /\ loadSyncConfig = Ok s /\ loadUserConfig = Ok u /\ loadPlaybackConfig = Ok p /\
    loadProviderConfig = Ok v /\
    stagesUsers (kcTopic (usKafka u)) /\ stagesRooms (kcTopic (syKafka s)) /\ stagesUpdates (kcTopic (pbKafka p)) /\
    Forall (eq (ktBrokers (auKafka a)))
      [kpBrokers (rmKafka r); kpBrokers (mdKafka m); kcBrokers (syKafka s); kcBrokers (usKafka u); kcBrokers (pbKafka p)] /\
    ktBrokers (auKafka a) <> [] /\
    syncRoomURL s = listenURL (rmBase r) /\ mediaRoomURL m = listenURL (rmBase r) /\
    providerAuthURL v = listenURL (auBase a) /\
    (let bases := [auBase a; rmBase r; mdBase m; syBase s; usBase u; pbBase p; pvBase v] in
     NoDup (map (fun b => wbAddr (cWeb b)) bases) /\ NoDup (map (fun b => dbDatabase (cDB b)) bases)) /\
    asAccessTokenTTL (auAuth a) < asSessionTTL (auAuth a) /\
    asSessionTTL (auAuth a) = asRefreshTokenTTL (auAuth a).
Proof.
  intros Hd Hm. destruct (loadAuthConfig_default Hd Hm) as (auth & oauth & Ha & Hacc & Href & Hses & _).
  do 7 eexists. split; [exact Ha|]. split; [exact (loadRoomConfig_default Hd Hm)|]. split; [exact (loadMediaConfig_default Hd Hm)|].
  split; [exact (loadSyncConfig_default Hd Hm)|]. split; [exact (loadUserConfig_default Hd Hm)|].
  split; [exact (loadPlaybackConfig_default Hd Hm)|]. split; [exact (loadProviderConfig_default Hd Hm)|].
  cbn [usKafka syKafka pbKafka kcTopic]. split; [exact users_staged|]. split; [exact rooms_staged|]. split; [exact updates_staged|].
  simpl. split_and!; try done; [by repeat constructor| | |rewrite Hacc, Hses, Href; done].
  - apply (bool_decide_unpack _). vm_compute. exact I.
  - apply (bool_decide_unpack _). vm_compute. exact I.
Qed.

Lemma defaults_wired_witness :
  let P := demoProcess [("VB_DB_PASSWORD", "secret")] [] in
  exists a r s u v,
    @loadAuthConfig P demoViper demoDecoder = Ok a /\ @loadRoomConfig P demoViper demoDecoder = Ok r /\
    @loadSyncConfig P demoViper demoDecoder = Ok s /\ @loadUserConfig P demoViper demoDecoder = Ok u /\
    @loadProviderConfig P demoViper demoDecoder = Ok v /\
    stagesRooms (kcTopic (syKafka s)) /\ stagesUsers (kcTopic (usKafka u)) /\
    syncRoomURL s = listenURL (rmBase r) /\ providerAuthURL v = listenURL (auBase a) /\
    dbPassword (cDB (auBase a)) = "secret".
Proof.
  intros P.
  assert (Honly : @onlyDefaults P).
  { split; [done|]. intros svc. destruct svc; repeat constructor. }
  assert (Hmerge : ~ @mergeFails demoViper) by (by intros (m & l & Hm)).
  destruct (@defaults_wired P demoViper demoLaws demoDecoder demoDecoder_laws Honly Hmerge)
    as (a & r & m & s & u & p & v & Ha & Hr & Hmd & Hs & Hu & Hp & Hv & Hus & Hrs & _ & _ & _ & Hroom & _ & Hauth & _).
  exists a, r, s, u, v. repeat (split; [assumption|]).
  assert (Hb : @baseOf P demoViper demoDecoder SvcAuth = Ok (auBase a)).
  { unfold baseOf. rewrite Ha. reflexivity. }
  apply baseOf_Ok in Hb as (l & b0 & _ & _ & E). rewrite E. reflexivity.
Defined.
