(* ===== verification/TestClients.v ===== *)
(** * The test clients

    Model of [apps/test-clients/cmd]: [seed], which writes two accounts into the
    auth database, [host], which plays a fixed cycle of commands, and
    [listener], which follows a room and reports where its player is.  What the
    clients print is left out.  The remote calls are the services' own
    definitions: log-in is [Auth], commands and heartbeats are [SyncService]. *)

From stdpp Require Import pretty.
From S2P Require Import Heartbeat Controller RoomSync RoomSyncEvolution RoomSyncRuns RoomSyncTheorems RoomClient SyncService.
From S2P Require Import Prelude GoNum GoFloat SyncState Errors GoString GoUnicode GoBase64 Store RoomDomain AuthDomain Outbox Web Auth Register OAuth Crypto CryptoTheorems AuthRuns AuthDemo AuthTheorems AccountSteps AuthSteps AccountTheorems RegisterTheorems.

Open Scope Z_scope.

(** ** Command-line flags *)

(** [flag.String] and [flag.Duration] in a package's [var] block, in order: a
    name that is already registered panics. *)
Fixpoint registerFlags (names : list string) (set : gset string) : option (gset string) :=
  match names with
  | [] => Some set
  | n :: names => if bool_decide (n ∈ set) then None else registerFlags names ({[n]} ∪ set)
  end.

Definition hostFlags : list string := ["auth"; "room"; "sync"; "media"; "email"; "password"; "name"; "interval"].
Definition listenerFlags : list string := ["auth"; "room"; "sync"; "email"; "password"; "room"; "drift"].
Definition seedFlags : list string := ["db"].

Lemma registerFlags_spec names set :
  is_Some (registerFlags names set) <-> NoDup names /\ Forall (fun n => n ∉ set) names.
Proof.
  revert set. induction names as [|n names IH]; intros set; simpl; [by split; [split; constructor|]|].
  case_bool_decide as Hn.
  { split; [by intros [? ?]|]. intros [_ Hf]. by apply Forall_cons in Hf as [Hf _]. }
  rewrite IH, NoDup_cons, Forall_cons. split.
  - intros [Hd Hf]. rewrite Forall_forall in Hf. split_and!; [|done|done|].
    + intros Hin. specialize (Hf n Hin). set_solver.
    + apply Forall_forall. intros x Hx. specialize (Hf x Hx). set_solver.
  - intros [[Hni Hd] [_ Hf]]. split; [done|]. rewrite !Forall_forall in *. intros x Hx. specialize (Hf x Hx).
    assert (x <> n) by (by intros ->). set_solver.
Qed.

(** The host and the seeder start; the listener registers "room" twice and
    panics before [main]. *)
Example flags_register :
  is_Some (registerFlags hostFlags ∅) /\ is_Some (registerFlags seedFlags ∅) /\ registerFlags listenerFlags ∅ = None.
Proof.
  split_and!.
  - apply registerFlags_spec. split; [apply (bool_decide_unpack _); by vm_compute|apply (bool_decide_unpack _); by vm_compute].
  - apply registerFlags_spec. split; [apply (bool_decide_unpack _); by vm_compute|apply (bool_decide_unpack _); by vm_compute].
  - apply eq_None_not_Some. rewrite registerFlags_spec. intros [Hd _]. revert Hd. apply (bool_decide_eq_false_1 _). by vm_compute.
Qed.

(** ** The subject of a request *)

(** [authTransport.RoundTrip], up to the call of the base transport. *)
Definition RoundTrip (token userID : string) (h : Header) : Header :=
  <["X-Vibesync-System-Role" := "SYSTEM_ROLE_USER"]>
    (<["X-Vibesync-User-Id" := userID]> (<["Authorization" := ("Bearer " +:+ token)%string]> h)).

(** [textproto.TrimString], which [http.Header] applies to every value it
    writes: blanks, tabs and line ends at both sides. *)
Definition asciiSpace (l : list Z) : nat :=
  match l with b :: _ => if (b =? 32) || (b =? 9) || (b =? 10) || (b =? 13) then 1 else 0 | [] => 0 end.
Definition TrimString (s : string) : string :=
  let l := trimWith (length (bytes s)) asciiSpace (bytes s) in
  ofBytes (rev (trimWith (length l) asciiSpace (rev l))).
Definition onWire (h : Header) : Header := TrimString <$> h.

Lemma hGet_wire h k v : h !! k = Some v -> hGet (onWire h) k = TrimString v.
Proof. intros Hv. unfold hGet, onWire. by rewrite lookup_fmap, Hv. Qed.

Lemma asciiSpace_graphic b l : graphic b -> asciiSpace (b :: l) = O.
Proof. unfold graphic. intros Hb. simpl. by rewrite !(proj2 (Z.eqb_neq b _)) by lia. Qed.

Lemma TrimString_graphic s : Forall graphic (bytes s) -> TrimString s = s.
Proof.
  intros Hs. unfold TrimString. rewrite (trimWith_none asciiSpace _ (bytes s)) by (destruct Hs; [done|by apply asciiSpace_graphic]).
  rewrite trimWith_none, rev_involutive; [apply ofBytes_bytes|].
  apply Forall_rev in Hs. destruct Hs; [done|by apply asciiSpace_graphic].
Qed.

(** Whatever else a request carries, the services take it as made by the user
    who logged in (an id without blanks arrives unchanged), in the role of an
    ordinary user. *)
Lemma RoundTrip_subject token userID h :
  let got := subjectFromHeader (onWire (RoundTrip token userID h)) in
  sbSystemRole got = SYSTEM_USER /\ sbUserID got = TrimString userID /\
  (Forall graphic (bytes userID) -> sbUserID got = userID).
Proof.
  cbn zeta. unfold subjectFromHeader. cbn [sbSystemRole sbUserID].
  rewrite (hGet_wire _ "X-Vibesync-User-Id" userID) by (unfold RoundTrip; by simplify_map_eq).
  rewrite (hGet_wire _ "X-Vibesync-System-Role" "SYSTEM_ROLE_USER") by (unfold RoundTrip; by simplify_map_eq).
  split_and!; [by vm_compute|done|apply TrimString_graphic].
Qed.

(** ** Seeding *)

Record testUser : Type := mkTestUser { tuEmail : string; tuUsername : string; tuName : string }.

Definition testUsers : list testUser := [
  mkTestUser "host@test.local" "test_host" "Test Host";
  mkTestUser "listener@test.local" "test_listener" "Test Listener"].

Definition testPassword : string := "testpass123".

(** [byte(i*7 + 13)]. *)
Definition seedSalt : list Z := map (fun i => uwrap 8 (Z.of_nat i * 7 + 13)) (seq 0 argon2SaltBytes).

(** The parameters and the layout are those of the service's hasher. *)
Definition seedHash `{Argon2} (plaintext : string) : string :=
  phcEncode seedSalt (IDKey (bytes plaintext) seedSalt argon2Iterations argon2Memory argon2Lanes argon2KeyBytes).

(** The verb [%-20s]: spaces on the right up to 20 characters. *)
Definition padRight (width : Z) (s : string) : string :=
  (s +:+ ofBytes (repeat 32%Z (Z.to_nat (width - charCount s))))%string.

(** [fmt.Sprintf("01TEST%-20s", username)[:26]]. *)
Definition seedID (username : string) : string :=
  String.substring 0 26 ("01TEST" +:+ padRight 20 username).

Section seed.
Context `{Env} `{PgCitext} `{Argon2}.

(** [conn.Exec] outside a transaction: the statement commits by itself, and a
    lost reply leaves open whether it did. *)
Definition connExec {A} (f : AuthDB -> res error (A * AuthDB)) : SM AuthDB A := fun s =>
  let n := S (S (sn s)) in
  match env_fault (sn s) with
  | Some e => (Err e, mkSt (sdb s) n (saborted s))
  | None =>
      match f (sdb s) with
      | Err e => (Err e, mkSt (sdb s) n (saborted s))
      | Ok (a, db) =>
          match env_commit (S (sn s)) with
          | None => (Ok a, mkSt db n (saborted s))
          | Some (e, applied) => (Err e, mkSt (if applied then db else sdb s) n (saborted s))
          end
      end
  end.

Definition setPasswordHash (hash : string) (u : User) : User :=
  mkUser (uID u) (uEmail u) (uUsername u) (uDisplayName u) (uAvatarURL u) hash
    (uSystemRole u) (uStatus u) (uCreatedAt u) (uUpdatedAt u).

(** [INSERT ... ON CONFLICT (email) DO UPDATE SET password_hash]: the address
    decides, and a conflict on another column fails. *)
Definition upsertUser (u : User) (db : AuthDB) : res error (Z * AuthDB) :=
  match userColumnsOk u with
  | Some e => Err e
  | None =>
      match findRow (fun x => citextEq (uEmail x) (uEmail u)) (dUsers db) with
      | Some old => Ok (1, set_dUsers (insert (uID old) (setPasswordHash (uPasswordHash u) old)) db)
      | None =>
          if bool_decide (is_Some (dUsers db !! uID u)) then Err (EUniqueViolation "users_pkey")
          else if existsb (fun kv => bool_decide (uUsername kv.2 = uUsername u)) (map_to_list (dUsers db))
          then Err (EUniqueViolation "users_username_key")
          else Ok (1, set_dUsers (insert (uID u) (storedUser u)) db)
      end
  end.

(** The row of a test user: an ordinary, active account. *)
Definition seedRow (t : testUser) (now : time) : User :=
  mkUser (seedID (tuUsername t)) (tuEmail t) (tuUsername t) (tuName t) "" (seedHash testPassword) 2 1 now now.

(** [seedUser] answers whether it prints "seeded" ([RowsAffected() > 0]). *)
Definition seedUser (t : testUser) : SM AuthDB bool :=
  now <- snow ;;
  rows <- smapErr (EWrap "insert") (connExec (upsertUser (seedRow t now))) ;;
  sret (0 <? rows).

(** The loop of [main]: the first failure ends the program. *)
Fixpoint seedAll (ts : list testUser) : SM AuthDB unit :=
  match ts with
  | [] => sret tt
  | t :: ts => seedUser t ;;; seedAll ts
  end.

Definition seedMain : SM AuthDB unit := seedAll testUsers.
End seed.

(** The id of a seeded account ends in blanks, which do not survive a header. *)
Example seeded_id_trimmed :
  slen (seedID "test_host") = 26 /\
  sbUserID (subjectFromHeader (onWire (RoundTrip "t" (seedID "test_host") ∅))) = "01TESTtest_host".
Proof. by vm_compute. Qed.

(** *** What seeding achieves *)

Lemma seedHash_accepted `{A : Argon2} `{!Argon2Laws A} p :
  seedHash p <> "" /\ Compare (seedHash p) p = true.
Proof.
  assert (phcDecode (seedHash p) = Ok (seedSalt, passwordKey p seedSalt)) as Hd.
  { apply phcDecode_encode; [apply (bool_decide_unpack _); by vm_compute|apply IDKey_bytes]. }
  split; [done|]. unfold Compare. rewrite Hd. by rewrite bool_decide_true.
Qed.

Section seeding.
Context `{E : Env} `{!Calm E} `{C : PgCitext} `{!CitextLaws C} `{A : Argon2}.

(** The account of a test user is there, with the test password. *)
Definition seeded (t : testUser) (db : AuthDB) : Prop :=
  exists u, dUsers db !! uID u = Some u /\ citextEq (uEmail u) (tuEmail t) = true /\
    uPasswordHash u = seedHash testPassword.

(** What seeding does to the database: no table but the users changes, no
    account is lost, an account that was there keeps everything but perhaps its
    password, and a new one may log in. *)
Definition grown (db db' : AuthDB) : Prop :=
  (exists users, db' = set_dUsers (fun _ => users) db) /\
  forall k, match dUsers db !! k, dUsers db' !! k with
            | None, None => True
            | None, Some u => CanAuthenticate u = true
            | Some v, Some u => u = v \/ u = setPasswordHash (seedHash testPassword) v
            | Some _, None => False
            end.

Lemma grown_refl db : grown db db.
Proof using Type.
  split; [by exists (dUsers db); destruct db|]. intros k. destruct (dUsers db !! k); [by left|done].
Qed.

Lemma grown_trans db1 db2 db3 : grown db1 db2 -> grown db2 db3 -> grown db1 db3.
Proof using Type.
  intros [[u1 E1] H1] [[u2 E2] H2]. split; [exists u2; by rewrite E2, E1|]. intros k.
  specialize (H1 k). specialize (H2 k).
  destruct (dUsers db1 !! k) as [v|], (dUsers db2 !! k) as [w|], (dUsers db3 !! k) as [x|]; try done.
  - destruct H1 as [->| ->], H2 as [->| ->]; auto.
  - by destruct H2 as [->| ->].
Qed.

Lemma grown_insert db u :
  match dUsers db !! uID u with
  | Some v => u = setPasswordHash (seedHash testPassword) v
  | None => CanAuthenticate u = true
  end -> grown db (set_dUsers (insert (uID u) u) db).
Proof using Type.
  intros Hu. split; [by eexists|]. intros k. cbn [dUsers set_dUsers]. destruct (decide (uID u = k)) as [<-|Ne].
  - rewrite lookup_insert_eq. destruct (dUsers db !! uID u); [by right|done].
  - rewrite lookup_insert_ne by done. destruct (dUsers db !! k); [by left|done].
Qed.

(** Accounts seeded before are still seeded. *)
Lemma grown_seeded t db db' : distinct_users (dUsers db') -> grown db db' -> seeded t db -> seeded t db'.
Proof using Type.
  intros D [_ Hg] (v & Hv & He & Hh). specialize (Hg (uID v)). rewrite Hv in Hg.
  destruct (dUsers db' !! uID v) as [u|] eqn:Hu; [|done].
  exists u. rewrite (du_keyed _ D _ _ Hu). destruct Hg as [->| ->]; done.
Qed.

(** A row written over another of the same account, or of a new one. *)
Lemma distinct_insert users u : distinct_users users ->
  (forall k x, users !! k = Some x -> citextEq (uEmail x) (uEmail u) = true \/ uUsername x = uUsername u -> k = uID u) ->
  distinct_users (<[uID u := u]> users).
Proof using CitextLaws0.
  intros [Hk He Hu] Hnew. split.
  - intros k x [[<- <-]|[_ Hx]]%lookup_insert_Some; [done|by apply Hk].
  - intros k1 k2 u1 u2 [[<- <-]|[_ H1]]%lookup_insert_Some [[<- <-]|[_ H2]]%lookup_insert_Some Heq; [done| | |by eapply He].
    + symmetry. eapply Hnew; [exact H2|]. left. by rewrite citext_sym.
    + eapply Hnew; [exact H1|by left].
  - intros k1 k2 u1 u2 [[<- <-]|[_ H1]]%lookup_insert_Some [[<- <-]|[_ H2]]%lookup_insert_Some Heq; [done| | |by eapply Hu].
    + symmetry. eapply Hnew; [exact H2|by right].
    + eapply Hnew; [exact H1|by right].
Qed.

(** One upsert: the account is there afterwards. *)
Lemma upsertUser_Ok t now db r : distinct_users (dUsers db) -> upsertUser (seedRow t now) db = Ok r ->
  r.1 = 1 /\ distinct_users (dUsers r.2) /\ seeded t r.2 /\ grown db r.2.
Proof using CitextLaws0.
  intros D. unfold upsertUser. destruct (userColumnsOk _); [done|].
  destruct (findRow _ _) as [old|] eqn:Ef.
  - intros [= <-]. cbn [fst snd]. apply findRow_Some in Ef as (k & Hk & Heq). pose proof (du_keyed _ D _ _ Hk) as <-.
    set (u := setPasswordHash _ old). change (uID old) with (uID u).
    split_and!; [done| | |by apply grown_insert; simpl; rewrite Hk].
    + apply distinct_insert; [done|]. intros k x Hx [Hm|Hm]; [by eapply (du_email _ D _ _ _ _ Hx Hk)|by eapply (du_username _ D _ _ _ _ Hx Hk)].
    + exists u. cbn [dUsers set_dUsers]. by rewrite lookup_insert_eq.
  - case_bool_decide as Hid; [done|]. apply eq_None_not_Some in Hid. destruct (existsb _ _) eqn:Ex; [done|]. intros [= <-]. cbn [fst snd].
    set (u := storedUser _). change (uID (seedRow t now)) with (uID u) in *.
    split_and!; [done| | |by apply grown_insert; rewrite Hid].
    + apply distinct_insert; [done|]. intros k x Hx [Hm|Hm].
      * apply (findRow_None _ _ _ _ Ef) in Hx. change (uEmail u) with (uEmail (seedRow t now)) in Hm. congruence.
      * change (uUsername u) with (uUsername (seedRow t now)) in Hm.
        apply (existsb_none (fun v => bool_decide (uUsername v = _)) _ _ _ Ex) in Hx. by apply bool_decide_eq_false in Hx.
    + exists u. cbn [dUsers set_dUsers]. rewrite lookup_insert_eq. split_and!; [done|apply citext_refl|done].
Qed.

Lemma connExec_Ok {X} (f : AuthDB -> res error (X * AuthDB)) s x s' :
  connExec f s = (Ok x, s') -> f (sdb s) = Ok (x, sdb s').
Proof using Type.
  unfold connExec. destruct (env_fault _); [done|]. destruct (f _) as [[a db]|]; [|done].
  destruct (env_commit _) as [[? ?]|]; [done|]. by intros [= <- <-].
Qed.

Lemma seedUser_Ok t s b s' : distinct_users (dUsers (sdb s)) -> seedUser t s = (Ok b, s') ->
  b = true /\ distinct_users (dUsers (sdb s')) /\ seeded t (sdb s') /\ grown (sdb s) (sdb s').
Proof using CitextLaws0.
  intros D Hs. unfold seedUser in Hs. rewrite run_now in Hs. apply sbind_Ok in Hs as (rows & s1 & Hs & [= <- <-]).
  apply smapErr_Ok, connExec_Ok, upsertUser_Ok in Hs as (Hr & Hd & Ht & Hf); [|done]. simpl in *. subst rows. done.
Qed.

Lemma seedAll_Ok ts s s' : distinct_users (dUsers (sdb s)) -> seedAll ts s = (Ok tt, s') ->
  distinct_users (dUsers (sdb s')) /\ (forall t, t ∈ ts -> seeded t (sdb s')) /\ grown (sdb s) (sdb s').
Proof using CitextLaws0.
  revert s. induction ts as [|t ts IH]; intros s D; simpl.
  { intros [= <-]. split_and!; [done|by intros t ?%elem_of_nil|apply grown_refl]. }
  intros (b & s1 & H1 & H2)%sbind_Ok. apply seedUser_Ok in H1 as (_ & D1 & S1 & G1); [|done].
  apply IH in H2 as (D2 & S2 & G2); [|done]. split_and!; [done| |by eapply grown_trans].
  intros x [->|Hx]%elem_of_cons; [by eapply grown_seeded|by apply S2].
Qed.
End seeding.

(** The seeded accounts serve: once the seeder has run to its end on a database
    of distinct accounts, the accounts are still distinct, those that were there
    have kept everything but perhaps their password, no other table has changed,
    and for either test client there is one account with its address and the
    test password, which the service's own hasher accepts: the log-in succeeds
    whenever that account may log in, as the accounts the seeder creates may. *)
Theorem seeded_users_log_in `{E : Env} `{!Calm E} `{C : PgCitext} `{!CitextLaws C} `{A : Argon2} `{!Argon2Laws A}
    `{R : Entropy} `{Sg : Signer} `{UnicodeLower} cfg s s' t label :
  let _ := argonHasher in
  distinct_users (dUsers (sdb s)) -> seedMain s = (Ok tt, s') -> t ∈ testUsers ->
  distinct_users (dUsers (sdb s')) /\ grown (sdb s) (sdb s') /\
  exists u, dUsers (sdb s') !! uID u = Some u /\ citextEq (uEmail u) (tuEmail t) = true /\
    (CanAuthenticate u = true -> session_supply (sn s') (sdb s') -> charCount label <= 100 ->
     exists y s3, Login cfg (tuEmail t) testPassword label s' = (Ok y, s3) /\ y.1 = uID u).
Proof.
  intros hasher D Hs Ht. destruct (seedAll_Ok _ _ _ D Hs) as (D' & Hseed & Hg).
  destruct (Hseed t Ht) as (u & Hu & He & Hh). split_and!; [done|done|]. exists u. split_and!; [done|done|].
  intros Hc Hsup Hlab. destruct (seedHash_accepted testPassword) as [Hne Hcmp]. rewrite <- Hh in Hne, Hcmp.
  assert (tuEmail t <> "") as Hmail.
  { intros E0. revert Ht. unfold testUsers. rewrite !elem_of_cons, elem_of_nil. intros [->|[->|[]]]; done. }
  clear Hs Hg Hseed. destruct s' as [db n b]. cbn [sdb sn] in *.
  assert (findRow (fun v => citextEq (uEmail v) (tuEmail t)) (dUsers db) = Some u) as Hf.
  { destruct (findRow _ _) as [v|] eqn:Ef.
    - apply findRow_Some in Ef as (k & Hv & Heq). rewrite citext_sym in He.
      pose proof (du_email _ D' _ _ _ _ Hv Hu (citext_trans _ _ _ Heq He)) as ->. congruence.
    - apply (findRow_None _ _ _ _ Ef) in Hu. congruence. }
  unfold Login. erewrite run_ok by apply calm_ctxDone. rewrite !bool_decide_false by done.
  cbn [orb]. unfold step_n. cbn [sn sdb saborted].
  destruct (calm_loginTx cfg (tuEmail t) testPassword label u db (S (S n)) Hf) as (y & s3 & Hl & Hab & Hy); try done.
  { eapply session_supply_ext; [exact Hsup|lia|done..]. }
  erewrite run_ok by (by rewrite calm_withTx, Hl, Hab). eexists _, _. split; [done|]. simpl. congruence.
Qed.

#[local] Existing Instances authEnv authEnv_Calm constSigner exactCitext exactCitext_laws idLower foldingKdf foldingKdf_laws
  countingEntropy.

Lemma seeded_users_log_in_witness :
  let _ := argonHasher in
  exists s', seedMain (authStart demoUsers) = (Ok tt, s') /\
    exists y s3, Login demoAuthConfig "host@test.local" testPassword "test-host" s' = (Ok y, s3).
Proof.
  intros hasher. destruct (seedMain (authStart demoUsers)) as [r s'] eqn:Es.
  assert (is_Ok (seedMain (authStart demoUsers)).1 = true) as Hok by by vm_compute.
  rewrite Es in Hok. destruct r as [[]|]; [|done]. exists s'. split; [done|].
  destruct (seeded_users_log_in demoAuthConfig (authStart demoUsers) s' (mkTestUser "host@test.local" "test_host" "Test Host")
    "test-host" demoUsers_distinct Es (list_elem_of_here _ _)) as (_ & [[users Hg] Hrows] & u & Hu & He & Hlogin).
  destruct Hlogin as (y & s3 & Hl & _); [| | |by exists y, s3].
  - specialize (Hrows (uID u)). rewrite Hu in Hrows. destruct (dUsers (sdb (authStart demoUsers)) !! uID u) as [v|] eqn:Hv; [|done].
    change (demoUsers !! uID u = Some v) in Hv. unfold demoUsers in Hv.
    apply lookup_singleton_Some in Hv as [_ <-]. by destruct Hrows as [->| ->].
  - assert (forall k, dTokens (sdb s') !! k = None) as Ht by (intros k; rewrite Hg; apply lookup_empty).
    assert (forall k, dSessions (sdb s') !! k = None) as Hss by (intros k; rewrite Hg; apply lookup_empty).
    split; [|split].
    + split; [intros; apply Ht|]. split; [intros ? ? ? ? Hx; by rewrite Ht in Hx|].
      split; [intros; apply repeat_length|]. split; intros; eexists; reflexivity.
    + intros; apply Hss.
    + intros ? ? ? ? Hx. by rewrite Hss in Hx.
  - vm_compute. discriminate.
Defined.

(** ** The host *)

Definition commands : list (CommandKind * option Z) := [
  (CmdLoadMedia, None); (CmdPlay, None); (CmdPause, None); (CmdPlay, None); (CmdSeek, Some 60000); (CmdPlay, None)].

(** [commands[i%len(commands)]]. *)
Definition commandAt (i : nat) : CommandKind * option Z := nth (i mod length commands) commands (CmdUnspecified, None).

(** The request of the [i]-th turn: only a load names the media. *)
Definition hostRequest (roomID mediaID : string) (token : Z) (i : nat) : CommandRequest :=
  let cmd := commandAt i in
  if cmd.1 =? CmdLoadMedia then mkCmdReq roomID cmd.1 None None mediaID token
  else mkCmdReq roomID cmd.1 cmd.2 None "" token.

(** The token the client sends from then on. *)
Definition hostToken (i : nat) (r : res error CommandReply) (token : Z) : Z :=
  match r with
  | Ok reply => if ((commandAt i).1 =? CmdLoadMedia) && crAccepted reply then crEpoch reply else token
  | Err _ => token
  end.

Section host.
Context {S : Type} (rpc : CommandRequest -> PM S (res error CommandReply)) (roomID mediaID : string).

(** [k] turns of the loop, from the [i]-th; the answers, in order. *)
Fixpoint hostLoop (k i : nat) (token : Z) : PM S (list (res error CommandReply) * Z) :=
  match k with
  | O => pret ([], token)
  | Datatypes.S k =>
      r <-! rpc (hostRequest roomID mediaID token i) ;;
      rest <-! hostLoop k (Datatypes.S i) (hostToken i r token) ;;
      pret (r :: rest.1, rest.2)
  end.
End host.

(** The room's side of a command that the handler let through. *)
Definition roomRPC `{Runtime} (req : CommandRequest) : PM RoomSync (res error CommandReply) :=
  reply <-! ProcessCommandAuthorized (int8 (cqKind req)) (cqSeekToMs req) (cqRate req) (cqMediaID req) (cqFencingToken req) ;;
  pret (Ok reply).

(** What the cycle leaves a room in after the [i]-th turn. *)
Definition cycleStatus (i : nat) : PlaybackStatus :=
  if ((commandAt i).1 =? CmdPause) || ((commandAt i).1 =? CmdLoadMedia) then StatusPaused else StatusPlaying.

(** The room before the [i]-th turn, as the turns before it left it. *)
Definition onCourse (mediaID : string) (i : nat) (s : SyncState) : Prop :=
  match i with
  | O => True
  | S j => MediaID s = mediaID /\ Status s = cycleStatus j
  end.

Lemma turn_onCourse roomID mediaID token i now nowMs s :
  let req := hostRequest roomID mediaID token i in
  onCourse mediaID i s ->
  onCourse mediaID (S i) (ApplyCommand (int8 (cqKind req)) (cqSeekToMs req) (cqRate req) (cqMediaID req) nowMs now s).
Proof.
  intros req Hs. cbn [onCourse].
  assert (i mod 6 < 6)%nat as Hlt by (apply Nat.mod_upper_bound; lia).
  assert (i mod 6 <> 0 -> MediaID s = mediaID)%nat as Hmedia.
  { destruct i as [|j]; [by intros []|]. by destruct Hs. }
  assert (i mod 6 = 4 -> Status s = StatusPlaying)%nat as Hstatus.
  { intros E. destruct i as [|j]; [done|]. destruct Hs as [_ ->].
    assert (j mod 6 = 3)%nat as Ej.
    { pose proof (Nat.div_mod_eq (S j) 6). pose proof (Nat.div_mod_eq j 6). pose proof (Nat.mod_upper_bound j 6).
      assert (j = 6 * (S j / 6) + 3)%nat as -> by lia. rewrite Nat.add_comm, Nat.mul_comm, Nat.Div0.mod_add. done. }
    unfold cycleStatus, commandAt. change (length commands) with 6%nat. by rewrite Ej. }
  subst req. unfold hostRequest, cycleStatus, commandAt. change (length commands) with 6%nat.
  destruct (i mod 6)%nat as [|[|[|[|[|[|n]]]]]] eqn:E; [..|lia];
    cbn [nth commands fst snd Z.eqb CmdLoadMedia CmdPlay CmdPause CmdSeek Pos.eqb orb cqKind cqSeekToMs cqRate cqMediaID];
    unfold ApplyCommand, applyKind; cbn;
    repeat match goal with |- context [if ?b then _ else _] => destruct b eqn:? end; cbn;
    try specialize (Hmedia ltac:(done)); try specialize (Hstatus ltac:(done)); try done.
Qed.

Section hosting.
Context `{Runtime} (roomID mediaID : string).

Lemma hostRequest_token token i : cqFencingToken (hostRequest roomID mediaID token i) = token.
Proof. unfold hostRequest. by destruct (_ =? _). Qed.

(** The turns of the loop in a room that has never migrated. *)
Lemma host_turns live closing k i token rs :
  chans_ok live closing rs -> FencingToken (state rs) = 0 -> 0 <= token -> onCourse mediaID i (state rs) ->
  exists rs' replies token', hostLoop roomRPC roomID mediaID k i token rs = Some ((replies, token'), rs') /\
    length replies = k /\ Forall (fun r => exists reply, r = Ok reply /\ crAccepted reply = true) replies /\
    FencingToken (state rs') = 0 /\ onCourse mediaID (k + i) (state rs').
Proof.
  revert i token rs. induction k as [|k IH]; intros i token rs Hc Hf Ht Hon; [by exists rs, [], token|].
  cbn [hostLoop]. set (req := hostRequest roomID mediaID token i).
  destruct (safe_applyCommandLocked live closing (int8 (cqKind req)) (cqSeekToMs req) (cqRate req) (cqMediaID req)
    (cqFencingToken req) rs Hc) as (reply & rs1 & Ha & Hc1).
  erewrite pbind_Some by (unfold roomRPC, ProcessCommandAuthorized; by rewrite (pbind_Some _ _ _ _ _ Ha)).
  apply applyCommandLocked_accepts in Ha as (t0 & t1 & Hs & Hr); [|unfold req; rewrite hostRequest_token; lia].
  destruct (ApplyCommand_frame (int8 (cqKind req)) (cqSeekToMs req) (cqRate req) (cqMediaID req) (UnixMilli t0) t1 (state rs))
    as (_ & _ & He & _ & Hft & _).
  destruct (IH (S i) (hostToken i (Ok reply) token) rs1) as (rs' & replies & token' & Hl & Hlen & Hall & Hf' & Hon').
  - done.
  - by rewrite Hs, Hft.
  - unfold hostToken. destruct (_ && _); [|done]. rewrite Hr. cbn [crEpoch]. rewrite Hs, He.
    unfold incr64, uint64, uwrap. apply Z.mod_pos_bound. lia.
  - rewrite Hs. by apply turn_onCourse.
  - rewrite (pbind_Some _ _ _ _ _ Hl). exists rs', (Ok reply :: replies), token'. cbn [length fst snd]. split_and!; [done|by rewrite Hlen| |done|].
    + constructor; [|done]. exists reply. by rewrite Hr.
    + by rewrite Nat.add_succ_comm.
Qed.

(** The host client drives its room: in a room that has never migrated its loop
    never panics the room and every command is accepted, whatever the clock
    says; after any number of turns the room holds the client's media and is
    paused after a load or a pause and playing otherwise. *)
Theorem host_drives_room live closing k rs :
  chans_ok live closing rs -> FencingToken (state rs) = 0 ->
  exists rs' replies token', hostLoop roomRPC roomID mediaID k 0 0 rs = Some ((replies, token'), rs') /\
    length replies = k /\ Forall (fun r => exists reply, r = Ok reply /\ crAccepted reply = true) replies /\
    match k with
    | O => rs' = rs
    | S j => MediaID (state rs') = mediaID /\ Status (state rs') = cycleStatus j
    end.
Proof.
  intros Hc Hf. destruct (host_turns live closing k 0 0 rs Hc Hf) as (rs' & replies & token' & Hl & Hlen & Hall & _ & Hon); [done|done|].
  exists rs', replies, token'. split_and!; [done|done|done|]. rewrite Nat.add_0_r in Hon. destruct k as [|j]; [|done]. by injection Hl.
Qed.

(** The client starts from token 0 and learns a token only from an accepted
    load: in a room that has migrated before, none of its commands is ever
    accepted and the room does not change. *)
Theorem host_locked_out k i rs :
  0 < FencingToken (state rs) ->
  hostLoop roomRPC roomID mediaID k i 0 rs =
    Some ((repeat (Ok (mkCmdReply (Epoch (state rs)) false "STALE_FENCING_TOKEN")) k, 0), rs).
Proof.
  intros Hf. revert i. induction k as [|k IH]; intros i; [done|]. cbn [hostLoop repeat].
  set (req := hostRequest roomID mediaID 0 i).
  assert (roomRPC req rs = Some (Ok (mkCmdReply (Epoch (state rs)) false "STALE_FENCING_TOKEN"), rs)) as Hr.
  { unfold roomRPC, ProcessCommandAuthorized, pbind. rewrite applyCommandLocked_stale; [done|]. unfold req. by rewrite hostRequest_token. }
  rewrite (pbind_Some _ _ _ _ _ Hr).
  assert (hostToken i (Ok (mkCmdReply (Epoch (state rs)) false "STALE_FENCING_TOKEN")) 0 = 0) as ->
    by (unfold hostToken; cbn [crAccepted]; by rewrite andb_false_r).
  by rewrite (pbind_Some _ _ _ _ _ (IH (S i))).
Qed.
End hosting.

(** ** The listener *)

(** What the two goroutines of [main] share, and the loop's own variables. *)
Record listener : Type := mkListener {
  lastState : option SyncStateProto;
  lastEpoch : Z;           (* uint64 *)
  lastServerWallTime : Z;
  heartbeatCount : Z;
}.

Definition newListener : listener := mkListener None 0 0 0.

(** The receiving goroutine. *)
Definition onFrame (f : Frame) (l : listener) : listener :=
  match payload f with
  | PUpdate p => mkListener (Some p) (if lastEpoch l <=? pEpoch p then pEpoch p else lastEpoch l) (lastServerWallTime l) (heartbeatCount l)
  | PSnapshot p => mkListener (Some (snState p)) (lastEpoch l) (lastServerWallTime l) (heartbeatCount l)
  | PHostMigration _ _ _ _ _ _ => l
  end.

(** The simulated player, with the drift of the command line. *)
Definition playerPosition (simulatedDriftMs nowMs : Z) (l : listener) : Z :=
  int64 (match lastState l with
         | Some s =>
             if fgt (pPlaybackRate s) fzero then
               let elapsed := int64 (nowMs - pWallTimeMs s) in
               let elapsed := if elapsed <? 0 then 0 else elapsed in
               int64 (pMediaTimeMs s + int64_of_float (fmul (float_of_Z elapsed) (pPlaybackRate s)))
             else 0
         | None => 0
         end + simulatedDriftMs).

(** The heartbeat of a tick; the clock is read twice. *)
Definition listenerRequest (roomID : string) (simulatedDriftMs nowMs wallMs : Z) (l : listener) : HeartbeatRequest :=
  mkHbReq roomID (lastEpoch l) (playerPosition simulatedDriftMs nowMs l) wallMs (lastServerWallTime l).

Definition onReply (r : res error HeartbeatReply) (l : listener) : listener :=
  match r with
  | Err _ => l
  | Ok reply => mkListener (lastState l) (lastEpoch l) (serverWallTimeMs reply) (heartbeatCount l + 1)
  end.

(** What happens to a listener, in any order: a frame arrives, or a tick sends a
    heartbeat that is answered. *)
Inductive listenerEvent : Type :=
| LFrame (f : Frame)
| LReply (r : res error HeartbeatReply).

Definition listen1 (l : listener) (e : listenerEvent) : listener :=
  match e with LFrame f => onFrame f l | LReply r => onReply r l end.
Definition listen (es : list listenerEvent) : listener := foldl listen1 newListener es.

(** The states and the update epochs among the frames received. *)
Definition shownState (e : listenerEvent) : option SyncStateProto :=
  match e with
  | LFrame f => match payload f with
                | PUpdate p => Some p
                | PSnapshot p => Some (snState p)
                | PHostMigration _ _ _ _ _ _ => None
                end
  | LReply _ => None
  end.
Definition updateEpoch (e : listenerEvent) : option Z :=
  match e with
  | LFrame f => match payload f with PUpdate p => Some (pEpoch p) | _ => None end
  | LReply _ => None
  end.

Lemma fgt_nonzero r : fgt r fzero = true -> feq r fzero = false.
Proof. destruct r as [s|s| |s m e]; try destruct s; by intros. Qed.

Lemma listen_snoc es e : listen (es ++ [e]) = listen1 (listen es) e.
Proof. unfold listen. by rewrite foldl_app. Qed.

Lemma listen_state es : lastState (listen es) = last (omap shownState es).
Proof.
  induction es as [|e es IH] using rev_ind; [done|]. rewrite listen_snoc, omap_app, last_app. cbn [omap list_omap].
  destruct e as [[at_ [p|p|]]|[|]]; simpl; rewrite ?last_cons; done.
Qed.

Lemma listen_epoch es : lastEpoch (listen es) = foldl Z.max 0 (omap updateEpoch es).
Proof.
  induction es as [|e es IH] using rev_ind; [done|]. rewrite listen_snoc, omap_app, foldl_app. cbn [omap list_omap].
  destruct e as [[at_ [p|p|]]|[|]]; simpl; rewrite <- ?IH; try done.
  destruct (Z.leb_spec (lastEpoch (listen es)) (pEpoch p)); lia.
Qed.

(** The listener follows its room: after any frames and heartbeats, in any
    order, it reports the highest epoch among the updates it received; and when
    the last state it was shown is that of a room that is playing, it reports
    the position the server itself computes for that instant, off by just the
    drift it simulates. *)
Theorem listener_in_step room s es roomID driftMs nowMs wallMs :
  let req := listenerRequest roomID driftMs nowMs wallMs (listen es) in
  hrClientEpoch req = foldl Z.max 0 (omap updateEpoch es) /\
  (last (omap shownState es) = Some (stateToProto room s) -> fgt (PlaybackRate s) fzero = true ->
   hrClientMediaTimeMs req = int64 (AdvanceMediaTime s nowMs + driftMs)).
Proof.
  cbn zeta. unfold listenerRequest. cbn [hrClientEpoch hrClientMediaTimeMs]. split; [apply listen_epoch|].
  intros Hs Hr. unfold playerPosition, AdvanceMediaTime. rewrite listen_state, Hs. cbn [stateToProto pPlaybackRate pWallTimeMs pMediaTimeMs].
  by rewrite Hr, fgt_nonzero.
Qed.

(** A room that is paused somewhere: the listener reports the beginning. *)
Theorem listener_paused room s es roomID driftMs nowMs wallMs :
  last (omap shownState es) = Some (stateToProto room s) -> PlaybackRate s = fzero ->
  hrClientMediaTimeMs (listenerRequest roomID driftMs nowMs wallMs (listen es)) = int64 driftMs /\
  AdvanceMediaTime s nowMs = MediaTimeMs s.
Proof.
  intros Hs Hr. unfold listenerRequest, playerPosition, AdvanceMediaTime. cbn [hrClientMediaTimeMs].
  rewrite listen_state, Hs. cbn [stateToProto pPlaybackRate]. by rewrite Hr.
Qed.
